(** * The scribble game server: session and round state machine

    A shallow embedding of the socket.io game servers of the repository
    and the proofs of their specification.

    The repository holds four variants of one server.  Three are embedded:
    - [Session]: the countdown + round + session server, the most complete
      variant, with [startCountdown], [startSession] and [endSession];
    - [Basic]: [server.js], rounds only, the first one started two seconds
      after the second player joined;
    - [Manual]: rounds started and stopped by the [startGame] and
      [stopGame] requests of the players.
    The fourth differs from [Basic] by its logging and a longer word
    list.

    Modelling conventions.
    - The JavaScript module variables are the fields of a record [State];
      every function of the server is a function [State -> State]
      (explicit state passing).  Node is single threaded: a handler runs to
      completion, so one inbound socket event or one timer firing is one
      [step].
    - The event loop is part of the state: [timers] maps the handle returned
      by [setTimeout]/[setInterval] to the pending callback and its due
      time; [clearTimeout] deletes the handle.  Handles are fresh
      ([nextHandle]).  Everything the server emits is appended to [outbox].
    - [Date.now()] and [Math.random()] are inputs of the step ([Env]).
    - A run is any sequence of steps; the theorems hold for all of them.
      [timely] singles out the runs of a real event loop, where the clock
      does not go back and a timer fires when it is due; the traces of
      [Scenario] are timely.
    - Strings are [string]s of bytes; [trim] strips the ASCII white space
      (tab, LF, VT, FF, CR, space) and [toLowerCase] maps A-Z, which is what
      the JavaScript functions do on ASCII text.
    - A JavaScript object used as an ordered dictionary ([users], [scores])
      is an association list in insertion order: [Object.keys] enumerates
      string keys in insertion order, and assigning an existing key keeps
      its place.  This is exact for [users], whose keys are socket ids.
    - The Score Board is written under names that the clients choose.  The
      field [scores] of a [State] is the Score Board of the numbers; it is
      exact as long as no name of a property of [Object.prototype]
      ([constructor], [toString], [__proto__], ...) is written, and up to
      the order of [Object.entries], which lists array indices first.
      [Board] is the Score Board as the object it is, with the properties
      it inherits; [scoreStmts] lists the statements of a step on it, and
      [board] is the object after a run.  Where it matters under which
      names the server writes, the theorems are stated of [board].
    - Socket ids and timer handles are always truthy in JavaScript, so
      [if (currentDrawer)] and [if (roundTimer)] are tests against [None];
      strings and numbers keep their JavaScript truthiness ([truthy],
      [truthyT]).
    - The template literals of the chat announcements are kept symbolic
      ([Text]). *)

From stdpp Require Import base gmap list strings pretty.
From Stdlib Require Import ZArith Lia Ascii.
From Stdlib Require Import Sorting.Sorted Sorting.Permutation.

Open Scope Z_scope.

(** ** JavaScript strings *)

Module JS.

Definition truthy (s : string) : bool :=
  match s with
  | EmptyString => false
  | String _ _ => true
  end.

Definition isSpace (c : ascii) : bool :=
  let n := nat_of_ascii c in
  ((9 <=? n)%nat && (n <=? 13)%nat) || (n =? 32)%nat.

Fixpoint trimStart (s : string) : string :=
  match s with
  | EmptyString => EmptyString
  | String c r => if isSpace c then trimStart r else s
  end.

Fixpoint trimEnd (s : string) : string :=
  match s with
  | EmptyString => EmptyString
  | String c r =>
      match trimEnd r with
      | EmptyString => if isSpace c then EmptyString else String c EmptyString
      | r' => String c r'
      end
  end.

(** [String.prototype.trim] *)
Definition trim (s : string) : string := trimEnd (trimStart s).
Arguments trim : simpl never.

Definition lowerChar (c : ascii) : ascii :=
  let n := nat_of_ascii c in
  if ((65 <=? n)%nat && (n <=? 90)%nat) then ascii_of_nat (n + 32) else c.

(** [String.prototype.toLowerCase] *)
Fixpoint toLowerCase (s : string) : string :=
  match s with
  | EmptyString => EmptyString
  | String c r => String (lowerChar c) (toLowerCase r)
  end.

(** [s.slice(0, n)] *)
Definition slice0 (n : nat) (s : string) : string := String.substring 0 n s.

(** ** Objects used as ordered dictionaries *)

Section Obj.
Context {V : Type}.

Definition obj := list (string * V).

(** [o[k]], for the properties that [o] owns; [Board.get] has [scores[k]]
    with the properties that it inherits. *)
Fixpoint get (k : string) (o : obj) : option V :=
  match o with
  | [] => None
  | (k', v) :: o' => if bool_decide (k' = k) then Some v else get k o'
  end.

(** [o[k] = v]: an existing key keeps its position, a new key is appended.
    [Board.set] has the assignment to [scores], which does not create
    [__proto__]. *)
Fixpoint set (k : string) (v : V) (o : obj) : obj :=
  match o with
  | [] => [(k, v)]
  | (k', v') :: o' =>
      if bool_decide (k' = k) then (k, v) :: o' else (k', v') :: set k v o'
  end.

(** [delete o[k]] *)
Fixpoint delete (k : string) (o : obj) : obj :=
  match o with
  | [] => []
  | (k', v') :: o' =>
      if bool_decide (k' = k) then o' else (k', v') :: delete k o'
  end.

(** [Object.keys(o)], [Object.values(o)], [Object.entries(o)] *)
Definition keys (o : obj) : list string := map fst o.
Definition values (o : obj) : list V := map snd o.
Definition entries (o : obj) : list (string * V) := o.
End Obj.
Arguments obj : clear implicits.

(** [a.indexOf(x)], where [x] may be [null] (never equal to a string). *)
Fixpoint indexOfFrom (i : Z) (x : string) (a : list string) : Z :=
  match a with
  | [] => -1
  | y :: a' => if bool_decide (y = x) then i else indexOfFrom (i + 1) x a'
  end.

Definition indexOf (x : option string) (a : list string) : Z :=
  match x with
  | None => -1
  | Some x => indexOfFrom 0 x a
  end.

(** [Array.prototype.sort(cmp)] on a consistent comparator: the stable
    sort; [cmp a b > 0] puts [a] after [b]. *)
Section Sort.
Context {A : Type} (cmp : A -> A -> Z).

Fixpoint insert_sorted (x : A) (l : list A) : list A :=
  match l with
  | [] => [x]
  | y :: l' => if cmp x y <=? 0 then x :: l else y :: insert_sorted x l'
  end.

Definition sort (l : list A) : list A := foldr insert_sorted [] l.
End Sort.

End JS.

(** ** Turn rotation

    [getNextDrawer], as a function of the two module variables it reads,
    [users] and [currentDrawer]; its body is the same in every variant of
    the server. *)

(** Socket ids and display names are strings. *)
Abbreviation SocketId := string (only parsing).
Abbreviation Name := string (only parsing).

Definition getNextDrawer (users : JS.obj Name)
  (currentDrawer : option SocketId) : option SocketId :=
  let socketIds := JS.keys users in
  if bool_decide (length socketIds = 0%nat) then None
  else
    let currentIndex := JS.indexOf currentDrawer socketIds in
    let nextIndex := Z.rem (currentIndex + 1) (Z.of_nat (length socketIds)) in
    socketIds !! Z.to_nat nextIndex.
Arguments getNextDrawer : simpl never.

(** The drawers of the next [n] rounds over a roster that does not change:
    [getNextDrawer] applied [n] times, each time to the drawer before. *)
Fixpoint nextDrawers (users : JS.obj Name) (currentDrawer : option SocketId)
  (n : nat) : list SocketId :=
  match n with
  | O => []
  | S n =>
      match getNextDrawer users currentDrawer with
      | Some d => d :: nextDrawers users (Some d) n
      | None => []
      end
  end.

(** ** What the server sends *)

Abbreviation Handle := nat (only parsing).

(** [io.emit], [socket.emit] / [io.to(id).emit], [socket.broadcast.emit] *)
Inductive Target :=
| ToAll
| ToSocket (id : SocketId)
| ToOthers (id : SocketId).

(** A stroke payload [{from, to}]; the handler only tests that both points
    are present. *)
Record Stroke := mkStroke { stroke_from : option (Z * Z); stroke_to : option (Z * Z) }.

(** ** Names and scores

    The expressions the handlers share in every variant. *)

(** [`Player_${socket.id.slice(0, 4)}`] *)
Definition fallbackName (id : SocketId) : Name :=
  ("Player_" +:+ JS.slice0 4 id)%string.
Arguments fallbackName : simpl never.

(** [from || users[socket.id] || `Player_${socket.id.slice(0, 4)}`] *)
Definition playerName (id : SocketId) (from : string) (users : JS.obj Name)
  : Name :=
  if JS.truthy from then from
  else
    match JS.get id users with
    | Some name => if JS.truthy name then name else fallbackName id
    | None => fallbackName id
    end.
Arguments playerName : simpl never.

(** [scores[name] || 0], on a Score Board of numbers: the points of a name
    that is not the name of a property of [Object.prototype]. *)
Definition scoreOf (scores : JS.obj Z) (name : Name) : Z :=
  default 0 (JS.get name scores).

(** [scores[name] = (scores[name] || 0) + delta], on a Score Board of
    numbers; [Board.award] has the statement on the object, under any
    name. *)
Definition award (name : Name) (delta : Z) (scores : JS.obj Z) : JS.obj Z :=
  JS.set name (scoreOf scores name + delta) scores.
Arguments award : simpl never.

(** [if (drawerName) scores[drawerName] = (scores[drawerName] || 0) + 5],
    on a Score Board of numbers. *)
Definition awardDrawer (drawerName : option Name) (scores : JS.obj Z)
  : JS.obj Z :=
  match drawerName with
  | Some d => if JS.truthy d then award d 5 scores else scores
  | None => scores
  end.
Arguments awardDrawer : simpl never.

(** The table of pending timers without the handle [h], when there is one:
    [if (h) clearTimeout(h)]. *)
Definition cancel {T : Type} (h : option Handle) (timers : gmap Handle T)
  : gmap Handle T :=
  match h with
  | Some h => base.delete h timers
  | None => timers
  end.
Arguments cancel : simpl never.

(** Every participant of the roster has a display name that is not empty. *)
Definition named (users : JS.obj Name) : Prop :=
  forall n, n ∈ JS.values users -> JS.truthy n = true.

(** ** The Score Board as the object it is

    [let scores = {}] is an ordinary object.  A name that the object does
    not own is looked up in [Object.prototype]: [scores["constructor"]] is
    the function [Object], [scores["toString"]] a method, and
    [scores["__proto__"]] is [Object.prototype] itself, all of them truthy.
    An assignment creates or updates an own property, but for [__proto__],
    an accessor whose setter ignores a value that is not an object.
    [Board] has the Score Board with all of this; the field [scores] of the
    [State] of a server is the Score Board of the numbers, exact as long as
    no name of a property of [Object.prototype] is written ([agree] and
    [ofScores] below relate the two). *)

Module Board.

(** What the server assigns to an entry: a number, or the string that [+]
    makes when the entry is not a number. *)
Inductive Stored :=
| Num (z : Z)
| Str (s : string).

(** What [scores[name]] evaluates to. *)
Inductive Value :=
| Undefined
| Own (v : Stored)                 (* an own property of scores *)
| NativeFunction (f : string)      (* a method of Object.prototype, by name *)
| ObjectPrototype.                 (* Object.prototype: scores.__proto__ *)

(** The own properties, in the order of their creation. *)
Definition t := JS.obj Stored.

(** [{}] *)
Definition empty : t := [].

(** The methods of [Object.prototype], each a native function of the same
    name. *)
Definition methods : list string :=
  [ "__defineGetter__"; "__defineSetter__"; "hasOwnProperty";
    "__lookupGetter__"; "__lookupSetter__"; "isPrototypeOf";
    "propertyIsEnumerable"; "toString"; "valueOf"; "toLocaleString" ]%string.

(** [Object.prototype[name]]: the accessor [__proto__], [constructor] (the
    function [Object]) and the methods. *)
Definition inherited (name : string) : option Value :=
  if bool_decide (name = "__proto__"%string) then Some ObjectPrototype
  else if bool_decide (name = "constructor"%string)
  then Some (NativeFunction "Object")
  else if bool_decide (name ∈ methods) then Some (NativeFunction name)
  else None.

(** [scores[name]] *)
Definition get (name : string) (b : t) : Value :=
  match JS.get name b with
  | Some v => Own v
  | None => default Undefined (inherited name)
  end.

(** [scores[name] = v], for a number or a string [v]. *)
Definition set (name : string) (v : Stored) (b : t) : t :=
  if bool_decide (name = "__proto__"%string)
     && negb (bool_decide (is_Some (JS.get name b)))
  then b
  else JS.set name v b.

(** JavaScript truthiness. *)
Definition truthy (v : Value) : bool :=
  match v with
  | Undefined => false
  | Own (Num z) => negb (z =? 0)
  | Own (Str s) => JS.truthy s
  | NativeFunction _ => true
  | ObjectPrototype => true
  end.

(** [String(f)] for a native function [f]. *)
Definition nativeCode (f : string) : string :=
  ("function " +:+ f +:+ "() { [native code] }")%string.

(** [String(z)] for an integer (below 10^21 in absolute value). *)
Definition numeral (z : Z) : string := pretty z.

(** [(v || 0) + delta]: the sum of two numbers; the concatenation when [v]
    is a string, or a function or an object, which [+] converts to one. *)
Definition orZeroPlus (v : Value) (delta : Z) : Stored :=
  if truthy v then
    match v with
    | Undefined => Num delta
    | Own (Num z) => Num (z + delta)
    | Own (Str s) => Str (s +:+ numeral delta)
    | NativeFunction f => Str (nativeCode f +:+ numeral delta)
    | ObjectPrototype => Str ("[object Object]" +:+ numeral delta)
    end
  else Num (0 + delta).

(** [if (!scores[n]) scores[n] = 0] *)
Definition initScore (n : Name) (b : t) : t :=
  if negb (truthy (get n b)) then set n (Num 0) b else b.

(** [scores[name] = (scores[name] || 0) + delta] *)
Definition award (name : Name) (delta : Z) (b : t) : t :=
  set name (orZeroPlus (get name b) delta) b.

(** [if (drawerName) scores[drawerName] = (scores[drawerName] || 0) + 5] *)
Definition awardDrawer (drawerName : option Name) (b : t) : t :=
  match drawerName with
  | Some d => if JS.truthy d then award d 5 b else b
  | None => b
  end.

(** *** The order of [Object.entries] *)

Definition digit (c : ascii) : option N :=
  let n := N_of_ascii c in
  if ((48 <=? n) && (n <=? 57))%N then Some (n - 48)%N else None.

Fixpoint digits (acc : N) (s : string) : option N :=
  match s with
  | EmptyString => Some acc
  | String c r =>
      match digit c with
      | Some d => digits (acc * 10 + d)%N r
      | None => None
      end
  end.

(** An array index: the decimal numeral, without leading zero, of an
    integer from 0 to 2^32 - 2. *)
Definition arrayIndex (name : string) : option N :=
  match name with
  | EmptyString => None
  | String c r =>
      if bool_decide (c = "0"%char) && JS.truthy r then None
      else
        match digits 0 name with
        | Some n => if (n <=? 4294967294)%N then Some n else None
        | None => None
        end
  end.

Definition isIndex (x : string * Stored) : bool :=
  bool_decide (is_Some (arrayIndex (fst x))).

Definition indexOrder (x y : string * Stored) : Z :=
  Z.of_N (default 0%N (arrayIndex (fst x)))
  - Z.of_N (default 0%N (arrayIndex (fst y))).

(** [Object.entries(scores)]: the own properties whose names are array
    indices, in ascending order, then the others in the order of their
    creation. *)
Definition entries (b : t) : list (string * Stored) :=
  JS.sort indexOrder (List.filter isIndex b)
  ++ List.filter (fun x => negb (isIndex x)) b.

(** *** The statements of the servers on the Score Board *)

Inductive Stmt :=
| InitScore (n : Name)                      (* join *)
| Award (name : Name) (delta : Z)           (* guess: the credited name *)
| AwardDrawer (drawerName : option Name)    (* guess: the drawer *)
| Reset.                                    (* scores = {} *)

Definition exec (b : t) (st : Stmt) : t :=
  match st with
  | InitScore n => initScore n b
  | Award name delta => award name delta b
  | AwardDrawer drawerName => awardDrawer drawerName b
  | Reset => empty
  end.

Definition execAll (sts : list Stmt) (b : t) : t := foldl exec b sts.

(** The names under which a statement writes. *)
Definition written (st : Stmt) : list Name :=
  match st with
  | InitScore n => [n]
  | Award name _ => [name]
  | AwardDrawer (Some d) => [d]
  | AwardDrawer None => []
  | Reset => []
  end.

(** Statements that write under no name of a property of
    [Object.prototype]. *)
Definition ordinary (sts : list Stmt) : bool :=
  forallb
    (fun st => forallb (fun n => bool_decide (inherited n = None)) (written st))
    sts.

(** *** Score Boards of numbers *)

(** The object whose entries are the numbers [scores]. *)
Definition ofScores (scores : JS.obj Z) : t :=
  map (fun x => (fst x, Num (snd x))) scores.



(** [scores] has the entries of [b] under the names that are not names of
    properties of [Object.prototype]. *)
Definition agree (scores : JS.obj Z) (b : t) : Prop :=
  forall name, inherited name = None ->
               JS.get name b = Num <$> JS.get name scores.

(** The Score Boards that the servers make: an entry under the name of a
    property of [Object.prototype] is a string that is not empty, any other
    entry is a number of points that come in tens and fives. *)
Definition sound (b : t) : Prop :=
  forall name v, JS.get name b = Some v ->
    match v with
    | Num p => inherited name = None /\ 0 <= p /\ (5 | p)
    | Str s => is_Some (inherited name) /\ JS.truthy s = true
    end.

(** Every display name of the roster that is not the name of a property of
    [Object.prototype] has an entry. *)
Definition rosterScored (users : JS.obj Name) (b : t) : Prop :=
  forall n, n ∈ JS.values users -> inherited n = None -> n ∈ JS.keys b.

(** Awards of points that are not negative and come in fives. *)
Definition tensAndFives (sts : list Stmt) : Prop :=
  forall name d, Award name d ∈ sts -> 0 <= d /\ (5 | d).

End Board.

(** [if (!scores[n]) scores[n] = 0], on a Score Board of numbers. *)
Definition initScoreOf (n : Name) (scores : JS.obj Z) : JS.obj Z :=
  match JS.get n scores with
  | Some p => if p =? 0 then JS.set n 0 scores else scores
  | None => JS.set n 0 scores
  end.

(** A statement on a Score Board of numbers, as the field [scores] of the
    servers has it. *)
Definition onNumbers (scores : JS.obj Z) (st : Board.Stmt) : JS.obj Z :=
  match st with
  | Board.InitScore n => initScoreOf n scores
  | Board.Award name delta => award name delta scores
  | Board.AwardDrawer drawerName => awardDrawer drawerName scores
  | Board.Reset => []
  end.

(** The name that [join] assigns:
    [String(name).trim() || `Player_${socket.id.slice(0, 4)}`] *)
Definition joinName (id : SocketId) (name : string) : Name :=
  if JS.truthy (JS.trim name) then JS.trim name else fallbackName id.

(** The statements of the guess handler on the Score Board, from the
    variables that it reads: none unless the guess is not empty, comes from
    another socket than the drawer's, in an active game with a word, and
    equals the word up to case. *)
Definition guessStmts (id : SocketId) (from text : string)
  (users : JS.obj Name) (currentDrawer : option SocketId)
  (currentWord : option string) (gameActive : bool) : list Board.Stmt :=
  let guessText := JS.trim text in
  let player := playerName id from users in
  if negb (JS.truthy guessText) then []
  else if bool_decide (Some id = currentDrawer) then []
  else
    match currentWord with
    | None => []
    | Some word =>
        if negb gameActive || negb (JS.truthy word) then []
        else
          let guessLower := JS.toLowerCase guessText in
          let targetLower := JS.toLowerCase word in
          if bool_decide (guessLower = targetLower) then
            let drawerName :=
              match currentDrawer with
              | Some d => JS.get d users
              | None => None
              end in
            [Board.Award player 10; Board.AwardDrawer drawerName]
          else []
    end.

(** * The session server (countdown, rounds, session) *)

Module Session.

Definition wordList : list string :=
  [ "apple"; "banana"; "cat"; "dog"; "car"; "house"; "tree"; "sun";
    "moon"; "star"; "computer"; "phone"; "book"; "chair"; "table";
    "guitar"; "pizza"; "camera"; "clock"; "flower"; "mountain"; "ocean";
    "pencil"; "bottle"; "lamp"; "door"; "window"; "bird"; "fish"; "rocket";
    "bicycle"; "umbrella"; "butterfly"; "rainbow"; "cloud"; "beach"; "forest" ]%string.

Definition ROUND_DURATION : Z := 120000.
Definition SESSION_DURATION : Z := 600000.
Definition COUNTDOWN_DURATION : Z := 20000.

(** The text of a chat message: what a player typed, or one of the
    announcements of the server with the values it interpolates. *)
Inductive Text :=
| Plain (text : string)
| SessionStarted
| NowDrawing (drawerName : option Name)
| RoundEnded (word : string)
| TimesUp (word : string)
| GameOver (winner : Name) (winnerScore : Z)
| Medal (index : nat) (name : Name) (score : Z)
| Welcome (n : Name)
| Joined (n : Name)
| TwoPlayersJoined
| LeftGame (name : Name)
| DrawerLeft (name : Name)
| NotEnoughPlayers
| DrawerDisconnected (name : Name)
| Disconnected (name : Name)
| GuessedCorrectly (player : Name) (drawerName : option Name).

Inductive Msg :=
| userList (list_ : list Name)
| scoreUpdate (scores_ : JS.obj Z)
| gameState (gameActive_ : bool) (currentDrawer_ : option Name)
    (hasWord_ : bool) (timeRemaining sessionTimeRemaining : Z)
| clearBoard
| chatMessage (from : string) (text : Text)
| yourWord (word : string)
| countdown (seconds : Z)
| remoteStroke (stroke : Stroke)
| sessionEnded (winner : option Name) (finalScores : JS.obj Z)
    (leaderboard : list (Name * Z)).

(** The closures handed to [setTimeout] and [setInterval]. *)
Inductive Callback :=
| CountdownTick (countdown_ : Z)  (* startCountdown, with its local counter *)
| SessionTimeout                  (* startSession *)
| RoundTimeout                    (* startNewRound: roundTimer *)
| TimerInterval                   (* startNewRound: timerInterval *)
| NextRound                       (* endRound: the 5 s intermission *)
| ResetScores.                    (* endSession: the 10 s score reset *)

Record Timer := mkTimer { callback : Callback; due : Z }.

Record State := mkState {
  users : JS.obj Name;
  scores : JS.obj Z;
  currentDrawer : option SocketId;
  currentWord : option string;
  gameActive : bool;
  roundTimer : option Handle;
  roundStartTime : option Z;
  roundEndTime : option Z;
  sessionStartTime : option Z;
  sessionTimer : option Handle;
  countdownTimer : option Handle;
  timers : gmap Handle Timer;
  nextHandle : Handle;
  outbox : list (Target * Msg)
}.

Definition set_users (x : JS.obj Name) (s : State) : State :=
  {| users := x; scores := scores s; currentDrawer := currentDrawer s;
     currentWord := currentWord s; gameActive := gameActive s; roundTimer :=
     roundTimer s; roundStartTime := roundStartTime s; roundEndTime :=
     roundEndTime s; sessionStartTime := sessionStartTime s; sessionTimer :=
     sessionTimer s; countdownTimer := countdownTimer s; timers := timers s;
     nextHandle := nextHandle s; outbox := outbox s |}.
Definition set_scores (x : JS.obj Z) (s : State) : State :=
  {| users := users s; scores := x; currentDrawer := currentDrawer s;
     currentWord := currentWord s; gameActive := gameActive s; roundTimer :=
     roundTimer s; roundStartTime := roundStartTime s; roundEndTime :=
     roundEndTime s; sessionStartTime := sessionStartTime s; sessionTimer :=
     sessionTimer s; countdownTimer := countdownTimer s; timers := timers s;
     nextHandle := nextHandle s; outbox := outbox s |}.
Definition set_currentDrawer (x : option SocketId) (s : State) : State :=
  {| users := users s; scores := scores s; currentDrawer := x; currentWord :=
     currentWord s; gameActive := gameActive s; roundTimer := roundTimer s;
     roundStartTime := roundStartTime s; roundEndTime := roundEndTime s;
     sessionStartTime := sessionStartTime s; sessionTimer := sessionTimer s;
     countdownTimer := countdownTimer s; timers := timers s; nextHandle :=
     nextHandle s; outbox := outbox s |}.
Definition set_currentWord (x : option string) (s : State) : State :=
  {| users := users s; scores := scores s; currentDrawer := currentDrawer s;
     currentWord := x; gameActive := gameActive s; roundTimer := roundTimer
     s; roundStartTime := roundStartTime s; roundEndTime := roundEndTime s;
     sessionStartTime := sessionStartTime s; sessionTimer := sessionTimer s;
     countdownTimer := countdownTimer s; timers := timers s; nextHandle :=
     nextHandle s; outbox := outbox s |}.
Definition set_gameActive (x : bool) (s : State) : State :=
  {| users := users s; scores := scores s; currentDrawer := currentDrawer s;
     currentWord := currentWord s; gameActive := x; roundTimer := roundTimer
     s; roundStartTime := roundStartTime s; roundEndTime := roundEndTime s;
     sessionStartTime := sessionStartTime s; sessionTimer := sessionTimer s;
     countdownTimer := countdownTimer s; timers := timers s; nextHandle :=
     nextHandle s; outbox := outbox s |}.
Definition set_roundTimer (x : option Handle) (s : State) : State :=
  {| users := users s; scores := scores s; currentDrawer := currentDrawer s;
     currentWord := currentWord s; gameActive := gameActive s; roundTimer :=
     x; roundStartTime := roundStartTime s; roundEndTime := roundEndTime s;
     sessionStartTime := sessionStartTime s; sessionTimer := sessionTimer s;
     countdownTimer := countdownTimer s; timers := timers s; nextHandle :=
     nextHandle s; outbox := outbox s |}.
Definition set_roundStartTime (x : option Z) (s : State) : State :=
  {| users := users s; scores := scores s; currentDrawer := currentDrawer s;
     currentWord := currentWord s; gameActive := gameActive s; roundTimer :=
     roundTimer s; roundStartTime := x; roundEndTime := roundEndTime s;
     sessionStartTime := sessionStartTime s; sessionTimer := sessionTimer s;
     countdownTimer := countdownTimer s; timers := timers s; nextHandle :=
     nextHandle s; outbox := outbox s |}.
Definition set_roundEndTime (x : option Z) (s : State) : State :=
  {| users := users s; scores := scores s; currentDrawer := currentDrawer s;
     currentWord := currentWord s; gameActive := gameActive s; roundTimer :=
     roundTimer s; roundStartTime := roundStartTime s; roundEndTime := x;
     sessionStartTime := sessionStartTime s; sessionTimer := sessionTimer s;
     countdownTimer := countdownTimer s; timers := timers s; nextHandle :=
     nextHandle s; outbox := outbox s |}.
Definition set_sessionStartTime (x : option Z) (s : State) : State :=
  {| users := users s; scores := scores s; currentDrawer := currentDrawer s;
     currentWord := currentWord s; gameActive := gameActive s; roundTimer :=
     roundTimer s; roundStartTime := roundStartTime s; roundEndTime :=
     roundEndTime s; sessionStartTime := x; sessionTimer := sessionTimer s;
     countdownTimer := countdownTimer s; timers := timers s; nextHandle :=
     nextHandle s; outbox := outbox s |}.
Definition set_sessionTimer (x : option Handle) (s : State) : State :=
  {| users := users s; scores := scores s; currentDrawer := currentDrawer s;
     currentWord := currentWord s; gameActive := gameActive s; roundTimer :=
     roundTimer s; roundStartTime := roundStartTime s; roundEndTime :=
     roundEndTime s; sessionStartTime := sessionStartTime s; sessionTimer :=
     x; countdownTimer := countdownTimer s; timers := timers s; nextHandle :=
     nextHandle s; outbox := outbox s |}.
Definition set_countdownTimer (x : option Handle) (s : State) : State :=
  {| users := users s; scores := scores s; currentDrawer := currentDrawer s;
     currentWord := currentWord s; gameActive := gameActive s; roundTimer :=
     roundTimer s; roundStartTime := roundStartTime s; roundEndTime :=
     roundEndTime s; sessionStartTime := sessionStartTime s; sessionTimer :=
     sessionTimer s; countdownTimer := x; timers := timers s; nextHandle :=
     nextHandle s; outbox := outbox s |}.
Definition set_timers (x : gmap Handle Timer) (s : State) : State :=
  {| users := users s; scores := scores s; currentDrawer := currentDrawer s;
     currentWord := currentWord s; gameActive := gameActive s; roundTimer :=
     roundTimer s; roundStartTime := roundStartTime s; roundEndTime :=
     roundEndTime s; sessionStartTime := sessionStartTime s; sessionTimer :=
     sessionTimer s; countdownTimer := countdownTimer s; timers := x;
     nextHandle := nextHandle s; outbox := outbox s |}.
Definition set_nextHandle (x : Handle) (s : State) : State :=
  {| users := users s; scores := scores s; currentDrawer := currentDrawer s;
     currentWord := currentWord s; gameActive := gameActive s; roundTimer :=
     roundTimer s; roundStartTime := roundStartTime s; roundEndTime :=
     roundEndTime s; sessionStartTime := sessionStartTime s; sessionTimer :=
     sessionTimer s; countdownTimer := countdownTimer s; timers := timers s;
     nextHandle := x; outbox := outbox s |}.
Definition set_outbox (x : list (Target * Msg)) (s : State) : State :=
  {| users := users s; scores := scores s; currentDrawer := currentDrawer s;
     currentWord := currentWord s; gameActive := gameActive s; roundTimer :=
     roundTimer s; roundStartTime := roundStartTime s; roundEndTime :=
     roundEndTime s; sessionStartTime := sessionStartTime s; sessionTimer :=
     sessionTimer s; countdownTimer := countdownTimer s; timers := timers s;
     nextHandle := nextHandle s; outbox := x |}.

Definition init : State :=
  {| users := []; scores := []; currentDrawer := None; currentWord := None;
     gameActive := false; roundTimer := None; roundStartTime := None;
     roundEndTime := None; sessionStartTime := None; sessionTimer := None;
     countdownTimer := None; timers := ∅; nextHandle := 0%nat; outbox := [] |}.

(** [Date.now()] and the index [Math.floor(Math.random() * wordList.length)]
    (reduced modulo the length: [Math.random() < 1]). *)
Record Env := mkEnv { now : Z; random : nat }.

(** JavaScript truthiness of the two kinds of nullable variables. *)
Definition truthyT (t : option Z) : bool :=
  match t with
  | Some t => negb (t =? 0)
  | None => false
  end.

Definition truthyS (w : option string) : bool :=
  match w with
  | Some w => JS.truthy w
  | None => false
  end.

(** ** The event loop *)

Definition emit (t : Target) (m : Msg) (s : State) : State :=
  set_outbox (outbox s ++ [(t, m)]) s.

(** [setTimeout(cb, delay)] / [setInterval(cb, delay)]: the handle returned
    is [nextHandle s]. *)
Definition setTimer (cb : Callback) (at_ : Z) (s : State) : State :=
  set_nextHandle (S (nextHandle s))
    (set_timers (<[nextHandle s := mkTimer cb at_]> (timers s)) s).

(** [if (h) clearTimeout(h)] / [clearInterval(h)] *)
Definition clearTimer (h : option Handle) (s : State) : State :=
  set_timers (cancel h (timers s)) s.

(** ** Helper functions *)

Definition broadcastUserList (s : State) : State :=
  emit ToAll (userList (JS.values (users s))) s.

Definition broadcastScores (s : State) : State :=
  emit ToAll (scoreUpdate (scores s)) s.

Definition drawerNameOf (s : State) : option Name :=
  match currentDrawer s with
  | Some d => JS.get d (users s)
  | None => None
  end.

(** The payload of [broadcastGameState]. *)
Definition gameStateOf (e : Env) (s : State) : Msg :=
  let drawerName := drawerNameOf s in
  let timeRemaining :=
    match roundEndTime s with
    | Some t => if truthyT (Some t) then Z.max 0 (t - now e) else 0
    | None => 0
    end in
  let sessionTimeRemaining :=
    match sessionStartTime s with
    | Some t =>
        if truthyT (Some t) then Z.max 0 (SESSION_DURATION - (now e - t)) else 0
    | None => 0
    end in
  gameState (gameActive s) drawerName (truthyS (currentWord s))
    (timeRemaining / 1000) (sessionTimeRemaining / 1000).
Arguments gameStateOf : simpl never.

Definition broadcastGameState (e : Env) (s : State) : State :=
  emit ToAll (gameStateOf e s) s.

Definition selectRandomWord (e : Env) : string :=
  default ""%string (wordList !! (random e mod length wordList)%nat).
Arguments selectRandomWord : simpl never.

Definition startCountdown (e : Env) (s : State) : State :=
  let s := clearTimer (countdownTimer s) s in
  let countdown_ := 20 in
  let s := emit ToAll (countdown countdown_) s in
  let h := nextHandle s in
  let s := setTimer (CountdownTick countdown_) (now e + 1000) s in
  set_countdownTimer (Some h) s.

Definition startNewRound (e : Env) (s : State) : State :=
  let s := set_currentDrawer (getNextDrawer (users s) (currentDrawer s)) s in
  match currentDrawer s with
  | None => s
  | Some drawer =>
      let word := selectRandomWord e in
      let s := set_currentWord (Some word) s in
      let s := set_roundStartTime (Some (now e)) s in
      let s := set_roundEndTime (Some (now e + ROUND_DURATION)) s in
      let drawerName := JS.get drawer (users s) in
      let s := emit ToAll clearBoard s in
      let s := emit ToAll (chatMessage "System" (NowDrawing drawerName)) s in
      let s := emit (ToSocket drawer) (yourWord word) s in
      let s := broadcastGameState e s in
      let s := clearTimer (roundTimer s) s in
      let h := nextHandle s in
      let s := setTimer RoundTimeout (now e + ROUND_DURATION) s in
      let s := set_roundTimer (Some h) s in
      setTimer TimerInterval (now e + 1000) s
  end.

Definition startSession (e : Env) (s : State) : State :=
  let s := set_sessionStartTime (Some (now e)) s in
  let s := set_gameActive true s in
  let s := emit ToAll (chatMessage "System" SessionStarted) s in
  let s := startNewRound e s in
  let s := clearTimer (sessionTimer s) s in
  let h := nextHandle s in
  let s := setTimer SessionTimeout (now e + SESSION_DURATION) s in
  set_sessionTimer (Some h) s.

(** [Object.entries(scores).sort((a, b) => b[1] - a[1])] *)
Definition sortedScores (scores_ : JS.obj Z) : list (Name * Z) :=
  JS.sort (fun a b => snd b - snd a) (JS.entries scores_).
Arguments sortedScores : simpl never.

(** [top3.forEach(([name, score], index) => io.emit(...))]: one medal line
    per entry, in order, with its index. *)
Definition emitMedals (top3 : list (Name * Z)) (s : State) : State :=
  set_outbox
    (outbox s
       ++ imap (fun index x =>
                  (ToAll, chatMessage "System" (Medal index (fst x) (snd x)))) top3)
    s.

Definition endSession (e : Env) (s : State) : State :=
  let s := clearTimer (roundTimer s) s in
  let s := clearTimer (sessionTimer s) s in
  let s := clearTimer (countdownTimer s) s in
  let s := set_roundTimer None s in
  let s := set_sessionTimer None s in
  let s := set_countdownTimer None s in
  let s := set_gameActive false s in
  let s := set_currentDrawer None s in
  let s := set_currentWord None s in
  let s := set_roundStartTime None s in
  let s := set_roundEndTime None s in
  let s := set_sessionStartTime None s in
  let sorted := sortedScores (scores s) in
  let s :=
    match sorted with
    | (winner, winnerScore) :: _ =>
        let s := emit ToAll (sessionEnded (Some winner) (scores s) sorted) s in
        let s := emit ToAll (chatMessage "System" (GameOver winner winnerScore)) s in
        emitMedals (take 3 sorted) s
    | [] => emit ToAll (sessionEnded None [] []) s
    end in
  let s := emit ToAll clearBoard s in
  let s := broadcastGameState e s in
  setTimer ResetScores (now e + 10000) s.

Definition endRound (e : Env) (someoneGuessed : bool) (s : State) : State :=
  let s := set_roundTimer None (clearTimer (roundTimer s) s) in
  match currentWord s with
  | None => s
  | Some word =>
      if negb (JS.truthy word) then s
      else
        let s :=
          emit ToAll
            (chatMessage "System"
               (if someoneGuessed then RoundEnded word else TimesUp word)) s in
        let s := set_currentWord None s in
        let s := set_roundStartTime None s in
        let s := set_roundEndTime None s in
        match sessionStartTime s with
        | None => s
        | Some started =>
            if negb (gameActive s) || negb (truthyT (Some started)) then s
            else
              let sessionTimeRemaining :=
                SESSION_DURATION - (now e - started) in
              if sessionTimeRemaining <=? 0 then endSession e s
              else setTimer NextRound (now e + 5000) s
        end
  end.

(** ** Timer callbacks *)

(** The interval of [startCountdown]; [countdown_] is the value of its
    local counter after the decrement. *)
Definition countdownTick (e : Env) (countdown_ : Z) (s : State) : State :=
  let s := emit ToAll (countdown countdown_) s in
  if countdown_ <=? 0 then
    let s := clearTimer (countdownTimer s) s in
    let s := set_countdownTimer None s in
    startSession e s
  else s.

(** The interval [timerInterval] of [startNewRound]; [h] is its own handle. *)
Definition timerInterval (e : Env) (h : Handle) (s : State) : State :=
  if negb (gameActive s) || negb (truthyS (currentWord s))
  then clearTimer (Some h) s
  else broadcastGameState e s.

(** The intermission timeout of [endRound]. *)
Definition nextRound (e : Env) (s : State) : State :=
  let playerCount := length (JS.keys (users s)) in
  if bool_decide (1 <= playerCount)%nat && gameActive s then startNewRound e s
  else if bool_decide (playerCount < 1)%nat then endSession e s
  else s.

(** The score reset of [endSession]. *)
Definition resetScores (s : State) : State :=
  broadcastScores (set_scores [] s).

(** A timer fires when it is pending and due.  A timeout is removed before
    its callback runs; an interval stays pending, one second later, unless
    its callback clears it. *)
Definition fire (e : Env) (h : Handle) (s : State) : State :=
  match timers s !! h with
  | None => s
  | Some t =>
      if negb (due t <=? now e) then s
      else
        let oneShot := set_timers (base.delete h (timers s)) s in
        let rearm cb :=
          set_timers (<[h := mkTimer cb (now e + 1000)]> (timers s)) s in
        match callback t with
        | CountdownTick c =>
            countdownTick e (c - 1) (rearm (CountdownTick (c - 1)))
        | TimerInterval => timerInterval e h (rearm TimerInterval)
        | SessionTimeout => endSession e oneShot
        | RoundTimeout => endRound e false oneShot
        | NextRound => nextRound e oneShot
        | ResetScores => resetScores oneShot
        end
  end.

(** ** Socket event handlers *)


Definition on_connection (e : Env) (id : SocketId) (s : State) : State :=
  let s := emit (ToSocket id) (scoreUpdate (scores s)) s in
  let s := emit (ToSocket id) (userList (JS.values (users s))) s in
  broadcastGameState e s.

(** [if (!scores[n]) scores[n] = 0], on the Score Board of the numbers;
    [Board.initScore] has the statement on the object, under any name. *)
Definition initScore (n : Name) (s : State) : State :=
  match JS.get n (scores s) with
  | Some p => if p =? 0 then set_scores (JS.set n 0 (scores s)) s else s
  | None => set_scores (JS.set n 0 (scores s)) s
  end.

Definition on_join (e : Env) (id : SocketId) (name : string) (s : State) : State :=
  let n := if JS.truthy (JS.trim name) then JS.trim name else fallbackName id in
  let s := set_users (JS.set id n (users s)) s in
  let s := initScore n s in
  let s := broadcastUserList s in
  let s := broadcastScores s in
  let s := emit (ToSocket id) (chatMessage "System" (Welcome n)) s in
  let s := emit (ToOthers id) (chatMessage "System" (Joined n)) s in
  let playerCount := length (JS.keys (users s)) in
  if bool_decide (playerCount = 2%nat) && negb (gameActive s)
     && negb (truthyT (sessionStartTime s))
     && negb (bool_decide (is_Some (countdownTimer s)))
  then
    let s := emit ToAll (chatMessage "System" TwoPlayersJoined) s in
    startCountdown e s
  else s.

Definition on_disconnect (e : Env) (id : SocketId) (s : State) : State :=
  match JS.get id (users s) with
  | None => s
  | Some name =>
      if negb (JS.truthy name) then s
      else
        let s :=
          if bool_decide (Some id = currentDrawer s) && gameActive s then
            let s := emit ToAll (chatMessage "System" (DrawerDisconnected name)) s in
            endRound e false s
          else emit ToAll (chatMessage "System" (Disconnected name)) s in
        let s := set_users (JS.delete id (users s)) s in
        let s := broadcastUserList s in
        if bool_decide (length (JS.keys (users s)) < 1)%nat && gameActive s
        then endSession e s
        else s
  end.

(** [leaveGame] ends with [socket.disconnect()], which runs the
    [disconnect] handler of the socket. *)
Definition on_leaveGame (e : Env) (id : SocketId) (s : State) : State :=
  let s :=
    match JS.get id (users s) with
    | None => s
    | Some name =>
        if negb (JS.truthy name) then s
        else
          let s := emit ToAll (chatMessage "System" (LeftGame name)) s in
          let s :=
            if bool_decide (Some id = currentDrawer s) && gameActive s then
              let s := emit ToAll (chatMessage "System" (DrawerLeft name)) s in
              endRound e false s
            else s in
          let s := set_users (JS.delete id (users s)) s in
          let s := broadcastUserList s in
          if bool_decide (length (JS.keys (users s)) < 1)%nat && gameActive s
          then
            let s := emit ToAll (chatMessage "System" NotEnoughPlayers) s in
            endSession e s
          else s
    end in
  on_disconnect e id s.

Definition on_stroke (id : SocketId) (stroke : option Stroke) (s : State) : State :=
  if negb (bool_decide (Some id = currentDrawer s)) then s
  else
    match stroke with
    | Some st =>
        if bool_decide (is_Some (stroke_from st))
           && bool_decide (is_Some (stroke_to st))
        then emit (ToOthers id) (remoteStroke st) s
        else s
    | None => s
    end.

Definition on_clear (id : SocketId) (s : State) : State :=
  if negb (bool_decide (Some id = currentDrawer s)) then s
  else emit ToAll clearBoard s.

Definition on_chat (id : SocketId) (from text : string) (s : State) : State :=
  let player := playerName id from (users s) in
  emit ToAll (chatMessage player (Plain text)) s.

Definition on_guess (e : Env) (id : SocketId) (from text : string) (s : State)
  : State :=
  let guessText := JS.trim text in
  let player := playerName id from (users s) in
  if negb (JS.truthy guessText) then s
  else if bool_decide (Some id = currentDrawer s) then
    emit ToAll (chatMessage player (Plain guessText)) s
  else
    let s := emit ToAll (chatMessage player (Plain guessText)) s in
    match currentWord s with
    | None => s
    | Some word =>
        if negb (gameActive s) || negb (JS.truthy word) then s
        else
          let guessLower := JS.toLowerCase guessText in
          let targetLower := JS.toLowerCase word in
          if bool_decide (guessLower = targetLower) then
            let s := set_scores (award player 10 (scores s)) s in
            let drawerName := drawerNameOf s in
            let s := set_scores (awardDrawer drawerName (scores s)) s in
            let s :=
              emit ToAll
                (chatMessage "System" (GuessedCorrectly player drawerName)) s in
            let s := broadcastScores s in
            endRound e true s
          else s
    end.

(** ** One step of the server *)

Inductive Event :=
| Connection (id : SocketId)
| Join (id : SocketId) (name : string)
| LeaveGame (id : SocketId)
| StrokeEv (id : SocketId) (stroke : option Stroke)
| Clear (id : SocketId)
| Chat (id : SocketId) (from text : string)
| Guess (id : SocketId) (from text : string)
| Disconnect (id : SocketId)
| Fire (h : Handle).

Definition step (e : Env) (ev : Event) (s : State) : State :=
  match ev with
  | Connection id => on_connection e id s
  | Join id name => on_join e id name s
  | LeaveGame id => on_leaveGame e id s
  | StrokeEv id stroke => on_stroke id stroke s
  | Clear id => on_clear id s
  | Chat id from text => on_chat id from text s
  | Guess id from text => on_guess e id from text s
  | Disconnect id => on_disconnect e id s
  | Fire h => fire e h s
  end.

Definition run (tr : list (Env * Event)) (s : State) : State :=
  foldl (fun s x => step (fst x) (snd x) s) s tr.

(** ** Notions used in the statements *)

(** The display name that receives the drawer's award: [users[currentDrawer]]
    when it is truthy. *)
Definition drawerAward (s : State) : option Name :=
  match drawerNameOf s with
  | Some d => if JS.truthy d then Some d else None
  | None => None
  end.

(** A guess that the handler accepts: sent by a socket other than the
    drawer, while a round is active with word [w], and equal to [w] up to
    case and surrounding white space. *)
Definition correctGuess (s : State) (id : SocketId) (text w : string) : Prop :=
  currentDrawer s <> Some id /\ gameActive s = true /\ currentWord s = Some w
  /\ JS.truthy w = true /\ JS.toLowerCase (JS.trim text) = JS.toLowerCase w.

(** A guess event whose text does not match the current word. *)
Definition incorrectGuess (s : State) (x : Env * Event) : Prop :=
  match snd x with
  | Guess id from text =>
      forall w, currentWord s = Some w ->
                JS.toLowerCase (JS.trim text) <> JS.toLowerCase w
  | _ => False
  end.

(** The same game state: all the variables of the server and its timers;
    only the notifications sent so far may differ. *)
Definition sameGame (s s' : State) : Prop := set_outbox (outbox s) s' = s.

(** What a step sent. *)
Definition sent (s s' : State) : list (Target * Msg) :=
  drop (length (outbox s)) (outbox s').

(** The states of the server: those a sequence of events and timer firings
    leads to. *)
Definition reachable (s : State) : Prop := exists tr, s = run tr init.

(** The variables the timer discipline is about. *)
Definition loopOf (s : State) :=
  (timers s, nextHandle s, roundTimer s, currentWord s, countdownTimer s,
   gameActive s).

Definition isRoundTimeout (cb : Callback) : bool :=
  match cb with
  | RoundTimeout => true
  | _ => false
  end.

(** The timer discipline: handles are fresh; a pending round timeout is the
    one [roundTimer] holds and belongs to a round in progress; a pending
    countdown is the one [countdownTimer] holds and no session runs. *)
Record Inv (s : State) : Prop := mkInv {
  inv_fresh : forall h t, timers s !! h = Some t -> (h < nextHandle s)%nat;
  inv_roundTimer_lt : forall h, roundTimer s = Some h -> (h < nextHandle s)%nat;
  inv_round : forall h t,
    timers s !! h = Some t -> callback t = RoundTimeout ->
    roundTimer s = Some h /\ truthyS (currentWord s) = true;
  inv_kind : forall h t,
    roundTimer s = Some h -> timers s !! h = Some t -> callback t = RoundTimeout;
  inv_countdown : forall h t c,
    timers s !! h = Some t -> callback t = CountdownTick c ->
    countdownTimer s = Some h /\ gameActive s = false
}.

(** [s'] comes after [s]: handles are allocated in increasing order, and a
    handle allocated before [s] that is pending in [s'] was pending in [s],
    for the same kind of callback.  A timeout that was cancelled or has
    fired never comes back. *)
Definition after (s s' : State) : Prop :=
  (nextHandle s <= nextHandle s')%nat
  /\ forall h t',
      timers s' !! h = Some t' -> (h < nextHandle s)%nat ->
      exists t, timers s !! h = Some t
                /\ isRoundTimeout (callback t) = isRoundTimeout (callback t').

(** A run of the event loop is timely when its clock does not go back, a
    timer fires only when it is pending and due, and no event is handled
    while a timer is overdue. *)
Definition overdue (t : Z) (s : State) : bool :=
  existsb (fun x => due (snd x) <? t) (map_to_list (timers s)).

Fixpoint timelyFrom (clock : Z) (tr : list (Env * Event)) (s : State) : bool :=
  match tr with
  | [] => true
  | (e, ev) :: tr' =>
      (clock <=? now e) && negb (overdue (now e) s)
      && match ev with
         | Fire h =>
             match timers s !! h with
             | Some t => due t <=? now e
             | None => false
             end
         | _ => true
         end
      && timelyFrom (now e) tr' (step e ev s)
  end.

Definition timely (tr : list (Env * Event)) : bool := timelyFrom 0 tr init.

(** The round and session discipline: a round in progress has a word of the
    word list, a drawer who is in the roster, and its timeout pending, due
    at the end time of the round; an active session has its timeout
    pending, due [SESSION_DURATION] after its start; without a session
    there is no drawer, no word and no round or session timer. *)
Record Game (s : State) : Prop := mkGame {
  game_word : forall w, currentWord s = Some w ->
    w ∈ wordList /\ gameActive s = true
    /\ exists d, currentDrawer s = Some d /\ d ∈ JS.keys (users s);
  game_round : forall w, currentWord s = Some w ->
    exists h t0,
      roundTimer s = Some h /\ roundStartTime s = Some t0
      /\ roundEndTime s = Some (t0 + ROUND_DURATION)
      /\ timers s !! h = Some (mkTimer RoundTimeout (t0 + ROUND_DURATION));
  game_session : gameActive s = true ->
    exists h t0,
      sessionTimer s = Some h /\ sessionStartTime s = Some t0
      /\ timers s !! h = Some (mkTimer SessionTimeout (t0 + SESSION_DURATION));
  game_session_timer : forall h t,
    timers s !! h = Some t -> callback t = SessionTimeout -> sessionTimer s = Some h;
  game_no_round : currentWord s = None ->
    roundTimer s = None /\ roundStartTime s = None /\ roundEndTime s = None;
  game_idle : gameActive s = false ->
    currentDrawer s = None /\ currentWord s = None /\ roundTimer s = None
    /\ roundStartTime s = None /\ roundEndTime s = None
    /\ sessionStartTime s = None /\ sessionTimer s = None
}.

(** The variables the round and session discipline is about. *)
Definition gameOf (s : State) :=
  (JS.keys (users s), currentDrawer s, currentWord s, gameActive s,
   roundTimer s, roundStartTime s, roundEndTime s, sessionStartTime s,
   sessionTimer s, timers s).

(** The two disciplines together. *)
Definition Both (s : State) : Prop := Inv s /\ Game s.

(** An active session that has come to a halt: no round is in progress and
    no intermission is pending. *)
Definition stalled (s : State) : Prop :=
  gameActive s = true /\ currentWord s = None
  /\ forall h t, timers s !! h = Some t -> callback t <> NextRound.

(** The [leaveGame] handler up to its final [socket.disconnect()]. *)
Definition leaving (e : Env) (id : SocketId) (s : State) : State :=
  match JS.get id (users s) with
  | None => s
  | Some name =>
      if negb (JS.truthy name) then s
      else
        let s := emit ToAll (chatMessage "System" (LeftGame name)) s in
        let s :=
          if bool_decide (Some id = currentDrawer s) && gameActive s then
            let s := emit ToAll (chatMessage "System" (DrawerLeft name)) s in
            endRound e false s
          else s in
        let s := set_users (JS.delete id (users s)) s in
        let s := broadcastUserList s in
        if bool_decide (length (JS.keys (users s)) < 1)%nat && gameActive s
        then
          let s := emit ToAll (chatMessage "System" NotEnoughPlayers) s in
          endSession e s
        else s
  end.

(** The firings of the interval [h] at the instants [es]. *)
Definition firings (h : Handle) (es : list Env) : list (Env * Event) :=
  map (fun e => (e, Fire h)) es.

(** Instants at which an interval due at [due0] can fire time after time:
    none before it is due again, one second after the firing before. *)
Fixpoint punctual (due0 : Z) (es : list Env) : Prop :=
  match es with
  | [] => True
  | e :: es' => due0 <= now e /\ punctual (now e + 1000) es'
  end.

(** The seconds announced by a countdown from [c]: [c - 1], ..., [0]. *)
Definition announced (c : Z) : list (Target * Msg) :=
  map (fun i => (ToAll, countdown (c - 1 - Z.of_nat i))) (seq 0 (Z.to_nat c)).

(** The statements of a step on the Score Board, in the order in which the
    handler or the callback executes them: [join] initialises the entry of
    the name it assigns, a guess that matches awards the credited name and
    the drawer, the deferred reset of [endSession] empties the board. *)
Definition scoreStmts (e : Env) (ev : Event) (s : State) : list Board.Stmt :=
  match ev with
  | Join id name => [Board.InitScore (joinName id name)]
  | Guess id from text =>
      guessStmts id from text (users s) (currentDrawer s) (currentWord s)
        (gameActive s)
  | Fire h =>
      match timers s !! h with
      | None => []
      | Some t =>
          if negb (due t <=? now e) then []
          else
            match callback t with
            | ResetScores => [Board.Reset]
            | _ => []
            end
      end
  | _ => []
  end.

(** The Score Board, as the object it is, after a step from the state [s]
    with the Score Board [b], and after a run. *)
Definition boardStep (e : Env) (ev : Event) (s : State) (b : Board.t)
  : Board.t :=
  Board.execAll (scoreStmts e ev s) b.

Fixpoint boardRun (tr : list (Env * Event)) (s : State) (b : Board.t)
  : Board.t :=
  match tr with
  | [] => b
  | x :: tr' => boardRun tr' (step (fst x) (snd x) s) (boardStep (fst x) (snd x) s b)
  end.

(** The Score Board of the server after the run [tr] from its start. *)
Definition board (tr : list (Env * Event)) : Board.t :=
  boardRun tr init Board.empty.

End Session.

(** * The basic server ([server.js]): rounds only *)

Module Basic.

Definition wordList : list string :=
  [ "apple"; "banana"; "cat"; "dog"; "car"; "house"; "tree"; "sun";
    "moon"; "star"; "computer"; "phone"; "book"; "chair"; "table";
    "guitar"; "pizza"; "camera"; "clock"; "flower"; "mountain"; "ocean" ]%string.

Definition ROUND_DURATION : Z := 60000.

Inductive Text :=
| Plain (text : string)
| NowDrawing (drawerName : option Name)
| RoundEnded (word : option string)
| TimesUp (word : option string)
| Welcome (n : Name)
| Joined (n : Name)
| DrawerLeft (name : Name)
| LeftGame (name : Name)
| NotEnoughPlayers
| GuessedCorrectly (player : Name) (drawerName : option Name).

Inductive Msg :=
| userList (list_ : list Name)
| scoreUpdate (scores_ : JS.obj Z)
| gameState (gameActive_ : bool) (currentDrawer_ : option Name) (hasWord_ : bool)
| clearBoard
| chatMessage (from : string) (text : Text)
| yourWord (word : string)
| remoteStroke (stroke : Stroke).

(** The closures handed to [setTimeout]. *)
Inductive Callback :=
| StartRound      (* join: the first round, 2 s after the second player *)
| RoundTimeout    (* startNewRound: roundTimer *)
| NextRound.      (* endRound: the 5 s intermission *)

Record Timer := mkTimer { callback : Callback; due : Z }.

Record State := mkState {
  users : JS.obj Name;
  scores : JS.obj Z;
  currentDrawer : option SocketId;
  currentWord : option string;
  gameActive : bool;
  roundTimer : option Handle;
  timers : gmap Handle Timer;
  nextHandle : Handle;
  outbox : list (Target * Msg)
}.

Definition set_users (x : JS.obj Name) (s : State) : State :=
  {| users := x; scores := scores s; currentDrawer := currentDrawer s;
     currentWord := currentWord s; gameActive := gameActive s; roundTimer :=
     roundTimer s; timers := timers s; nextHandle := nextHandle s; outbox :=
     outbox s |}.
Definition set_scores (x : JS.obj Z) (s : State) : State :=
  {| users := users s; scores := x; currentDrawer := currentDrawer s;
     currentWord := currentWord s; gameActive := gameActive s; roundTimer :=
     roundTimer s; timers := timers s; nextHandle := nextHandle s; outbox :=
     outbox s |}.
Definition set_currentDrawer (x : option SocketId) (s : State) : State :=
  {| users := users s; scores := scores s; currentDrawer := x; currentWord :=
     currentWord s; gameActive := gameActive s; roundTimer := roundTimer s;
     timers := timers s; nextHandle := nextHandle s; outbox := outbox s |}.
Definition set_currentWord (x : option string) (s : State) : State :=
  {| users := users s; scores := scores s; currentDrawer := currentDrawer s;
     currentWord := x; gameActive := gameActive s; roundTimer := roundTimer
     s; timers := timers s; nextHandle := nextHandle s; outbox := outbox s |}.
Definition set_gameActive (x : bool) (s : State) : State :=
  {| users := users s; scores := scores s; currentDrawer := currentDrawer s;
     currentWord := currentWord s; gameActive := x; roundTimer := roundTimer
     s; timers := timers s; nextHandle := nextHandle s; outbox := outbox s |}.
Definition set_roundTimer (x : option Handle) (s : State) : State :=
  {| users := users s; scores := scores s; currentDrawer := currentDrawer s;
     currentWord := currentWord s; gameActive := gameActive s; roundTimer :=
     x; timers := timers s; nextHandle := nextHandle s; outbox := outbox s |}.
Definition set_timers (x : gmap Handle Timer) (s : State) : State :=
  {| users := users s; scores := scores s; currentDrawer := currentDrawer s;
     currentWord := currentWord s; gameActive := gameActive s; roundTimer :=
     roundTimer s; timers := x; nextHandle := nextHandle s; outbox := outbox
     s |}.
Definition set_nextHandle (x : Handle) (s : State) : State :=
  {| users := users s; scores := scores s; currentDrawer := currentDrawer s;
     currentWord := currentWord s; gameActive := gameActive s; roundTimer :=
     roundTimer s; timers := timers s; nextHandle := x; outbox := outbox s |}.
Definition set_outbox (x : list (Target * Msg)) (s : State) : State :=
  {| users := users s; scores := scores s; currentDrawer := currentDrawer s;
     currentWord := currentWord s; gameActive := gameActive s; roundTimer :=
     roundTimer s; timers := timers s; nextHandle := nextHandle s; outbox :=
     x |}.

Definition init : State :=
  {| users := []; scores := []; currentDrawer := None; currentWord := None;
     gameActive := false; roundTimer := None; timers := ∅;
     nextHandle := 0%nat; outbox := [] |}.

Record Env := mkEnv { now : Z; random : nat }.

Definition truthyS (w : option string) : bool :=
  match w with
  | Some w => JS.truthy w
  | None => false
  end.

Definition emit (t : Target) (m : Msg) (s : State) : State :=
  set_outbox (outbox s ++ [(t, m)]) s.

Definition setTimer (cb : Callback) (at_ : Z) (s : State) : State :=
  set_nextHandle (S (nextHandle s))
    (set_timers (<[nextHandle s := mkTimer cb at_]> (timers s)) s).

Definition clearTimer (h : option Handle) (s : State) : State :=
  set_timers (cancel h (timers s)) s.

Definition broadcastUserList (s : State) : State :=
  emit ToAll (userList (JS.values (users s))) s.

Definition broadcastScores (s : State) : State :=
  emit ToAll (scoreUpdate (scores s)) s.

Definition drawerNameOf (s : State) : option Name :=
  match currentDrawer s with
  | Some d => JS.get d (users s)
  | None => None
  end.

(** The payload of [broadcastGameState]. *)
Definition gameStateOf (s : State) : Msg :=
  gameState (gameActive s) (drawerNameOf s) (truthyS (currentWord s)).
Arguments gameStateOf : simpl never.

Definition broadcastGameState (s : State) : State :=
  emit ToAll (gameStateOf s) s.

Definition selectRandomWord (e : Env) : string :=
  default ""%string (wordList !! (random e mod length wordList)%nat).
Arguments selectRandomWord : simpl never.

Definition startNewRound (e : Env) (s : State) : State :=
  let s := set_currentDrawer (getNextDrawer (users s) (currentDrawer s)) s in
  match currentDrawer s with
  | None => set_gameActive false s
  | Some drawer =>
      let word := selectRandomWord e in
      let s := set_currentWord (Some word) s in
      let s := set_gameActive true s in
      let drawerName := JS.get drawer (users s) in
      let s := emit ToAll clearBoard s in
      let s := emit ToAll (chatMessage "System" (NowDrawing drawerName)) s in
      let s := emit (ToSocket drawer) (yourWord word) s in
      let s := broadcastGameState s in
      let s := clearTimer (roundTimer s) s in
      let h := nextHandle s in
      let s := setTimer RoundTimeout (now e + ROUND_DURATION) s in
      set_roundTimer (Some h) s
  end.

Definition endRound (e : Env) (someoneGuessed : bool) (s : State) : State :=
  let s := set_roundTimer None (clearTimer (roundTimer s) s) in
  if negb (gameActive s) then s
  else
    let s := set_gameActive false s in
    let s :=
      emit ToAll
        (chatMessage "System"
           (if someoneGuessed then RoundEnded (currentWord s)
            else TimesUp (currentWord s))) s in
    let s := set_currentWord None s in
    setTimer NextRound (now e + 5000) s.

(** The intermission timeout of [endRound]. *)
Definition nextRound (e : Env) (s : State) : State :=
  if bool_decide (1 <= length (JS.keys (users s)))%nat then startNewRound e s
  else s.

(** A timeout fires when it is pending and due, and is then gone. *)
Definition fire (e : Env) (h : Handle) (s : State) : State :=
  match timers s !! h with
  | None => s
  | Some t =>
      if negb (due t <=? now e) then s
      else
        let s := set_timers (base.delete h (timers s)) s in
        match callback t with
        | StartRound => startNewRound e s
        | RoundTimeout => endRound e false s
        | NextRound => nextRound e s
        end
  end.


Definition on_connection (id : SocketId) (s : State) : State :=
  let s := emit (ToSocket id) (scoreUpdate (scores s)) s in
  let s := emit (ToSocket id) (userList (JS.values (users s))) s in
  broadcastGameState s.

(** [if (!scores[n]) scores[n] = 0], on the Score Board of the numbers;
    [Board.initScore] has the statement on the object, under any name. *)
Definition initScore (n : Name) (s : State) : State :=
  match JS.get n (scores s) with
  | Some p => if p =? 0 then set_scores (JS.set n 0 (scores s)) s else s
  | None => set_scores (JS.set n 0 (scores s)) s
  end.

Definition on_join (e : Env) (id : SocketId) (name : string) (s : State) : State :=
  let n := if JS.truthy (JS.trim name) then JS.trim name else fallbackName id in
  let s := set_users (JS.set id n (users s)) s in
  let s := initScore n s in
  let s := broadcastUserList s in
  let s := broadcastScores s in
  let s := emit (ToSocket id) (chatMessage "System" (Welcome n)) s in
  let s := emit (ToOthers id) (chatMessage "System" (Joined n)) s in
  let playerCount := length (JS.keys (users s)) in
  if bool_decide (2 <= playerCount)%nat && negb (gameActive s)
     && negb (bool_decide (is_Some (currentDrawer s)))
  then setTimer StartRound (now e + 2000) s
  else s.

Definition on_stroke (id : SocketId) (stroke : option Stroke) (s : State) : State :=
  if negb (bool_decide (Some id = currentDrawer s)) then s
  else
    match stroke with
    | Some st =>
        if bool_decide (is_Some (stroke_from st))
           && bool_decide (is_Some (stroke_to st))
        then emit (ToOthers id) (remoteStroke st) s
        else s
    | None => s
    end.

Definition on_clear (id : SocketId) (s : State) : State :=
  if negb (bool_decide (Some id = currentDrawer s)) then s
  else emit ToAll clearBoard s.

Definition on_chat (id : SocketId) (from text : string) (s : State) : State :=
  let player := playerName id from (users s) in
  emit ToAll (chatMessage player (Plain text)) s.

Definition on_guess (e : Env) (id : SocketId) (from text : string) (s : State)
  : State :=
  let guessText := JS.trim text in
  let player := playerName id from (users s) in
  if negb (JS.truthy guessText) then s
  else if bool_decide (Some id = currentDrawer s) then
    emit ToAll (chatMessage player (Plain guessText)) s
  else
    let s := emit ToAll (chatMessage player (Plain guessText)) s in
    match currentWord s with
    | None => s
    | Some word =>
        if negb (gameActive s) || negb (JS.truthy word) then s
        else
          let guessLower := JS.toLowerCase guessText in
          let targetLower := JS.toLowerCase word in
          if bool_decide (guessLower = targetLower) then
            let s := set_scores (award player 10 (scores s)) s in
            let drawerName := drawerNameOf s in
            let s := set_scores (awardDrawer drawerName (scores s)) s in
            let s :=
              emit ToAll
                (chatMessage "System" (GuessedCorrectly player drawerName)) s in
            let s := broadcastScores s in
            endRound e true s
          else s
    end.

Definition on_disconnect (e : Env) (id : SocketId) (s : State) : State :=
  match JS.get id (users s) with
  | None => s
  | Some name =>
      if negb (JS.truthy name) then s
      else
        let s :=
          if bool_decide (Some id = currentDrawer s) then
            let s := emit ToAll (chatMessage "System" (DrawerLeft name)) s in
            endRound e false s
          else emit ToAll (chatMessage "System" (LeftGame name)) s in
        let s := set_users (JS.delete id (users s)) s in
        let s := broadcastUserList s in
        if bool_decide (length (JS.keys (users s)) < 2)%nat && gameActive s
        then
          let s := endRound e false s in
          emit ToAll (chatMessage "System" NotEnoughPlayers) s
        else s
  end.

Inductive Event :=
| Connection (id : SocketId)
| Join (id : SocketId) (name : string)
| StrokeEv (id : SocketId) (stroke : option Stroke)
| Clear (id : SocketId)
| Chat (id : SocketId) (from text : string)
| Guess (id : SocketId) (from text : string)
| Disconnect (id : SocketId)
| Fire (h : Handle).

Definition step (e : Env) (ev : Event) (s : State) : State :=
  match ev with
  | Connection id => on_connection id s
  | Join id name => on_join e id name s
  | StrokeEv id stroke => on_stroke id stroke s
  | Clear id => on_clear id s
  | Chat id from text => on_chat id from text s
  | Guess id from text => on_guess e id from text s
  | Disconnect id => on_disconnect e id s
  | Fire h => fire e h s
  end.

Definition run (tr : list (Env * Event)) (s : State) : State :=
  foldl (fun s x => step (fst x) (snd x) s) s tr.

(** ** Notions used in the statements *)

(** The display name that receives the drawer's award: [users[currentDrawer]]
    when it is truthy. *)
Definition drawerAward (s : State) : option Name :=
  match drawerNameOf s with
  | Some d => if JS.truthy d then Some d else None
  | None => None
  end.

(** A guess that the handler accepts: sent by a socket other than the
    drawer, while a round is active with word [w], and equal to [w] up to
    case and surrounding white space. *)
Definition correctGuess (s : State) (id : SocketId) (text w : string) : Prop :=
  currentDrawer s <> Some id /\ gameActive s = true /\ currentWord s = Some w
  /\ JS.truthy w = true /\ JS.toLowerCase (JS.trim text) = JS.toLowerCase w.

(** A guess event whose text does not match the current word. *)
Definition incorrectGuess (s : State) (x : Env * Event) : Prop :=
  match snd x with
  | Guess id from text =>
      forall w, currentWord s = Some w ->
                JS.toLowerCase (JS.trim text) <> JS.toLowerCase w
  | _ => False
  end.

(** The same game state: all the variables of the server and its timers;
    only the notifications sent so far may differ. *)
Definition sameGame (s s' : State) : Prop := set_outbox (outbox s) s' = s.

(** What a step sent. *)
Definition sent (s s' : State) : list (Target * Msg) :=
  drop (length (outbox s)) (outbox s').

(** The states of the server: those a sequence of events and timer firings
    leads to. *)
Definition reachable (s : State) : Prop := exists tr, s = run tr init.

(** The variables the timer discipline is about. *)
Definition loopOf (s : State) :=
  (timers s, nextHandle s, roundTimer s, gameActive s, users s).

Definition isRoundTimeout (cb : Callback) : bool :=
  match cb with
  | RoundTimeout => true
  | _ => false
  end.

(** The timer discipline: handles are fresh; a pending round timeout is the
    one [roundTimer] holds and belongs to a round in progress, with a
    roster that is not empty. *)
Record Inv (s : State) : Prop := mkInv {
  inv_fresh : forall h t, timers s !! h = Some t -> (h < nextHandle s)%nat;
  inv_roundTimer_lt : forall h, roundTimer s = Some h -> (h < nextHandle s)%nat;
  inv_round : forall h t,
    timers s !! h = Some t -> callback t = RoundTimeout ->
    roundTimer s = Some h /\ gameActive s = true /\ users s <> [];
  inv_kind : forall h t,
    roundTimer s = Some h -> timers s !! h = Some t -> callback t = RoundTimeout
}.

(** [s'] comes after [s]: see [Session.after]. *)
Definition after (s s' : State) : Prop :=
  (nextHandle s <= nextHandle s')%nat
  /\ forall h t',
      timers s' !! h = Some t' -> (h < nextHandle s)%nat ->
      exists t, timers s !! h = Some t
                /\ isRoundTimeout (callback t) = isRoundTimeout (callback t').

(** A run of the event loop is timely when its clock does not go back, a
    timer fires only when it is pending and due, and no event is handled
    while a timer is overdue. *)
Definition overdue (t : Z) (s : State) : bool :=
  existsb (fun x => due (snd x) <? t) (map_to_list (timers s)).

Fixpoint timelyFrom (clock : Z) (tr : list (Env * Event)) (s : State) : bool :=
  match tr with
  | [] => true
  | (e, ev) :: tr' =>
      (clock <=? now e) && negb (overdue (now e) s)
      && match ev with
         | Fire h =>
             match timers s !! h with
             | Some t => due t <=? now e
             | None => false
             end
         | _ => true
         end
      && timelyFrom (now e) tr' (step e ev s)
  end.

Definition timely (tr : list (Env * Event)) : bool := timelyFrom 0 tr init.

(** The round discipline: the game is active exactly while a round is in
    progress; the round has a word of the word list, a drawer who is in the
    roster, and its timeout pending. *)
Record Game (s : State) : Prop := mkGame {
  game_round : gameActive s = true ->
    exists w d h t,
      currentWord s = Some w /\ w ∈ wordList
      /\ currentDrawer s = Some d /\ d ∈ JS.keys (users s)
      /\ roundTimer s = Some h /\ timers s !! h = Some t
      /\ callback t = RoundTimeout;
  game_idle : gameActive s = false ->
    currentWord s = None /\ roundTimer s = None
}.

(** The variables the round discipline is about. *)
Definition gameOf (s : State) :=
  (JS.keys (users s), currentDrawer s, currentWord s, gameActive s,
   roundTimer s, timers s).

(** The two disciplines together. *)
Definition Both (s : State) : Prop := Inv s /\ Game s.

(** The statements of a step on the Score Board, in the order in which the
    handler executes them: [join] initialises the entry of the name it
    assigns, a guess that matches awards the credited name and the drawer;
    nothing else writes [scores]. *)
Definition scoreStmts (e : Env) (ev : Event) (s : State) : list Board.Stmt :=
  match ev with
  | Join id name => [Board.InitScore (joinName id name)]
  | Guess id from text =>
      guessStmts id from text (users s) (currentDrawer s) (currentWord s)
        (gameActive s)
  | _ => []
  end.

(** The Score Board, as the object it is, after a step from the state [s]
    with the Score Board [b], and after a run. *)
Definition boardStep (e : Env) (ev : Event) (s : State) (b : Board.t)
  : Board.t :=
  Board.execAll (scoreStmts e ev s) b.

Fixpoint boardRun (tr : list (Env * Event)) (s : State) (b : Board.t)
  : Board.t :=
  match tr with
  | [] => b
  | x :: tr' => boardRun tr' (step (fst x) (snd x) s) (boardStep (fst x) (snd x) s b)
  end.

(** The Score Board of the server after the run [tr] from its start. *)
Definition board (tr : list (Env * Event)) : Board.t :=
  boardRun tr init Board.empty.

End Basic.

(** * The server with manual start and stop

    The variant of the first listing of [part_001]: rounds as in
    [server.js], with a time display, started by a [startGame] request and
    stopped by a [stopGame] request of any player. *)

Module Manual.

Definition wordList : list string :=
  [ "apple"; "banana"; "cat"; "dog"; "car"; "house"; "tree"; "sun";
    "moon"; "star"; "computer"; "phone"; "book"; "chair"; "table";
    "guitar"; "pizza"; "camera"; "clock"; "flower"; "mountain"; "ocean";
    "pencil"; "bottle"; "lamp"; "door"; "window"; "bird"; "fish"; "rocket" ]%string.

Definition ROUND_DURATION : Z := 60000.

Inductive Text :=
| Plain (text : string)
| NowDrawing (drawerName : option Name)
| RoundEnded (word : option string)
| TimesUp (word : option string)
| GameStopped
| Welcome (n : Name)
| Joined (n : Name)
| AlreadyRunning
| NeedOnePlayer
| GameStarted (playerName : Name)
| NoGameRunning
| DrawerLeft (name : Name)
| LeftGame (name : Name)
| GuessedCorrectly (player : Name) (drawerName : option Name).

Inductive Msg :=
| userList (list_ : list Name)
| scoreUpdate (scores_ : JS.obj Z)
| gameState (gameActive_ : bool) (currentDrawer_ : option Name) (hasWord_ : bool)
    (timeRemaining : Z)
| clearBoard
| chatMessage (from : string) (text : Text)
| yourWord (word : string)
| remoteStroke (stroke : Stroke).

(** The closures handed to [setTimeout] and [setInterval]. *)
Inductive Callback :=
| StartRound      (* startGame: the first round, 2 s after the request *)
| RoundTimeout    (* startNewRound: roundTimer *)
| TimerInterval   (* startNewRound: timerInterval *)
| NextRound.      (* endRound: the 5 s intermission *)

Record Timer := mkTimer { callback : Callback; due : Z }.

Record State := mkState {
  users : JS.obj Name;
  scores : JS.obj Z;
  currentDrawer : option SocketId;
  currentWord : option string;
  gameActive : bool;
  roundTimer : option Handle;
  roundStartTime : option Z;
  roundEndTime : option Z;
  timers : gmap Handle Timer;
  nextHandle : Handle;
  outbox : list (Target * Msg)
}.

Definition set_users (x : JS.obj Name) (s : State) : State :=
  {| users := x; scores := scores s; currentDrawer := currentDrawer s;
     currentWord := currentWord s; gameActive := gameActive s; roundTimer :=
     roundTimer s; roundStartTime := roundStartTime s; roundEndTime :=
     roundEndTime s; timers := timers s; nextHandle := nextHandle s; outbox :=
     outbox s |}.
Definition set_scores (x : JS.obj Z) (s : State) : State :=
  {| users := users s; scores := x; currentDrawer := currentDrawer s;
     currentWord := currentWord s; gameActive := gameActive s; roundTimer :=
     roundTimer s; roundStartTime := roundStartTime s; roundEndTime :=
     roundEndTime s; timers := timers s; nextHandle := nextHandle s; outbox :=
     outbox s |}.
Definition set_currentDrawer (x : option SocketId) (s : State) : State :=
  {| users := users s; scores := scores s; currentDrawer := x; currentWord :=
     currentWord s; gameActive := gameActive s; roundTimer := roundTimer s;
     roundStartTime := roundStartTime s; roundEndTime := roundEndTime s; timers
     := timers s; nextHandle := nextHandle s; outbox := outbox s |}.
Definition set_currentWord (x : option string) (s : State) : State :=
  {| users := users s; scores := scores s; currentDrawer := currentDrawer s;
     currentWord := x; gameActive := gameActive s; roundTimer := roundTimer s;
     roundStartTime := roundStartTime s; roundEndTime := roundEndTime s; timers
     := timers s; nextHandle := nextHandle s; outbox := outbox s |}.
Definition set_gameActive (x : bool) (s : State) : State :=
  {| users := users s; scores := scores s; currentDrawer := currentDrawer s;
     currentWord := currentWord s; gameActive := x; roundTimer := roundTimer s;
     roundStartTime := roundStartTime s; roundEndTime := roundEndTime s; timers
     := timers s; nextHandle := nextHandle s; outbox := outbox s |}.
Definition set_roundTimer (x : option Handle) (s : State) : State :=
  {| users := users s; scores := scores s; currentDrawer := currentDrawer s;
     currentWord := currentWord s; gameActive := gameActive s; roundTimer := x;
     roundStartTime := roundStartTime s; roundEndTime := roundEndTime s; timers
     := timers s; nextHandle := nextHandle s; outbox := outbox s |}.
Definition set_roundStartTime (x : option Z) (s : State) : State :=
  {| users := users s; scores := scores s; currentDrawer := currentDrawer s;
     currentWord := currentWord s; gameActive := gameActive s; roundTimer :=
     roundTimer s; roundStartTime := x; roundEndTime := roundEndTime s; timers :=
     timers s; nextHandle := nextHandle s; outbox := outbox s |}.
Definition set_roundEndTime (x : option Z) (s : State) : State :=
  {| users := users s; scores := scores s; currentDrawer := currentDrawer s;
     currentWord := currentWord s; gameActive := gameActive s; roundTimer :=
     roundTimer s; roundStartTime := roundStartTime s; roundEndTime := x; timers
     := timers s; nextHandle := nextHandle s; outbox := outbox s |}.
Definition set_timers (x : gmap Handle Timer) (s : State) : State :=
  {| users := users s; scores := scores s; currentDrawer := currentDrawer s;
     currentWord := currentWord s; gameActive := gameActive s; roundTimer :=
     roundTimer s; roundStartTime := roundStartTime s; roundEndTime :=
     roundEndTime s; timers := x; nextHandle := nextHandle s; outbox := outbox s
     |}.
Definition set_nextHandle (x : Handle) (s : State) : State :=
  {| users := users s; scores := scores s; currentDrawer := currentDrawer s;
     currentWord := currentWord s; gameActive := gameActive s; roundTimer :=
     roundTimer s; roundStartTime := roundStartTime s; roundEndTime :=
     roundEndTime s; timers := timers s; nextHandle := x; outbox := outbox s |}.
Definition set_outbox (x : list (Target * Msg)) (s : State) : State :=
  {| users := users s; scores := scores s; currentDrawer := currentDrawer s;
     currentWord := currentWord s; gameActive := gameActive s; roundTimer :=
     roundTimer s; roundStartTime := roundStartTime s; roundEndTime :=
     roundEndTime s; timers := timers s; nextHandle := nextHandle s; outbox := x
     |}.

Definition init : State :=
  {| users := []; scores := []; currentDrawer := None; currentWord := None;
     gameActive := false; roundTimer := None; roundStartTime := None;
     roundEndTime := None; timers := ∅; nextHandle := 0%nat; outbox := [] |}.

Record Env := mkEnv { now : Z; random : nat }.

Definition truthyT (t : option Z) : bool :=
  match t with
  | Some t => negb (t =? 0)
  | None => false
  end.

Definition truthyS (w : option string) : bool :=
  match w with
  | Some w => JS.truthy w
  | None => false
  end.

Definition emit (t : Target) (m : Msg) (s : State) : State :=
  set_outbox (outbox s ++ [(t, m)]) s.

Definition setTimer (cb : Callback) (at_ : Z) (s : State) : State :=
  set_nextHandle (S (nextHandle s))
    (set_timers (<[nextHandle s := mkTimer cb at_]> (timers s)) s).

Definition clearTimer (h : option Handle) (s : State) : State :=
  set_timers (cancel h (timers s)) s.

Definition broadcastUserList (s : State) : State :=
  emit ToAll (userList (JS.values (users s))) s.

Definition broadcastScores (s : State) : State :=
  emit ToAll (scoreUpdate (scores s)) s.

Definition drawerNameOf (s : State) : option Name :=
  match currentDrawer s with
  | Some d => JS.get d (users s)
  | None => None
  end.

(** The payload of [broadcastGameState]. *)
Definition gameStateOf (e : Env) (s : State) : Msg :=
  let drawerName := drawerNameOf s in
  let timeRemaining :=
    match roundEndTime s with
    | Some t => if truthyT (Some t) then Z.max 0 (t - now e) else 0
    | None => 0
    end in
  gameState (gameActive s) drawerName (truthyS (currentWord s))
    (timeRemaining / 1000).
Arguments gameStateOf : simpl never.

Definition broadcastGameState (e : Env) (s : State) : State :=
  emit ToAll (gameStateOf e s) s.

Definition selectRandomWord (e : Env) : string :=
  default ""%string (wordList !! (random e mod length wordList)%nat).
Arguments selectRandomWord : simpl never.

Definition startNewRound (e : Env) (s : State) : State :=
  let s := set_currentDrawer (getNextDrawer (users s) (currentDrawer s)) s in
  match currentDrawer s with
  | None => set_gameActive false s
  | Some drawer =>
      let word := selectRandomWord e in
      let s := set_currentWord (Some word) s in
      let s := set_gameActive true s in
      let s := set_roundStartTime (Some (now e)) s in
      let s := set_roundEndTime (Some (now e + ROUND_DURATION)) s in
      let drawerName := JS.get drawer (users s) in
      let s := emit ToAll clearBoard s in
      let s := emit ToAll (chatMessage "System" (NowDrawing drawerName)) s in
      let s := emit (ToSocket drawer) (yourWord word) s in
      let s := broadcastGameState e s in
      let s := clearTimer (roundTimer s) s in
      let h := nextHandle s in
      let s := setTimer RoundTimeout (now e + ROUND_DURATION) s in
      let s := set_roundTimer (Some h) s in
      setTimer TimerInterval (now e + 1000) s
  end.

Definition endRound (e : Env) (someoneGuessed : bool) (s : State) : State :=
  let s := set_roundTimer None (clearTimer (roundTimer s) s) in
  if negb (gameActive s) then s
  else
    let s := set_gameActive false s in
    let s := set_roundStartTime None s in
    let s := set_roundEndTime None s in
    let s :=
      emit ToAll
        (chatMessage "System"
           (if someoneGuessed then RoundEnded (currentWord s)
            else TimesUp (currentWord s))) s in
    let s := set_currentWord None s in
    let s := broadcastGameState e s in
    setTimer NextRound (now e + 5000) s.

Definition stopGame (e : Env) (s : State) : State :=
  let s := set_roundTimer None (clearTimer (roundTimer s) s) in
  let s := set_gameActive false s in
  let s := set_currentDrawer None s in
  let s := set_currentWord None s in
  let s := set_roundStartTime None s in
  let s := set_roundEndTime None s in
  let s := emit ToAll (chatMessage "System" GameStopped) s in
  let s := emit ToAll clearBoard s in
  broadcastGameState e s.

(** ** Timer callbacks *)

(** The interval [timerInterval] of [startNewRound]; [h] is its own handle. *)
Definition timerInterval (e : Env) (h : Handle) (s : State) : State :=
  if negb (gameActive s) then clearTimer (Some h) s
  else broadcastGameState e s.

(** The intermission timeout of [endRound]. *)
Definition nextRound (e : Env) (s : State) : State :=
  if bool_decide (1 <= length (JS.keys (users s)))%nat then startNewRound e s
  else s.

(** A timer fires when it is pending and due.  A timeout is removed before
    its callback runs; the interval stays pending, one second later, unless
    its callback clears it. *)
Definition fire (e : Env) (h : Handle) (s : State) : State :=
  match timers s !! h with
  | None => s
  | Some t =>
      if negb (due t <=? now e) then s
      else
        let oneShot := set_timers (base.delete h (timers s)) s in
        let rearm cb :=
          set_timers (<[h := mkTimer cb (now e + 1000)]> (timers s)) s in
        match callback t with
        | StartRound => startNewRound e oneShot
        | RoundTimeout => endRound e false oneShot
        | TimerInterval => timerInterval e h (rearm TimerInterval)
        | NextRound => nextRound e oneShot
        end
  end.

(** ** Socket event handlers *)

Definition on_connection (e : Env) (id : SocketId) (s : State) : State :=
  let s := emit (ToSocket id) (scoreUpdate (scores s)) s in
  let s := emit (ToSocket id) (userList (JS.values (users s))) s in
  broadcastGameState e s.

(** [if (!scores[n]) scores[n] = 0], on the Score Board of the numbers;
    [Board.initScore] has the statement on the object, under any name. *)
Definition initScore (n : Name) (s : State) : State :=
  match JS.get n (scores s) with
  | Some p => if p =? 0 then set_scores (JS.set n 0 (scores s)) s else s
  | None => set_scores (JS.set n 0 (scores s)) s
  end.

Definition on_join (id : SocketId) (name : string) (s : State) : State :=
  let n := if JS.truthy (JS.trim name) then JS.trim name else fallbackName id in
  let s := set_users (JS.set id n (users s)) s in
  let s := initScore n s in
  let s := broadcastUserList s in
  let s := broadcastScores s in
  let s := emit (ToSocket id) (chatMessage "System" (Welcome n)) s in
  emit (ToOthers id) (chatMessage "System" (Joined n)) s.

(** [users[socket.id] || "Unknown"] *)
Definition requester (id : SocketId) (s : State) : Name :=
  match JS.get id (users s) with
  | Some name => if JS.truthy name then name else "Unknown"%string
  | None => "Unknown"%string
  end.

Definition on_startGame (e : Env) (id : SocketId) (s : State) : State :=
  let playerCount := length (JS.keys (users s)) in
  let playerName := requester id s in
  if gameActive s then
    emit (ToSocket id) (chatMessage "System" AlreadyRunning) s
  else if bool_decide (playerCount < 1)%nat then
    emit (ToSocket id) (chatMessage "System" NeedOnePlayer) s
  else
    let s := emit ToAll (chatMessage "System" (GameStarted playerName)) s in
    setTimer StartRound (now e + 2000) s.

Definition on_stopGame (e : Env) (id : SocketId) (s : State) : State :=
  if negb (gameActive s) then
    emit (ToSocket id) (chatMessage "System" NoGameRunning) s
  else stopGame e s.

Definition on_stroke (id : SocketId) (stroke : option Stroke) (s : State) : State :=
  if negb (bool_decide (Some id = currentDrawer s)) then s
  else
    match stroke with
    | Some st =>
        if bool_decide (is_Some (stroke_from st))
           && bool_decide (is_Some (stroke_to st))
        then emit (ToOthers id) (remoteStroke st) s
        else s
    | None => s
    end.

Definition on_clear (id : SocketId) (s : State) : State :=
  if negb (bool_decide (Some id = currentDrawer s)) then s
  else emit ToAll clearBoard s.

Definition on_chat (id : SocketId) (from text : string) (s : State) : State :=
  let player := playerName id from (users s) in
  emit ToAll (chatMessage player (Plain text)) s.

Definition on_guess (e : Env) (id : SocketId) (from text : string) (s : State)
  : State :=
  let guessText := JS.trim text in
  let player := playerName id from (users s) in
  if negb (JS.truthy guessText) then s
  else if bool_decide (Some id = currentDrawer s) then
    emit ToAll (chatMessage player (Plain guessText)) s
  else
    let s := emit ToAll (chatMessage player (Plain guessText)) s in
    match currentWord s with
    | None => s
    | Some word =>
        if negb (gameActive s) || negb (JS.truthy word) then s
        else
          let guessLower := JS.toLowerCase guessText in
          let targetLower := JS.toLowerCase word in
          if bool_decide (guessLower = targetLower) then
            let s := set_scores (award player 10 (scores s)) s in
            let drawerName := drawerNameOf s in
            let s := set_scores (awardDrawer drawerName (scores s)) s in
            let s :=
              emit ToAll
                (chatMessage "System" (GuessedCorrectly player drawerName)) s in
            let s := broadcastScores s in
            endRound e true s
          else s
    end.

Definition on_disconnect (e : Env) (id : SocketId) (s : State) : State :=
  match JS.get id (users s) with
  | None => s
  | Some name =>
      if negb (JS.truthy name) then s
      else
        let s :=
          if bool_decide (Some id = currentDrawer s) then
            let s := emit ToAll (chatMessage "System" (DrawerLeft name)) s in
            endRound e false s
          else emit ToAll (chatMessage "System" (LeftGame name)) s in
        let s := set_users (JS.delete id (users s)) s in
        let s := broadcastUserList s in
        if bool_decide (length (JS.keys (users s)) < 1)%nat && gameActive s
        then stopGame e s
        else s
  end.

(** ** One step of the server *)

Inductive Event :=
| Connection (id : SocketId)
| Join (id : SocketId) (name : string)
| StartGame (id : SocketId)
| StopGame (id : SocketId)
| StrokeEv (id : SocketId) (stroke : option Stroke)
| Clear (id : SocketId)
| Chat (id : SocketId) (from text : string)
| Guess (id : SocketId) (from text : string)
| Disconnect (id : SocketId)
| Fire (h : Handle).

Definition step (e : Env) (ev : Event) (s : State) : State :=
  match ev with
  | Connection id => on_connection e id s
  | Join id name => on_join id name s
  | StartGame id => on_startGame e id s
  | StopGame id => on_stopGame e id s
  | StrokeEv id stroke => on_stroke id stroke s
  | Clear id => on_clear id s
  | Chat id from text => on_chat id from text s
  | Guess id from text => on_guess e id from text s
  | Disconnect id => on_disconnect e id s
  | Fire h => fire e h s
  end.

Definition run (tr : list (Env * Event)) (s : State) : State :=
  foldl (fun s x => step (fst x) (snd x) s) s tr.

(** ** Notions used in the statements *)

(** The same game state: all the variables of the server and its timers;
    only the notifications sent so far may differ. *)
Definition sameGame (s s' : State) : Prop := set_outbox (outbox s) s' = s.

(** What a step sent. *)
Definition sent (s s' : State) : list (Target * Msg) :=
  drop (length (outbox s)) (outbox s').

(** The states of the server: those a sequence of events and timer firings
    leads to. *)
Definition reachable (s : State) : Prop := exists tr, s = run tr init.

(** The round discipline: handles are fresh; the game is active exactly
    while a round is in progress; the round has a word of the word list, a
    drawer who is in the roster, and its timeout pending under the handle
    in [roundTimer], due at the end time of the round; no other round
    timeout is pending. *)
Record Inv (s : State) : Prop := mkInv {
  inv_fresh : forall h t, timers s !! h = Some t -> (h < nextHandle s)%nat;
  inv_round : forall h t,
    timers s !! h = Some t -> callback t = RoundTimeout -> roundTimer s = Some h;
  inv_active : gameActive s = true ->
    exists w d h t0,
      currentWord s = Some w /\ w ∈ wordList
      /\ currentDrawer s = Some d /\ d ∈ JS.keys (users s)
      /\ roundTimer s = Some h /\ roundStartTime s = Some t0
      /\ roundEndTime s = Some (t0 + ROUND_DURATION)
      /\ timers s !! h = Some (mkTimer RoundTimeout (t0 + ROUND_DURATION));
  inv_idle : gameActive s = false ->
    currentWord s = None /\ roundTimer s = None
    /\ roundStartTime s = None /\ roundEndTime s = None
}.

(** The variables the round discipline is about. *)
Definition gameOf (s : State) :=
  (JS.keys (users s), currentDrawer s, currentWord s, gameActive s,
   roundTimer s, roundStartTime s, roundEndTime s, timers s, nextHandle s).

(** A run of the event loop is timely when its clock does not go back, a
    timer fires only when it is pending and due, and no event is handled
    while a timer is overdue. *)
Definition overdue (t : Z) (s : State) : bool :=
  existsb (fun x => due (snd x) <? t) (map_to_list (timers s)).

Fixpoint timelyFrom (clock : Z) (tr : list (Env * Event)) (s : State) : bool :=
  match tr with
  | [] => true
  | (e, ev) :: tr' =>
      (clock <=? now e) && negb (overdue (now e) s)
      && match ev with
         | Fire h =>
             match timers s !! h with
             | Some t => due t <=? now e
             | None => false
             end
         | _ => true
         end
      && timelyFrom (now e) tr' (step e ev s)
  end.

Definition timely (tr : list (Env * Event)) : bool := timelyFrom 0 tr init.

(** Every display name of the roster has an entry in the Score Board of
    the numbers. *)
Definition rosterScored (s : State) : Prop :=
  forall n, n ∈ JS.values (users s) -> n ∈ JS.keys (scores s).

(** The statements of a step on the Score Board, in the order in which the
    handler executes them: [join] initialises the entry of the name it
    assigns, a guess that matches awards the credited name and the drawer;
    nothing else writes [scores]. *)
Definition scoreStmts (e : Env) (ev : Event) (s : State) : list Board.Stmt :=
  match ev with
  | Join id name => [Board.InitScore (joinName id name)]
  | Guess id from text =>
      guessStmts id from text (users s) (currentDrawer s) (currentWord s)
        (gameActive s)
  | _ => []
  end.

(** The Score Board, as the object it is, after a step from the state [s]
    with the Score Board [b], and after a run. *)
Definition boardStep (e : Env) (ev : Event) (s : State) (b : Board.t)
  : Board.t :=
  Board.execAll (scoreStmts e ev s) b.

Fixpoint boardRun (tr : list (Env * Event)) (s : State) (b : Board.t)
  : Board.t :=
  match tr with
  | [] => b
  | x :: tr' => boardRun tr' (step (fst x) (snd x) s) (boardStep (fst x) (snd x) s b)
  end.

(** The Score Board of the server after the run [tr] from its start. *)
Definition board (tr : list (Env * Event)) : Board.t :=
  boardRun tr init Board.empty.

End Manual.

(** * Scenarios

    Concrete timely runs of the servers, used as examples. *)

Module Scenario.

(** The session server at time [t]; the random index 2 selects the word
    cat. *)
Definition at_ (t : Z) : Session.Env := Session.mkEnv t 2.

(** [n] firings of the interval [h], one second apart, after time [t0]. *)
Definition ticks (h : Handle) (t0 : Z) (n : nat)
  : list (Session.Env * Session.Event) :=
  map (fun i => (at_ (t0 + 1000 * Z.of_nat (S i)), Session.Fire h)) (seq 0 n).

(** Two players join under the names [n1] and [n2], the countdown (timer 0)
    runs out and the first round starts at time 20000: the drawer is s1,
    the word is cat; the round timer is 1 (due at 140000), the state ticker
    2 (due at 21000), the session timer 3 (due at 620000). *)
Definition firstRoundTrace (n1 n2 : string)
  : list (Session.Env * Session.Event) :=
  [(at_ 0, Session.Join "s1" n1); (at_ 0, Session.Join "s2" n2)]
    ++ ticks 0 0 20.

Definition firstRound (n1 n2 : string) : Session.State :=
  Session.run (firstRoundTrace n1 n2) Session.init.

(** The first round ends by a correct guess of s2 at 20500: the
    intermission timer is 4, due at 25500. *)
Definition guessedTrace (n1 n2 : string) : list (Session.Env * Session.Event) :=
  firstRoundTrace n1 n2 ++ [(at_ 20500, Session.Guess "s2" "" "cat")].

(** The first round ends by its timeout, at 140000, after 120 ticks of the
    state ticker. *)
Definition timedOutTrace : list (Session.Env * Session.Event) :=
  firstRoundTrace "Ann" "Bob" ++ ticks 2 20000 120
    ++ [(at_ 140000, Session.Fire 1%nat)].

(** The first round ends by the departure of the drawer, at 20100. *)
Definition drawerLeftTrace : list (Session.Env * Session.Event) :=
  firstRoundTrace "Ann" "Bob" ++ [(at_ 20100, Session.Disconnect "s1")].

(** Bob guesses the word at 20500 and leaves at 22000, during the
    intermission; the state ticker stops itself at 21000. *)
Definition oneLeftTrace : list (Session.Env * Session.Event) :=
  guessedTrace "Ann" "Bob"
    ++ [(at_ 21000, Session.Fire 2%nat); (at_ 22000, Session.Disconnect "s2")].

(** The intermission timer then fires, at 25500. *)
Definition soloRoundTrace : list (Session.Env * Session.Event) :=
  oneLeftTrace ++ [(at_ 25500, Session.Fire 4%nat)].


(** The same with [server.js]: the first round starts at 2000, two seconds
    after the second player joined (timer 0); its round timer is 1, due at
    62000. *)
Definition basicAt (t : Z) : Basic.Env := Basic.mkEnv t 2.

Definition basicFirstRoundTrace (n1 n2 : string)
  : list (Basic.Env * Basic.Event) :=
  [(basicAt 0, Basic.Join "s1" n1); (basicAt 0, Basic.Join "s2" n2);
   (basicAt 2000, Basic.Fire 0%nat)].

Definition basicFirstRound (n1 n2 : string) : Basic.State :=
  Basic.run (basicFirstRoundTrace n1 n2) Basic.init.

(** Bob guesses the word at 3000 (the intermission timer is 2, due at
    8000) and leaves at 4000; the intermission timer fires at 8000. *)
Definition basicSoloRoundTrace : list (Basic.Env * Basic.Event) :=
  basicFirstRoundTrace "Ann" "Bob"
    ++ [(basicAt 3000, Basic.Guess "s2" "" "cat");
        (basicAt 4000, Basic.Disconnect "s2");
        (basicAt 8000, Basic.Fire 2%nat)].

(** A third player joins at 500, before the first round has started, and
    schedules a second start (timer 1, due at 2500); the first round starts
    at 2000 and is guessed at 2100 (intermission timer 3, due at 7100); the
    second start fires at 2500. *)
Definition basicRaceTrace : list (Basic.Env * Basic.Event) :=
  [(basicAt 0, Basic.Join "s1" "Ann"); (basicAt 0, Basic.Join "s2" "Bob");
   (basicAt 500, Basic.Join "s3" "Cid"); (basicAt 2000, Basic.Fire 0%nat);
   (basicAt 2100, Basic.Guess "s2" "" "cat");
   (basicAt 2500, Basic.Fire 1%nat)].

(** Ann and Bob join, which starts the countdown (timer 0, due at 1000). *)
Definition countdownTrace : list (Session.Env * Session.Event) :=
  [(at_ 0, Session.Join "s1" "Ann"); (at_ 0, Session.Join "s2" "Bob")].

(** The instants of the twenty ticks of the countdown. *)
Definition countdownInstants : list Session.Env :=
  map (fun i => at_ (1000 * Z.of_nat (S i))) (seq 0 20).

(** Ann and Bob leave during the countdown, which runs out all the same:
    the session starts at 20000 with an empty roster. *)
Definition emptySessionTrace : list (Session.Env * Session.Event) :=
  countdownTrace
    ++ [(at_ 500, Session.Disconnect "s1"); (at_ 600, Session.Disconnect "s2")]
    ++ ticks 0 0 20.

(** Cid and Dan join the empty session. *)
Definition lateJoinTrace : list (Session.Env * Session.Event) :=
  [(at_ 21000, Session.Join "s3" "Cid"); (at_ 22000, Session.Join "s4" "Dan")].

(** The server with manual start and stop: Ann and Bob join, Ann asks for
    the game at 1000 (timer 0, due at 3000), the first round starts at
    3000: the drawer is s1, the word is cat; the round timer is 1 (due at
    63000), the state ticker 2 (due at 4000). *)
Definition manualAt (t : Z) : Manual.Env := Manual.mkEnv t 2.

Definition manualFirstRoundTrace : list (Manual.Env * Manual.Event) :=
  [(manualAt 0, Manual.Join "s1" "Ann"); (manualAt 0, Manual.Join "s2" "Bob");
   (manualAt 1000, Manual.StartGame "s1"); (manualAt 3000, Manual.Fire 0%nat)].

Definition manualFirstRound : Manual.State :=
  Manual.run manualFirstRoundTrace Manual.init.

(** Bob guesses the word at 3500: the intermission timer is 3, due at
    8500. *)
Definition manualGuessedTrace : list (Manual.Env * Manual.Event) :=
  manualFirstRoundTrace ++ [(manualAt 3500, Manual.Guess "s2" "" "cat")].

Definition manualGuessed : Manual.State :=
  Manual.run manualGuessedTrace Manual.init.




End Scenario.

(** * Properties of the JavaScript helpers *)

Section StringFacts.

Lemma truthy_true (s : string) : JS.truthy s = true <-> s <> ""%string.
Proof. destruct s; simpl; split; congruence. Qed.

Lemma truthy_false (s : string) : JS.truthy s = false <-> s = ""%string.
Proof. destruct s; simpl; split; congruence. Qed.

Lemma toLowerCase_truthy (s : string) :
  JS.truthy (JS.toLowerCase s) = JS.truthy s.
Proof. destruct s; reflexivity. Qed.

(** A text that equals a non-empty word up to case is not empty. *)
Lemma lower_eq_truthy (g w : string) :
  JS.toLowerCase g = JS.toLowerCase w -> JS.truthy w = true ->
  JS.truthy g = true.
Proof.
  intros Heq Hw. rewrite <- toLowerCase_truthy, Heq, toLowerCase_truthy.
  exact Hw.
Qed.

End StringFacts.

Section ObjFacts.
Context {V : Type}.
Implicit Types (o : JS.obj V) (k : string) (v : V).

Lemma get_set_eq o k v : JS.get k (JS.set k v o) = Some v.
Proof.
  induction o as [|[k' v'] o IH]; simpl.
  - rewrite bool_decide_eq_true_2; done.
  - case_bool_decide as Hk; simpl.
    + rewrite bool_decide_eq_true_2; done.
    + rewrite bool_decide_eq_false_2; done.
Qed.

Lemma get_set_ne o k k' v : k <> k' -> JS.get k' (JS.set k v o) = JS.get k' o.
Proof.
  intros Hne. induction o as [|[k0 v0] o IH]; simpl.
  - rewrite bool_decide_eq_false_2; done.
  - case_bool_decide as Hk; simpl.
    + subst k0. rewrite !bool_decide_eq_false_2; done.
    + case_bool_decide; done.
Qed.

Lemma get_Some_elem_of o k v : JS.get k o = Some v -> (k, v) ∈ o.
Proof.
  induction o as [|[k0 v0] o IH]; simpl; [done|].
  case_bool_decide as Hk.
  - intros [= ->]. subst. left.
  - intros H. right. auto.
Qed.

Lemma get_is_Some o k : is_Some (JS.get k o) <-> k ∈ JS.keys o.
Proof.
  unfold JS.keys. induction o as [|[k0 v0] o IH]; simpl.
  - split; [intros [? [=]] | intros H; inversion H].
  - case_bool_decide as Hk.
    + subst. split; [intros _; left | eauto].
    + rewrite IH. split; [intros H; right; done|].
      intros H. inversion H; subst; done.
Qed.

Lemma get_None o k : JS.get k o = None <-> k ∉ JS.keys o.
Proof. rewrite <- get_is_Some, eq_None_not_Some. done. Qed.

Lemma keys_set_in o k v : k ∈ JS.keys o -> JS.keys (JS.set k v o) = JS.keys o.
Proof.
  unfold JS.keys. induction o as [|[k0 v0] o IH]; simpl.
  - intros H. inversion H.
  - intros H. case_bool_decide as Hk; simpl; [congruence|].
    f_equal. apply IH. inversion H; subst; done.
Qed.

(** A new key goes to the end of the enumeration. *)
Lemma keys_set_new o k v : k ∉ JS.keys o -> JS.keys (JS.set k v o) = JS.keys o ++ [k].
Proof.
  unfold JS.keys. induction o as [|[k0 v0] o IH]; simpl; [done|].
  intros H. case_bool_decide as Hk; simpl.
  - subst. exfalso. apply H. left.
  - f_equal. apply IH. intros Hin. apply H. right. done.
Qed.

Lemma elem_of_keys_set o k k' v :
  k' ∈ JS.keys (JS.set k v o) <-> k' = k \/ k' ∈ JS.keys o.
Proof.
  destruct (decide (k ∈ JS.keys o)) as [Hin|Hout].
  - rewrite keys_set_in by done. split; [auto|]. intros [->|]; done.
  - rewrite keys_set_new by done. rewrite elem_of_app, list_elem_of_singleton.
    tauto.
Qed.

Lemma elem_of_keys_delete o k k' :
  k' ∈ JS.keys (JS.delete k o) -> k' ∈ JS.keys o.
Proof.
  unfold JS.keys. induction o as [|[k0 v0] o IH]; simpl; [done|].
  case_bool_decide as Hk; simpl.
  - intros H. right. done.
  - intros H. inversion H; subst; [left | right; auto].
Qed.

Lemma elem_of_delete o k x : x ∈ JS.delete k o -> x ∈ o.
Proof.
  induction o as [|[k0 v0] o IH]; simpl; [done|].
  case_bool_decide as Hk; simpl.
  - intros H. right. done.
  - intros H. inversion H; subst; [left | right; auto].
Qed.

Lemma elem_of_set o k v x : x ∈ JS.set k v o -> x = (k, v) \/ x ∈ o.
Proof.
  induction o as [|[k0 v0] o IH]; simpl.
  - rewrite list_elem_of_singleton. auto.
  - case_bool_decide as Hk; simpl.
    + intros H. inversion H; subst; [auto | right; right; done].
    + intros H. inversion H; subst; [right; left|].
      destruct (IH ltac:(done)) as [->|?]; [auto | right; right; done].
Qed.

(** The keys of an object are distinct: both updates keep them so. *)
Lemma NoDup_keys_set o k v : NoDup (JS.keys o) -> NoDup (JS.keys (JS.set k v o)).
Proof.
  intros Hnd. destruct (decide (k ∈ JS.keys o)) as [Hin|Hout].
  - rewrite keys_set_in; done.
  - rewrite keys_set_new by done. apply NoDup_app. split; [done|].
    split; [|apply NoDup_singleton].
    intros x Hx Hx'. apply list_elem_of_singleton in Hx'. subst. done.
Qed.

Lemma NoDup_keys_delete o k : NoDup (JS.keys o) -> NoDup (JS.keys (JS.delete k o)).
Proof.
  unfold JS.keys. induction o as [|[k0 v0] o IH]; simpl; [done|].
  intros Hnd. apply NoDup_cons in Hnd as [Hout Hnd].
  case_bool_decide as Hk; simpl; [done|].
  apply NoDup_cons. split; [|auto].
  intros Hin. apply Hout. apply (elem_of_keys_delete o k). done.
Qed.

End ObjFacts.

Section IndexOfFacts.

Lemma indexOfFrom_absent (x : string) (a : list string) (i : Z) :
  x ∉ a -> JS.indexOfFrom i x a = -1.
Proof.
  revert i. induction a as [|y a IH]; intros i Hx; simpl; [done|].
  case_bool_decide as Hy.
  - subst. exfalso. apply Hx. left.
  - apply IH. intros Hin. apply Hx. right. done.
Qed.

Lemma indexOfFrom_lookup (x : string) (a : list string) (i : Z) (k : nat) :
  NoDup a -> a !! k = Some x -> JS.indexOfFrom i x a = i + Z.of_nat k.
Proof.
  revert i k. induction a as [|y a IH]; intros i k Hnd Hk; simpl; [done|].
  apply NoDup_cons in Hnd as [Hy Hnd].
  destruct k as [|k]; simpl in Hk.
  - injection Hk as ->. rewrite bool_decide_eq_true_2 by done. lia.
  - case_bool_decide as Hyx.
    + subst. exfalso. apply Hy. eapply list_elem_of_lookup_2. done.
    + rewrite (IH (i + 1) k) by done. lia.
Qed.

Lemma indexOfFrom_bounds (x : string) (a : list string) (i : Z) :
  0 <= i -> -1 <= JS.indexOfFrom i x a < i + Z.of_nat (length a).
Proof.
  revert i. induction a as [|y a IH]; intros i Hi; simpl; [lia|].
  case_bool_decide; [lia|]. specialize (IH (i + 1)). lia.
Qed.

Lemma indexOf_bounds (x : option string) (a : list string) :
  -1 <= JS.indexOf x a < Z.of_nat (length a).
Proof.
  destruct x as [x|]; simpl; [|lia].
  pose proof (indexOfFrom_bounds x a 0). lia.
Qed.

End IndexOfFacts.

(** * Turn rotation *)

Section Rotation.
Implicit Types (users : JS.obj Name) (afterId : option SocketId).

Lemma getNextDrawer_empty afterId : getNextDrawer [] afterId = None.
Proof. reflexivity. Qed.

Lemma getNextDrawer_absent users afterId :
  (forall id, afterId = Some id -> id ∉ JS.keys users) ->
  getNextDrawer users afterId = head (JS.keys users).
Proof.
  intros Habs. unfold getNextDrawer.
  destruct (JS.keys users) as [|k ks] eqn:Hk; [reflexivity|].
  rewrite bool_decide_eq_false_2 by (simpl; lia).
  assert (JS.indexOf afterId (k :: ks) = -1) as ->.
  { destruct afterId as [id|]; [|reflexivity].
    apply indexOfFrom_absent. apply Habs. reflexivity. }
  reflexivity.
Qed.

Lemma getNextDrawer_successor users (i : nat) (id : SocketId) :
  NoDup (JS.keys users) ->
  JS.keys users !! i = Some id ->
  getNextDrawer users (Some id)
  = JS.keys users !! ((i + 1) mod length (JS.keys users))%nat.
Proof.
  intros Hnd Hi. unfold getNextDrawer.
  pose proof (lookup_lt_Some _ _ _ Hi) as Hlt.
  rewrite bool_decide_eq_false_2 by lia.
  simpl. rewrite (indexOfFrom_lookup id _ 0 i) by done.
  f_equal. rewrite Z.rem_mod_nonneg by lia.
  rewrite <- (Nat2Z.id ((i + 1) mod _)%nat). f_equal.
  rewrite Nat2Z.inj_mod. f_equal. lia.
Qed.

Lemma getNextDrawer_None users afterId :
  getNextDrawer users afterId = None <-> users = [].
Proof.
  split; [|intros ->; reflexivity].
  unfold getNextDrawer. destruct users as [|[k v] users]; [done|].
  rewrite bool_decide_eq_false_2 by (simpl; lia).
  intros Hnone. apply lookup_ge_None in Hnone. exfalso.
  set (ids := JS.keys ((k, v) :: users)) in *.
  assert (0 < length ids)%nat by (subst ids; simpl; lia).
  pose proof (indexOf_bounds afterId ids).
  pose proof (Z.rem_bound_pos (JS.indexOf afterId ids + 1)
                (Z.of_nat (length ids)) ltac:(lia) ltac:(lia)).
  lia.
Qed.

Lemma getNextDrawer_member users afterId (id : SocketId) :
  getNextDrawer users afterId = Some id -> id ∈ JS.keys users.
Proof.
  unfold getNextDrawer. case_bool_decide; [done|].
  intros Hl. eapply list_elem_of_lookup_2. exact Hl.
Qed.

End Rotation.

(** * The leaderboard *)

Section SortFacts.
Context {A : Type} (score : A -> Z).

(** The comparator of [endSession], [(a, b) => b[1] - a[1]], and the order
    it sorts by. *)
Local Abbreviation cmp := (fun a b : A => score b - score a).
Local Abbreviation above := (fun a b : A => score b <= score a).







End SortFacts.

(** * The session server *)

Section SessionLeaderboard.
Import Session.


End SessionLeaderboard.

(** * Timer tables *)

Lemma lookup_cancel {T : Type} (h : option nat) (m : gmap nat T) (k : nat) :
  cancel h m !! k = if decide (h = Some k) then None else m !! k.
Proof.
  unfold cancel. destruct h as [h|]; [|by rewrite decide_False].
  rewrite lookup_delete. destruct (decide (h = k)); subst.
  - by rewrite decide_True.
  - rewrite decide_False; congruence.
Qed.

(** Lookups in the timer table after insertions and deletions. *)
Ltac lookups :=
  repeat match goal with
  | H : context [<[_ := _]> _ !! _] |- _ => rewrite lookup_insert in H
  | H : context [base.delete _ _ !! _] |- _ => rewrite lookup_delete in H
  | H : context [cancel _ _ !! _] |- _ => rewrite lookup_cancel in H
  | |- context [<[_ := _]> _ !! _] => rewrite lookup_insert
  | |- context [base.delete _ _ !! _] => rewrite lookup_delete
  | |- context [cancel _ _ !! _] => rewrite lookup_cancel
  | H : context [decide ?P] |- _ => destruct (decide P); simplify_eq/=
  | |- context [decide ?P] => destruct (decide P); simplify_eq/=
  end.

(** ** The timer discipline *)

Section SessionTimers.
Import Session.

Lemma selectRandomWord_truthy (e : Env) : JS.truthy (selectRandomWord e) = true.
Proof.
  unfold selectRandomWord.
  assert (Forall (fun w => JS.truthy w = true) wordList) as Hall.
  { repeat constructor. }
  destruct (wordList !! _) as [w|] eqn:Hw.
  - simpl. eapply Forall_lookup_1 in Hw; [|exact Hall]. exact Hw.
  - apply lookup_ge_None in Hw.
    pose proof (Nat.mod_upper_bound (random e) (length wordList)) as Hlt.
    simpl in *. lia.
Qed.

(** Uses of the invariant of the state the step starts from. *)
Ltac use_inv I :=
  destruct I as [I1 I2 I3 I4 I5];
  repeat match goal with
  | H : timers _ !! ?h = Some ?t |- _ =>
      lazymatch goal with
      | _ : (h < _)%nat |- _ => fail
      | _ => pose proof (I1 h t H)
      end
  end;
  repeat match goal with
  | H : timers _ !! ?h = Some ?t, C : callback ?t = RoundTimeout |- _ =>
      lazymatch goal with
      | _ : truthyS (currentWord _) = true |- _ => fail
      | _ => destruct (I3 h t H C)
      end
  end;
  repeat match goal with
  | H : timers _ !! ?h = Some ?t, C : callback ?t = CountdownTick ?c |- _ =>
      lazymatch goal with
      | _ : countdownTimer _ = Some h |- _ => fail
      | _ => destruct (I5 h t c H C)
      end
  end;
  repeat match goal with
  | H : roundTimer _ = Some ?h |- _ =>
      lazymatch goal with
      | _ : (h < _)%nat |- _ => fail
      | _ => pose proof (I2 h H)
      end
  end;
  repeat match goal with
  | R : roundTimer _ = Some ?h, H : timers _ !! ?h = Some ?t |- _ =>
      lazymatch goal with
      | _ : callback t = RoundTimeout |- _ => fail
      | _ => pose proof (I4 h t R H)
      end
  end.

Ltac timers_tac I :=
  cbn -[selectRandomWord sortedScores take imap Z.leb]; intros; lookups;
  try done; use_inv I; simplify_eq/=;
  try first [ done | lia | congruence | eauto 6 with lia ].

Lemma Inv_init : Inv init.
Proof. split; cbn; intros; simplify_map_eq. Qed.

Lemma Inv_loopOf (s s' : State) : loopOf s' = loopOf s -> Inv s -> Inv s'.
Proof.
  unfold loopOf. intros [= Ht Hn Hr Hw Hc Hg] [I1 I2 I3 I4 I5].
  split; rewrite ?Ht, ?Hn, ?Hr, ?Hw, ?Hc, ?Hg; assumption.
Qed.

Lemma after_refl (s : State) : after s s.
Proof. split; [lia|]. eauto. Qed.

Lemma after_trans (s1 s2 s3 : State) : after s1 s2 -> after s2 s3 -> after s1 s3.
Proof.
  intros [Hn1 H1] [Hn2 H2]. split; [lia|].
  intros h t3 Ht3 Hh. destruct (H2 h t3 Ht3 ltac:(lia)) as (t2 & Ht2 & Hk2).
  destruct (H1 h t2 Ht2 Hh) as (t1 & Ht1 & Hk1).
  exists t1. split; [done|]. congruence.
Qed.

Lemma after_loopOf (s s' : State) : loopOf s' = loopOf s -> after s s'.
Proof.
  unfold loopOf. intros [= Ht Hn Hr Hw Hc Hg]. split; rewrite ?Ht, ?Hn; [lia|]. eauto.
Qed.

Ltac after_tac :=
  split; cbn -[selectRandomWord sortedScores take imap Z.leb]; [lia|];
  intros; lookups; try done; try lia; eauto.

Lemma startNewRound_Inv (e : Env) (s : State) : Inv s -> Inv (startNewRound e s).
Proof.
  intros I. unfold startNewRound.
  pose proof (selectRandomWord_truthy e).
  cbn -[selectRandomWord]. destruct (getNextDrawer _ _) as [d|];
    [|destruct I; split; assumption].
  split; timers_tac I.
Qed.

Lemma startNewRound_after (e : Env) (s : State) : after s (startNewRound e s).
Proof.
  unfold startNewRound. cbn -[selectRandomWord].
  destruct (getNextDrawer _ _) as [d|]; [|apply after_loopOf; reflexivity].
  after_tac.
Qed.

Lemma endSession_Inv (e : Env) (s : State) : Inv s -> Inv (endSession e s).
Proof.
  intros I. unfold endSession. cbn -[sortedScores take imap].
  destruct (sortedScores (scores s)) as [|[??]?]; split; timers_tac I.
Qed.

Lemma endSession_after (e : Env) (s : State) : after s (endSession e s).
Proof.
  unfold endSession. cbn -[sortedScores take imap].
  destruct (sortedScores (scores s)) as [|[??]?]; after_tac.
Qed.


Lemma Inv_setTimer (cb : Callback) (at_ : Z) (s : State) :
  isRoundTimeout cb = false -> (forall c, cb <> CountdownTick c) ->
  Inv s -> Inv (setTimer cb at_ s).
Proof. intros Hcb Hcd I. split; timers_tac I. exfalso. by eapply Hcd. Qed.

Lemma Inv_clearTimer (h : option nat) (s : State) : Inv s -> Inv (clearTimer h s).
Proof. intros I. split; timers_tac I. Qed.

Lemma after_setTimer (cb : Callback) (at_ : Z) (s : State) : after s (setTimer cb at_ s).
Proof. after_tac. Qed.

Lemma after_clearTimer (h : option nat) (s : State) : after s (clearTimer h s).
Proof. after_tac. Qed.

Lemma endRound_Inv (e : Env) (b : bool) (s : State) : Inv s -> Inv (endRound e b s).
Proof.
  intros I. unfold endRound. cbn -[endSession].
  destruct (currentWord s) as [w|] eqn:Hw; [|split; timers_tac I].
  destruct (JS.truthy w) eqn:Htw; cbn -[endSession]; [|split; timers_tac I].
  destruct (sessionStartTime s); [|split; timers_tac I].
  destruct (_ || _); [split; timers_tac I|].
  destruct (_ <=? 0); [apply endSession_Inv|]; split; timers_tac I.
Qed.

Lemma endRound_after (e : Env) (b : bool) (s : State) : after s (endRound e b s).
Proof.
  unfold endRound. cbn -[endSession].
  destruct (currentWord s) as [w|]; [|after_tac].
  destruct (JS.truthy w); cbn -[endSession]; [|after_tac].
  destruct (sessionStartTime s); [|after_tac].
  destruct (_ || _); [after_tac|].
  destruct (_ <=? 0); [eapply after_trans; [|apply endSession_after]|]; after_tac.
Qed.

Lemma startCountdown_Inv (e : Env) (s : State) :
  gameActive s = false -> Inv s -> Inv (startCountdown e s).
Proof. intros Hg I. unfold startCountdown. split; timers_tac I. Qed.

Lemma startCountdown_after (e : Env) (s : State) : after s (startCountdown e s).
Proof. unfold startCountdown. after_tac. Qed.

Lemma startSession_Inv (e : Env) (s : State) :
  (forall h t c, timers s !! h = Some t -> callback t <> CountdownTick c) ->
  Inv s -> Inv (startSession e s).
Proof.
  intros Hno I. unfold startSession.
  set (s2 := emit _ _ (set_gameActive true (set_sessionStartTime _ s))).
  assert (Inv s2) as I2.
  { subst s2. split; timers_tac I. exfalso. eapply Hno; eauto. }
  apply startNewRound_Inv with (e := e) in I2.
  generalize dependent (startNewRound e s2). intros s3 I3.
  cbv zeta. apply (Inv_loopOf (setTimer SessionTimeout (now e + SESSION_DURATION)
                                 (clearTimer (sessionTimer s3) s3))); [reflexivity|].
  apply Inv_setTimer; [done..|]. by apply Inv_clearTimer.
Qed.

Lemma startSession_after (e : Env) (s : State) : after s (startSession e s).
Proof.
  unfold startSession.
  set (s2 := emit _ _ (set_gameActive true (set_sessionStartTime _ s))).
  assert (after s s2) as A2 by (subst s2; after_tac).
  eapply after_trans; [exact A2|].
  eapply after_trans; [apply (startNewRound_after e)|].
  generalize (startNewRound e s2). intros s3. after_tac.
Qed.

Lemma countdownTick_Inv (e : Env) (c : Z) (s : State) :
  Inv s -> Inv (countdownTick e c s).
Proof.
  intros I. unfold countdownTick. case_match.
  - apply startSession_Inv.
    + cbn. intros h t c0 Hl Hcb. revert Hl. timers_tac I.
    + split; timers_tac I.
  - apply (Inv_loopOf s); [reflexivity|done].
Qed.

Lemma countdownTick_after (e : Env) (c : Z) (s : State) : after s (countdownTick e c s).
Proof.
  unfold countdownTick. case_match.
  - eapply after_trans; [|apply startSession_after]. after_tac.
  - apply after_loopOf. reflexivity.
Qed.

Lemma timerInterval_Inv (e : Env) (h : nat) (s : State) :
  Inv s -> Inv (timerInterval e h s).
Proof.
  intros I. unfold timerInterval. case_match.
  - by apply Inv_clearTimer.
  - apply (Inv_loopOf s); [reflexivity|done].
Qed.

Lemma timerInterval_after (e : Env) (h : nat) (s : State) : after s (timerInterval e h s).
Proof.
  unfold timerInterval. case_match; [apply after_clearTimer|].
  apply after_loopOf. reflexivity.
Qed.

Lemma nextRound_Inv (e : Env) (s : State) : Inv s -> Inv (nextRound e s).
Proof.
  intros I. unfold nextRound.
  repeat case_match; auto using startNewRound_Inv, endSession_Inv.
Qed.

Lemma nextRound_after (e : Env) (s : State) : after s (nextRound e s).
Proof.
  unfold nextRound.
  repeat case_match; auto using startNewRound_after, endSession_after, after_refl.
Qed.

Lemma fire_Inv (e : Env) (h : nat) (s : State) : Inv s -> Inv (fire e h s).
Proof.
  intros I. unfold fire. destruct (timers s !! h) as [t|] eqn:Ht; [|done].
  case_match; [done|]. cbv zeta.
  destruct (callback t) eqn:Hcb.
  - apply countdownTick_Inv. split; timers_tac I.
  - apply endSession_Inv. split; timers_tac I.
  - apply endRound_Inv. split; timers_tac I.
  - apply timerInterval_Inv. split; timers_tac I.
  - apply nextRound_Inv. split; timers_tac I.
  - apply (Inv_loopOf (set_timers (base.delete h (timers s)) s)); [reflexivity|].
    split; timers_tac I.
Qed.

Lemma fire_after (e : Env) (h : nat) (s : State) : after s (fire e h s).
Proof.
  unfold fire. destruct (timers s !! h) as [t|] eqn:Ht; [|apply after_refl].
  case_match; [apply after_refl|]. cbv zeta.
  destruct (callback t) eqn:Hcb.
  - eapply after_trans; [|apply countdownTick_after]. after_tac.
    eexists; split; [done|]. by rewrite Hcb.
  - eapply after_trans; [|apply endSession_after]. after_tac.
  - eapply after_trans; [|apply endRound_after]. after_tac.
  - eapply after_trans; [|apply timerInterval_after]. after_tac.
    eexists; split; [done|]. by rewrite Hcb.
  - eapply after_trans; [|apply nextRound_after]. after_tac.
  - after_tac.
Qed.


Lemma loopOf_emit (t : Target) (m : Msg) (s : State) : loopOf (emit t m s) = loopOf s.
Proof. reflexivity. Qed.
Lemma loopOf_set_users (u : JS.obj string) (s : State) : loopOf (set_users u s) = loopOf s.
Proof. reflexivity. Qed.
Lemma loopOf_set_scores (u : JS.obj Z) (s : State) : loopOf (set_scores u s) = loopOf s.
Proof. reflexivity. Qed.
Lemma loopOf_broadcastUserList (s : State) : loopOf (broadcastUserList s) = loopOf s.
Proof. reflexivity. Qed.
Lemma loopOf_broadcastScores (s : State) : loopOf (broadcastScores s) = loopOf s.
Proof. reflexivity. Qed.
Lemma loopOf_broadcastGameState (e : Env) (s : State) :
  loopOf (broadcastGameState e s) = loopOf s.
Proof. reflexivity. Qed.
Lemma loopOf_initScore (n : string) (s : State) : loopOf (initScore n s) = loopOf s.
Proof. unfold initScore. repeat case_match; reflexivity. Qed.

(** The steps of a handler that leave the timer variables alone. *)
Ltac loop_frame :=
  first [ apply loopOf_emit | apply loopOf_set_users | apply loopOf_set_scores
        | apply loopOf_broadcastUserList | apply loopOf_broadcastScores
        | apply loopOf_broadcastGameState | apply loopOf_initScore ].

Ltac peel :=
  repeat match goal with
  | |- Inv (endSession _ _) => apply endSession_Inv
  | |- Inv (endRound _ _ _) => apply endRound_Inv
  | |- Inv (if _ then _ else _) => case_match
  | |- Inv (match _ with _ => _ end) => case_match
  | |- Inv (_ ?x) => apply (Inv_loopOf x); [loop_frame|]
  | |- after ?x ?x => apply after_refl
  | |- after _ (endSession _ ?x) => apply (after_trans _ x); [|apply endSession_after]
  | |- after _ (endRound _ _ ?x) => apply (after_trans _ x); [|apply endRound_after]
  | |- after _ (startCountdown _ ?x) =>
      apply (after_trans _ x); [|apply startCountdown_after]
  | |- after _ (if _ then _ else _) => case_match
  | |- after _ (match _ with _ => _ end) => case_match
  | |- after _ (_ ?x) => apply (after_trans _ x); [|apply after_loopOf; loop_frame]
  end; try assumption.

Lemma on_guess_Inv (e : Env) (id from text : string) (s : State) :
  Inv s -> Inv (on_guess e id from text s).
Proof. intros I. unfold on_guess. cbv zeta. peel. Qed.

Lemma on_guess_after (e : Env) (id from text : string) (s : State) :
  after s (on_guess e id from text s).
Proof. unfold on_guess. cbv zeta. peel. Qed.

Lemma on_disconnect_Inv (e : Env) (id : string) (s : State) :
  Inv s -> Inv (on_disconnect e id s).
Proof. intros I. unfold on_disconnect. cbv zeta. peel. Qed.

Lemma on_disconnect_after (e : Env) (id : string) (s : State) :
  after s (on_disconnect e id s).
Proof. unfold on_disconnect. cbv zeta. peel. Qed.

Lemma on_leaveGame_Inv (e : Env) (id : string) (s : State) :
  Inv s -> Inv (on_leaveGame e id s).
Proof.
  intros I. unfold on_leaveGame. cbv zeta. apply on_disconnect_Inv. peel.
Qed.

Lemma on_leaveGame_after (e : Env) (id : string) (s : State) :
  after s (on_leaveGame e id s).
Proof.
  unfold on_leaveGame. cbv zeta.
  eapply after_trans; [|apply on_disconnect_after]. peel.
Qed.

Lemma gameActive_emit (t : Target) (m : Msg) (s : State) :
  gameActive (emit t m s) = gameActive s.
Proof. reflexivity. Qed.

Lemma on_join_Inv (e : Env) (id name : string) (s : State) :
  Inv s -> Inv (on_join e id name s).
Proof.
  intros I. unfold on_join. cbv zeta.
  match goal with |- Inv (if ?c then _ else _) => destruct c eqn:Hc end; [|peel].
  apply startCountdown_Inv; [|peel].
  repeat (apply andb_true_iff in Hc as [Hc ?]).
  rewrite gameActive_emit. by apply negb_true_iff.
Qed.

Lemma on_join_after (e : Env) (id name : string) (s : State) :
  after s (on_join e id name s).
Proof. unfold on_join. cbv zeta. peel. Qed.

Lemma step_Inv (e : Env) (ev : Event) (s : State) : Inv s -> Inv (step e ev s).
Proof.
  intros I. destruct ev; simpl.
  - unfold on_connection. cbv zeta. peel.
  - by apply on_join_Inv.
  - by apply on_leaveGame_Inv.
  - unfold on_stroke. peel.
  - unfold on_clear. peel.
  - unfold on_chat. cbv zeta. peel.
  - by apply on_guess_Inv.
  - by apply on_disconnect_Inv.
  - by apply fire_Inv.
Qed.

Lemma step_after (e : Env) (ev : Event) (s : State) : after s (step e ev s).
Proof.
  destruct ev; simpl.
  - unfold on_connection. cbv zeta. peel.
  - apply on_join_after.
  - apply on_leaveGame_after.
  - unfold on_stroke. peel.
  - unfold on_clear. peel.
  - unfold on_chat. cbv zeta. peel.
  - apply on_guess_after.
  - apply on_disconnect_after.
  - apply fire_after.
Qed.

Lemma run_app (tr1 tr2 : list (Env * Event)) (s : State) :
  run (tr1 ++ tr2) s = run tr2 (run tr1 s).
Proof. unfold run. apply foldl_app. Qed.

Lemma run_Inv (tr : list (Env * Event)) (s : State) : Inv s -> Inv (run tr s).
Proof.
  revert s. induction tr as [|[e ev] tr IH]; intros s I; [done|].
  simpl. apply IH. by apply step_Inv.
Qed.

Lemma run_after (tr : list (Env * Event)) (s : State) : after s (run tr s).
Proof.
  revert s. induction tr as [|[e ev] tr IH]; intros s; [apply after_refl|].
  simpl. eapply after_trans; [apply step_after|apply IH].
Qed.

Lemma reachable_Inv (s : State) : reachable s -> Inv s.
Proof. intros [tr ->]. apply run_Inv, Inv_init. Qed.

End SessionTimers.

(** ** Stale round timers *)

Section SessionStale.
Import Session.

Lemma fire_not_pending (e : Env) (h : nat) (s : State) :
  timers s !! h = None -> fire e h s = s.
Proof. intros Hh. unfold fire. by rewrite Hh. Qed.

Lemma fire_not_due (e : Env) (h : nat) (t : Timer) (s : State) :
  timers s !! h = Some t -> now e < due t -> fire e h s = s.
Proof.
  intros Hh Hdue. unfold fire. rewrite Hh.
  destruct (due t <=? now e) eqn:Hle; [apply Z.leb_le in Hle; lia|done].
Qed.

(** A handle that is not pending any more never becomes pending again. *)
Lemma dead_stays_dead (s s' : State) (h : nat) :
  after s s' -> (h < nextHandle s)%nat -> timers s !! h = None ->
  timers s' !! h = None.
Proof.
  intros [_ Ha] Hlt Hdead. destruct (timers s' !! h) as [t'|] eqn:Ht'; [|done].
  destruct (Ha h t' Ht' Hlt) as (t & Ht & _). congruence.
Qed.

(** When the word is cleared, the timer of the round is no longer pending. *)
Lemma round_end_cancels (s s' : State) (h : nat) :
  Inv s -> Inv s' -> after s s' ->
  roundTimer s = Some h -> truthyS (currentWord s') = false ->
  timers s' !! h = None.
Proof.
  intros I I' [_ Ha] Hrt Hword.
  destruct (timers s' !! h) as [t'|] eqn:Ht'; [|done]. exfalso.
  destruct (Ha h t' Ht' (inv_roundTimer_lt s I h Hrt)) as (t & Ht & Hk).
  rewrite (inv_kind s I h t Hrt Ht) in Hk. simpl in Hk.
  assert (callback t' = RoundTimeout) as Hcb by (destruct (callback t'); done).
  destruct (inv_round s' I' h t' Ht' Hcb) as [_ Hw]. congruence.
Qed.

Lemma stale_round_timer_session (tr1 tr2 : list (Env * Event)) (e0 eF : Env)
    (ev0 : Event) (h : nat) :
  let s := run tr1 init in
  let s' := step e0 ev0 s in
  let s'' := run tr2 s' in
  roundTimer s = Some h -> truthyS (currentWord s') = false ->
  timers s'' !! h = None /\ fire eF h s'' = s''.
Proof.
  intros s s' s'' Hrt Hword.
  assert (Inv s) as I by apply run_Inv, Inv_init.
  assert (Inv s') as I' by by apply step_Inv.
  assert (timers s' !! h = None) as Hdead.
  { exact (round_end_cancels s s' h I I' (step_after e0 ev0 s) Hrt Hword). }
  assert (timers s'' !! h = None) as Hdead'.
  { eapply dead_stays_dead; [apply run_after| |exact Hdead].
    pose proof (inv_roundTimer_lt s I h Hrt).
    destruct (step_after e0 ev0 s) as [Hn _]. fold s' in Hn. lia. }
  split; [exact Hdead'|]. by apply fire_not_pending.
Qed.

End SessionStale.

(** ** The guess and chat handlers *)

Section SessionGuess.
Import Session.

Lemma endSession_frame (e : Env) (s : State) :
  users (endSession e s) = users s /\ scores (endSession e s) = scores s
  /\ currentWord (endSession e s) = None
  /\ exists l, outbox (endSession e s) = outbox s ++ l.
Proof.
  unfold endSession. cbn -[sortedScores take imap].
  destruct (sortedScores (scores s)) as [|[??]?]; cbn -[take imap];
    repeat split; rewrite <- ?app_assoc; eauto.
Qed.

Lemma endRound_frame (e : Env) (b : bool) (s : State) :
  users (endRound e b s) = users s /\ scores (endRound e b s) = scores s
  /\ truthyS (currentWord (endRound e b s)) = false.
Proof.
  unfold endRound. cbn -[endSession].
  destruct (currentWord s) as [w|] eqn:Hw; cbn -[endSession];
    [|rewrite ?Hw; done].
  destruct (JS.truthy w) eqn:Htw; cbn -[endSession]; [|rewrite ?Hw; cbn; done].
  destruct (sessionStartTime s); cbn -[endSession]; [|done].
  destruct (_ || _); cbn -[endSession]; [done|].
  destruct (_ <=? 0); cbn -[endSession]; [|done].
  match goal with |- context [endSession e ?x] =>
    destruct (endSession_frame e x) as (Hu & Hs & Hc & _) end.
  rewrite Hu, Hs, Hc. done.
Qed.

(** The announcement of [endRound] for a round in progress. *)
Lemma endRound_emits (e : Env) (b : bool) (s : State) (w : string) :
  currentWord s = Some w -> JS.truthy w = true ->
  currentWord (endRound e b s) = None
  /\ exists rest,
      outbox (endRound e b s)
      = outbox s
          ++ (ToAll, chatMessage "System" (if b then RoundEnded w else TimesUp w))
          :: rest.
Proof.
  intros Hw Htw. unfold endRound. cbn -[endSession]. rewrite Hw, Htw.
  cbn -[endSession].
  destruct (sessionStartTime s); cbn -[endSession]; [|eauto].
  destruct (_ || _); cbn -[endSession]; [eauto|].
  destruct (_ <=? 0); cbn -[endSession]; [|eauto].
  match goal with |- context [endSession e ?x] =>
    destruct (endSession_frame e x) as (_ & _ & Hc & l & Hl) end.
  rewrite Hc, Hl. cbn. rewrite <- app_assoc. eauto.
Qed.


(** The handler on a correct guess. *)
Lemma on_guess_correct (e : Env) (id from text w : string) (s : State) :
  correctGuess s id text w ->
  let player := playerName id from (users s) in
  on_guess e id from text s
  = endRound e true
      (broadcastScores
         (emit ToAll (chatMessage "System" (GuessedCorrectly player (drawerNameOf s)))
            (set_scores (awardDrawer (drawerNameOf s) (award player 10 (scores s)))
               (emit ToAll (chatMessage player (Plain (JS.trim text))) s)))).
Proof.
  intros (Hd & Hg & Hw & Htw & Heq) player. unfold on_guess.
  rewrite (lower_eq_truthy _ _ Heq Htw). cbn [negb].
  rewrite bool_decide_eq_false_2 by congruence.
  cbn -[endRound JS.toLowerCase]. rewrite Hw, Hg, Htw. cbn [negb orb].
  rewrite bool_decide_eq_true_2 by exact Heq. reflexivity.
Qed.


(** The handler on a guess of the drawer. *)
Lemma on_guess_drawer (e : Env) (id from text : string) (s : State) :
  currentDrawer s = Some id ->
  on_guess e id from text s = s
  \/ on_guess e id from text s
     = emit ToAll (chatMessage (playerName id from (users s)) (Plain (JS.trim text))) s.
Proof.
  intros Hd. unfold on_guess.
  destruct (JS.truthy (JS.trim text)); cbn [negb]; [|by left].
  rewrite bool_decide_eq_true_2 by done. by right.
Qed.

Lemma on_guess_empty (e : Env) (id from text : string) (s : State) :
  JS.truthy (JS.trim text) = false -> on_guess e id from text s = s.
Proof. intros Ht. unfold on_guess. by rewrite Ht. Qed.

End SessionGuess.

(** ** Scores *)

Section Scores.
Implicit Types (scores : JS.obj Z) (n : string).

Lemma scoreOf_award_eq scores n d : scoreOf (award n d scores) n = scoreOf scores n + d.
Proof. unfold scoreOf at 1, award. by rewrite get_set_eq. Qed.

Lemma get_award_ne scores n n' d : n <> n' -> JS.get n' (award n d scores) = JS.get n' scores.
Proof. intros Hne. unfold award. by rewrite get_set_ne. Qed.

Lemma scoreOf_award_ne scores n n' d :
  n <> n' -> scoreOf (award n d scores) n' = scoreOf scores n'.
Proof. intros Hne. unfold scoreOf. by rewrite get_award_ne. Qed.

Lemma get_award_eq scores n d : JS.get n (award n d scores) = Some (scoreOf scores n + d).
Proof. unfold award. by rewrite get_set_eq. Qed.

Lemma keys_award scores n n' d : n' ∈ JS.keys scores -> n' ∈ JS.keys (award n d scores).
Proof. intros Hin. unfold award. apply elem_of_keys_set. by right. Qed.

Lemma keys_awardDrawer scores dn n' :
  n' ∈ JS.keys scores -> n' ∈ JS.keys (awardDrawer dn scores).
Proof.
  intros Hin. unfold awardDrawer. destruct dn as [d|]; [|done].
  destruct (JS.truthy d); [|done]. by apply keys_award.
Qed.

End Scores.

(** * The basic server *)

Section BasicGuess.
Import Basic.

Lemma basic_endRound_frame (e : Env) (b : bool) (s : State) :
  users (endRound e b s) = users s /\ scores (endRound e b s) = scores s
  /\ currentDrawer (endRound e b s) = currentDrawer s
  /\ gameActive (endRound e b s) = false.
Proof.
  unfold endRound. cbn. destruct (gameActive s) eqn:Hg; cbn; rewrite ?Hg; done.
Qed.

Lemma basic_endRound_emits (e : Env) (b : bool) (s : State) :
  gameActive s = true ->
  currentWord (endRound e b s) = None
  /\ outbox (endRound e b s)
     = outbox s
         ++ [(ToAll, chatMessage "System"
                       (if b then RoundEnded (currentWord s)
                        else TimesUp (currentWord s)))].
Proof. intros Hg. unfold endRound. cbn. rewrite Hg. cbn. done. Qed.

Lemma basic_on_guess_correct (e : Env) (id from text w : string) (s : State) :
  correctGuess s id text w ->
  let player := playerName id from (users s) in
  on_guess e id from text s
  = endRound e true
      (broadcastScores
         (emit ToAll (chatMessage "System" (GuessedCorrectly player (drawerNameOf s)))
            (set_scores (awardDrawer (drawerNameOf s) (award player 10 (scores s)))
               (emit ToAll (chatMessage player (Plain (JS.trim text))) s)))).
Proof.
  intros (Hd & Hg & Hw & Htw & Heq) player. unfold on_guess.
  rewrite (lower_eq_truthy _ _ Heq Htw). cbn [negb].
  rewrite bool_decide_eq_false_2 by congruence.
  cbn -[endRound JS.toLowerCase]. rewrite Hw, Hg, Htw. cbn [negb orb].
  rewrite bool_decide_eq_true_2 by exact Heq. reflexivity.
Qed.


Lemma basic_on_guess_drawer (e : Env) (id from text : string) (s : State) :
  currentDrawer s = Some id ->
  on_guess e id from text s = s
  \/ on_guess e id from text s
     = emit ToAll (chatMessage (playerName id from (users s)) (Plain (JS.trim text))) s.
Proof.
  intros Hd. unfold on_guess.
  destruct (JS.truthy (JS.trim text)); cbn [negb]; [|by left].
  rewrite bool_decide_eq_true_2 by done. by right.
Qed.

Lemma basic_on_guess_empty (e : Env) (id from text : string) (s : State) :
  JS.truthy (JS.trim text) = false -> on_guess e id from text s = s.
Proof. intros Ht. unfold on_guess. by rewrite Ht. Qed.

End BasicGuess.

(** * Guesses and chat *)

Section SameGame.

Lemma session_sameGame_refl (s : Session.State) : Session.sameGame s s.
Proof. unfold Session.sameGame. by destruct s. Qed.

Lemma session_sameGame_emit (t : Target) (m : Session.Msg) (s : Session.State) :
  Session.sameGame s (Session.emit t m s).
Proof. unfold Session.sameGame. by destruct s. Qed.


Lemma session_sameGame_fields (s s' : Session.State) :
  Session.sameGame s s' ->
  Session.users s' = Session.users s /\ Session.scores s' = Session.scores s
  /\ Session.currentDrawer s' = Session.currentDrawer s
  /\ Session.currentWord s' = Session.currentWord s
  /\ Session.gameActive s' = Session.gameActive s
  /\ Session.timers s' = Session.timers s.
Proof. unfold Session.sameGame. intros <-. done. Qed.

Lemma basic_sameGame_refl (s : Basic.State) : Basic.sameGame s s.
Proof. unfold Basic.sameGame. by destruct s. Qed.

Lemma basic_sameGame_emit (t : Target) (m : Basic.Msg) (s : Basic.State) :
  Basic.sameGame s (Basic.emit t m s).
Proof. unfold Basic.sameGame. by destruct s. Qed.


Lemma basic_sameGame_fields (s s' : Basic.State) :
  Basic.sameGame s s' ->
  Basic.users s' = Basic.users s /\ Basic.scores s' = Basic.scores s
  /\ Basic.currentDrawer s' = Basic.currentDrawer s
  /\ Basic.currentWord s' = Basic.currentWord s
  /\ Basic.gameActive s' = Basic.gameActive s
  /\ Basic.timers s' = Basic.timers s.
Proof. unfold Basic.sameGame. intros <-. done. Qed.

End SameGame.

Section Sent.

Lemma session_sent_app (s s' : Session.State) (l : list (Target * Session.Msg)) :
  Session.outbox s' = Session.outbox s ++ l -> Session.sent s s' = l.
Proof. intros Ho. unfold Session.sent. rewrite Ho. apply drop_app_length. Qed.

Lemma basic_sent_app (s s' : Basic.State) (l : list (Target * Basic.Msg)) :
  Basic.outbox s' = Basic.outbox s ++ l -> Basic.sent s s' = l.
Proof. intros Ho. unfold Basic.sent. rewrite Ho. apply drop_app_length. Qed.

End Sent.

(** ** Who is credited *)

Section Credit.



Lemma scoreOf_awardDrawer (scores : JS.obj Z) (dn : option string) (n : string) :
  scoreOf (awardDrawer dn scores) n
  = scoreOf scores n
    + (if decide (dn = Some n) then if JS.truthy n then 5 else 0 else 0).
Proof.
  unfold awardDrawer. destruct dn as [d|]; [|rewrite decide_False by done; lia].
  destruct (decide (Some d = Some n)) as [[= ->]|Hne].
  - destruct (JS.truthy n); [|lia]. apply scoreOf_award_eq.
  - destruct (JS.truthy d); [|lia]. rewrite scoreOf_award_ne by congruence. lia.
Qed.

Lemma get_awardDrawer_ne (scores : JS.obj Z) (dn : option string) (n : string) :
  dn <> Some n -> JS.get n (awardDrawer dn scores) = JS.get n scores.
Proof.
  intros Hne. unfold awardDrawer. destruct dn as [d|]; [|done].
  destruct (JS.truthy d); [|done]. apply get_award_ne. congruence.
Qed.

End Credit.

Section CreditHandlers.






(** The Score Board after a correct guess. *)
Lemma on_guess_correct_scores (e : Session.Env) (id from text w : string)
    (s : Session.State) :
  Session.correctGuess s id text w ->
  Session.scores (Session.on_guess e id from text s)
  = awardDrawer (Session.drawerNameOf s)
      (award (playerName id from (Session.users s)) 10 (Session.scores s)).
Proof.
  intros Hc. rewrite (on_guess_correct e id from text w s Hc).
  match goal with |- context [Session.endRound e true ?x] =>
    destruct (endRound_frame e true x) as (_ & -> & _) end.
  reflexivity.
Qed.

Lemma basic_on_guess_correct_scores (e : Basic.Env) (id from text w : string)
    (s : Basic.State) :
  Basic.correctGuess s id text w ->
  Basic.scores (Basic.on_guess e id from text s)
  = awardDrawer (Basic.drawerNameOf s)
      (award (playerName id from (Basic.users s)) 10 (Basic.scores s)).
Proof.
  intros Hc. rewrite (basic_on_guess_correct e id from text w s Hc).
  match goal with |- context [Basic.endRound e true ?x] =>
    destruct (basic_endRound_frame e true x) as (_ & -> & _) end.
  reflexivity.
Qed.

End CreditHandlers.

(** ** Correct guesses *)

Section CorrectGuess.



Lemma session_correct_guess (e : Session.Env) (id from text w : string)
    (s : Session.State) :
  Session.correctGuess s id text w ->
  let s' := Session.on_guess e id from text s in
  Session.scores s'
  = awardDrawer (Session.drawerNameOf s)
      (award (playerName id from (Session.users s)) 10 (Session.scores s))
  /\ (ToAll, Session.scoreUpdate (Session.scores s')) ∈ Session.sent s s'
  /\ (ToAll, Session.chatMessage "System" (Session.RoundEnded w)) ∈ Session.sent s s'
  /\ Session.currentWord s' = None.
Proof.
  intros Hc s'.
  pose proof (on_guess_correct_scores e id from text w s Hc) as Hsc. fold s' in Hsc.
  split; [exact Hsc|].
  pose proof (on_guess_correct e id from text w s Hc) as Heq. fold s' in Heq.
  cbv zeta in Heq. destruct Hc as (_ & _ & Hw & Htw & _).
  match type of Heq with _ = Session.endRound e true ?x =>
    destruct (endRound_emits e true x w Hw Htw) as (Hnone & rest & Hout) end.
  rewrite <- Heq in Hnone, Hout. cbn in Hout. rewrite <- !app_assoc in Hout.
  rewrite (session_sent_app _ _ _ Hout), Hsc.
  split; [|split; [|exact Hnone]]; cbn; set_solver.
Qed.

Lemma basic_correct_guess (e : Basic.Env) (id from text w : string)
    (s : Basic.State) :
  Basic.correctGuess s id text w ->
  let s' := Basic.on_guess e id from text s in
  Basic.scores s'
  = awardDrawer (Basic.drawerNameOf s)
      (award (playerName id from (Basic.users s)) 10 (Basic.scores s))
  /\ (ToAll, Basic.scoreUpdate (Basic.scores s')) ∈ Basic.sent s s'
  /\ (ToAll, Basic.chatMessage "System" (Basic.RoundEnded (Some w))) ∈ Basic.sent s s'
  /\ Basic.currentWord s' = None /\ Basic.gameActive s' = false.
Proof.
  intros Hc s'.
  pose proof (basic_on_guess_correct_scores e id from text w s Hc) as Hsc.
  fold s' in Hsc. split; [exact Hsc|].
  pose proof (basic_on_guess_correct e id from text w s Hc) as Heq. fold s' in Heq.
  cbv zeta in Heq. destruct Hc as (_ & Hg & Hw & Htw & _).
  match type of Heq with _ = Basic.endRound e true ?x =>
    destruct (basic_endRound_emits e true x Hg) as (Hnone & Hout);
    destruct (basic_endRound_frame e true x) as (_ & _ & _ & Hga) end.
  rewrite <- Heq in Hnone, Hout, Hga. cbn in Hout. rewrite Hw in Hout.
  rewrite <- !app_assoc in Hout.
  rewrite (basic_sent_app _ _ _ Hout), Hsc.
  split; [|split; [|split; [exact Hnone|exact Hga]]]; cbn; set_solver.
Qed.

End CorrectGuess.

(** ** The timer discipline of the basic server *)

Section BasicTimers.
Import Basic.

Lemma basic_selectRandomWord_truthy (e : Env) : JS.truthy (selectRandomWord e) = true.
Proof.
  unfold selectRandomWord.
  assert (Forall (fun w => JS.truthy w = true) wordList) as Hall.
  { repeat constructor. }
  destruct (wordList !! _) as [w|] eqn:Hw.
  - simpl. eapply Forall_lookup_1 in Hw; [|exact Hall]. exact Hw.
  - apply lookup_ge_None in Hw.
    pose proof (Nat.mod_upper_bound (random e) (length wordList)) as Hlt.
    simpl in *. lia.
Qed.

Ltac use_inv I :=
  destruct I as [I1 I2 I3 I4];
  repeat match goal with
  | H : timers _ !! ?h = Some ?t |- _ =>
      lazymatch goal with
      | _ : (h < _)%nat |- _ => fail
      | _ => pose proof (I1 h t H)
      end
  end;
  repeat match goal with
  | H : timers _ !! ?h = Some ?t, C : callback ?t = RoundTimeout |- _ =>
      destruct (I3 h t H C) as (? & ? & ?); revert C
  end;
  intros;
  repeat match goal with
  | H : roundTimer _ = Some ?h |- _ =>
      lazymatch goal with
      | _ : (h < _)%nat |- _ => fail
      | _ => pose proof (I2 h H)
      end
  end;
  repeat match goal with
  | R : roundTimer _ = Some ?h, H : timers _ !! ?h = Some ?t |- _ =>
      lazymatch goal with
      | _ : callback t = RoundTimeout |- _ => fail
      | _ => pose proof (I4 h t R H)
      end
  end.

Ltac timers_tac I :=
  cbn -[selectRandomWord]; intros; lookups;
  try done; use_inv I; simplify_eq/=;
  try first [ done | lia | congruence | eauto 6 with lia ].

Ltac after_tac :=
  split; cbn -[selectRandomWord]; [lia|];
  intros; lookups; try done; try lia; eauto.

Lemma basic_Inv_init : Inv init.
Proof. split; cbn; intros; simplify_map_eq. Qed.

Lemma basic_Inv_loopOf (s s' : State) : loopOf s' = loopOf s -> Inv s -> Inv s'.
Proof.
  unfold loopOf. intros [= Ht Hn Hr Hg Hu] [I1 I2 I3 I4].
  split; rewrite ?Ht, ?Hn, ?Hr, ?Hg, ?Hu; assumption.
Qed.

Lemma basic_after_refl (s : State) : after s s.
Proof. split; [lia|]. eauto. Qed.

Lemma basic_after_trans (s1 s2 s3 : State) : after s1 s2 -> after s2 s3 -> after s1 s3.
Proof.
  intros [Hn1 H1] [Hn2 H2]. split; [lia|].
  intros h t3 Ht3 Hh. destruct (H2 h t3 Ht3 ltac:(lia)) as (t2 & Ht2 & Hk2).
  destruct (H1 h t2 Ht2 Hh) as (t1 & Ht1 & Hk1).
  exists t1. split; [done|]. congruence.
Qed.

Lemma basic_after_loopOf (s s' : State) : loopOf s' = loopOf s -> after s s'.
Proof.
  unfold loopOf. intros [= Ht Hn Hr Hg Hu]. split; rewrite ?Ht, ?Hn; [lia|]. eauto.
Qed.

Lemma basic_startNewRound_Inv (e : Env) (s : State) : Inv s -> Inv (startNewRound e s).
Proof.
  intros I. unfold startNewRound. cbn -[selectRandomWord].
  destruct (getNextDrawer _ _) as [d|] eqn:Hd.
  - assert (users s <> []) as Hne.
    { intros Hu. rewrite Hu in Hd. discriminate. }
    split; timers_tac I.
  - apply getNextDrawer_None in Hd. split; timers_tac I.
Qed.

Lemma basic_startNewRound_after (e : Env) (s : State) : after s (startNewRound e s).
Proof.
  unfold startNewRound. cbn -[selectRandomWord].
  destruct (getNextDrawer _ _) as [d|]; after_tac.
Qed.

Lemma basic_endRound_Inv (e : Env) (b : bool) (s : State) : Inv s -> Inv (endRound e b s).
Proof.
  intros I. unfold endRound. cbn. destruct (gameActive s) eqn:Hg; cbn;
    split; timers_tac I.
Qed.

Lemma basic_endRound_after (e : Env) (b : bool) (s : State) : after s (endRound e b s).
Proof. unfold endRound. cbn. destruct (gameActive s); cbn; after_tac. Qed.

(** After [endRound] no round timeout is pending. *)
Lemma basic_endRound_clears (e : Env) (b : bool) (s : State) (h : nat) (t : Timer) :
  Inv s -> timers (endRound e b s) !! h = Some t -> callback t <> RoundTimeout.
Proof.
  intros I. unfold endRound. cbn. destruct (gameActive s) eqn:Hg; cbn;
    intros Hl Hcb; revert Hl; timers_tac I.
Qed.

Lemma basic_nextRound_Inv (e : Env) (s : State) : Inv s -> Inv (nextRound e s).
Proof. intros I. unfold nextRound. case_match; auto using basic_startNewRound_Inv. Qed.

Lemma basic_nextRound_after (e : Env) (s : State) : after s (nextRound e s).
Proof.
  unfold nextRound.
  case_match; auto using basic_startNewRound_after, basic_after_refl.
Qed.

Lemma basic_fire_Inv (e : Env) (h : nat) (s : State) : Inv s -> Inv (fire e h s).
Proof.
  intros I. unfold fire. destruct (timers s !! h) as [t|] eqn:Ht; [|done].
  case_match; [done|]. cbv zeta.
  destruct (callback t) eqn:Hcb.
  - apply basic_startNewRound_Inv. split; timers_tac I.
  - apply basic_endRound_Inv. split; timers_tac I.
  - apply basic_nextRound_Inv. split; timers_tac I.
Qed.

Lemma basic_fire_after (e : Env) (h : nat) (s : State) : after s (fire e h s).
Proof.
  unfold fire. destruct (timers s !! h) as [t|] eqn:Ht; [|apply basic_after_refl].
  case_match; [apply basic_after_refl|]. cbv zeta.
  destruct (callback t) eqn:Hcb.
  - eapply basic_after_trans; [|apply basic_startNewRound_after]. after_tac.
  - eapply basic_after_trans; [|apply basic_endRound_after]. after_tac.
  - eapply basic_after_trans; [|apply basic_nextRound_after]. after_tac.
Qed.

Lemma basic_loopOf_emit (t : Target) (m : Msg) (s : State) : loopOf (emit t m s) = loopOf s.
Proof. reflexivity. Qed.
Lemma basic_loopOf_set_scores (u : JS.obj Z) (s : State) : loopOf (set_scores u s) = loopOf s.
Proof. reflexivity. Qed.
Lemma basic_loopOf_broadcastUserList (s : State) : loopOf (broadcastUserList s) = loopOf s.
Proof. reflexivity. Qed.
Lemma basic_loopOf_broadcastScores (s : State) : loopOf (broadcastScores s) = loopOf s.
Proof. reflexivity. Qed.
Lemma basic_loopOf_broadcastGameState (s : State) : loopOf (broadcastGameState s) = loopOf s.
Proof. reflexivity. Qed.
Lemma basic_loopOf_initScore (n : string) (s : State) : loopOf (initScore n s) = loopOf s.
Proof. unfold initScore. repeat case_match; reflexivity. Qed.

Ltac loop_frame :=
  first [ apply basic_loopOf_emit | apply basic_loopOf_set_scores
        | apply basic_loopOf_broadcastUserList | apply basic_loopOf_broadcastScores
        | apply basic_loopOf_broadcastGameState | apply basic_loopOf_initScore ].

Lemma basic_after_set_users (u : JS.obj string) (s : State) : after s (set_users u s).
Proof. after_tac. Qed.

Lemma basic_after_setTimer (cb : Callback) (at_ : Z) (s : State) : after s (setTimer cb at_ s).
Proof. after_tac. Qed.

Ltac peel :=
  repeat match goal with
  | |- Inv (endRound _ _ _) => apply basic_endRound_Inv
  | |- Inv (if _ then _ else _) => case_match
  | |- Inv (match _ with _ => _ end) => case_match
  | |- Inv (_ ?x) => apply (basic_Inv_loopOf x); [loop_frame|]
  | |- after ?x ?x => apply basic_after_refl
  | |- after _ (endRound _ _ ?x) =>
      apply (basic_after_trans _ x); [|apply basic_endRound_after]
  | |- after _ (set_users _ ?x) =>
      apply (basic_after_trans _ x); [|apply basic_after_set_users]
  | |- after _ (setTimer _ _ ?x) =>
      apply (basic_after_trans _ x); [|apply basic_after_setTimer]
  | |- after _ (if _ then _ else _) => case_match
  | |- after _ (match _ with _ => _ end) => case_match
  | |- after _ (_ ?x) =>
      apply (basic_after_trans _ x); [|apply basic_after_loopOf; loop_frame]
  end; try assumption.

Lemma basic_on_guess_Inv (e : Env) (id from text : string) (s : State) :
  Inv s -> Inv (on_guess e id from text s).
Proof. intros I. unfold on_guess. cbv zeta. peel. Qed.

Lemma basic_on_guess_after (e : Env) (id from text : string) (s : State) :
  after s (on_guess e id from text s).
Proof. unfold on_guess. cbv zeta. peel. Qed.

Lemma set_nonempty {V : Type} (k : string) (v : V) (o : JS.obj V) : JS.set k v o <> [].
Proof. destruct o as [|[k' v'] o]; simpl; [done|]. by case_bool_decide. Qed.

Lemma basic_on_join_Inv (e : Env) (id name : string) (s : State) :
  Inv s -> Inv (on_join e id name s).
Proof.
  intros I. unfold on_join. cbv zeta.
  set (n := if JS.truthy (JS.trim name) then JS.trim name else fallbackName id).
  assert (Inv (set_users (JS.set id n (users s)) s)) as J1.
  { pose proof (set_nonempty id n (users s)). split; timers_tac I. }
  generalize dependent (set_users (JS.set id n (users s)) s). intros s1 J1.
  assert (Inv (emit (ToOthers id) (chatMessage "System" (Joined n))
                 (emit (ToSocket id) (chatMessage "System" (Welcome n))
                    (broadcastScores (broadcastUserList (initScore n s1)))))) as J2
    by peel.
  generalize dependent (emit (ToOthers id) (chatMessage "System" (Joined n))
                 (emit (ToSocket id) (chatMessage "System" (Welcome n))
                    (broadcastScores (broadcastUserList (initScore n s1))))).
  intros s2 J2. case_match; [|done]. split; timers_tac J2.
Qed.

Lemma basic_on_join_after (e : Env) (id name : string) (s : State) :
  after s (on_join e id name s).
Proof. unfold on_join. cbv zeta. peel. Qed.

Lemma basic_on_disconnect_Inv (e : Env) (id : string) (s : State) :
  Inv s -> Inv (on_disconnect e id s).
Proof.
  intros I. unfold on_disconnect. cbv zeta.
  destruct (JS.get id (users s)) as [name|]; [|done].
  destruct (negb (JS.truthy name)); [done|].
  set (s1 := if bool_decide (Some id = currentDrawer s) then _ else _).
  assert (Inv s1) as J1 by (subst s1; peel).
  generalize dependent s1. intros s1 J1.
  set (s2 := broadcastUserList (set_users (JS.delete id (users s1)) s1)).
  destruct (bool_decide (length (JS.keys (users s2)) < 2)%nat && gameActive s2) eqn:Hc.
  - apply (basic_Inv_loopOf (endRound e false s2)); [apply basic_loopOf_emit|].
    unfold endRound. cbn. destruct (gameActive s1) eqn:Hg; cbn; split; timers_tac J1.
  - subst s2. cbn in Hc.
    assert (gameActive s1 = true -> JS.delete id (users s1) <> []) as Hne.
    { intros Hg. rewrite Hg, andb_true_r in Hc. apply bool_decide_eq_false in Hc.
      destruct (JS.delete id (users s1)); [simpl in Hc; lia|done]. }
    split; timers_tac J1.
Qed.

Lemma basic_on_disconnect_after (e : Env) (id : string) (s : State) :
  after s (on_disconnect e id s).
Proof. unfold on_disconnect. cbv zeta. peel. Qed.

Lemma basic_step_Inv (e : Env) (ev : Event) (s : State) : Inv s -> Inv (step e ev s).
Proof.
  intros I. destruct ev; simpl.
  - unfold on_connection. cbv zeta. peel.
  - by apply basic_on_join_Inv.
  - unfold on_stroke. peel.
  - unfold on_clear. peel.
  - unfold on_chat. cbv zeta. peel.
  - by apply basic_on_guess_Inv.
  - by apply basic_on_disconnect_Inv.
  - by apply basic_fire_Inv.
Qed.

Lemma basic_step_after (e : Env) (ev : Event) (s : State) : after s (step e ev s).
Proof.
  destruct ev; simpl.
  - unfold on_connection. cbv zeta. peel.
  - apply basic_on_join_after.
  - unfold on_stroke. peel.
  - unfold on_clear. peel.
  - unfold on_chat. cbv zeta. peel.
  - apply basic_on_guess_after.
  - apply basic_on_disconnect_after.
  - apply basic_fire_after.
Qed.

Lemma basic_run_Inv (tr : list (Env * Event)) (s : State) : Inv s -> Inv (run tr s).
Proof.
  revert s. induction tr as [|[e ev] tr IH]; intros s I; [done|].
  simpl. apply IH. by apply basic_step_Inv.
Qed.

Lemma basic_run_after (tr : list (Env * Event)) (s : State) : after s (run tr s).
Proof.
  revert s. induction tr as [|[e ev] tr IH]; intros s; [apply basic_after_refl|].
  simpl. eapply basic_after_trans; [apply basic_step_after|apply IH].
Qed.

Lemma basic_reachable_Inv (s : State) : reachable s -> Inv s.
Proof. intros [tr ->]. apply basic_run_Inv, basic_Inv_init. Qed.

End BasicTimers.

(** * Rounds and their timers *)

Section RoundEnds.

Lemma basic_fire_not_pending (e : Basic.Env) (h : nat) (s : Basic.State) :
  Basic.timers s !! h = None -> Basic.fire e h s = s.
Proof. intros Hh. unfold Basic.fire. by rewrite Hh. Qed.

Lemma basic_dead_stays_dead (s s' : Basic.State) (h : nat) :
  Basic.after s s' -> (h < Basic.nextHandle s)%nat -> Basic.timers s !! h = None ->
  Basic.timers s' !! h = None.
Proof.
  intros [_ Ha] Hlt Hdead.
  destruct (Basic.timers s' !! h) as [t'|] eqn:Ht'; [|done].
  destruct (Ha h t' Ht' Hlt) as (t & Ht & _). congruence.
Qed.

Lemma basic_round_end_cancels (s s' : Basic.State) (h : nat) :
  Basic.Inv s -> Basic.Inv s' -> Basic.after s s' ->
  Basic.roundTimer s = Some h -> Basic.gameActive s' = false ->
  Basic.timers s' !! h = None.
Proof.
  intros I I' [_ Ha] Hrt Hg.
  destruct (Basic.timers s' !! h) as [t'|] eqn:Ht'; [|done]. exfalso.
  destruct (Ha h t' Ht' (Basic.inv_roundTimer_lt s I h Hrt)) as (t & Ht & Hk).
  rewrite (Basic.inv_kind s I h t Hrt Ht) in Hk. simpl in Hk.
  assert (Basic.callback t' = Basic.RoundTimeout) as Hcb
      by (destruct (Basic.callback t'); done).
  destruct (Basic.inv_round s' I' h t' Ht' Hcb) as (_ & Hg' & _). congruence.
Qed.

Lemma stale_round_timer_basic (tr1 tr2 : list (Basic.Env * Basic.Event))
    (e0 eF : Basic.Env) (ev0 : Basic.Event) (h : nat) :
  let s := Basic.run tr1 Basic.init in
  let s' := Basic.step e0 ev0 s in
  let s'' := Basic.run tr2 s' in
  Basic.roundTimer s = Some h -> Basic.gameActive s' = false ->
  Basic.timers s'' !! h = None /\ Basic.fire eF h s'' = s''.
Proof.
  intros s s' s'' Hrt Hg.
  assert (Basic.Inv s) as I by apply basic_run_Inv, basic_Inv_init.
  assert (Basic.Inv s') as I' by by apply basic_step_Inv.
  assert (Basic.timers s' !! h = None) as Hdead.
  { exact (basic_round_end_cancels s s' h I I' (basic_step_after e0 ev0 s) Hrt Hg). }
  assert (Basic.timers s'' !! h = None) as Hdead'.
  { eapply basic_dead_stays_dead; [apply basic_run_after| |exact Hdead].
    pose proof (Basic.inv_roundTimer_lt s I h Hrt).
    destruct (basic_step_after e0 ev0 s) as [Hn _]. fold s' in Hn. lia. }
  split; [exact Hdead'|]. by apply basic_fire_not_pending.
Qed.

(** The three ways a round ends leave no word (session server). *)
Lemma session_round_ends (e : Session.Env) (s : Session.State) :
  (forall id from text w,
      Session.correctGuess s id text w ->
      Session.truthyS (Session.currentWord (Session.step e (Session.Guess id from text) s))
      = false)
  /\ (forall h t,
      Session.timers s !! h = Some t -> Session.callback t = Session.RoundTimeout ->
      Session.due t <= Session.now e ->
      Session.truthyS (Session.currentWord (Session.step e (Session.Fire h) s)) = false)
  /\ (forall id name,
      Session.currentDrawer s = Some id -> Session.gameActive s = true ->
      JS.get id (Session.users s) = Some name -> JS.truthy name = true ->
      Session.truthyS (Session.currentWord (Session.step e (Session.Disconnect id) s))
      = false).
Proof.
  split; [|split].
  - intros id from text w Hc. unfold Session.step, Basic.step.
    destruct (session_correct_guess e id from text w s Hc) as (_ & _ & _ & Hn).
    rewrite Hn. reflexivity.
  - intros h t Ht Hcb Hdue. unfold Session.step, Session.fire. rewrite Ht, Hcb.
    apply Z.leb_le in Hdue. rewrite Hdue. cbn [negb].
    apply endRound_frame.
  - intros id name Hd Hg Hn Htn. unfold Session.step, Session.on_disconnect.
    rewrite Hn, Htn, Hd, Hg. cbn [negb andb].
    rewrite (bool_decide_eq_true_2 (Some id = Some id)) by done. cbv zeta.
    match goal with |- context [Session.endRound e false ?x] =>
      pose proof (endRound_frame e false x) as (_ & _ & Hw) end.
    case_match.
    + match goal with |- context [Session.endSession e ?x] =>
        destruct (endSession_frame e x) as (_ & _ & -> & _) end. reflexivity.
    + exact Hw.
Qed.

(** The three ways a round ends leave no round active (basic server). *)
Lemma basic_round_ends (e : Basic.Env) (s : Basic.State) :
  (forall id from text w,
      Basic.correctGuess s id text w ->
      Basic.gameActive (Basic.step e (Basic.Guess id from text) s) = false)
  /\ (forall h t,
      Basic.timers s !! h = Some t -> Basic.callback t = Basic.RoundTimeout ->
      Basic.due t <= Basic.now e ->
      Basic.gameActive (Basic.step e (Basic.Fire h) s) = false)
  /\ (forall id name,
      Basic.currentDrawer s = Some id ->
      JS.get id (Basic.users s) = Some name -> JS.truthy name = true ->
      Basic.gameActive (Basic.step e (Basic.Disconnect id) s) = false).
Proof.
  split; [|split].
  - intros id from text w Hc. unfold Session.step, Basic.step.
    by destruct (basic_correct_guess e id from text w s Hc) as (_ & _ & _ & _ & ->).
  - intros h t Ht Hcb Hdue. unfold Basic.step, Basic.fire. rewrite Ht, Hcb.
    apply Z.leb_le in Hdue. rewrite Hdue. cbn [negb].
    apply basic_endRound_frame.
  - intros id name Hd Hn Htn. unfold Basic.step, Basic.on_disconnect.
    rewrite Hn, Htn, Hd. cbn [negb].
    rewrite (bool_decide_eq_true_2 (Some id = Some id)) by done. cbv zeta.
    match goal with |- context [Basic.endRound e false ?x] =>
      pose proof (basic_endRound_frame e false x) as (_ & _ & _ & Hg) end.
    cbn -[Basic.endRound]. rewrite Hg, andb_false_r. cbn -[Basic.endRound]. exact Hg.
Qed.

End RoundEnds.

(** ** What ending a round clears *)

Section EndRoundClears.

Lemma endRound_drawer (e : Session.Env) (b : bool) (s : Session.State) :
  Session.currentDrawer (Session.endRound e b s) = Session.currentDrawer s
  \/ (Session.currentDrawer (Session.endRound e b s) = None
      /\ Session.gameActive s = true
      /\ Session.gameActive (Session.endRound e b s) = false
      /\ exists t, Session.sessionStartTime s = Some t
                   /\ Session.SESSION_DURATION <= Session.now e - t).
Proof.
  unfold Session.endRound. cbn -[Session.endSession].
  destruct (Session.currentWord s) as [w|]; cbn -[Session.endSession]; [|by left].
  destruct (JS.truthy w); cbn -[Session.endSession]; [|by left].
  destruct (Session.sessionStartTime s) as [t|] eqn:Ht; cbn -[Session.endSession];
    [|by left].
  destruct (Session.gameActive s) eqn:Hg; cbn -[Session.endSession]; [|by left].
  destruct (negb (t =? 0)); cbn -[Session.endSession]; [|by left].
  destruct (_ <=? 0) eqn:Hle; cbn -[Session.endSession]; [|by left].
  right. apply Z.leb_le in Hle.
  split; [|split; [done|split]].
  - unfold Session.endSession. cbn -[Session.sortedScores take imap].
    by destruct (Session.sortedScores _) as [|[??]?].
  - unfold Session.endSession. cbn -[Session.sortedScores take imap].
    by destruct (Session.sortedScores _) as [|[??]?].
  - exists t. split; [done|]. lia.
Qed.

(** A round in progress: [endRound] clears its word and its times. *)
Lemma endRound_clears_round (e : Session.Env) (b : bool) (s : Session.State)
    (w : string) :
  Session.currentWord s = Some w -> JS.truthy w = true ->
  Session.currentWord (Session.endRound e b s) = None
  /\ Session.roundStartTime (Session.endRound e b s) = None
  /\ Session.roundEndTime (Session.endRound e b s) = None
  /\ Session.roundTimer (Session.endRound e b s) = None.
Proof.
  intros Hw Htw. unfold Session.endRound. cbn -[Session.endSession].
  rewrite Hw, Htw. cbn -[Session.endSession].
  destruct (Session.sessionStartTime s); cbn -[Session.endSession]; [|done].
  destruct (_ || _); cbn -[Session.endSession]; [done|].
  destruct (_ <=? 0); cbn -[Session.endSession]; [|done].
  unfold Session.endSession. cbn -[Session.sortedScores take imap].
  by destruct (Session.sortedScores _) as [|[??]?].
Qed.

(** At most one round timeout is pending. *)
Lemma session_one_round_timer (s : Session.State) (h1 h2 : nat) (t1 t2 : Session.Timer) :
  Session.reachable s ->
  Session.timers s !! h1 = Some t1 -> Session.callback t1 = Session.RoundTimeout ->
  Session.timers s !! h2 = Some t2 -> Session.callback t2 = Session.RoundTimeout ->
  h1 = h2 /\ Session.roundTimer s = Some h1.
Proof.
  intros Hr H1 C1 H2 C2. apply reachable_Inv in Hr.
  destruct (Session.inv_round s Hr h1 t1 H1 C1) as [R1 _].
  destruct (Session.inv_round s Hr h2 t2 H2 C2) as [R2 _].
  split; [congruence|done].
Qed.

Lemma basic_one_round_timer (s : Basic.State) (h1 h2 : nat) (t1 t2 : Basic.Timer) :
  Basic.reachable s ->
  Basic.timers s !! h1 = Some t1 -> Basic.callback t1 = Basic.RoundTimeout ->
  Basic.timers s !! h2 = Some t2 -> Basic.callback t2 = Basic.RoundTimeout ->
  h1 = h2 /\ Basic.roundTimer s = Some h1.
Proof.
  intros Hr H1 C1 H2 C2. apply basic_reachable_Inv in Hr.
  destruct (Basic.inv_round s Hr h1 t1 H1 C1) as [R1 _].
  destruct (Basic.inv_round s Hr h2 t2 H2 C2) as [R2 _].
  split; [congruence|done].
Qed.

End EndRoundClears.

(** * The intermission *)

Section Intermission.

Lemma startNewRound_starts (e : Session.Env) (s : Session.State) :
  Session.users s <> [] ->
  Session.truthyS (Session.currentWord (Session.startNewRound e s)) = true
  /\ Session.users (Session.startNewRound e s) = Session.users s.
Proof.
  intros Hne. unfold Session.startNewRound. cbn -[Session.selectRandomWord].
  destruct (getNextDrawer _ _) as [d|] eqn:Hd.
  - cbn -[Session.selectRandomWord]. split; [apply selectRandomWord_truthy|done].
  - by apply getNextDrawer_None in Hd.
Qed.

Lemma length_keys_nonempty {V : Type} (o : JS.obj V) :
  (1 <= length (JS.keys o))%nat <-> o <> [].
Proof. destruct o; simpl; split; intros; try done; lia. Qed.

(** The callback of the intermission starts a round exactly when the
    roster has at least one participant and the session is active. *)
Lemma nextRound_starts_iff (e : Session.Env) (s : Session.State) :
  Session.truthyS (Session.currentWord s) = false ->
  Session.truthyS (Session.currentWord (Session.nextRound e s)) = true
  <-> (1 <= length (JS.keys (Session.users s)))%nat /\ Session.gameActive s = true.
Proof.
  intros Hw. unfold Session.nextRound.
  case_bool_decide as Hlen; cbn [andb].
  - destruct (Session.gameActive s) eqn:Hg.
    + split; [done|]. intros _. apply startNewRound_starts.
      by apply length_keys_nonempty.
    + rewrite bool_decide_eq_false_2 by lia. rewrite Hw. split; [done|].
      by intros [_ ?].
  - rewrite bool_decide_eq_true_2 by lia.
    destruct (endSession_frame e s) as (_ & _ & -> & _). cbn.
    split; [done|]. intros [? _]. lia.
Qed.

Lemma endRound_schedules (e : Session.Env) (b : bool) (s : Session.State)
    (w : string) (t : Z) :
  Session.currentWord s = Some w -> JS.truthy w = true ->
  Session.gameActive s = true -> Session.sessionStartTime s = Some t -> t <> 0 ->
  Session.now e - t < Session.SESSION_DURATION ->
  Session.timers (Session.endRound e b s)
  = <[Session.nextHandle s := Session.mkTimer Session.NextRound (Session.now e + 5000)]>
      (cancel (Session.roundTimer s) (Session.timers s))
  /\ Session.gameActive (Session.endRound e b s) = true
  /\ Session.currentWord (Session.endRound e b s) = None.
Proof.
  intros Hw Htw Hg Ht Ht0 Hrem. unfold Session.endRound. cbn -[Session.endSession].
  rewrite Hw, Htw, Ht, Hg. cbn -[Session.endSession].
  destruct (t =? 0) eqn:H0; [apply Z.eqb_eq in H0; done|]. cbn -[Session.endSession].
  destruct (_ <=? 0) eqn:Hle; [apply Z.leb_le in Hle; lia|].
  cbn. by rewrite Hg.
Qed.

Lemma fire_NextRound (e : Session.Env) (h : nat) (t : Session.Timer) (s : Session.State) :
  Session.timers s !! h = Some t -> Session.callback t = Session.NextRound ->
  (Session.now e < Session.due t -> Session.fire e h s = s)
  /\ (Session.due t <= Session.now e ->
      Session.fire e h s
      = Session.nextRound e
          (Session.set_timers (base.delete h (Session.timers s)) s)).
Proof.
  intros Ht Hcb. split.
  - intros Hdue. by apply fire_not_due with t.
  - intros Hdue. unfold Session.fire. rewrite Ht, Hcb.
    apply Z.leb_le in Hdue. by rewrite Hdue.
Qed.

(** No handler but the timers makes a word appear. *)
Lemma word_emit (t : Target) (m : Session.Msg) (s : Session.State) :
  Session.currentWord (Session.emit t m s) = Session.currentWord s.
Proof. reflexivity. Qed.
Lemma word_set_users (u : JS.obj string) (s : Session.State) :
  Session.currentWord (Session.set_users u s) = Session.currentWord s.
Proof. reflexivity. Qed.
Lemma word_set_scores (u : JS.obj Z) (s : Session.State) :
  Session.currentWord (Session.set_scores u s) = Session.currentWord s.
Proof. reflexivity. Qed.
Lemma word_broadcastUserList (s : Session.State) :
  Session.currentWord (Session.broadcastUserList s) = Session.currentWord s.
Proof. reflexivity. Qed.
Lemma word_broadcastScores (s : Session.State) :
  Session.currentWord (Session.broadcastScores s) = Session.currentWord s.
Proof. reflexivity. Qed.
Lemma word_broadcastGameState (e : Session.Env) (s : Session.State) :
  Session.currentWord (Session.broadcastGameState e s) = Session.currentWord s.
Proof. reflexivity. Qed.
Lemma word_initScore (n : string) (s : Session.State) :
  Session.currentWord (Session.initScore n s) = Session.currentWord s.
Proof. unfold Session.initScore. repeat case_match; reflexivity. Qed.
Lemma word_startCountdown (e : Session.Env) (s : Session.State) :
  Session.currentWord (Session.startCountdown e s) = Session.currentWord s.
Proof. reflexivity. Qed.
Lemma word_endRound (e : Session.Env) (b : bool) (s : Session.State) :
  Session.truthyS (Session.currentWord (Session.endRound e b s)) = false.
Proof. apply endRound_frame. Qed.
Lemma word_endSession (e : Session.Env) (s : Session.State) :
  Session.truthyS (Session.currentWord (Session.endSession e s)) = false.
Proof. by destruct (endSession_frame e s) as (_ & _ & -> & _). Qed.

Ltac word_tac :=
  repeat first
    [ rewrite word_emit | rewrite word_set_users | rewrite word_set_scores
    | rewrite word_broadcastUserList | rewrite word_broadcastScores
    | rewrite word_broadcastGameState | rewrite word_initScore
    | rewrite word_startCountdown | rewrite word_endRound
    | rewrite word_endSession | case_match ];
  try congruence.

Lemma on_disconnect_no_new_word (e : Session.Env) (id : string) (s : Session.State) :
  Session.truthyS (Session.currentWord s) = false ->
  Session.truthyS (Session.currentWord (Session.on_disconnect e id s)) = false.
Proof. intros Hw. unfold Session.on_disconnect. cbv zeta. word_tac. Qed.

Lemma step_no_new_word (e : Session.Env) (ev : Session.Event) (s : Session.State) :
  (forall h, ev <> Session.Fire h) ->
  Session.truthyS (Session.currentWord s) = false ->
  Session.truthyS (Session.currentWord (Session.step e ev s)) = false.
Proof.
  intros Hev Hw. destruct ev; unfold Session.step.
  - unfold Session.on_connection. cbv zeta. word_tac.
  - unfold Session.on_join. cbv zeta. word_tac.
  - unfold Session.on_leaveGame. cbv zeta. apply on_disconnect_no_new_word. word_tac.
  - unfold Session.on_stroke. word_tac.
  - unfold Session.on_clear. word_tac.
  - unfold Session.on_chat. cbv zeta. word_tac.
  - unfold Session.on_guess. cbv zeta. word_tac.
  - by apply on_disconnect_no_new_word.
  - by destruct (Hev h).
Qed.

(** During a session, a round is started by the intermission timer only. *)
Lemma round_starts_at_intermission (e : Session.Env) (ev : Session.Event)
    (s : Session.State) :
  Session.reachable s -> Session.gameActive s = true ->
  Session.truthyS (Session.currentWord s) = false ->
  Session.truthyS (Session.currentWord (Session.step e ev s)) = true ->
  exists h t,
    ev = Session.Fire h /\ Session.timers s !! h = Some t
    /\ Session.callback t = Session.NextRound /\ Session.due t <= Session.now e
    /\ (1 <= length (JS.keys (Session.users s)))%nat.
Proof.
  intros Hr Hg Hw Hstart. apply reachable_Inv in Hr.
  assert ((exists h, ev = Session.Fire h) \/ forall h, ev <> Session.Fire h)
    as [[h ->]|Hnf] by (destruct ev; eauto).
  2:{ rewrite step_no_new_word in Hstart; done. }
  unfold Session.step, Session.fire in Hstart.
  destruct (Session.timers s !! h) as [t|] eqn:Ht; [|congruence].
  destruct (Session.due t <=? Session.now e) eqn:Hdue; cbn [negb] in Hstart;
    [|congruence].
  apply Z.leb_le in Hdue. cbv zeta in Hstart.
  destruct (Session.callback t) eqn:Hcb.
  - destruct (Session.inv_countdown s Hr h t _ Ht Hcb). congruence.
  - rewrite word_endSession in Hstart. done.
  - rewrite word_endRound in Hstart. done.
  - unfold Session.timerInterval in Hstart. revert Hstart. cbn. rewrite Hg, Hw. cbn.
    congruence.
  - exists h, t. repeat split; try done.
    apply nextRound_starts_iff in Hstart; [|exact Hw]. by destruct Hstart.
  - revert Hstart. cbn. congruence.
Qed.

(** [server.js]: the intermission and its callback. *)
Lemma basic_endRound_schedules (e : Basic.Env) (b : bool) (s : Basic.State) :
  Basic.gameActive s = true ->
  Basic.timers (Basic.endRound e b s)
  = <[Basic.nextHandle s := Basic.mkTimer Basic.NextRound (Basic.now e + 5000)]>
      (cancel (Basic.roundTimer s) (Basic.timers s)).
Proof. intros Hg. unfold Basic.endRound. cbn. by rewrite Hg. Qed.

Lemma basic_nextRound_starts_iff (e : Basic.Env) (s : Basic.State) :
  Basic.gameActive s = false ->
  Basic.gameActive (Basic.nextRound e s) = true
  <-> (1 <= length (JS.keys (Basic.users s)))%nat.
Proof.
  intros Hg. unfold Basic.nextRound. case_bool_decide as Hlen.
  - split; [done|]. intros _. unfold Basic.startNewRound.
    cbn -[Basic.selectRandomWord].
    destruct (getNextDrawer _ _) as [d|] eqn:Hd; [done|].
    apply getNextDrawer_None in Hd. apply length_keys_nonempty in Hlen. done.
  - rewrite Hg. split; [done|]. intros ?. lia.
Qed.

End Intermission.

(** * The roster and the Score Board *)

Section RosterScored.

Lemma values_set (o : JS.obj string) (k v n : string) :
  n ∈ JS.values (JS.set k v o) -> n = v \/ n ∈ JS.values o.
Proof.
  unfold JS.values. intros Hin. apply list_elem_of_fmap in Hin as ([k' v'] & -> & Hin).
  apply elem_of_set in Hin as [[= -> ->]|Hin]; [by left|].
  right. apply list_elem_of_fmap. by exists (k', v').
Qed.

Lemma values_delete (o : JS.obj string) (k n : string) :
  n ∈ JS.values (JS.delete k o) -> n ∈ JS.values o.
Proof.
  unfold JS.values. intros Hin. apply list_elem_of_fmap in Hin as (x & -> & Hin).
  apply elem_of_delete in Hin. apply list_elem_of_fmap. by exists x.
Qed.

(** ** The session server *)

Lemma startNewRound_books (e : Session.Env) (s : Session.State) :
  Session.users (Session.startNewRound e s) = Session.users s
  /\ Session.scores (Session.startNewRound e s) = Session.scores s.
Proof.
  unfold Session.startNewRound. cbn -[Session.selectRandomWord].
  by destruct (getNextDrawer _ _).
Qed.

Lemma startSession_books (e : Session.Env) (s : Session.State) :
  Session.users (Session.startSession e s) = Session.users s
  /\ Session.scores (Session.startSession e s) = Session.scores s.
Proof.
  unfold Session.startSession. cbn -[Session.startNewRound].
  match goal with |- context [Session.startNewRound e ?x] =>
    destruct (startNewRound_books e x) as [-> ->] end.
  done.
Qed.

Lemma nextRound_books (e : Session.Env) (s : Session.State) :
  Session.users (Session.nextRound e s) = Session.users s
  /\ Session.scores (Session.nextRound e s) = Session.scores s.
Proof.
  unfold Session.nextRound. repeat case_match;
    [apply startNewRound_books| |done].
  by destruct (endSession_frame e s) as (-> & -> & _).
Qed.

(** Every timer but the score reset leaves the roster and the Score Board
    alone. *)
Lemma fire_books (e : Session.Env) (h : nat) (s : Session.State) :
  (forall t, Session.timers s !! h = Some t ->
             Session.callback t <> Session.ResetScores) ->
  Session.users (Session.fire e h s) = Session.users s
  /\ Session.scores (Session.fire e h s) = Session.scores s.
Proof.
  intros Hnr. unfold Session.fire.
  destruct (Session.timers s !! h) as [t|] eqn:Ht; [|done].
  specialize (Hnr t eq_refl). case_match; [done|]. cbv zeta.
  destruct (Session.callback t) eqn:Hcb; [| | | | |done].
  - unfold Session.countdownTick. case_match; [|done].
    match goal with |- context [Session.startSession e ?x] =>
      destruct (startSession_books e x) as [-> ->] end.
    done.
  - match goal with |- context [Session.endSession e ?x] =>
      by destruct (endSession_frame e x) as (-> & -> & _) end.
  - match goal with |- context [Session.endRound e false ?x] =>
      by destruct (endRound_frame e false x) as (-> & -> & _) end.
  - unfold Session.timerInterval. by case_match.
  - match goal with |- context [Session.nextRound e ?x] =>
      by destruct (nextRound_books e x) as [-> ->] end.
Qed.

Lemma initScore_keys (n : string) (s : Session.State) :
  Session.users (Session.initScore n s) = Session.users s
  /\ n ∈ JS.keys (Session.scores (Session.initScore n s))
  /\ forall n', n' ∈ JS.keys (Session.scores s) ->
                n' ∈ JS.keys (Session.scores (Session.initScore n s)).
Proof.
  unfold Session.initScore.
  destruct (JS.get n (Session.scores s)) as [p|] eqn:Hn.
  - assert (n ∈ JS.keys (Session.scores s)) as Hin by (apply get_is_Some; eauto).
    destruct (p =? 0); cbn; (split; [done|]); split; try done.
    + apply elem_of_keys_set. by left.
    + intros n' Hn'. apply elem_of_keys_set. by right.
  - cbn. split; [done|]. split.
    + apply elem_of_keys_set. by left.
    + intros n' Hn'. apply elem_of_keys_set. by right.
Qed.

(** Joining establishes the entry of the name that is assigned. *)
Lemma on_join_books (e : Session.Env) (id name : string) (s : Session.State) :
  let n := if JS.truthy (JS.trim name) then JS.trim name else fallbackName id in
  Session.users (Session.on_join e id name s) = JS.set id n (Session.users s)
  /\ n ∈ JS.keys (Session.scores (Session.on_join e id name s))
  /\ forall n', n' ∈ JS.keys (Session.scores s) ->
                n' ∈ JS.keys (Session.scores (Session.on_join e id name s)).
Proof.
  intros n. unfold Session.on_join. cbv zeta. fold n.
  destruct (initScore_keys n (Session.set_users (JS.set id n (Session.users s)) s))
    as (Hu & Hn & Hk).
  case_match; cbn; rewrite Hu; done.
Qed.

Lemma on_disconnect_books (e : Session.Env) (id : string) (s : Session.State) :
  (forall n, n ∈ JS.values (Session.users (Session.on_disconnect e id s)) ->
             n ∈ JS.values (Session.users s))
  /\ Session.scores (Session.on_disconnect e id s) = Session.scores s.
Proof.
  unfold Session.on_disconnect. cbv zeta.
  destruct (JS.get id (Session.users s)) as [name|]; [|done].
  destruct (negb (JS.truthy name)); [done|].
  match goal with |- context [Session.set_users _ ?x] => set (s1 := x) end.
  assert (Session.users s1 = Session.users s /\ Session.scores s1 = Session.scores s)
    as [Hu Hs].
  { subst s1. case_match; [|done].
    match goal with |- context [Session.endRound e false ?x] =>
      by destruct (endRound_frame e false x) as (-> & -> & _) end. }
  generalize dependent s1. intros s1 Hu Hs.
  case_match.
  - match goal with |- context [Session.endSession e ?x] =>
      destruct (endSession_frame e x) as (-> & -> & _) end.
    cbn. rewrite Hu, Hs. split; [apply values_delete|done].
  - cbn. rewrite Hu, Hs. split; [apply values_delete|done].
Qed.

Lemma on_leaveGame_books (e : Session.Env) (id : string) (s : Session.State) :
  (forall n, n ∈ JS.values (Session.users (Session.on_leaveGame e id s)) ->
             n ∈ JS.values (Session.users s))
  /\ Session.scores (Session.on_leaveGame e id s) = Session.scores s.
Proof.
  unfold Session.on_leaveGame. cbv zeta.
  match goal with |- context [Session.on_disconnect e id ?x] => set (s0 := x) end.
  assert ((forall n, n ∈ JS.values (Session.users s0) -> n ∈ JS.values (Session.users s))
          /\ Session.scores s0 = Session.scores s) as [Hu Hs].
  { subst s0. destruct (JS.get id (Session.users s)) as [name|]; [|done].
    destruct (negb (JS.truthy name)); [done|].
    match goal with |- context [Session.set_users _ ?x] => set (s1 := x) end.
    assert (Session.users s1 = Session.users s /\ Session.scores s1 = Session.scores s)
      as [Hu Hs].
    { subst s1. case_match; [|done].
      match goal with |- context [Session.endRound e false ?x] =>
        by destruct (endRound_frame e false x) as (-> & -> & _) end. }
    generalize dependent s1. intros s1 Hu Hs.
    case_match.
    - match goal with |- context [Session.endSession e ?x] =>
        destruct (endSession_frame e x) as (-> & -> & _) end.
      cbn. rewrite Hu, Hs. split; [apply values_delete|done].
    - cbn. rewrite Hu, Hs. split; [apply values_delete|done]. }
  destruct (on_disconnect_books e id s0) as [Hu' Hs'].
  split; [auto|congruence].
Qed.

Lemma on_guess_books (e : Session.Env) (id from text : string) (s : Session.State) :
  Session.users (Session.on_guess e id from text s) = Session.users s
  /\ forall n, n ∈ JS.keys (Session.scores s) ->
               n ∈ JS.keys (Session.scores (Session.on_guess e id from text s)).
Proof.
  unfold Session.on_guess. cbv zeta.
  repeat case_match; try done.
  match goal with |- context [Session.endRound e true ?x] =>
    destruct (endRound_frame e true x) as (-> & -> & _) end.
  cbn. split; [done|]. intros n Hn. by apply keys_awardDrawer, keys_award.
Qed.

End RosterScored.

(** ** The basic server *)

Section BasicRosterScored.

Lemma basic_startNewRound_books (e : Basic.Env) (s : Basic.State) :
  Basic.users (Basic.startNewRound e s) = Basic.users s
  /\ Basic.scores (Basic.startNewRound e s) = Basic.scores s.
Proof.
  unfold Basic.startNewRound. cbn -[Basic.selectRandomWord].
  by destruct (getNextDrawer _ _).
Qed.

Lemma basic_fire_books (e : Basic.Env) (h : nat) (s : Basic.State) :
  Basic.users (Basic.fire e h s) = Basic.users s
  /\ Basic.scores (Basic.fire e h s) = Basic.scores s.
Proof.
  unfold Basic.fire. destruct (Basic.timers s !! h) as [t|]; [|done].
  case_match; [done|]. cbv zeta. destruct (Basic.callback t).
  - match goal with |- context [Basic.startNewRound e ?x] =>
      by destruct (basic_startNewRound_books e x) as [-> ->] end.
  - match goal with |- context [Basic.endRound e false ?x] =>
      by destruct (basic_endRound_frame e false x) as (-> & -> & _) end.
  - unfold Basic.nextRound. case_match; [|done].
    match goal with |- context [Basic.startNewRound e ?x] =>
      by destruct (basic_startNewRound_books e x) as [-> ->] end.
Qed.

Lemma basic_initScore_keys (n : string) (s : Basic.State) :
  Basic.users (Basic.initScore n s) = Basic.users s
  /\ n ∈ JS.keys (Basic.scores (Basic.initScore n s))
  /\ forall n', n' ∈ JS.keys (Basic.scores s) ->
                n' ∈ JS.keys (Basic.scores (Basic.initScore n s)).
Proof.
  unfold Basic.initScore.
  destruct (JS.get n (Basic.scores s)) as [p|] eqn:Hn.
  - assert (n ∈ JS.keys (Basic.scores s)) as Hin by (apply get_is_Some; eauto).
    destruct (p =? 0); cbn; (split; [done|]); split; try done.
    + apply elem_of_keys_set. by left.
    + intros n' Hn'. apply elem_of_keys_set. by right.
  - cbn. split; [done|]. split.
    + apply elem_of_keys_set. by left.
    + intros n' Hn'. apply elem_of_keys_set. by right.
Qed.

Lemma basic_on_join_books (e : Basic.Env) (id name : string) (s : Basic.State) :
  let n := if JS.truthy (JS.trim name) then JS.trim name else fallbackName id in
  Basic.users (Basic.on_join e id name s) = JS.set id n (Basic.users s)
  /\ n ∈ JS.keys (Basic.scores (Basic.on_join e id name s))
  /\ forall n', n' ∈ JS.keys (Basic.scores s) ->
                n' ∈ JS.keys (Basic.scores (Basic.on_join e id name s)).
Proof.
  intros n. unfold Basic.on_join. cbv zeta. fold n.
  destruct (basic_initScore_keys n (Basic.set_users (JS.set id n (Basic.users s)) s))
    as (Hu & Hn & Hk).
  case_match; cbn; rewrite Hu; done.
Qed.

Lemma basic_on_disconnect_books (e : Basic.Env) (id : string) (s : Basic.State) :
  (forall n, n ∈ JS.values (Basic.users (Basic.on_disconnect e id s)) ->
             n ∈ JS.values (Basic.users s))
  /\ Basic.scores (Basic.on_disconnect e id s) = Basic.scores s.
Proof.
  unfold Basic.on_disconnect. cbv zeta.
  destruct (JS.get id (Basic.users s)) as [name|]; [|done].
  destruct (negb (JS.truthy name)); [done|].
  match goal with |- context [Basic.set_users _ ?x] => set (s1 := x) end.
  assert (Basic.users s1 = Basic.users s /\ Basic.scores s1 = Basic.scores s)
    as [Hu Hs].
  { subst s1. case_match; [|done].
    match goal with |- context [Basic.endRound e false ?x] =>
      by destruct (basic_endRound_frame e false x) as (-> & -> & _) end. }
  generalize dependent s1. intros s1 Hu Hs.
  case_match.
  - cbn -[Basic.endRound].
    match goal with |- context [Basic.endRound e false ?x] =>
      destruct (basic_endRound_frame e false x) as (-> & -> & _) end.
    cbn. rewrite Hu, Hs. split; [apply values_delete|done].
  - cbn. rewrite Hu, Hs. split; [apply values_delete|done].
Qed.

Lemma basic_on_guess_books (e : Basic.Env) (id from text : string) (s : Basic.State) :
  Basic.users (Basic.on_guess e id from text s) = Basic.users s
  /\ forall n, n ∈ JS.keys (Basic.scores s) ->
               n ∈ JS.keys (Basic.scores (Basic.on_guess e id from text s)).
Proof.
  unfold Basic.on_guess. cbv zeta.
  repeat case_match; try done.
  match goal with |- context [Basic.endRound e true ?x] =>
    destruct (basic_endRound_frame e true x) as (-> & -> & _) end.
  cbn. split; [done|]. intros n Hn. by apply keys_awardDrawer, keys_award.
Qed.

End BasicRosterScored.

(** * The roster of a reachable state *)

Section RosterKeys.

Lemma session_users_fire (e : Session.Env) (h : nat) (s : Session.State) :
  Session.users (Session.fire e h s) = Session.users s.
Proof.
  destruct (Session.timers s !! h) as [t|] eqn:Ht.
  - destruct (Session.callback t) eqn:Hcb;
      try (destruct (fire_books e h s) as [Hu _];
           [intros t' Ht'; rewrite Ht in Ht'; injection Ht' as <-; congruence
           | exact Hu]).
    unfold Session.fire. rewrite Ht, Hcb. case_match; reflexivity.
  - by rewrite fire_not_pending.
Qed.

Lemma session_users_disconnect (e : Session.Env) (id : string) (s : Session.State) :
  Session.users (Session.on_disconnect e id s) = Session.users s
  \/ Session.users (Session.on_disconnect e id s) = JS.delete id (Session.users s).
Proof.
  unfold Session.on_disconnect. cbv zeta.
  destruct (JS.get id (Session.users s)) as [name|]; [|by left].
  destruct (negb (JS.truthy name)); [by left|]. right.
  match goal with |- context [Session.set_users _ ?x] => set (s1 := x) end.
  assert (Session.users s1 = Session.users s) as Hu.
  { subst s1. case_match; [|done].
    match goal with |- context [Session.endRound e false ?x] =>
      by destruct (endRound_frame e false x) as (-> & _) end. }
  generalize dependent s1. intros s1 Hu.
  case_match.
  - match goal with |- context [Session.endSession e ?x] =>
      destruct (endSession_frame e x) as (-> & _) end.
    cbn. by rewrite Hu.
  - cbn. by rewrite Hu.
Qed.

Lemma session_users_leaveGame (e : Session.Env) (id : string) (s : Session.State) :
  NoDup (JS.keys (Session.users s)) ->
  NoDup (JS.keys (Session.users (Session.on_leaveGame e id s))).
Proof.
  intros Hnd. unfold Session.on_leaveGame. cbv zeta.
  match goal with |- context [Session.on_disconnect e id ?x] => set (s0 := x) end.
  assert (NoDup (JS.keys (Session.users s0))) as Hnd0.
  { subst s0. destruct (JS.get id (Session.users s)) as [name|]; [|done].
    destruct (negb (JS.truthy name)); [done|].
    match goal with |- context [Session.set_users _ ?x] => set (s1 := x) end.
    assert (Session.users s1 = Session.users s) as Hu.
    { subst s1. case_match; [|done].
      match goal with |- context [Session.endRound e false ?x] =>
        by destruct (endRound_frame e false x) as (-> & _) end. }
    generalize dependent s1. intros s1 Hu.
    case_match.
    - match goal with |- context [Session.endSession e ?x] =>
        destruct (endSession_frame e x) as (-> & _) end.
      cbn. rewrite Hu. by apply NoDup_keys_delete.
    - cbn. rewrite Hu. by apply NoDup_keys_delete. }
  destruct (session_users_disconnect e id s0) as [-> | ->];
    [done|by apply NoDup_keys_delete].
Qed.

Lemma session_step_NoDup (e : Session.Env) (ev : Session.Event) (s : Session.State) :
  NoDup (JS.keys (Session.users s)) ->
  NoDup (JS.keys (Session.users (Session.step e ev s))).
Proof.
  intros Hnd. destruct ev; unfold Session.step.
  - done.
  - destruct (on_join_books e id name s) as (-> & _). by apply NoDup_keys_set.
  - by apply session_users_leaveGame.
  - unfold Session.on_stroke. by repeat case_match.
  - unfold Session.on_clear. by repeat case_match.
  - done.
  - by destruct (on_guess_books e id from text s) as (-> & _).
  - destruct (session_users_disconnect e id s) as [-> | ->];
      [done|by apply NoDup_keys_delete].
  - by rewrite session_users_fire.
Qed.

Lemma session_reachable_NoDup (s : Session.State) :
  Session.reachable s -> NoDup (JS.keys (Session.users s)).
Proof.
  intros [tr ->]. assert (NoDup (JS.keys (Session.users Session.init))) as H0
      by constructor.
  revert H0. generalize Session.init.
  induction tr as [|[e ev] tr IH]; intros s H0; [done|].
  simpl. apply IH. by apply session_step_NoDup.
Qed.

Lemma basic_users_disconnect (e : Basic.Env) (id : string) (s : Basic.State) :
  Basic.users (Basic.on_disconnect e id s) = Basic.users s
  \/ Basic.users (Basic.on_disconnect e id s) = JS.delete id (Basic.users s).
Proof.
  unfold Basic.on_disconnect. cbv zeta.
  destruct (JS.get id (Basic.users s)) as [name|]; [|by left].
  destruct (negb (JS.truthy name)); [by left|]. right.
  match goal with |- context [Basic.set_users _ ?x] => set (s1 := x) end.
  assert (Basic.users s1 = Basic.users s) as Hu.
  { subst s1. case_match; [|done].
    match goal with |- context [Basic.endRound e false ?x] =>
      by destruct (basic_endRound_frame e false x) as (-> & _) end. }
  generalize dependent s1. intros s1 Hu.
  case_match.
  - cbn -[Basic.endRound].
    match goal with |- context [Basic.endRound e false ?x] =>
      destruct (basic_endRound_frame e false x) as (-> & _) end.
    cbn. by rewrite Hu.
  - cbn. by rewrite Hu.
Qed.

Lemma basic_step_NoDup (e : Basic.Env) (ev : Basic.Event) (s : Basic.State) :
  NoDup (JS.keys (Basic.users s)) ->
  NoDup (JS.keys (Basic.users (Basic.step e ev s))).
Proof.
  intros Hnd. destruct ev; unfold Basic.step.
  - done.
  - destruct (basic_on_join_books e id name s) as (-> & _). by apply NoDup_keys_set.
  - unfold Basic.on_stroke. by repeat case_match.
  - unfold Basic.on_clear. by repeat case_match.
  - done.
  - by destruct (basic_on_guess_books e id from text s) as (-> & _).
  - destruct (basic_users_disconnect e id s) as [-> | ->];
      [done|by apply NoDup_keys_delete].
  - by destruct (basic_fire_books e h s) as (-> & _).
Qed.

Lemma basic_reachable_NoDup (s : Basic.State) :
  Basic.reachable s -> NoDup (JS.keys (Basic.users s)).
Proof.
  intros [tr ->]. assert (NoDup (JS.keys (Basic.users Basic.init))) as H0
      by constructor.
  revert H0. generalize Basic.init.
  induction tr as [|[e ev] tr IH]; intros s H0; [done|].
  simpl. apply IH. by apply basic_step_NoDup.
Qed.

(** Starting a round arms its timeout and records the handle in
    [roundTimer]. *)
Lemma startNewRound_arms (e : Session.Env) (s : Session.State) :
  Session.users s <> [] ->
  Session.roundTimer (Session.startNewRound e s) = Some (Session.nextHandle s)
  /\ Session.timers (Session.startNewRound e s) !! Session.nextHandle s
     = Some (Session.mkTimer Session.RoundTimeout
               (Session.now e + Session.ROUND_DURATION)).
Proof.
  intros Hne. unfold Session.startNewRound. cbn -[Session.selectRandomWord].
  destruct (getNextDrawer _ _) as [d|] eqn:Hd; [|by apply getNextDrawer_None in Hd].
  cbn -[Session.selectRandomWord]. split; [done|].
  rewrite lookup_insert_ne by lia. by rewrite lookup_insert_eq.
Qed.

Lemma basic_startNewRound_arms (e : Basic.Env) (s : Basic.State) :
  Basic.users s <> [] ->
  Basic.roundTimer (Basic.startNewRound e s) = Some (Basic.nextHandle s)
  /\ Basic.timers (Basic.startNewRound e s) !! Basic.nextHandle s
     = Some (Basic.mkTimer Basic.RoundTimeout (Basic.now e + Basic.ROUND_DURATION)).
Proof.
  intros Hne. unfold Basic.startNewRound. cbn -[Basic.selectRandomWord].
  destruct (getNextDrawer _ _) as [d|] eqn:Hd; [|by apply getNextDrawer_None in Hd].
  cbn -[Basic.selectRandomWord]. split; [done|]. by rewrite lookup_insert_eq.
Qed.

End RosterKeys.

(** In [server.js] a third player who joins before the first round has
    started schedules a second start: it starts a round at 2500 while the
    intermission of the first round, ended at 2100, is due at 7100. *)
Example basic_start_timer_race :
  Basic.timely Scenario.basicRaceTrace = true
  /\ Basic.timers (Basic.run Scenario.basicRaceTrace Basic.init) !! 3%nat
     = Some (Basic.mkTimer Basic.NextRound 7100)
  /\ Basic.gameActive (Basic.run Scenario.basicRaceTrace Basic.init) = true.
Proof. repeat split; vm_compute; reflexivity. Qed.

(** * No round without a participant *)

Section RoundNeedsParticipant.

Lemma startNewRound_needs_participant (e : Session.Env) (s : Session.State) :
  Session.truthyS (Session.currentWord s) = false ->
  Session.truthyS (Session.currentWord (Session.startNewRound e s)) = true ->
  (1 <= length (JS.keys (Session.users s)))%nat.
Proof.
  intros Hw. unfold Session.startNewRound. cbn -[Session.selectRandomWord].
  destruct (getNextDrawer _ _) as [d|] eqn:Hd.
  - intros _. apply length_keys_nonempty. intros Hu. rewrite Hu in Hd. discriminate.
  - cbn. congruence.
Qed.

Lemma startSession_needs_participant (e : Session.Env) (s : Session.State) :
  Session.truthyS (Session.currentWord s) = false ->
  Session.truthyS (Session.currentWord (Session.startSession e s)) = true ->
  (1 <= length (JS.keys (Session.users s)))%nat.
Proof.
  intros Hw. unfold Session.startSession. cbn -[Session.startNewRound].
  intros Hstart. by apply startNewRound_needs_participant in Hstart.
Qed.

Lemma fire_needs_participant (e : Session.Env) (h : nat) (s : Session.State) :
  Session.truthyS (Session.currentWord s) = false ->
  Session.truthyS (Session.currentWord (Session.fire e h s)) = true ->
  (1 <= length (JS.keys (Session.users s)))%nat.
Proof.
  intros Hw. unfold Session.fire.
  destruct (Session.timers s !! h) as [t|] eqn:Ht; [|congruence].
  destruct (negb _); [congruence|]. cbv zeta.
  destruct (Session.callback t) eqn:Hcb.
  - unfold Session.countdownTick. destruct (countdown_ - 1 <=? 0).
    + intros Hstart. by apply startSession_needs_participant in Hstart.
    + rewrite word_emit. cbn. congruence.
  - rewrite word_endSession. done.
  - rewrite word_endRound. done.
  - unfold Session.timerInterval. case_match; cbn; congruence.
  - intros Hstart. apply nextRound_starts_iff in Hstart; [|exact Hw].
    by destruct Hstart.
  - cbn. congruence.
Qed.

(** Whatever the event, a word appears only when the roster is not empty. *)
Lemma round_start_needs_participant (e : Session.Env) (ev : Session.Event)
    (s : Session.State) :
  Session.truthyS (Session.currentWord s) = false ->
  Session.truthyS (Session.currentWord (Session.step e ev s)) = true ->
  (1 <= length (JS.keys (Session.users s)))%nat.
Proof.
  intros Hw Hstart.
  assert ((exists h, ev = Session.Fire h) \/ forall h, ev <> Session.Fire h)
    as [[h ->]|Hnf] by (destruct ev; eauto).
  - by apply (fire_needs_participant e h s).
  - rewrite step_no_new_word in Hstart; done.
Qed.

Lemma basic_round_start_needs_participant (e : Basic.Env) (ev : Basic.Event)
    (s : Basic.State) :
  Basic.gameActive s = false ->
  Basic.gameActive (Basic.step e ev s) = true ->
  (1 <= length (JS.keys (Basic.users s)))%nat.
Proof.
  intros Hg Hstart.
  assert (forall x, Basic.users x = Basic.users s ->
            Basic.gameActive (Basic.startNewRound e x) = true ->
            (1 <= length (JS.keys (Basic.users s)))%nat) as Hsnr.
  { intros x Hu. unfold Basic.startNewRound. cbn -[Basic.selectRandomWord].
    destruct (getNextDrawer _ _) as [d|] eqn:Hd; [|cbn; congruence].
    intros _. apply length_keys_nonempty. rewrite <- Hu. intros Hx.
    rewrite Hx in Hd. discriminate. }
  destruct ev; unfold Basic.step in Hstart.
  - revert Hstart. cbn. congruence.
  - revert Hstart. unfold Basic.on_join. cbv zeta.
    generalize (if JS.truthy (JS.trim name) then JS.trim name else fallbackName id).
    intros n.
    pose proof (f_equal (fun v => v.1.2) (basic_loopOf_initScore n
      (Basic.set_users (JS.set id n (Basic.users s)) s))) as Hga.
    cbn in Hga. case_match; cbn; rewrite Hga; congruence.
  - revert Hstart. unfold Basic.on_stroke. repeat case_match; cbn; congruence.
  - revert Hstart. unfold Basic.on_clear. repeat case_match; cbn; congruence.
  - revert Hstart. cbn. congruence.
  - revert Hstart. unfold Basic.on_guess. cbv zeta.
    repeat case_match; cbn -[Basic.endRound]; try congruence.
    match goal with |- context [Basic.endRound e true ?x] =>
      destruct (basic_endRound_frame e true x) as (_ & _ & _ & ->) end. done.
  - revert Hstart. unfold Basic.on_disconnect. cbv zeta.
    destruct (JS.get id (Basic.users s)) as [name|]; [|congruence].
    destruct (negb (JS.truthy name)); [congruence|].
    match goal with |- context [Basic.set_users _ ?x] => set (s1 := x) end.
    assert (Basic.gameActive s1 = false) as Hg1.
    { subst s1. case_match; [|done].
      match goal with |- context [Basic.endRound e false ?x] =>
        by destruct (basic_endRound_frame e false x) as (_ & _ & _ & ->) end. }
    generalize dependent s1. intros s1 Hg1.
    cbn -[Basic.endRound]. rewrite Hg1, andb_false_r. cbn. congruence.
  - unfold Basic.fire in Hstart.
    destruct (Basic.timers s !! h) as [t|]; [|congruence].
    destruct (negb _); [congruence|]. cbv zeta in Hstart.
    destruct (Basic.callback t).
    + by apply Hsnr in Hstart.
    + match type of Hstart with context [Basic.endRound e false ?x] =>
        destruct (basic_endRound_frame e false x) as (_ & _ & _ & Hf) end.
      congruence.
    + unfold Basic.nextRound in Hstart. cbn -[Basic.startNewRound] in Hstart.
      case_bool_decide as Hlen; [exact Hlen|]. cbn in Hstart. congruence.
Qed.

End RoundNeedsParticipant.

(** * The Score Board as an object *)

Section BoardFacts.
Implicit Types (b : Board.t) (sc : JS.obj Z) (n k name : string).

Lemma truthy_append (s t : string) :
  JS.truthy s = true -> JS.truthy (s +:+ t) = true.
Proof. by destruct s. Qed.

Lemma inherited_truthy name v :
  Board.inherited name = Some v -> Board.truthy v = true.
Proof.
  unfold Board.inherited. repeat case_bool_decide; intros [= <-]; done.
Qed.

Lemma inherited_string name v :
  Board.inherited name = Some v ->
  exists s, JS.truthy s = true
            /\ forall d, Board.orZeroPlus v d = Board.Str (s +:+ Board.numeral d).
Proof.
  unfold Board.inherited. repeat case_bool_decide; intros [= <-].
  - by exists "[object Object]"%string.
  - by exists (Board.nativeCode "Object").
  - by exists (Board.nativeCode name).
Qed.

Lemma ordinary_not_proto name :
  Board.inherited name = None -> name <> "__proto__"%string.
Proof. intros H ->. done. Qed.

Lemma board_set_ordinary name v b :
  Board.inherited name = None -> Board.set name v b = JS.set name v b.
Proof.
  intros H. unfold Board.set.
  by rewrite (bool_decide_eq_false_2 _ (ordinary_not_proto _ H)).
Qed.

Lemma board_get_ordinary name b :
  Board.inherited name = None ->
  Board.get name b
  = match JS.get name b with
    | Some v => Board.Own v
    | None => Board.Undefined
    end.
Proof. intros H. unfold Board.get. by rewrite H. Qed.

Lemma board_get_set_ne name k v b :
  name <> k -> JS.get k (Board.set name v b) = JS.get k b.
Proof.
  intros Hne. unfold Board.set. case_match; [done|]. by apply get_set_ne.
Qed.

Lemma board_get_set_eq name v w b :
  JS.get name (Board.set name v b) = Some w ->
  w = v \/ (name = "__proto__"%string /\ JS.get name b = None).
Proof.
  unfold Board.set. case_match eqn:Hc.
  - apply andb_true_iff in Hc as [Hp Ho].
    apply negb_true_iff, bool_decide_eq_false in Ho.
    intros Hw. destruct Ho. rewrite Hw. eauto.
  - rewrite get_set_eq. intros [= <-]. by left.
Qed.

Lemma board_keys_set name k v b :
  k ∈ JS.keys b -> k ∈ JS.keys (Board.set name v b).
Proof.
  intros Hin. unfold Board.set. case_match; [done|].
  apply elem_of_keys_set. by right.
Qed.

(** ** What a statement leaves alone *)

Lemma board_initScore_ne name k b :
  name <> k -> JS.get k (Board.initScore name b) = JS.get k b.
Proof.
  intros Hne. unfold Board.initScore. case_match; [|done].
  by apply board_get_set_ne.
Qed.

Lemma board_award_ne name k d b :
  name <> k -> JS.get k (Board.award name d b) = JS.get k b.
Proof. intros Hne. by apply board_get_set_ne. Qed.


Lemma board_exec_keys st k b :
  st <> Board.Reset -> k ∈ JS.keys b -> k ∈ JS.keys (Board.exec b st).
Proof.
  intros Hr Hk. destruct st as [n|n d|dn|]; simpl; [| | |done].
  - unfold Board.initScore. case_match; [|done]. by apply board_keys_set.
  - by apply board_keys_set.
  - unfold Board.awardDrawer. destruct dn as [d|]; [|done].
    destruct (JS.truthy d); [|done]. by apply board_keys_set.
Qed.

Lemma board_execAll_keys sts k b :
  Board.Reset ∉ sts -> k ∈ JS.keys b -> k ∈ JS.keys (Board.execAll sts b).
Proof.
  revert b. induction sts as [|st sts IH]; intros b Hr Hk; [done|].
  simpl. apply IH; [intros Hin; apply Hr; by right|].
  apply board_exec_keys; [|done]. intros ->. apply Hr. by left.
Qed.

(** [join] makes the entry of an ordinary name. *)
Lemma board_initScore_key name b :
  Board.inherited name = None -> name ∈ JS.keys (Board.initScore name b).
Proof.
  intros Hn. unfold Board.initScore.
  rewrite board_get_ordinary, board_set_ordinary by done.
  destruct (JS.get name b) as [v|] eqn:Hg.
  - case_match.
    + apply elem_of_keys_set. by left.
    + apply get_is_Some. eauto.
  - simpl. apply elem_of_keys_set. by left.
Qed.

(** ** Awards under ordinary names *)





(** ** The Score Boards that the servers make *)

Lemma sound_empty : Board.sound Board.empty.
Proof. intros name v Hg. done. Qed.

Lemma sound_set name v b :
  Board.sound b ->
  match v with
  | Board.Num p => Board.inherited name = None /\ 0 <= p /\ (5 | p)
  | Board.Str s => is_Some (Board.inherited name) /\ JS.truthy s = true
  end ->
  Board.sound (Board.set name v b).
Proof.
  intros Hs Hv k w. destruct (decide (name = k)) as [<-|Hne].
  - intros Hg. destruct (board_get_set_eq _ _ _ _ Hg) as [->|[Hp Hn]]; [done|].
    exfalso. unfold Board.set in Hg. rewrite Hn in Hg.
    rewrite bool_decide_eq_true_2 in Hg by done.
    rewrite bool_decide_eq_false_2 in Hg by (by intros [? ?]).
    simpl in Hg. congruence.
  - rewrite board_get_set_ne by done. apply Hs.
Qed.

Lemma sound_initScore name b :
  Board.sound b -> Board.sound (Board.initScore name b).
Proof.
  intros Hs. unfold Board.initScore. case_match eqn:Ht; [|done].
  apply sound_set; [done|]. split; [|split; [lia|by exists 0]].
  apply negb_true_iff in Ht. unfold Board.get in Ht.
  destruct (JS.get name b) as [v|] eqn:Hg.
  - specialize (Hs name v Hg). destruct v as [p|s]; [apply Hs|].
    simpl in Ht. destruct Hs as [_ Hs]. congruence.
  - destruct (Board.inherited name) as [v|] eqn:Hi; [|done].
    simpl in Ht. by rewrite (inherited_truthy _ _ Hi) in Ht.
Qed.

Lemma sound_award name d b :
  0 <= d -> (5 | d) -> Board.sound b -> Board.sound (Board.award name d b).
Proof.
  intros Hd H5 Hs. unfold Board.award. apply sound_set; [done|].
  unfold Board.get. destruct (JS.get name b) as [v|] eqn:Hg.
  - specialize (Hs name v Hg). destruct v as [p|s].
    + destruct Hs as (Hi & Hp & Hp5). unfold Board.orZeroPlus. simpl.
      destruct (Z.eqb_spec p 0) as [->|]; simpl;
        (split; [done|]); split; try lia; by apply Z.divide_add_r.
    + destruct Hs as [Hi Ht]. unfold Board.orZeroPlus. simpl. rewrite Ht.
      split; [done|]. by apply truthy_append.
  - destruct (Board.inherited name) as [v|] eqn:Hi; simpl.
    + destruct (inherited_string _ _ Hi) as (s & Ht & Heq). rewrite Heq.
      split; [eauto|]. by apply truthy_append.
    + unfold Board.orZeroPlus. simpl. split; [done|]. split; [lia|done].
Qed.

Lemma sound_awardDrawer dn b :
  Board.sound b -> Board.sound (Board.awardDrawer dn b).
Proof.
  intros Hs. unfold Board.awardDrawer. destruct dn as [d|]; [|done].
  destruct (JS.truthy d); [|done]. apply sound_award; [lia|by exists 1|done].
Qed.

Lemma sound_execAll sts b :
  Board.tensAndFives sts -> Board.sound b -> Board.sound (Board.execAll sts b).
Proof.
  revert b. induction sts as [|st sts IH]; intros b Ht Hs; [done|].
  simpl. apply IH; [intros n d Hin; apply (Ht n d); by right|].
  destruct st as [n|n d|dn|]; simpl.
  - by apply sound_initScore.
  - destruct (Ht n d) as [Hd H5]; [left|]. by apply sound_award.
  - by apply sound_awardDrawer.
  - apply sound_empty.
Qed.

Lemma guessStmts_tensAndFives id from text users cd cw ga :
  Board.tensAndFives (guessStmts id from text users cd cw ga).
Proof.
  intros name d. unfold guessStmts. cbv zeta.
  repeat case_match; intros Hin; apply list_elem_of_In in Hin; simpl in Hin;
    try done.
  all: destruct Hin as [Heq|[Heq|[]]]; [|discriminate].
  all: injection Heq as _ <-; split; [lia|by exists 2].
Qed.

Lemma guessStmts_no_reset id from text users cd cw ga :
  Board.Reset ∉ guessStmts id from text users cd cw ga.
Proof.
  unfold guessStmts. cbv zeta.
  repeat case_match; intros Hin; apply list_elem_of_In in Hin; simpl in Hin;
    try done.
  all: destruct Hin as [Heq|[Heq|[]]]; discriminate.
Qed.

(** ** The Score Board of the numbers *)

Lemma initScoreOf_ne name k sc :
  name <> k -> JS.get k (initScoreOf name sc) = JS.get k sc.
Proof.
  intros Hne. unfold initScoreOf. repeat case_match; try done;
    by apply get_set_ne.
Qed.

Lemma agree_empty : Board.agree [] Board.empty.
Proof. intros name Hn. done. Qed.

Lemma agree_initScore name sc b :
  Board.agree sc b -> Board.agree (initScoreOf name sc) (Board.initScore name b).
Proof.
  intros Ha k Hk. destruct (decide (name = k)) as [<-|Hne].
  - unfold initScoreOf, Board.initScore.
    rewrite board_get_ordinary, board_set_ordinary by done.
    rewrite (Ha name Hk). destruct (JS.get name sc) as [p|] eqn:Hg; simpl.
    + destruct (Z.eqb_spec p 0) as [->|]; simpl.
      * by rewrite !get_set_eq.
      * by rewrite (Ha name Hk), Hg.
    + by rewrite !get_set_eq.
  - rewrite board_initScore_ne, initScoreOf_ne by done. by apply Ha.
Qed.

Lemma agree_award name d sc b :
  Board.agree sc b -> Board.agree (award name d sc) (Board.award name d b).
Proof.
  intros Ha k Hk. destruct (decide (name = k)) as [<-|Hne].
  - unfold award, Board.award, scoreOf.
    rewrite board_get_ordinary, board_set_ordinary, !get_set_eq by done.
    rewrite (Ha name Hk). destruct (JS.get name sc) as [p|]; simpl; [|done].
    unfold Board.orZeroPlus. simpl. by destruct (Z.eqb_spec p 0) as [->|].
  - rewrite board_award_ne, get_award_ne by done. by apply Ha.
Qed.

Lemma agree_awardDrawer dn sc b :
  Board.agree sc b -> Board.agree (awardDrawer dn sc) (Board.awardDrawer dn b).
Proof.
  intros Ha. unfold awardDrawer, Board.awardDrawer. destruct dn as [d|]; [|done].
  destruct (JS.truthy d); [|done]. by apply agree_award.
Qed.

Lemma agree_exec st sc b :
  Board.agree sc b -> Board.agree (onNumbers sc st) (Board.exec b st).
Proof.
  intros Ha. destruct st as [n|n d|dn|]; simpl.
  - by apply agree_initScore.
  - by apply agree_award.
  - by apply agree_awardDrawer.
  - apply agree_empty.
Qed.

Lemma agree_execAll sts sc b :
  Board.agree sc b ->
  Board.agree (foldl onNumbers sc sts) (Board.execAll sts b).
Proof.
  revert sc b. induction sts as [|st sts IH]; intros sc b Ha; [done|].
  simpl. by apply IH, agree_exec.
Qed.

Lemma get_ofScores name sc :
  JS.get name (Board.ofScores sc) = Board.Num <$> JS.get name sc.
Proof.
  induction sc as [|[k z] sc IH]; [done|]. simpl. by case_bool_decide.
Qed.

Lemma set_ofScores name z sc :
  JS.set name (Board.Num z) (Board.ofScores sc) = Board.ofScores (JS.set name z sc).
Proof.
  induction sc as [|[k z'] sc IH]; [done|]. simpl.
  case_bool_decide; [done|]. simpl. by rewrite IH.
Qed.

Lemma initScore_ofScores name sc :
  Board.inherited name = None ->
  Board.initScore name (Board.ofScores sc) = Board.ofScores (initScoreOf name sc).
Proof.
  intros Hn. unfold Board.initScore, initScoreOf.
  rewrite board_get_ordinary, board_set_ordinary, get_ofScores by done.
  destruct (JS.get name sc) as [p|]; simpl.
  - destruct (Z.eqb_spec p 0); simpl; [apply set_ofScores|done].
  - apply set_ofScores.
Qed.

Lemma award_ofScores name d sc :
  Board.inherited name = None ->
  Board.award name d (Board.ofScores sc) = Board.ofScores (award name d sc).
Proof.
  intros Hn. unfold Board.award, award, scoreOf.
  rewrite board_get_ordinary, board_set_ordinary, get_ofScores by done.
  rewrite <- set_ofScores. f_equal.
  destruct (JS.get name sc) as [p|]; simpl; [|done].
  unfold Board.orZeroPlus. simpl. by destruct (Z.eqb_spec p 0) as [->|].
Qed.

Lemma ordinary_cons st sts :
  Board.ordinary (st :: sts) = true ->
  (forall n, n ∈ Board.written st -> Board.inherited n = None)
  /\ Board.ordinary sts = true.
Proof.
  unfold Board.ordinary. simpl. intros H. apply andb_true_iff in H as [H1 H2].
  split; [|done]. intros n Hn.
  rewrite forallb_forall in H1. apply list_elem_of_In in Hn.
  specialize (H1 n Hn). by apply bool_decide_eq_true in H1.
Qed.

Lemma exec_ofScores st sc :
  (forall n, n ∈ Board.written st -> Board.inherited n = None) ->
  Board.exec (Board.ofScores sc) st = Board.ofScores (onNumbers sc st).
Proof.
  intros Ho. destruct st as [n|n d|dn|]; simpl.
  - apply initScore_ofScores, Ho. simpl. by left.
  - apply award_ofScores, Ho. simpl. by left.
  - unfold Board.awardDrawer, awardDrawer. destruct dn as [d|]; [|done].
    destruct (JS.truthy d); [|done]. apply award_ofScores, Ho. simpl. by left.
  - done.
Qed.

Lemma execAll_ofScores sts sc :
  Board.ordinary sts = true ->
  Board.execAll sts (Board.ofScores sc) = Board.ofScores (foldl onNumbers sc sts).
Proof.
  revert sc. induction sts as [|st sts IH]; intros sc Ho; [done|].
  apply ordinary_cons in Ho as [Ho1 Ho2]. simpl.
  rewrite exec_ofScores by done. by apply IH.
Qed.

(** ** The order of [Object.entries] *)


End BoardFacts.

(** * The statements of the servers on the Score Board *)

Section ScoreStatements.

(** A roster stays scored through statements that initialise the names
    that come into it, and do not reset the board. *)
Lemma initScore_in_keys (sts : list Board.Stmt) (n : string) (b : Board.t) :
  Board.Reset ∉ sts -> Board.InitScore n ∈ sts -> Board.inherited n = None ->
  n ∈ JS.keys (Board.execAll sts b).
Proof.
  revert b. induction sts as [|st sts IH]; intros b Hr Hin Hn;
    [by apply list_elem_of_In in Hin|].
  assert (Board.Reset ∉ sts) as Hr' by (intros H; apply Hr; by right).
  simpl. apply elem_of_cons in Hin as [<-|Hin].
  - apply board_execAll_keys; [done|]. simpl. by apply board_initScore_key.
  - by apply IH.
Qed.

Lemma rosterScored_execAll (users users' : JS.obj string)
    (sts : list Board.Stmt) (b : Board.t) :
  Board.Reset ∉ sts ->
  (forall n, n ∈ JS.values users' ->
             n ∈ JS.values users \/ Board.InitScore n ∈ sts) ->
  Board.rosterScored users b ->
  Board.rosterScored users' (Board.execAll sts b).
Proof.
  intros Hr Hu Hrs n Hin Hn. destruct (Hu n Hin) as [Hold|Hnew].
  - apply board_execAll_keys; [done|]. by apply Hrs.
  - by apply initScore_in_keys.
Qed.

(** ** The session server *)

Lemma session_initScore_scores (n : string) (s : Session.State) :
  Session.scores (Session.initScore n s) = initScoreOf n (Session.scores s).
Proof.
  unfold Session.initScore, initScoreOf.
  destruct (JS.get n (Session.scores s)) as [p|]; [|done].
  by destruct (p =? 0).
Qed.

Lemma session_on_join_scores (e : Session.Env) (id name : string)
    (s : Session.State) :
  Session.scores (Session.on_join e id name s)
  = initScoreOf (joinName id name) (Session.scores s).
Proof.
  unfold Session.on_join, joinName. cbv zeta.
  generalize (if JS.truthy (JS.trim name) then JS.trim name else fallbackName id).
  intros n.
  match goal with |- context [Session.initScore ?n ?x] =>
    pose proof (session_initScore_scores n x) as Hi;
    generalize dependent (Session.initScore n x) end.
  intros x Hx. case_match; cbn; by rewrite Hx.
Qed.

Lemma session_on_guess_scores (e : Session.Env) (id from text : string)
    (s : Session.State) :
  Session.scores (Session.on_guess e id from text s)
  = foldl onNumbers (Session.scores s)
      (guessStmts id from text (Session.users s) (Session.currentDrawer s)
         (Session.currentWord s) (Session.gameActive s)).
Proof.
  unfold Session.on_guess, guessStmts. cbv zeta.
  destruct (negb (JS.truthy (JS.trim text))); [done|].
  case_bool_decide; [done|]. cbn -[Session.endRound JS.toLowerCase playerName].
  destruct (Session.currentWord s) as [w|]; [|done].
  destruct (negb (Session.gameActive s) || negb (JS.truthy w)); [done|].
  case_bool_decide; [|done].
  match goal with |- context [Session.endRound e true ?x] =>
    destruct (endRound_frame e true x) as (_ & -> & _) end.
  reflexivity.
Qed.

Lemma session_fire_scores (e : Session.Env) (h : nat) (s : Session.State) :
  Session.scores (Session.fire e h s)
  = foldl onNumbers (Session.scores s) (Session.scoreStmts e (Session.Fire h) s).
Proof.
  unfold Session.scoreStmts.
  destruct (Session.timers s !! h) as [t|] eqn:Ht;
    [|by rewrite fire_not_pending].
  destruct (Z.leb_spec (Session.due t) (Session.now e)) as [Hdue|Hdue];
    [|by rewrite (fire_not_due e h t)].
  cbn [negb].
  assert (Session.callback t = Session.ResetScores
          \/ Session.callback t <> Session.ResetScores) as [Hcb|Hcb]
    by (destruct (Session.callback t); auto).
  - rewrite Hcb. unfold Session.fire. rewrite Ht, Hcb.
    apply Z.leb_le in Hdue. by rewrite Hdue.
  - destruct (fire_books e h s) as [_ ->].
    + intros t' Ht'. rewrite Ht in Ht'. by injection Ht' as <-.
    + by destruct (Session.callback t).
Qed.

(** The Score Board of the numbers changes by the statements of the step,
    and by nothing else. *)
Lemma session_scores_stmts (e : Session.Env) (ev : Session.Event)
    (s : Session.State) :
  Session.scores (Session.step e ev s)
  = foldl onNumbers (Session.scores s) (Session.scoreStmts e ev s).
Proof.
  destruct ev; unfold Session.step.
  - done.
  - apply session_on_join_scores.
  - by destruct (on_leaveGame_books e id s) as [_ ->].
  - unfold Session.on_stroke. by repeat case_match.
  - unfold Session.on_clear. by repeat case_match.
  - done.
  - apply session_on_guess_scores.
  - by destruct (on_disconnect_books e id s) as [_ ->].
  - apply session_fire_scores.
Qed.

Lemma session_stmts_tensAndFives (e : Session.Env) (ev : Session.Event)
    (s : Session.State) :
  Board.tensAndFives (Session.scoreStmts e ev s).
Proof.
  destruct ev; try (intros n d Hin; by apply list_elem_of_In in Hin).
  - intros n d Hin. apply list_elem_of_In in Hin. simpl in Hin.
    by destruct Hin as [?|[]].
  - apply guessStmts_tensAndFives.
  - intros n d. simpl. repeat case_match;
      intros Hin; apply list_elem_of_In in Hin; simpl in Hin; try done.
    by destruct Hin as [?|[]].
Qed.




Lemma session_boardRun_sound (tr : list (Session.Env * Session.Event))
    (s : Session.State) (b : Board.t) :
  Board.sound b -> Board.sound (Session.boardRun tr s b).
Proof.
  revert s b. induction tr as [|[e ev] tr IH]; intros s b Hs; [done|].
  simpl. apply IH. apply sound_execAll; [|done].
  apply session_stmts_tensAndFives.
Qed.

Lemma session_boardRun_agree (tr : list (Session.Env * Session.Event))
    (s : Session.State) (b : Board.t) :
  Board.agree (Session.scores s) b ->
  Board.agree (Session.scores (Session.run tr s)) (Session.boardRun tr s b).
Proof.
  revert s b. induction tr as [|[e ev] tr IH]; intros s b Ha; [done|].
  simpl. apply IH. rewrite session_scores_stmts. by apply agree_execAll.
Qed.




(** ** The basic server *)

Lemma basic_initScore_scores (n : string) (s : Basic.State) :
  Basic.scores (Basic.initScore n s) = initScoreOf n (Basic.scores s).
Proof.
  unfold Basic.initScore, initScoreOf.
  destruct (JS.get n (Basic.scores s)) as [p|]; [|done].
  by destruct (p =? 0).
Qed.

Lemma basic_on_join_scores (e : Basic.Env) (id name : string)
    (s : Basic.State) :
  Basic.scores (Basic.on_join e id name s)
  = initScoreOf (joinName id name) (Basic.scores s).
Proof.
  unfold Basic.on_join, joinName. cbv zeta.
  generalize (if JS.truthy (JS.trim name) then JS.trim name else fallbackName id).
  intros n.
  match goal with |- context [Basic.initScore ?n ?x] =>
    pose proof (basic_initScore_scores n x) as Hi;
    generalize dependent (Basic.initScore n x) end.
  intros x Hx. case_match; cbn; by rewrite Hx.
Qed.

Lemma basic_on_guess_scores (e : Basic.Env) (id from text : string)
    (s : Basic.State) :
  Basic.scores (Basic.on_guess e id from text s)
  = foldl onNumbers (Basic.scores s)
      (guessStmts id from text (Basic.users s) (Basic.currentDrawer s)
         (Basic.currentWord s) (Basic.gameActive s)).
Proof.
  unfold Basic.on_guess, guessStmts. cbv zeta.
  destruct (negb (JS.truthy (JS.trim text))); [done|].
  case_bool_decide; [done|]. cbn -[Basic.endRound JS.toLowerCase playerName].
  destruct (Basic.currentWord s) as [w|]; [|done].
  destruct (negb (Basic.gameActive s) || negb (JS.truthy w)); [done|].
  case_bool_decide; [|done].
  match goal with |- context [Basic.endRound e true ?x] =>
    destruct (basic_endRound_frame e true x) as (_ & -> & _) end.
  reflexivity.
Qed.

Lemma basic_scores_stmts (e : Basic.Env) (ev : Basic.Event) (s : Basic.State) :
  Basic.scores (Basic.step e ev s)
  = foldl onNumbers (Basic.scores s) (Basic.scoreStmts e ev s).
Proof.
  destruct ev; unfold Basic.step.
  - done.
  - apply basic_on_join_scores.
  - unfold Basic.on_stroke. by repeat case_match.
  - unfold Basic.on_clear. by repeat case_match.
  - done.
  - apply basic_on_guess_scores.
  - by destruct (basic_on_disconnect_books e id s) as [_ ->].
  - by destruct (basic_fire_books e h s) as [_ ->].
Qed.

Lemma basic_stmts_tensAndFives (e : Basic.Env) (ev : Basic.Event)
    (s : Basic.State) :
  Board.tensAndFives (Basic.scoreStmts e ev s).
Proof.
  destruct ev; try (intros n d Hin; by apply list_elem_of_In in Hin).
  - intros n d Hin. apply list_elem_of_In in Hin. simpl in Hin.
    by destruct Hin as [?|[]].
  - apply guessStmts_tensAndFives.
Qed.




Lemma basic_boardRun_sound (tr : list (Basic.Env * Basic.Event))
    (s : Basic.State) (b : Board.t) :
  Board.sound b -> Board.sound (Basic.boardRun tr s b).
Proof.
  revert s b. induction tr as [|[e ev] tr IH]; intros s b Hs; [done|].
  simpl. apply IH. apply sound_execAll; [|done].
  apply basic_stmts_tensAndFives.
Qed.

Lemma basic_boardRun_agree (tr : list (Basic.Env * Basic.Event))
    (s : Basic.State) (b : Board.t) :
  Board.agree (Basic.scores s) b ->
  Board.agree (Basic.scores (Basic.run tr s)) (Basic.boardRun tr s b).
Proof.
  revert s b. induction tr as [|[e ev] tr IH]; intros s b Ha; [done|].
  simpl. apply IH. rewrite basic_scores_stmts. by apply agree_execAll.
Qed.




End ScoreStatements.

(** * The specification *)

(** C1.  Once a round has ended, by a correct guess, by its timeout or by
    the departure of the drawer, the timeout scheduled when that round
    started is not pending any more and never becomes pending again: at
    any later moment its firing changes nothing and emits nothing, so
    there is no second announcement, no score awarded, and no newer round
    ended by it.  For the session server a round has ended when the word
    is cleared; for [server.js] when [gameActive] is false.  The timeout of
    a round is the one [startNewRound] schedules and records in
    [roundTimer]. *)
Theorem stale_round_timer_has_no_effect :
  (forall (tr1 tr2 : list (Session.Env * Session.Event)) (e0 eF : Session.Env)
          (ev0 : Session.Event) (h : nat),
      let s := Session.run tr1 Session.init in
      let s' := Session.step e0 ev0 s in
      let s'' := Session.run tr2 s' in
      Session.roundTimer s = Some h ->
      Session.truthyS (Session.currentWord s') = false ->
      Session.timers s'' !! h = None /\ Session.fire eF h s'' = s'')
  /\ (forall (tr1 tr2 : list (Basic.Env * Basic.Event)) (e0 eF : Basic.Env)
          (ev0 : Basic.Event) (h : nat),
      let s := Basic.run tr1 Basic.init in
      let s' := Basic.step e0 ev0 s in
      let s'' := Basic.run tr2 s' in
      Basic.roundTimer s = Some h ->
      Basic.gameActive s' = false ->
      Basic.timers s'' !! h = None /\ Basic.fire eF h s'' = s'')
  /\ (forall (e : Session.Env) (s : Session.State),
      (forall id from text w,
          Session.correctGuess s id text w ->
          Session.truthyS
            (Session.currentWord (Session.step e (Session.Guess id from text) s))
          = false)
      /\ (forall h t,
          Session.timers s !! h = Some t ->
          Session.callback t = Session.RoundTimeout ->
          Session.due t <= Session.now e ->
          Session.truthyS (Session.currentWord (Session.step e (Session.Fire h) s))
          = false)
      /\ (forall id name,
          Session.currentDrawer s = Some id -> Session.gameActive s = true ->
          JS.get id (Session.users s) = Some name -> JS.truthy name = true ->
          Session.truthyS
            (Session.currentWord (Session.step e (Session.Disconnect id) s))
          = false))
  /\ (forall (e : Basic.Env) (s : Basic.State),
      (forall id from text w,
          Basic.correctGuess s id text w ->
          Basic.gameActive (Basic.step e (Basic.Guess id from text) s) = false)
      /\ (forall h t,
          Basic.timers s !! h = Some t ->
          Basic.callback t = Basic.RoundTimeout ->
          Basic.due t <= Basic.now e ->
          Basic.gameActive (Basic.step e (Basic.Fire h) s) = false)
      /\ (forall id name,
          Basic.currentDrawer s = Some id ->
          JS.get id (Basic.users s) = Some name -> JS.truthy name = true ->
          Basic.gameActive (Basic.step e (Basic.Disconnect id) s) = false))
  /\ (forall (e : Session.Env) (s : Session.State),
      Session.users s <> [] ->
      Session.roundTimer (Session.startNewRound e s) = Some (Session.nextHandle s)
      /\ Session.timers (Session.startNewRound e s) !! Session.nextHandle s
         = Some (Session.mkTimer Session.RoundTimeout
                   (Session.now e + Session.ROUND_DURATION)))
  /\ (forall (e : Basic.Env) (s : Basic.State),
      Basic.users s <> [] ->
      Basic.roundTimer (Basic.startNewRound e s) = Some (Basic.nextHandle s)
      /\ Basic.timers (Basic.startNewRound e s) !! Basic.nextHandle s
         = Some (Basic.mkTimer Basic.RoundTimeout
                   (Basic.now e + Basic.ROUND_DURATION))).
Proof.
  split; [exact stale_round_timer_session|].
  split; [exact stale_round_timer_basic|].
  split; [exact session_round_ends|]. split; [exact basic_round_ends|].
  split; [exact startNewRound_arms | exact basic_startNewRound_arms].
Qed.

(** The stale timer of the first round, fired at its due time while the
    second round is in progress, changes nothing. *)
Lemma stale_round_timer_has_no_effect_witness :
  Session.truthyS
    (Session.currentWord
       (Session.run [(Scenario.at_ 26000, Session.Fire 4%nat)]
          (Session.step (Scenario.at_ 21000) (Session.Guess "s2" "" "cat")
             (Scenario.firstRound "Ann" "Bob"))))
  = true
  /\ Session.fire (Scenario.at_ 140000) 1%nat
       (Session.run [(Scenario.at_ 26000, Session.Fire 4%nat)]
          (Session.step (Scenario.at_ 21000) (Session.Guess "s2" "" "cat")
             (Scenario.firstRound "Ann" "Bob")))
     = Session.run [(Scenario.at_ 26000, Session.Fire 4%nat)]
         (Session.step (Scenario.at_ 21000) (Session.Guess "s2" "" "cat")
            (Scenario.firstRound "Ann" "Bob"))
  /\ Basic.fire (Scenario.basicAt 62000) 1%nat
       (Basic.run [(Scenario.basicAt 8000, Basic.Fire 2%nat)]
          (Basic.step (Scenario.basicAt 3000) (Basic.Guess "s2" "" "cat")
             (Scenario.basicFirstRound "Ann" "Bob")))
     = Basic.run [(Scenario.basicAt 8000, Basic.Fire 2%nat)]
         (Basic.step (Scenario.basicAt 3000) (Basic.Guess "s2" "" "cat")
            (Scenario.basicFirstRound "Ann" "Bob")).
Proof.
  destruct stale_round_timer_has_no_effect as (HS & HB & _).
  split; [vm_compute; reflexivity|]. split.
  - apply (HS (Scenario.firstRoundTrace "Ann" "Bob")
              [(Scenario.at_ 26000, Session.Fire 4%nat)]
              (Scenario.at_ 21000) (Scenario.at_ 140000)
              (Session.Guess "s2" "" "cat") 1%nat); vm_compute; reflexivity.
  - apply (HB (Scenario.basicFirstRoundTrace "Ann" "Bob")
              [(Scenario.basicAt 8000, Basic.Fire 2%nat)]
              (Scenario.basicAt 3000) (Scenario.basicAt 62000)
              (Basic.Guess "s2" "" "cat") 1%nat); vm_compute; reflexivity.
Defined.

(** C2, as the code has it.  However a round ends, the end-round operation
    leaves no word: it clears the word of the round, its start and end
    times and its timer before any new round can be started.  It does not
    clear [currentDrawer], the cursor that the rotation of the next round
    starts from: the end-round operation keeps the drawer, unless the
    session has run out of time and the operation ends the session with the
    round.  At most one round is active at any instant: the state holds one
    round, and at most one round timeout is pending. *)
Theorem endRound_clears_word_keeps_drawer :
  (forall (e : Session.Env) (b : bool) (s : Session.State),
      Session.truthyS (Session.currentWord (Session.endRound e b s)) = false
      /\ (forall w, Session.currentWord s = Some w -> JS.truthy w = true ->
            Session.currentWord (Session.endRound e b s) = None
            /\ Session.roundStartTime (Session.endRound e b s) = None
            /\ Session.roundEndTime (Session.endRound e b s) = None
            /\ Session.roundTimer (Session.endRound e b s) = None)
      /\ (Session.currentDrawer (Session.endRound e b s) = Session.currentDrawer s
          \/ (Session.currentDrawer (Session.endRound e b s) = None
              /\ Session.gameActive s = true
              /\ Session.gameActive (Session.endRound e b s) = false
              /\ exists t, Session.sessionStartTime s = Some t
                           /\ Session.SESSION_DURATION <= Session.now e - t)))
  /\ (forall (e : Basic.Env) (b : bool) (s : Basic.State),
      Basic.gameActive (Basic.endRound e b s) = false
      /\ (Basic.gameActive s = true -> Basic.currentWord (Basic.endRound e b s) = None)
      /\ Basic.roundTimer (Basic.endRound e b s) = None
      /\ Basic.currentDrawer (Basic.endRound e b s) = Basic.currentDrawer s)
  /\ (forall (s : Session.State) (h1 h2 : nat) (t1 t2 : Session.Timer),
      Session.reachable s ->
      Session.timers s !! h1 = Some t1 -> Session.callback t1 = Session.RoundTimeout ->
      Session.timers s !! h2 = Some t2 -> Session.callback t2 = Session.RoundTimeout ->
      h1 = h2 /\ Session.roundTimer s = Some h1)
  /\ (forall (s : Basic.State) (h1 h2 : nat) (t1 t2 : Basic.Timer),
      Basic.reachable s ->
      Basic.timers s !! h1 = Some t1 -> Basic.callback t1 = Basic.RoundTimeout ->
      Basic.timers s !! h2 = Some t2 -> Basic.callback t2 = Basic.RoundTimeout ->
      h1 = h2 /\ Basic.roundTimer s = Some h1).
Proof.
  split; [|split; [|split]].
  - intros e b s. split; [apply endRound_frame|].
    split; [apply endRound_clears_round | apply endRound_drawer].
  - intros e b s. split; [apply basic_endRound_frame|].
    split; [intros Hg; apply (basic_endRound_emits e b s Hg)|].
    split; [|apply basic_endRound_frame].
    unfold Basic.endRound. cbn. by destruct (Basic.gameActive s).
  - exact session_one_round_timer.
  - exact basic_one_round_timer.
Qed.

Lemma endRound_clears_word_keeps_drawer_witness :
  Session.currentWord
    (Session.endRound (Scenario.at_ 21000) true (Scenario.firstRound "Ann" "Bob"))
  = None
  /\ Basic.currentWord
       (Basic.endRound (Scenario.basicAt 3000) true
          (Scenario.basicFirstRound "Ann" "Bob"))
     = None.
Proof.
  destruct endRound_clears_word_keeps_drawer as (HS & HB & _).
  split.
  - destruct (HS (Scenario.at_ 21000) true (Scenario.firstRound "Ann" "Bob"))
      as (_ & Hw & _).
    apply (Hw "cat"%string); vm_compute; reflexivity.
  - destruct (HB (Scenario.basicAt 3000) true (Scenario.basicFirstRound "Ann" "Bob"))
      as (_ & Hw & _).
    apply Hw. vm_compute. reflexivity.
Defined.

(** The first round ends by a correct guess, by its timeout, or by the
    departure of the drawer, in timely runs: the word is cleared,
    [currentDrawer] is not. *)
Lemma endRound_keeps_drawerId :
  Session.currentDrawer (Scenario.firstRound "Ann" "Bob") = Some "s1"%string
  /\ Session.currentWord (Scenario.firstRound "Ann" "Bob") = Some "cat"%string
  /\ Session.timely (Scenario.guessedTrace "Ann" "Bob") = true
  /\ Session.currentDrawer
       (Session.run (Scenario.guessedTrace "Ann" "Bob") Session.init)
     = Some "s1"%string
  /\ Session.currentWord
       (Session.run (Scenario.guessedTrace "Ann" "Bob") Session.init)
     = None
  /\ Session.timely Scenario.timedOutTrace = true
  /\ Session.currentDrawer (Session.run Scenario.timedOutTrace Session.init)
     = Some "s1"%string
  /\ Session.currentWord (Session.run Scenario.timedOutTrace Session.init)
     = None
  /\ Session.timely Scenario.drawerLeftTrace = true
  /\ Session.currentDrawer (Session.run Scenario.drawerLeftTrace Session.init)
     = Some "s1"%string
  /\ Session.currentWord (Session.run Scenario.drawerLeftTrace Session.init)
     = None
  /\ Basic.currentDrawer
       (Basic.step (Scenario.basicAt 3000) (Basic.Guess "s2" "" "cat")
          (Scenario.basicFirstRound "Ann" "Bob")) = Some "s1"%string.
Proof. repeat split; vm_compute; reflexivity. Qed.




(** C4.  A guess sent by the current drawer changes neither the Score Board
    nor the round, whatever its text, also when it equals the word of the
    round in progress: it is dropped when blank and relayed as a plain chat
    message otherwise, and the state of the game is what it was. *)
Theorem drawer_guess_is_plain_chat :
  (forall (e : Session.Env) (id from text : string) (s : Session.State),
      Session.currentDrawer s = Some id ->
      let s' := Session.on_guess e id from text s in
      (s' = s
       \/ s' = Session.emit ToAll
                 (Session.chatMessage (playerName id from (Session.users s))
                    (Session.Plain (JS.trim text))) s)
      /\ Session.sameGame s s'
      /\ Session.scores s' = Session.scores s
      /\ Session.currentWord s' = Session.currentWord s
      /\ Session.gameActive s' = Session.gameActive s
      /\ Session.timers s' = Session.timers s)
  /\ (forall (e : Basic.Env) (id from text : string) (s : Basic.State),
      Basic.currentDrawer s = Some id ->
      let s' := Basic.on_guess e id from text s in
      (s' = s
       \/ s' = Basic.emit ToAll
                 (Basic.chatMessage (playerName id from (Basic.users s))
                    (Basic.Plain (JS.trim text))) s)
      /\ Basic.sameGame s s'
      /\ Basic.scores s' = Basic.scores s
      /\ Basic.currentWord s' = Basic.currentWord s
      /\ Basic.gameActive s' = Basic.gameActive s
      /\ Basic.timers s' = Basic.timers s).
Proof.
  split.
  - intros e id from text s Hd s'.
    assert (Session.sameGame s s') as Hsame.
    { subst s'. destruct (on_guess_drawer e id from text s Hd) as [-> | ->];
        [apply session_sameGame_refl | apply session_sameGame_emit]. }
    split; [exact (on_guess_drawer e id from text s Hd)|].
    split; [exact Hsame|].
    destruct (session_sameGame_fields _ _ Hsame) as (_ & ? & _ & ? & ? & ?). done.
  - intros e id from text s Hd s'.
    assert (Basic.sameGame s s') as Hsame.
    { subst s'. destruct (basic_on_guess_drawer e id from text s Hd) as [-> | ->];
        [apply basic_sameGame_refl | apply basic_sameGame_emit]. }
    split; [exact (basic_on_guess_drawer e id from text s Hd)|].
    split; [exact Hsame|].
    destruct (basic_sameGame_fields _ _ Hsame) as (_ & ? & _ & ? & ? & ?). done.
Qed.

(** The drawer of the first round types the word: nothing is scored and the
    round goes on. *)
Lemma drawer_guess_is_plain_chat_witness :
  Session.currentDrawer (Scenario.firstRound "Ann" "Bob") = Some "s1"%string
  /\ Session.scores
       (Session.on_guess (Scenario.at_ 21000) "s1" "" "cat"
          (Scenario.firstRound "Ann" "Bob"))
     = Session.scores (Scenario.firstRound "Ann" "Bob")
  /\ Session.currentWord
       (Session.on_guess (Scenario.at_ 21000) "s1" "" "cat"
          (Scenario.firstRound "Ann" "Bob"))
     = Some "cat"%string
  /\ Basic.currentDrawer (Scenario.basicFirstRound "Ann" "Bob") = Some "s1"%string
  /\ Basic.scores
       (Basic.on_guess (Scenario.basicAt 3000) "s1" "" "cat"
          (Scenario.basicFirstRound "Ann" "Bob"))
     = Basic.scores (Scenario.basicFirstRound "Ann" "Bob").
Proof.
  destruct drawer_guess_is_plain_chat as [HS HB].
  assert (Session.currentDrawer (Scenario.firstRound "Ann" "Bob") = Some "s1"%string)
    as Hd by (vm_compute; reflexivity).
  assert (Basic.currentDrawer (Scenario.basicFirstRound "Ann" "Bob") = Some "s1"%string)
    as Hd' by (vm_compute; reflexivity).
  destruct (HS (Scenario.at_ 21000) "s1"%string ""%string "cat"%string _ Hd)
    as (_ & _ & Hsc & Hw & _).
  destruct (HB (Scenario.basicAt 3000) "s1"%string ""%string "cat"%string _ Hd')
    as (_ & _ & Hsc' & _).
  split; [exact Hd|]. split; [exact Hsc|].
  split; [rewrite Hw; vm_compute; reflexivity|].
  split; [exact Hd'|exact Hsc'].
Defined.

(** C5.  For every roster (an object: distinct keys, in insertion order)
    and every [afterId], [getNextDrawer] returns the participant that
    follows [afterId] in insertion order, wrapping to the first; the first
    participant when [afterId] is null or not in the roster; none if and
    only if the roster is empty; and always a member of the roster.  The
    roster of every reachable state of either server is such an object. *)
Theorem getNextDrawer_round_robin :
  (forall (users : JS.obj Name) (afterId : option SocketId),
      NoDup (JS.keys users) ->
      (forall (i : nat) (id : SocketId),
          JS.keys users !! i = Some id -> afterId = Some id ->
          getNextDrawer users afterId
          = JS.keys users !! ((i + 1) mod length (JS.keys users))%nat)
      /\ ((forall id, afterId = Some id -> id ∉ JS.keys users) ->
          getNextDrawer users afterId = head (JS.keys users))
      /\ (getNextDrawer users afterId = None <-> users = [])
      /\ (forall id, getNextDrawer users afterId = Some id -> id ∈ JS.keys users))
  /\ (forall s : Session.State,
      Session.reachable s -> NoDup (JS.keys (Session.users s)))
  /\ (forall s : Basic.State, Basic.reachable s -> NoDup (JS.keys (Basic.users s))).
Proof.
  split; [|split; [exact session_reachable_NoDup | exact basic_reachable_NoDup]].
  intros users afterId Hnd. repeat split.
  - intros i id Hi ->. apply getNextDrawer_successor; assumption.
  - apply getNextDrawer_absent.
  - apply getNextDrawer_None.
  - intros ->. reflexivity.
  - apply getNextDrawer_member.
Qed.

(** The roster of the first round: after the last participant comes the
    first, after the first the second. *)
Lemma getNextDrawer_round_robin_witness :
  getNextDrawer (Session.users (Scenario.firstRound "Ann" "Bob")) (Some "s2"%string)
  = Some "s1"%string
  /\ getNextDrawer (Session.users (Scenario.firstRound "Ann" "Bob")) (Some "s1"%string)
     = Some "s2"%string
  /\ getNextDrawer (Session.users (Scenario.firstRound "Ann" "Bob")) (Some "s9"%string)
     = Some "s1"%string.
Proof.
  destruct getNextDrawer_round_robin as (Hrot & Hreach & _).
  assert (NoDup (JS.keys (Session.users (Scenario.firstRound "Ann" "Bob")))) as Hnd.
  { apply Hreach. by exists (Scenario.firstRoundTrace "Ann" "Bob"). }
  split; [|split].
  - destruct (Hrot _ (Some "s2"%string) Hnd) as [Hsucc _].
    rewrite (Hsucc 1%nat "s2"%string); vm_compute; reflexivity.
  - destruct (Hrot _ (Some "s1"%string) Hnd) as [Hsucc _].
    rewrite (Hsucc 0%nat "s1"%string); vm_compute; reflexivity.
  - destruct (Hrot _ (Some "s9"%string) Hnd) as (_ & Habs & _).
    rewrite Habs; [vm_compute; reflexivity|].
    intros id [= <-]. apply (bool_decide_unpack _). vm_compute. exact I.
Defined.

(** C6, as the code has it.  When a round ends and the session goes on,
    end-round schedules the start of the next round 5000 ms later.  During
    a session a round starts only when such an intermission timer fires, at
    or after its due time, and the timer then starts a round if and only
    if the roster has at least 1 participant (the re-check at fire time is
    against 1, not 2) and the session is still active.  In [server.js] the
    intermission timer starts a round if and only if the roster has at
    least 1 participant.  In both servers no step starts a round with an
    empty roster. *)
Theorem intermission_restarts_with_one_player :
  (forall (e : Session.Env) (b : bool) (s : Session.State) (w : string) (t : Z),
      Session.currentWord s = Some w -> JS.truthy w = true ->
      Session.gameActive s = true -> Session.sessionStartTime s = Some t -> t <> 0 ->
      Session.now e - t < Session.SESSION_DURATION ->
      Session.timers (Session.endRound e b s)
      = <[Session.nextHandle s
          := Session.mkTimer Session.NextRound (Session.now e + 5000)]>
          (cancel (Session.roundTimer s) (Session.timers s))
      /\ Session.gameActive (Session.endRound e b s) = true
      /\ Session.currentWord (Session.endRound e b s) = None)
  /\ (forall (e : Session.Env) (h : nat) (t : Session.Timer) (s : Session.State),
      Session.timers s !! h = Some t -> Session.callback t = Session.NextRound ->
      (Session.now e < Session.due t -> Session.fire e h s = s)
      /\ (Session.due t <= Session.now e ->
          Session.fire e h s
          = Session.nextRound e
              (Session.set_timers (base.delete h (Session.timers s)) s)))
  /\ (forall (e : Session.Env) (s : Session.State),
      Session.truthyS (Session.currentWord s) = false ->
      Session.truthyS (Session.currentWord (Session.nextRound e s)) = true
      <-> (1 <= length (JS.keys (Session.users s)))%nat
          /\ Session.gameActive s = true)
  /\ (forall (e : Session.Env) (ev : Session.Event) (s : Session.State),
      Session.reachable s -> Session.gameActive s = true ->
      Session.truthyS (Session.currentWord s) = false ->
      Session.truthyS (Session.currentWord (Session.step e ev s)) = true ->
      exists h t,
        ev = Session.Fire h /\ Session.timers s !! h = Some t
        /\ Session.callback t = Session.NextRound
        /\ Session.due t <= Session.now e
        /\ (1 <= length (JS.keys (Session.users s)))%nat)
  /\ (forall (e : Basic.Env) (b : bool) (s : Basic.State),
      Basic.gameActive s = true ->
      Basic.timers (Basic.endRound e b s)
      = <[Basic.nextHandle s := Basic.mkTimer Basic.NextRound (Basic.now e + 5000)]>
          (cancel (Basic.roundTimer s) (Basic.timers s)))
  /\ (forall (e : Basic.Env) (s : Basic.State),
      Basic.gameActive s = false ->
      Basic.gameActive (Basic.nextRound e s) = true
      <-> (1 <= length (JS.keys (Basic.users s)))%nat)
  /\ (forall (e : Session.Env) (ev : Session.Event) (s : Session.State),
      Session.truthyS (Session.currentWord s) = false ->
      Session.truthyS (Session.currentWord (Session.step e ev s)) = true ->
      (1 <= length (JS.keys (Session.users s)))%nat)
  /\ (forall (e : Basic.Env) (ev : Basic.Event) (s : Basic.State),
      Basic.gameActive s = false ->
      Basic.gameActive (Basic.step e ev s) = true ->
      (1 <= length (JS.keys (Basic.users s)))%nat).
Proof.
  split; [exact endRound_schedules|]. split; [exact fire_NextRound|].
  split; [exact nextRound_starts_iff|]. split; [exact round_starts_at_intermission|].
  split; [exact basic_endRound_schedules|].
  split; [exact basic_nextRound_starts_iff|].
  split; [exact round_start_needs_participant
         | exact basic_round_start_needs_participant].
Qed.

(** The first round ends at 21000: the intermission timer 4 is due at
    26000, and firing it with the two players present starts a round. *)
Lemma intermission_restarts_with_one_player_witness :
  Session.timers
    (Session.endRound (Scenario.at_ 21000) true (Scenario.firstRound "Ann" "Bob"))
  !! 4%nat
  = Some (Session.mkTimer Session.NextRound 26000)
  /\ Session.truthyS
       (Session.currentWord
          (Session.nextRound (Scenario.at_ 26000)
             (Session.endRound (Scenario.at_ 21000) true
                (Scenario.firstRound "Ann" "Bob"))))
     = true.
Proof.
  destruct intermission_restarts_with_one_player as (Hsched & _ & Hiff & _).
  split.
  - destruct (Hsched (Scenario.at_ 21000) true (Scenario.firstRound "Ann" "Bob")
                "cat"%string 20000) as (-> & _); vm_compute; congruence.
  - apply Hiff; [vm_compute; reflexivity|]. split; vm_compute; [lia|reflexivity].
Defined.

(** Bob guesses the word and leaves during the intermission: when the
    intermission timer fires, the roster has one participant, fewer than
    the minimum of two, and a new round starts all the same. *)
Lemma intermission_starts_round_with_one_player :
  Session.timely Scenario.soloRoundTrace = true
  /\ JS.keys (Session.users (Session.run Scenario.oneLeftTrace Session.init))
     = ["s1"%string]
  /\ Session.currentWord (Session.run Scenario.oneLeftTrace Session.init)
     = None
  /\ Session.timers (Session.run Scenario.oneLeftTrace Session.init) !! 4%nat
     = Some (Session.mkTimer Session.NextRound 25500)
  /\ Session.currentWord (Session.run Scenario.soloRoundTrace Session.init)
     = Some "cat"%string
  /\ JS.keys (Session.users (Session.run Scenario.soloRoundTrace Session.init))
     = ["s1"%string]
  /\ Basic.timely Scenario.basicSoloRoundTrace = true
  /\ Basic.gameActive (Basic.run Scenario.basicSoloRoundTrace Basic.init)
     = true
  /\ JS.keys (Basic.users (Basic.run Scenario.basicSoloRoundTrace Basic.init))
     = ["s1"%string].
Proof. repeat split; vm_compute; reflexivity. Qed.


(** The example of the specification: final scores A:15, B:10. *)
Example endSession_leaderboard_example :
  Session.sortedScores [("B", 10); ("A", 15)]%string = [("A", 15); ("B", 10)]%string
  /\ Session.sortedScores [("A", 15); ("B", 10)]%string = [("A", 15); ("B", 10)]%string.
Proof. split; reflexivity. Qed.

(** C8, as the code has it.  A guess whose text is empty or white space
    only is dropped: no notification, no change of state.  A chat message
    is not filtered: whatever its text, also an empty one, it is broadcast
    verbatim as one chat message, and nothing else changes. *)
Theorem blank_guess_dropped_chat_relayed :
  (forall (e : Session.Env) (id from text : string) (s : Session.State),
      JS.truthy (JS.trim text) = false ->
      Session.on_guess e id from text s = s)
  /\ (forall (e : Basic.Env) (id from text : string) (s : Basic.State),
      JS.truthy (JS.trim text) = false ->
      Basic.on_guess e id from text s = s)
  /\ (forall (id from text : string) (s : Session.State),
      Session.sent s (Session.on_chat id from text s)
      = [(ToAll, Session.chatMessage (playerName id from (Session.users s))
                   (Session.Plain text))]
      /\ Session.sameGame s (Session.on_chat id from text s))
  /\ (forall (id from text : string) (s : Basic.State),
      Basic.sent s (Basic.on_chat id from text s)
      = [(ToAll, Basic.chatMessage (playerName id from (Basic.users s))
                   (Basic.Plain text))]
      /\ Basic.sameGame s (Basic.on_chat id from text s)).
Proof.
  split; [exact on_guess_empty|]. split; [exact basic_on_guess_empty|].
  split.
  - intros id from text s. split.
    + apply session_sent_app. reflexivity.
    + apply session_sameGame_emit.
  - intros id from text s. split.
    + apply basic_sent_app. reflexivity.
    + apply basic_sameGame_emit.
Qed.

Lemma blank_guess_dropped_chat_relayed_witness :
  Session.on_guess (Scenario.at_ 21000) "s2" "" "   " (Scenario.firstRound "Ann" "Bob")
  = Scenario.firstRound "Ann" "Bob"
  /\ Basic.on_guess (Scenario.basicAt 3000) "s2" "" "   "
       (Scenario.basicFirstRound "Ann" "Bob")
     = Scenario.basicFirstRound "Ann" "Bob".
Proof.
  destruct blank_guess_dropped_chat_relayed as (HS & HB & _).
  split; [apply HS | apply HB]; vm_compute; reflexivity.
Defined.

(** A chat message of white space only is broadcast: the event is not
    dropped. *)
Lemma blank_chat_is_broadcast :
  JS.truthy (JS.trim "   ") = false
  /\ Session.timely
       (Scenario.firstRoundTrace "Ann" "Bob"
          ++ [(Scenario.at_ 20500, Session.Chat "s2" "" "   ")])
     = true
  /\ Session.sent (Scenario.firstRound "Ann" "Bob")
       (Session.step (Scenario.at_ 20500) (Session.Chat "s2" "" "   ")
          (Scenario.firstRound "Ann" "Bob"))
     = [(ToAll, Session.chatMessage "Bob" (Session.Plain "   "))]
  /\ Session.step (Scenario.at_ 20500) (Session.Chat "s2" "" "   ")
       (Scenario.firstRound "Ann" "Bob")
     <> Scenario.firstRound "Ann" "Bob"
  /\ Basic.sent (Scenario.basicFirstRound "Ann" "Bob")
       (Basic.step (Scenario.basicAt 3000) (Basic.Chat "s2" "" "")
          (Scenario.basicFirstRound "Ann" "Bob"))
     = [(ToAll, Basic.chatMessage "Bob" (Basic.Plain ""))].
Proof.
  split; [reflexivity|]. split; [vm_compute; reflexivity|].
  split; [vm_compute; reflexivity|].
  split; [|vm_compute; reflexivity].
  intros Heq. apply (f_equal (fun s => length (Session.outbox s))) in Heq.
  vm_compute in Heq. discriminate.
Qed.







(** * Further properties of the servers *)

(** ** A cycle of the rotation *)

Section RotationCycle.
Implicit Types (users : JS.obj Name).

Lemma nextDrawers_lookup users (k i j : nat) (d : SocketId) :
  NoDup (JS.keys users) -> JS.keys users !! i = Some d -> (j < k)%nat ->
  nextDrawers users (Some d) k !! j
  = JS.keys users !! ((i + 1 + j) mod length (JS.keys users))%nat.
Proof.
  intros Hnd. revert i j d. induction k as [|k IH]; intros i j d Hi Hj; [lia|].
  pose proof (lookup_lt_Some _ _ _ Hi) as Hlt.
  simpl. rewrite (getNextDrawer_successor users i d Hnd Hi).
  destruct (JS.keys users !! ((i + 1) mod length (JS.keys users))%nat) as [d'|] eqn:Hd'.
  2:{ apply lookup_ge_None in Hd'.
      pose proof (Nat.mod_upper_bound (i + 1) (length (JS.keys users))). lia. }
  destruct j as [|j]; simpl.
  - rewrite Nat.add_0_r. done.
  - rewrite (IH _ j d' Hd') by lia. f_equal.
    replace ((i + 1) mod length (JS.keys users) + 1 + j)%nat
      with ((i + 1) mod length (JS.keys users) + (1 + j))%nat by lia.
    rewrite Nat.Div0.add_mod_idemp_l. f_equal; lia.
Qed.

Lemma nextDrawers_length users (k : nat) (cur : option SocketId) :
  users <> [] -> length (nextDrawers users cur k) = k.
Proof.
  intros Hne. revert cur. induction k as [|k IH]; intros cur; [done|].
  simpl. destruct (getNextDrawer users cur) as [d|] eqn:Hd.
  - simpl. by rewrite IH.
  - by apply getNextDrawer_None in Hd.
Qed.

Lemma rotate_lookup (l : list SocketId) (i j : nat) :
  (i < length l)%nat -> (j < length l)%nat ->
  (drop (S i) l ++ take (S i) l) !! j = l !! ((i + 1 + j) mod length l)%nat.
Proof.
  intros Hi Hj. destruct (decide (j < length l - S i)%nat) as [Hlt|Hge].
  - rewrite lookup_app_l by (rewrite length_drop; lia).
    rewrite lookup_drop. f_equal. rewrite Nat.mod_small; lia.
  - rewrite lookup_app_r by (rewrite length_drop; lia).
    rewrite length_drop. rewrite lookup_take_lt by lia. f_equal.
    apply (Nat.mod_unique _ _ 1); lia.
Qed.

Lemma nextDrawers_cycle users (i : nat) (d : SocketId) :
  NoDup (JS.keys users) -> JS.keys users !! i = Some d ->
  nextDrawers users (Some d) (length (JS.keys users))
  = drop (S i) (JS.keys users) ++ take (S i) (JS.keys users).
Proof.
  intros Hnd Hi. pose proof (lookup_lt_Some _ _ _ Hi) as Hlt.
  assert (users <> []) as Hne by (intros ->; simpl in Hlt; lia).
  apply list_eq. intros j.
  destruct (decide (j < length (JS.keys users))%nat) as [Hj|Hj].
  - rewrite (nextDrawers_lookup users _ i j d) by done.
    by rewrite rotate_lookup.
  - rewrite !(proj2 (lookup_ge_None _ _)); [done| |].
    + rewrite length_app, length_drop, length_take. lia.
    + rewrite nextDrawers_length by done. lia.
Qed.

Lemma nextDrawers_first users (cur : option SocketId) :
  NoDup (JS.keys users) ->
  (forall id, cur = Some id -> id ∉ JS.keys users) ->
  nextDrawers users cur (length (JS.keys users)) = JS.keys users.
Proof.
  intros Hnd Habs. destruct (JS.keys users) as [|k0 ks] eqn:Hk; [done|].
  assert (users <> []) as Hne by (intros ->; done).
  simpl. rewrite getNextDrawer_absent by (rewrite Hk; done). rewrite Hk. simpl.
  f_equal. apply list_eq. intros j.
  destruct (decide (j < length ks)%nat) as [Hj|Hj].
  - rewrite (nextDrawers_lookup users _ 0 j k0); [|by rewrite Hk|by rewrite Hk|done].
    rewrite Nat.mod_small by (rewrite Hk; simpl; lia).
    rewrite Hk. done.
  - rewrite !(proj2 (lookup_ge_None _ _)); [done|lia|].
    rewrite nextDrawers_length by done. lia.
Qed.

End RotationCycle.

(** ** Ties in the leaderboard *)

Section SortStable.
Context {A : Type} (score : A -> Z).
Local Abbreviation cmp := (fun a b : A => score b - score a).




End SortStable.

(** ** Rounds and sessions of the session server *)

Section SessionGame.
Import Session.

Lemma selectRandomWord_in (e : Env) : selectRandomWord e ∈ wordList.
Proof.
  unfold selectRandomWord.
  destruct (wordList !! _) as [w|] eqn:Hw.
  - simpl. eapply list_elem_of_lookup_2. exact Hw.
  - apply lookup_ge_None in Hw.
    pose proof (Nat.mod_upper_bound (random e) (length wordList)) as Hlt.
    simpl in *. lia.
Qed.

Lemma wordList_truthy (w : string) : w ∈ wordList -> JS.truthy w = true.
Proof.
  assert (Forall (fun w => JS.truthy w = true) wordList) as Hall.
  { repeat constructor. }
  rewrite Forall_forall in Hall. apply Hall.
Qed.

Lemma Game_init : Game init.
Proof. split; cbn; intros; simplify_map_eq; done. Qed.

Lemma Game_gameOf (s s' : State) : gameOf s' = gameOf s -> Game s -> Game s'.
Proof.
  unfold gameOf. intros [= Hu Hd Hw Hg Hr Hs He Hss Hst Ht] [G1 G2 G3 G4 G5 G6].
  split; rewrite ?Hu, ?Hd, ?Hw, ?Hg, ?Hr, ?Hs, ?He, ?Hss, ?Hst, ?Ht; assumption.
Qed.

(** Uses of the two disciplines of the state a step starts from. *)
Ltac sat :=
  repeat match goal with
  | I : Inv ?s, H : timers ?s !! ?h = Some ?t |- _ =>
      lazymatch goal with
      | _ : (h < nextHandle s)%nat |- _ => fail
      | _ => pose proof (inv_fresh s I h t H)
      end
  | I : Inv ?s, H : roundTimer ?s = Some ?h |- _ =>
      lazymatch goal with
      | _ : (h < nextHandle s)%nat |- _ => fail
      | _ => pose proof (inv_roundTimer_lt s I h H)
      end
  | I : Inv ?s, H : timers ?s !! ?h = Some ?t, C : callback ?t = RoundTimeout |- _ =>
      lazymatch goal with
      | _ : roundTimer s = Some h |- _ => fail
      | _ => destruct (inv_round s I h t H C)
      end
  | I : Inv ?s, R : roundTimer ?s = Some ?h, H : timers ?s !! ?h = Some ?t |- _ =>
      lazymatch goal with
      | _ : callback t = RoundTimeout |- _ => fail
      | _ => pose proof (inv_kind s I h t R H)
      end
  | I : Inv ?s, H : timers ?s !! ?h = Some ?t, C : callback ?t = CountdownTick ?c |- _ =>
      lazymatch goal with
      | _ : countdownTimer s = Some h |- _ => fail
      | _ => destruct (inv_countdown s I h t c H C)
      end
  | G : Game ?s, H : currentWord ?s = Some ?w |- _ =>
      lazymatch goal with
      | _ : w ∈ wordList |- _ => fail
      | _ => destruct (game_word s G w H) as (? & ? & ? & ? & ?);
             destruct (game_round s G w H) as (? & ? & ? & ? & ? & ?)
      end
  | G : Game ?s, H : gameActive ?s = true |- _ =>
      lazymatch goal with
      | _ : sessionTimer s = Some _ |- _ => fail
      | _ => destruct (game_session s G H) as (? & ? & ? & ? & ?)
      end
  | G : Game ?s, H : currentWord ?s = None |- _ =>
      lazymatch goal with
      | _ : roundEndTime s = None |- _ => fail
      | _ => destruct (game_no_round s G H) as (? & ? & ?)
      end
  | G : Game ?s, H : gameActive ?s = false |- _ =>
      lazymatch goal with
      | _ : sessionTimer s = None |- _ => fail
      | _ => destruct (game_idle s G H) as (? & ? & ? & ? & ? & ? & ?)
      end
  | G : Game ?s, H : timers ?s !! ?h = Some ?t, C : callback ?t = SessionTimeout |- _ =>
      lazymatch goal with
      | _ : sessionTimer s = Some h |- _ => fail
      | _ => pose proof (game_session_timer s G h t H C)
      end
  end.

Ltac finish := try first [ done | lia | congruence | by eauto ].

(** A field of the discipline after a step: the premises are used, the
    existential witnesses are read off the state, the timer table is looked
    up. *)
Ltac game_tac :=
  cbn -[selectRandomWord sortedScores take imap Z.leb]; intros;
  lookups; simplify_eq/=; sat; simplify_eq/=; finish;
  try (repeat split; finish);
  try (do 2 eexists; repeat split; try eassumption; try reflexivity;
       lookups; simplify_eq/=; sat; simplify_eq/=; finish).

Lemma startNewRound_Game (e : Env) (s : State) :
  Inv s -> Game s -> gameActive s = true -> users s <> [] ->
  Game (startNewRound e s).
Proof.
  intros I G Hg Hne. unfold startNewRound.
  pose proof (selectRandomWord_in e).
  cbn -[selectRandomWord].
  destruct (getNextDrawer _ _) as [d|] eqn:Hd;
    [|by apply getNextDrawer_None in Hd].
  apply getNextDrawer_member in Hd.
  split; game_tac.
Qed.

Lemma endSession_Game (e : Env) (s : State) :
  (forall h t, timers s !! h = Some t -> callback t = SessionTimeout ->
               sessionTimer s = Some h) ->
  Game (endSession e s).
Proof.
  intros G4. unfold endSession. cbn -[sortedScores take imap].
  destruct (sortedScores (scores s)) as [|[??]?]; split; game_tac.
  all: exfalso; eauto.
Qed.

Lemma endRound_Game (e : Env) (b : bool) (s : State) :
  Inv s -> Game s -> Game (endRound e b s).
Proof.
  intros I G. unfold endRound. cbn -[endSession].
  destruct (currentWord s) as [w|] eqn:Hw; [|split; game_tac].
  rewrite (wordList_truthy w) by (by apply (game_word s G w Hw)).
  cbn -[endSession].
  destruct (sessionStartTime s) eqn:Hst; [|split; game_tac].
  destruct (_ || _) eqn:Hor; [split; game_tac|].
  destruct (_ <=? 0); [|split; game_tac].
  apply endSession_Game. game_tac.
Qed.

Lemma gameOf_emit (t : Target) (m : Msg) (s : State) : gameOf (emit t m s) = gameOf s.
Proof. reflexivity. Qed.
Lemma gameOf_set_scores (u : JS.obj Z) (s : State) : gameOf (set_scores u s) = gameOf s.
Proof. reflexivity. Qed.
Lemma gameOf_broadcastUserList (s : State) : gameOf (broadcastUserList s) = gameOf s.
Proof. reflexivity. Qed.
Lemma gameOf_broadcastScores (s : State) : gameOf (broadcastScores s) = gameOf s.
Proof. reflexivity. Qed.
Lemma gameOf_broadcastGameState (e : Env) (s : State) :
  gameOf (broadcastGameState e s) = gameOf s.
Proof. reflexivity. Qed.
Lemma gameOf_initScore (n : string) (s : State) : gameOf (initScore n s) = gameOf s.
Proof. unfold initScore. repeat case_match; reflexivity. Qed.

Ltac game_frame :=
  first [ apply gameOf_emit | apply gameOf_set_scores
        | apply gameOf_broadcastUserList | apply gameOf_broadcastScores
        | apply gameOf_broadcastGameState | apply gameOf_initScore ].

(** The frame steps of a handler, for the two disciplines at once. *)
Lemma both_frame (s s' : State) :
  loopOf s' = loopOf s -> gameOf s' = gameOf s ->
  Inv s /\ Game s -> Inv s' /\ Game s'.
Proof. intros Hl Hg [I G]. split; [by apply (Inv_loopOf s)|by apply (Game_gameOf s)]. Qed.

Lemma startSession_Game (e : Env) (s : State) :
  Inv s -> Game s -> gameActive s = false -> Game (startSession e s).
Proof.
  intros I G Hg. unfold startSession, startNewRound.
  pose proof (selectRandomWord_in e).
  cbn -[selectRandomWord].
  destruct (getNextDrawer _ _) as [d|] eqn:Hd.
  - apply getNextDrawer_member in Hd. split; game_tac.
  - split; game_tac.
Qed.

Lemma startCountdown_Game (e : Env) (s : State) :
  Inv s -> Game s -> gameActive s = false -> Game (startCountdown e s).
Proof. intros I G Hg. unfold startCountdown. split; game_tac. Qed.

Lemma countdownTick_Game (e : Env) (c : Z) (s : State) :
  Inv s -> Game s -> gameActive s = false -> Game (countdownTick e c s).
Proof.
  intros I G Hg. unfold countdownTick. case_match.
  - apply startSession_Game; [| |done].
    + split; game_tac.
    + split; game_tac.
  - apply (Game_gameOf s); [reflexivity|done].
Qed.

Lemma timerInterval_Game (e : Env) (h : nat) (t : Timer) (s : State) :
  Inv s -> Game s -> timers s !! h = Some t -> callback t = TimerInterval ->
  Game (timerInterval e h s).
Proof.
  intros I G Ht Hcb. unfold timerInterval. case_match.
  - split; game_tac.
  - apply (Game_gameOf s); [reflexivity|done].
Qed.

Lemma nextRound_Game (e : Env) (s : State) :
  Inv s -> Game s -> Game (nextRound e s).
Proof.
  intros I G. unfold nextRound. case_match eqn:Hc.
  - apply andb_true_iff in Hc as [Hn Hg]. apply bool_decide_eq_true in Hn.
    apply startNewRound_Game; [done..|]. intros Hu. rewrite Hu in Hn. simpl in Hn. lia.
  - case_match; [|done]. apply endSession_Game. apply G.
Qed.

Lemma endRound_fired (e : Env) (b : bool) (h : nat) (s : State) :
  roundTimer s = Some h ->
  endRound e b (set_timers (base.delete h (timers s)) s) = endRound e b s.
Proof.
  intros Hrt.
  assert (set_roundTimer None
            (clearTimer (roundTimer (set_timers (base.delete h (timers s)) s))
               (set_timers (base.delete h (timers s)) s))
          = set_roundTimer None (clearTimer (roundTimer s) s)) as Heq.
  { cbn. rewrite Hrt. unfold set_roundTimer, clearTimer, cancel. cbn.
    by rewrite delete_delete_eq. }
  unfold endRound. cbv zeta. rewrite Heq. reflexivity.
Qed.

Lemma fire_Game (e : Env) (h : nat) (s : State) :
  Inv s -> Game s -> Game (fire e h s).
Proof.
  intros I G. unfold fire. destruct (timers s !! h) as [t|] eqn:Ht; [|done].
  case_match; [done|]. cbv zeta.
  destruct (callback t) eqn:Hcb.
  - apply countdownTick_Game; [split; game_tac..|]. game_tac.
  - apply endSession_Game. game_tac.
  - rewrite endRound_fired by (by apply (inv_round s I h t)).
    by apply endRound_Game.
  - apply (timerInterval_Game _ _ (mkTimer TimerInterval (now e + 1000)));
      [split; game_tac..| |done].
    cbn. by rewrite lookup_insert_eq.
  - apply nextRound_Game; split; game_tac.
  - apply (Game_gameOf (set_timers (base.delete h (timers s)) s)); [reflexivity|].
    split; game_tac.
Qed.

(** The roster changes. *)
Lemma Game_join (id n : string) (s : State) :
  Game s -> Game (set_users (JS.set id n (users s)) s).
Proof.
  intros G. split; game_tac.
  apply (elem_of_keys_set (users s) id _ n). by right.
Qed.

Lemma elem_of_keys_delete_ne {V : Type} (o : JS.obj V) (k k' : string) :
  k' <> k -> k' ∈ JS.keys o -> k' ∈ JS.keys (JS.delete k o).
Proof.
  intros Hne. unfold JS.keys. induction o as [|[k0 v0] o IH]; simpl; [done|].
  case_bool_decide as Hk; simpl.
  - intros Hin. inversion Hin; subst; done.
  - intros Hin. inversion Hin; subst; [left|right; auto].
Qed.

Lemma Game_leave (id : string) (s : State) :
  Game s -> (forall w, currentWord s = Some w -> currentDrawer s <> Some id) ->
  Game (set_users (JS.delete id (users s)) s).
Proof.
  intros G Hd. split; game_tac.
  apply (elem_of_keys_delete_ne (users s)); [|done].
  intros ->. by eapply Hd.
Qed.

Lemma endRound_word (e : Env) (b : bool) (s : State) :
  Inv s -> Game s -> currentWord (endRound e b s) = None.
Proof.
  intros I G. pose proof (endRound_Game e b s I G) as G'.
  destruct (endRound_frame e b s) as (_ & _ & Hw).
  destruct (currentWord (endRound e b s)) as [w|] eqn:Hcw; [|done].
  apply (game_word _ G') in Hcw as [Hin _].
  apply wordList_truthy in Hin. simpl in Hw. congruence.
Qed.

(** ** The two disciplines together *)

Lemma Both_frame (s s' : State) :
  loopOf s' = loopOf s -> gameOf s' = gameOf s -> Both s -> Both s'.
Proof.
  intros Hl Hg [I G]. split; [by apply (Inv_loopOf s)|by apply (Game_gameOf s)].
Qed.

Lemma Both_endRound (e : Env) (b : bool) (s : State) : Both s -> Both (endRound e b s).
Proof. intros [I G]. split; [by apply endRound_Inv|by apply endRound_Game]. Qed.

Lemma Both_endSession (e : Env) (s : State) : Both s -> Both (endSession e s).
Proof.
  intros [I G]. split; [by apply endSession_Inv|]. apply endSession_Game, G.
Qed.

Lemma Both_emit (t : Target) (m : Msg) (s : State) : Both s -> Both (emit t m s).
Proof. by apply Both_frame. Qed.
Lemma Both_set_scores (u : JS.obj Z) (s : State) : Both s -> Both (set_scores u s).
Proof. by apply Both_frame. Qed.
Lemma Both_broadcastUserList (s : State) : Both s -> Both (broadcastUserList s).
Proof. by apply Both_frame. Qed.
Lemma Both_broadcastScores (s : State) : Both s -> Both (broadcastScores s).
Proof. by apply Both_frame. Qed.
Lemma Both_broadcastGameState (e : Env) (s : State) :
  Both s -> Both (broadcastGameState e s).
Proof. by apply Both_frame. Qed.
Lemma Both_initScore (n : string) (s : State) : Both s -> Both (initScore n s).
Proof.
  apply Both_frame; unfold initScore; repeat case_match; reflexivity.
Qed.
Lemma Both_join (id n : string) (s : State) :
  Both s -> Both (set_users (JS.set id n (users s)) s).
Proof.
  intros [I G]. split; [by apply (Inv_loopOf s)|by apply Game_join].
Qed.
Lemma Both_leave (id : string) (s : State) :
  Both s -> (forall w, currentWord s = Some w -> currentDrawer s <> Some id) ->
  Both (set_users (JS.delete id (users s)) s).
Proof.
  intros [I G] Hd. split; [by apply (Inv_loopOf s)|by apply Game_leave].
Qed.

Ltac peel :=
  repeat match goal with
  | |- Both (endSession _ _) => apply Both_endSession
  | |- Both (endRound _ _ _) => apply Both_endRound
  | |- Both (emit _ _ _) => apply Both_emit
  | |- Both (set_scores _ _) => apply Both_set_scores
  | |- Both (broadcastUserList _) => apply Both_broadcastUserList
  | |- Both (broadcastScores _) => apply Both_broadcastScores
  | |- Both (broadcastGameState _ _) => apply Both_broadcastGameState
  | |- Both (initScore _ _) => apply Both_initScore
  | |- Both (set_users (JS.set _ _ _) _) => apply Both_join
  | |- Both (if _ then _ else _) => case_match
  | |- Both (match _ with _ => _ end) => case_match
  end; try assumption.

Lemma on_guess_Both (e : Env) (id from text : string) (s : State) :
  Both s -> Both (on_guess e id from text s).
Proof. intros B. unfold on_guess. cbv zeta. peel. Qed.

(** When a participant leaves, the round of a drawer who leaves is ended
    first. *)
Lemma drawer_leaves (e : Env) (id : string) (m : Msg) (s : State) :
  Both s ->
  let s1 :=
    if bool_decide (Some id = currentDrawer s) && gameActive s
    then endRound e false (emit ToAll m s) else s in
  Both s1 /\ forall w, currentWord s1 = Some w -> currentDrawer s1 <> Some id.
Proof.
  intros B s1. subst s1. case_match eqn:Hc.
  - split; [peel|]. intros w Hw. exfalso.
    destruct B as [I G]. 
    rewrite (endRound_word e false (emit ToAll m s)) in Hw; [done|..].
    + by apply (Inv_loopOf s).
    + by apply (Game_gameOf s).
  - split; [done|]. intros w Hw Hd. destruct B as [I G].
    apply (game_word s G) in Hw as (_ & Hg & _).
    rewrite Hg, andb_true_r in Hc. apply bool_decide_eq_false in Hc. congruence.
Qed.

Lemma on_disconnect_Both (e : Env) (id : string) (s : State) :
  Both s -> Both (on_disconnect e id s).
Proof.
  intros B. unfold on_disconnect.
  destruct (JS.get id (users s)) as [name|]; [|done].
  case_match; [done|].
  match goal with |- context [set_users _ ?x] => set (s1 := x) end.
  assert (Both s1 /\ forall w, currentWord s1 = Some w -> currentDrawer s1 <> Some id)
    as [B1 Hd].
  { subst s1.
    destruct (drawer_leaves e id (chatMessage "System" (DrawerDisconnected name)) s B)
      as [B1 Hd].
    case_match; [by split|]. split; [by apply Both_emit|]. exact Hd. }
  cbv zeta. peel. by apply Both_leave.
  by apply Both_leave.
Qed.

Lemma on_leaveGame_leaving (e : Env) (id : string) (s : State) :
  on_leaveGame e id s = on_disconnect e id (leaving e id s).
Proof. reflexivity. Qed.

Lemma leaving_Both (e : Env) (id : string) (s : State) :
  Both s -> Both (leaving e id s).
Proof.
  intros B. unfold leaving.
  destruct (JS.get id (users s)) as [name|]; [|done].
  case_match; [done|].
  match goal with |- context [set_users _ ?x] => set (s1 := x) end.
  assert (Both s1 /\ forall w, currentWord s1 = Some w -> currentDrawer s1 <> Some id)
    as [B1 Hd].
  { subst s1. apply Both_emit with (t := ToAll)
      (m := chatMessage "System" (LeftGame name)) in B.
    exact (drawer_leaves e id (chatMessage "System" (DrawerLeft name)) _ B). }
  cbv zeta. peel. by apply Both_leave.
  by apply Both_leave.
Qed.

Lemma on_leaveGame_Both (e : Env) (id : string) (s : State) :
  Both s -> Both (on_leaveGame e id s).
Proof.
  intros B. rewrite on_leaveGame_leaving. by apply on_disconnect_Both, leaving_Both.
Qed.

Lemma on_join_Both (e : Env) (id name : string) (s : State) :
  Both s -> Both (on_join e id name s).
Proof.
  intros B. unfold on_join. cbv zeta.
  match goal with |- Both (if ?c then _ else _) => destruct c eqn:Hc end; [|peel].
  repeat (apply andb_true_iff in Hc as [Hc ?]).
  match goal with
  | Hg : negb (gameActive ?x) = true |- Both (startCountdown e (emit ?t ?m ?x)) =>
      apply negb_true_iff in Hg;
      assert (Both (emit t m x)) as [I G] by peel;
      pose proof (eq_trans (gameActive_emit t m x) Hg)
  end.
  split; [by apply startCountdown_Inv|by apply startCountdown_Game].
Qed.

Lemma fire_Both (e : Env) (h : nat) (s : State) : Both s -> Both (fire e h s).
Proof. intros [I G]. split; [by apply fire_Inv|by apply fire_Game]. Qed.

Lemma step_Both (e : Env) (ev : Event) (s : State) : Both s -> Both (step e ev s).
Proof.
  intros B. destruct ev; simpl.
  - unfold on_connection. cbv zeta. peel.
  - by apply on_join_Both.
  - by apply on_leaveGame_Both.
  - unfold on_stroke. peel.
  - unfold on_clear. peel.
  - unfold on_chat. cbv zeta. peel.
  - by apply on_guess_Both.
  - by apply on_disconnect_Both.
  - by apply fire_Both.
Qed.

Lemma run_Both (tr : list (Env * Event)) (s : State) : Both s -> Both (run tr s).
Proof.
  revert s. induction tr as [|[e ev] tr IH]; intros s B; [done|].
  simpl. apply IH. by apply step_Both.
Qed.

Lemma reachable_Game (s : State) : reachable s -> Game s.
Proof.
  intros [tr ->]. apply run_Both. split; [apply Inv_init|apply Game_init].
Qed.

(** ** Stalled sessions *)

Lemma endRound_no_word (e : Env) (b : bool) (s : State) :
  currentWord s = None ->
  endRound e b s = set_roundTimer None (clearTimer (roundTimer s) s).
Proof. intros Hw. unfold endRound. cbn. by rewrite Hw. Qed.

Lemma stalled_frame (s s' : State) :
  gameActive s' = gameActive s -> currentWord s' = currentWord s ->
  timers s' = timers s -> stalled s -> stalled s'.
Proof. unfold stalled. intros -> -> ->. done. Qed.

Lemma stalled_endRound (e : Env) (b : bool) (s : State) :
  Both s -> stalled s -> stalled (endRound e b s).
Proof.
  intros [I G] (Hg & Hw & Hn). rewrite endRound_no_word by done.
  destruct (game_no_round s G Hw) as (Hrt & _).
  apply (stalled_frame s); [done|done| |done]. cbn. by rewrite Hrt.
Qed.

Lemma endSession_inactive (e : Env) (s : State) : gameActive (endSession e s) = false.
Proof.
  unfold endSession. cbn -[sortedScores take imap].
  by destruct (sortedScores (scores s)) as [|[??]?].
Qed.

Lemma stalled_initScore (n : string) (s : State) : stalled s -> stalled (initScore n s).
Proof.
  apply stalled_frame; unfold initScore; repeat case_match; reflexivity.
Qed.

Ltac still :=
  repeat match goal with
  | |- _ \/ gameActive (endSession _ _) = false => right; apply endSession_inactive
  | |- stalled (if _ then _ else _) \/ _ => case_match
  | |- stalled _ \/ _ => left
  | |- stalled (endRound _ _ _) => apply stalled_endRound; [peel|]
  | |- stalled (initScore _ _) => apply stalled_initScore
  | |- stalled (if _ then _ else _) => case_match
  | |- stalled (match _ with _ => _ end) => case_match
  | |- stalled (_ ?x) => apply (stalled_frame x); [reflexivity..|]
  end; try assumption.

Lemma stalled_disconnect (e : Env) (id : string) (s : State) :
  Both s -> stalled s ->
  stalled (on_disconnect e id s) \/ gameActive (on_disconnect e id s) = false.
Proof.
  intros B St. unfold on_disconnect.
  destruct (JS.get id (users s)) as [name|]; [|by left].
  case_match; [by left|]. cbv zeta. still.
Qed.

Lemma on_disconnect_inactive (e : Env) (id : string) (s : State) :
  gameActive s = false -> gameActive (on_disconnect e id s) = false.
Proof.
  intros Hg. unfold on_disconnect.
  destruct (JS.get id (users s)) as [name|]; [|done].
  case_match; [done|]. rewrite Hg, andb_false_r. cbn. by rewrite Hg, andb_false_r.
Qed.

Lemma stalled_fire (e : Env) (h : nat) (s : State) :
  Both s -> stalled s ->
  stalled (fire e h s) \/ gameActive (fire e h s) = false.
Proof.
  intros [I G] St. pose proof St as (Hg & Hw & Hn). unfold fire.
  destruct (timers s !! h) as [t|] eqn:Ht; [|by left].
  case_match; [by left|]. cbv zeta.
  destruct (callback t) eqn:Hcb.
  - destruct (inv_countdown s I h t _ Ht Hcb). congruence.
  - right. apply endSession_inactive.
  - destruct (inv_round s I h t Ht Hcb) as [_ Hs]. rewrite Hw in Hs. done.
  - left. unfold timerInterval. cbn. rewrite Hg, Hw. cbn.
    repeat split; [done..|]. cbn. intros h' t'. lookups; [done|]. apply Hn.
  - by destruct (Hn h t Ht).
  - left. repeat split; [done..|]. cbn. intros h' t'. lookups; [done|]. apply Hn.
Qed.

Lemma stalled_step (e : Env) (ev : Event) (s : State) :
  Both s -> stalled s ->
  stalled (step e ev s) \/ gameActive (step e ev s) = false.
Proof.
  intros B St. pose proof St as (Hg & Hw & Hn). destruct ev; simpl.
  - unfold on_connection. cbv zeta. still.
  - unfold on_join. cbv zeta.
    match goal with |- context [if ?c then _ else _] => destruct c eqn:Hc end.
    + exfalso. repeat (apply andb_true_iff in Hc as [Hc ?]).
      match goal with H : negb (gameActive ?x) = true |- _ =>
        assert (stalled x) as (Hx & _) by still;
        rewrite Hx in H; done
      end.
    + still.
  - rewrite on_leaveGame_leaving.
    assert (stalled (leaving e id s) \/ gameActive (leaving e id s) = false)
      as [St1|Hin].
    { unfold leaving. destruct (JS.get id (users s)) as [name|]; [|by left].
      case_match; [by left|]. cbv zeta. still. }
    + apply stalled_disconnect; [by apply leaving_Both|done].
    + right. by apply on_disconnect_inactive.
  - unfold on_stroke. case_match; [by left|]. repeat case_match; still.
  - unfold on_clear. case_match; [by left|]. still.
  - unfold on_chat. cbv zeta. still.
  - unfold on_guess. cbv zeta. case_match; [by left|].
    case_match; [still|]. left. cbn. rewrite Hw. still.
  - by apply stalled_disconnect.
  - by apply stalled_fire.
Qed.

(** ** The countdown *)

Lemma startSession_starts (e : Env) (s : State) :
  gameActive (startSession e s) = true
  /\ sessionStartTime (startSession e s) = Some (now e)
  /\ countdownTimer (startSession e s) = countdownTimer s
  /\ exists rest, outbox (startSession e s) = outbox s ++ rest.
Proof.
  unfold startSession, startNewRound. cbn -[selectRandomWord].
  destruct (getNextDrawer _ _); cbn -[selectRandomWord];
    repeat split; rewrite <- ?app_assoc; eauto.
Qed.

Lemma announced_step (c : Z) :
  0 < c -> announced c = (ToAll, countdown (c - 1)) :: announced (c - 1).
Proof.
  intros Hc. unfold announced.
  replace (Z.to_nat c) with (S (Z.to_nat (c - 1))) by lia.
  rewrite <- cons_seq. cbn [map]. f_equal; [do 2 f_equal; lia|].
  rewrite <- fmap_S_seq. rewrite <- list_fmap_compose.
  apply list_fmap_ext. intros _ i _. cbn. do 2 f_equal. lia.
Qed.

Lemma countdown_fire (e : Env) (h : nat) (t : Timer) (c : Z) (s : State) :
  timers s !! h = Some t -> callback t = CountdownTick c -> due t <= now e ->
  fire e h s
  = countdownTick e (c - 1)
      (set_timers (<[h := mkTimer (CountdownTick (c - 1)) (now e + 1000)]>
                     (timers s)) s).
Proof.
  intros Ht Hcb Hdue. unfold fire. rewrite Ht, Hcb.
  destruct (due t <=? now e) eqn:Hle; [done|]. apply Z.leb_gt in Hle. lia.
Qed.

Lemma countdown_goes_on (e : Env) (c : Z) (s : State) :
  0 < c -> countdownTick e c s = emit ToAll (countdown c) s.
Proof.
  intros Hc. unfold countdownTick.
  destruct (c <=? 0) eqn:Hle; [apply Z.leb_le in Hle; lia|done].
Qed.

Lemma countdown_ends (e : Env) (s : State) :
  countdownTick e 0 s
  = startSession e
      (set_countdownTimer None
         (clearTimer (countdownTimer s) (emit ToAll (countdown 0) s))).
Proof. reflexivity. Qed.
End SessionGame.

(** ** The names of the roster *)

Section RosterNames.

Lemma get_delete_eq {V : Type} (o : JS.obj V) (k : string) :
  NoDup (JS.keys o) -> JS.get k (JS.delete k o) = None.
Proof.
  intros Hnd. apply get_None. revert Hnd. unfold JS.keys.
  induction o as [|[k0 v0] o IH]; simpl; [by intros _; apply not_elem_of_nil|].
  intros Hnd. apply NoDup_cons in Hnd as [Hk0 Hnd].
  case_bool_decide as Hk; simpl.
  - by subst.
  - apply not_elem_of_cons. split; [congruence|auto].
Qed.

Lemma get_delete_ne {V : Type} (o : JS.obj V) (k k' : string) :
  k <> k' -> JS.get k' (JS.delete k o) = JS.get k' o.
Proof.
  intros Hne. induction o as [|[k0 v0] o IH]; simpl; [done|].
  case_bool_decide as Hk; simpl.
  - subst. by rewrite bool_decide_eq_false_2.
  - by rewrite IH.
Qed.

Lemma fallbackName_truthy (id : string) : JS.truthy (fallbackName id) = true.
Proof. reflexivity. Qed.

Lemma named_set (users : JS.obj Name) (id n : string) :
  JS.truthy n = true -> named users -> named (JS.set id n users).
Proof.
  intros Hn Hall n' Hin. apply values_set in Hin as [->|Hin]; [done|by apply Hall].
Qed.

Lemma named_delete (users : JS.obj Name) (id : string) :
  named users -> named (JS.delete id users).
Proof. intros Hall n' Hin. apply values_delete in Hin. by apply Hall. Qed.

Lemma named_get (users : JS.obj Name) (id n : string) :
  named users -> JS.get id users = Some n -> JS.truthy n = true.
Proof.
  intros Hall Hg. apply Hall. apply get_Some_elem_of in Hg.
  unfold JS.values. apply list_elem_of_fmap. by exists (id, n).
Qed.

Lemma join_name_truthy (id name : string) :
  JS.truthy (if JS.truthy (JS.trim name) then JS.trim name else fallbackName id) = true.
Proof. by destruct (JS.truthy (JS.trim name)) eqn:Ht. Qed.

(** ** The session server *)

Lemma session_users_leaving (e : Session.Env) (id : string) (s : Session.State) :
  Session.users (Session.on_leaveGame e id s) = Session.users s
  \/ Session.users (Session.on_leaveGame e id s) = JS.delete id (Session.users s)
  \/ Session.users (Session.on_leaveGame e id s)
     = JS.delete id (JS.delete id (Session.users s)).
Proof.
  unfold Session.on_leaveGame. cbv zeta.
  match goal with |- context [Session.on_disconnect e id ?x] => set (s0 := x) end.
  assert (Session.users s0 = Session.users s
          \/ Session.users s0 = JS.delete id (Session.users s)) as Hu0.
  { subst s0. destruct (JS.get id (Session.users s)) as [name|]; [|by left].
    destruct (negb (JS.truthy name)); [by left|]. right.
    match goal with |- context [Session.set_users _ ?x] => set (s1 := x) end.
    assert (Session.users s1 = Session.users s) as Hu.
    { subst s1. case_match; [|done].
      match goal with |- context [Session.endRound e false ?x] =>
        by destruct (endRound_frame e false x) as (-> & _) end. }
    generalize dependent s1. intros s1 Hu.
    case_match.
    - match goal with |- context [Session.endSession e ?x] =>
        destruct (endSession_frame e x) as (-> & _) end.
      cbn. by rewrite Hu.
    - cbn. by rewrite Hu. }
  destruct (session_users_disconnect e id s0) as [Hd|Hd]; rewrite Hd;
    destruct Hu0 as [-> | ->]; auto.
Qed.

Lemma session_step_named (e : Session.Env) (ev : Session.Event) (s : Session.State) :
  named (Session.users s) -> named (Session.users (Session.step e ev s)).
Proof.
  intros Hn. destruct ev; unfold Session.step.
  - done.
  - destruct (on_join_books e id name s) as (-> & _).
    apply named_set; [apply join_name_truthy|done].
  - destruct (session_users_leaving e id s) as [-> | [-> | ->]];
      auto using named_delete.
  - unfold Session.on_stroke. by repeat case_match.
  - unfold Session.on_clear. by repeat case_match.
  - done.
  - by destruct (on_guess_books e id from text s) as (-> & _).
  - destruct (session_users_disconnect e id s) as [-> | ->];
      auto using named_delete.
  - by rewrite session_users_fire.
Qed.

Lemma session_reachable_named (s : Session.State) :
  Session.reachable s -> named (Session.users s).
Proof.
  intros [tr ->]. assert (named (Session.users Session.init)) as H0.
  { intros n Hn. inversion Hn. }
  revert H0. generalize Session.init.
  induction tr as [|[e ev] tr IH]; intros s H0; [done|].
  simpl. apply IH. by apply session_step_named.
Qed.

(** A participant who disconnects or leaves is removed from the roster. *)
Lemma session_disconnect_removes (e : Session.Env) (id n : string) (s : Session.State) :
  JS.get id (Session.users s) = Some n -> JS.truthy n = true ->
  Session.users (Session.on_disconnect e id s) = JS.delete id (Session.users s).
Proof.
  intros Hg Hn. unfold Session.on_disconnect. rewrite Hg, Hn. cbv zeta. cbn [negb].
  match goal with |- context [Session.set_users _ ?x] => set (s1 := x) end.
  assert (Session.users s1 = Session.users s) as Hu.
  { subst s1. case_match; [|done].
    match goal with |- context [Session.endRound e false ?x] =>
      by destruct (endRound_frame e false x) as (-> & _) end. }
  generalize dependent s1. intros s1 Hu.
  case_match.
  - match goal with |- context [Session.endSession e ?x] =>
      destruct (endSession_frame e x) as (-> & _) end.
    cbn. by rewrite Hu.
  - cbn. by rewrite Hu.
Qed.

Lemma session_disconnect_absent (e : Session.Env) (id : string) (s : Session.State) :
  JS.get id (Session.users s) = None -> Session.on_disconnect e id s = s.
Proof. intros Hg. unfold Session.on_disconnect. by rewrite Hg. Qed.

Lemma session_leaveGame_removes (e : Session.Env) (id n : string) (s : Session.State) :
  NoDup (JS.keys (Session.users s)) ->
  JS.get id (Session.users s) = Some n -> JS.truthy n = true ->
  Session.users (Session.on_leaveGame e id s) = JS.delete id (Session.users s).
Proof.
  intros Hnd Hg Hn. unfold Session.on_leaveGame. rewrite Hg, Hn. cbv zeta. cbn [negb].
  match goal with |- context [Session.on_disconnect e id ?x] => set (s0 := x) end.
  assert (Session.users s0 = JS.delete id (Session.users s)) as Hu0.
  { subst s0.
    match goal with |- context [Session.set_users _ ?x] => set (s1 := x) end.
    assert (Session.users s1 = Session.users s) as Hu.
    { subst s1. case_match; [|done].
      match goal with |- context [Session.endRound e false ?x] =>
        by destruct (endRound_frame e false x) as (-> & _) end. }
    generalize dependent s1. intros s1 Hu.
    case_match.
    - match goal with |- context [Session.endSession e ?x] =>
        destruct (endSession_frame e x) as (-> & _) end.
      cbn. by rewrite Hu.
    - cbn. by rewrite Hu. }
  rewrite session_disconnect_absent; [done|].
  rewrite Hu0. by apply get_delete_eq.
Qed.
End RosterNames.

(** ** The changes of the Score Board *)

Section ScoreBoard.

Lemma session_scores_initScore (n : string) (s : Session.State) :
  Session.scores (Session.initScore n s) = Session.scores s
  \/ scoreOf (Session.scores s) n = 0
     /\ Session.scores (Session.initScore n s) = JS.set n 0 (Session.scores s).
Proof.
  unfold Session.initScore, scoreOf.
  destruct (JS.get n (Session.scores s)) as [p|] eqn:Hn.
  - destruct (p =? 0) eqn:Hp; [|by left]. apply Z.eqb_eq in Hp. by right.
  - by right.
Qed.

Lemma session_scores_on_join (e : Session.Env) (id name : string) (s : Session.State) :
  let n := if JS.truthy (JS.trim name) then JS.trim name else fallbackName id in
  Session.scores (Session.on_join e id name s) = Session.scores s
  \/ scoreOf (Session.scores s) n = 0
     /\ Session.scores (Session.on_join e id name s) = JS.set n 0 (Session.scores s).
Proof.
  intros n. unfold Session.on_join. cbv zeta. fold n.
  pose proof (session_scores_initScore n
    (Session.set_users (JS.set id n (Session.users s)) s)) as Hi.
  case_match; exact Hi.
Qed.

Lemma session_scores_on_guess (e : Session.Env) (id from text : string)
    (s : Session.State) :
  Session.scores (Session.on_guess e id from text s) = Session.scores s
  \/ (exists w, Session.correctGuess s id text w)
     /\ Session.scores (Session.on_guess e id from text s)
        = awardDrawer (Session.drawerNameOf s)
            (award (playerName id from (Session.users s)) 10 (Session.scores s)).
Proof.
  unfold Session.on_guess. cbv zeta.
  destruct (JS.truthy (JS.trim text)) eqn:Ht; cbn [negb]; [|by left].
  case_bool_decide as Hd; [by left|].
  cbn -[Session.endRound JS.toLowerCase].
  destruct (Session.currentWord s) as [w|] eqn:Hw; [|by left].
  destruct (Session.gameActive s) eqn:Hg; cbn [negb orb]; [|by left].
  destruct (JS.truthy w) eqn:Htw; cbn [negb]; [|by left].
  case_bool_decide as Heq; [|by left]. right. split.
  - exists w. repeat split; try done; congruence.
  - match goal with |- context [Session.endRound e true ?x] =>
      destruct (endRound_frame e true x) as (_ & -> & _) end.
    reflexivity.
Qed.

Lemma session_scores_fire (e : Session.Env) (h : nat) (s : Session.State) :
  Session.scores (Session.fire e h s) = Session.scores s
  \/ exists t,
       Session.timers s !! h = Some t /\ Session.callback t = Session.ResetScores
       /\ Session.due t <= Session.now e /\ Session.scores (Session.fire e h s) = [].
Proof.
  destruct (Session.timers s !! h) as [t|] eqn:Ht;
    [|left; by rewrite fire_not_pending].
  assert (Session.callback t = Session.ResetScores
          \/ Session.callback t <> Session.ResetScores) as [Hcb|Hcb]
    by (destruct (Session.callback t); auto).
  - destruct (Z.leb_spec (Session.due t) (Session.now e)) as [Hdue|Hdue].
    + right. exists t. repeat split; try done.
      unfold Session.fire. rewrite Ht, Hcb.
      destruct (Session.due t <=? Session.now e) eqn:Hle; [done|].
      apply Z.leb_gt in Hle. lia.
    + left. by rewrite (fire_not_due e h t).
  - left. destruct (fire_books e h s) as [_ ->]; [|done].
    intros t' Ht'. rewrite Ht in Ht'. injection Ht' as <-. done.
Qed.

(** The changes of the Score Board in one step. *)
Lemma session_scores_step (e : Session.Env) (ev : Session.Event) (s : Session.State) :
  let s' := Session.step e ev s in
  Session.scores s' = Session.scores s
  \/ (exists n, scoreOf (Session.scores s) n = 0
                /\ Session.scores s' = JS.set n 0 (Session.scores s))
  \/ (exists p dn, Session.scores s' = awardDrawer dn (award p 10 (Session.scores s)))
  \/ (exists h t,
        ev = Session.Fire h /\ Session.timers s !! h = Some t
        /\ Session.callback t = Session.ResetScores /\ Session.scores s' = []).
Proof.
  intros s'. subst s'. destruct ev; unfold Session.step.
  - by left.
  - destruct (session_scores_on_join e id name s) as [H|[H1 H2]]; [by left|].
    right. left. eauto.
  - left. by destruct (on_leaveGame_books e id s) as [_ ->].
  - left. unfold Session.on_stroke. by repeat case_match.
  - left. unfold Session.on_clear. by repeat case_match.
  - by left.
  - destruct (session_scores_on_guess e id from text s) as [H|[_ H2]]; [by left|].
    right. right. left. eauto.
  - left. by destruct (on_disconnect_books e id s) as [_ ->].
  - destruct (session_scores_fire e h s) as [H|(t & Ht & Hcb & _ & H)]; [by left|].
    right. right. right. by exists h, t.
Qed.

(** ** Scores that do not go down *)

(** A score is lowered by the reset only. *)
Lemma scoreOf_set_zero (scores : JS.obj Z) (n n' : string) :
  scoreOf scores n = 0 -> scoreOf (JS.set n 0 scores) n' = scoreOf scores n'.
Proof.
  intros H0. unfold scoreOf in *. destruct (decide (n = n')) as [->|Hne].
  - by rewrite get_set_eq.
  - by rewrite get_set_ne.
Qed.

Lemma scoreOf_awards_le (scores : JS.obj Z) (dn : option string) (p n : string) :
  scoreOf scores n <= scoreOf (awardDrawer dn (award p 10 scores)) n.
Proof.
  rewrite scoreOf_awardDrawer.
  assert (scoreOf scores n <= scoreOf (award p 10 scores) n) as Hle.
  { destruct (decide (p = n)) as [->|Hne].
    - rewrite scoreOf_award_eq. lia.
    - rewrite scoreOf_award_ne by done. lia. }
  repeat case_match; lia.
Qed.

Lemma session_step_scores_le (e : Session.Env) (ev : Session.Event)
    (s : Session.State) (n : string) :
  (forall h t, ev = Session.Fire h -> Session.timers s !! h = Some t ->
               Session.callback t <> Session.ResetScores) ->
  scoreOf (Session.scores s) n <= scoreOf (Session.scores (Session.step e ev s)) n.
Proof.
  intros Hnr.
  destruct (session_scores_step e ev s)
    as [-> | [(n0 & H0 & ->) | [(p & dn & ->) | (h & t & -> & Ht & Hcb & _)]]].
  - lia.
  - rewrite scoreOf_set_zero by done. lia.
  - apply scoreOf_awards_le.
  - by destruct (Hnr h t eq_refl Ht).
Qed.
End ScoreBoard.

(** ** Departures *)

Section SessionFurther.

Lemma reachable_Both (s : Session.State) : Session.reachable s -> Session.Both s.
Proof.
  intros [tr ->]. apply run_Both. split; [apply Inv_init|apply Game_init].
Qed.

Lemma on_disconnect_idle (e : Session.Env) (id : string) (s : Session.State) :
  Session.gameActive s = false ->
  Session.loopOf (Session.on_disconnect e id s) = Session.loopOf s.
Proof.
  intros Hg. unfold Session.on_disconnect.
  destruct (JS.get id (Session.users s)) as [name|]; [|done].
  case_match; [done|]. rewrite Hg, andb_false_r. cbn. by rewrite Hg, andb_false_r.
Qed.

Lemma leaving_idle (e : Session.Env) (id : string) (s : Session.State) :
  Session.gameActive s = false ->
  Session.loopOf (Session.leaving e id s) = Session.loopOf s.
Proof.
  intros Hg. unfold Session.leaving.
  destruct (JS.get id (Session.users s)) as [name|]; [|done].
  case_match; [done|]. cbn. rewrite Hg, andb_false_r. cbn. by rewrite Hg, andb_false_r.
Qed.

Lemma not_elem_of_keys_delete {V : Type} (o : JS.obj V) (k : string) :
  NoDup (JS.keys o) -> k ∉ JS.keys (JS.delete k o).
Proof. intros Hnd. apply get_None. by apply get_delete_eq. Qed.

End SessionFurther.

(** ** The order of the roster *)

Section RosterOrder.

Lemma filter_all {A : Type} (P : A -> Prop) `{!forall a, Decision (P a)}
    (l : list A) :
  Forall P l -> filter P l = l.
Proof.
  induction 1 as [|x l Hx Hl IH]; [done|].
  rewrite filter_cons, decide_True by done. by rewrite IH.
Qed.

Lemma keys_delete {V : Type} (o : JS.obj V) (k : string) :
  NoDup (JS.keys o) -> JS.keys (JS.delete k o) = filter (fun x => x <> k) (JS.keys o).
Proof.
  unfold JS.keys. induction o as [|[k0 v0] o IH]; simpl; [done|].
  intros Hnd. apply NoDup_cons in Hnd as [Hk0 Hnd].
  rewrite filter_cons. case_bool_decide as Hk; simpl.
  - subst. rewrite decide_False by (intros H; by apply H).
    symmetry. apply filter_all.
    rewrite Forall_forall. intros x Hx ->. done.
  - rewrite decide_True by done. simpl. by rewrite IH.
Qed.

End RosterOrder.

(** ** The basic server *)

Section BasicGame.
Import Basic.

Lemma basic_selectRandomWord_in (e : Env) : selectRandomWord e ∈ wordList.
Proof.
  unfold selectRandomWord.
  destruct (wordList !! _) as [w|] eqn:Hw.
  - simpl. eapply list_elem_of_lookup_2. exact Hw.
  - apply lookup_ge_None in Hw.
    pose proof (Nat.mod_upper_bound (random e) (length wordList)) as Hlt.
    simpl in *. lia.
Qed.

Lemma basic_wordList_truthy (w : string) : w ∈ wordList -> JS.truthy w = true.
Proof.
  assert (Forall (fun w => JS.truthy w = true) wordList) as Hall.
  { repeat constructor. }
  rewrite Forall_forall in Hall. apply Hall.
Qed.

Lemma basic_Game_init : Game init.
Proof. split; cbn; intros; simplify_map_eq; done. Qed.

Lemma basic_Game_gameOf (s s' : State) : gameOf s' = gameOf s -> Game s -> Game s'.
Proof.
  unfold gameOf. intros [= Hu Hd Hw Hg Hr Ht] [G1 G2].
  split; rewrite ?Hu, ?Hd, ?Hw, ?Hg, ?Hr, ?Ht; assumption.
Qed.

Ltac sat :=
  repeat match goal with
  | I : Inv ?s, H : timers ?s !! ?h = Some ?t |- _ =>
      lazymatch goal with
      | _ : (h < nextHandle s)%nat |- _ => fail
      | _ => pose proof (inv_fresh s I h t H)
      end
  | I : Inv ?s, H : roundTimer ?s = Some ?h |- _ =>
      lazymatch goal with
      | _ : (h < nextHandle s)%nat |- _ => fail
      | _ => pose proof (inv_roundTimer_lt s I h H)
      end
  | I : Inv ?s, H : timers ?s !! ?h = Some ?t, C : callback ?t = RoundTimeout |- _ =>
      lazymatch goal with
      | _ : roundTimer s = Some h |- _ => fail
      | _ => destruct (inv_round s I h t H C) as (? & ? & ?)
      end
  | I : Inv ?s, R : roundTimer ?s = Some ?h, H : timers ?s !! ?h = Some ?t |- _ =>
      lazymatch goal with
      | _ : callback t = RoundTimeout |- _ => fail
      | _ => pose proof (inv_kind s I h t R H)
      end
  | G : Game ?s, H : gameActive ?s = true |- _ =>
      lazymatch goal with
      | _ : currentWord s = Some _ |- _ => fail
      | _ => destruct (game_round s G H) as (? & ? & ? & ? & ? & ? & ? & ? & ? & ? & ?)
      end
  | G : Game ?s, H : gameActive ?s = false |- _ =>
      lazymatch goal with
      | _ : currentWord s = None |- _ => fail
      | _ => destruct (game_idle s G H) as (? & ?)
      end
  end.

Ltac finish := try first [ done | lia | congruence | by eauto ].

Ltac game_tac :=
  cbn -[selectRandomWord]; intros;
  lookups; simplify_eq/=; sat; simplify_eq/=; finish;
  try (repeat split; finish);
  try (do 4 eexists; repeat split; try eassumption; try reflexivity;
       lookups; simplify_eq/=; sat; simplify_eq/=; finish).

Lemma basic_startNewRound_Game (e : Env) (s : State) :
  Inv s -> Game s -> Game (startNewRound e s).
Proof.
  intros I G. unfold startNewRound.
  pose proof (basic_selectRandomWord_in e).
  cbn -[selectRandomWord].
  destruct (getNextDrawer _ _) as [d|] eqn:Hd.
  - apply getNextDrawer_member in Hd. split; game_tac.
  - apply getNextDrawer_None in Hd.
    destruct (gameActive s) eqn:Hg.
    + exfalso. destruct (game_round s G Hg) as (? & d & ? & ? & _ & _ & _ & Hin & _).
      rewrite Hd in Hin. inversion Hin.
    + split; game_tac.
Qed.

Lemma basic_endRound_Game (e : Env) (b : bool) (s : State) :
  Inv s -> Game s -> Game (endRound e b s).
Proof.
  intros I G. unfold endRound. cbn.
  destruct (gameActive s) eqn:Hg; cbn; split; game_tac.
Qed.

Lemma basic_endRound_fired (e : Env) (b : bool) (h : nat) (s : State) :
  roundTimer s = Some h ->
  endRound e b (set_timers (base.delete h (timers s)) s) = endRound e b s.
Proof.
  intros Hrt.
  assert (set_roundTimer None
            (clearTimer (roundTimer (set_timers (base.delete h (timers s)) s))
               (set_timers (base.delete h (timers s)) s))
          = set_roundTimer None (clearTimer (roundTimer s) s)) as Heq.
  { cbn. rewrite Hrt. unfold set_roundTimer, clearTimer, cancel. cbn.
    by rewrite delete_delete_eq. }
  unfold endRound. cbv zeta. rewrite Heq. reflexivity.
Qed.

Lemma basic_nextRound_Game (e : Env) (s : State) :
  Inv s -> Game s -> Game (nextRound e s).
Proof.
  intros I G. unfold nextRound. case_match; [|done].
  by apply basic_startNewRound_Game.
Qed.

Lemma basic_fire_Game (e : Env) (h : nat) (s : State) :
  Inv s -> Game s -> Game (fire e h s).
Proof.
  intros I G. unfold fire. destruct (timers s !! h) as [t|] eqn:Ht; [|done].
  case_match; [done|]. cbv zeta.
  destruct (callback t) eqn:Hcb.
  - apply basic_startNewRound_Game; split; game_tac.
  - rewrite basic_endRound_fired by (by apply (inv_round s I h t)).
    by apply basic_endRound_Game.
  - apply basic_nextRound_Game; split; game_tac.
Qed.

Lemma basic_Game_join (id n : string) (s : State) :
  Game s -> Game (set_users (JS.set id n (users s)) s).
Proof.
  intros G. split; game_tac.
  apply (elem_of_keys_set (users s) id _ n). by right.
Qed.

Lemma basic_Game_leave (id : string) (s : State) :
  Game s -> (gameActive s = true -> currentDrawer s <> Some id) ->
  Game (set_users (JS.delete id (users s)) s).
Proof.
  intros G Hd. split; game_tac.
  apply (elem_of_keys_delete_ne (users s)); [|done].
  intros ->. by eapply Hd.
Qed.

Lemma basic_Both_frame (s s' : State) :
  loopOf s' = loopOf s -> gameOf s' = gameOf s -> Both s -> Both s'.
Proof.
  intros Hl Hg [I G].
  split; [by apply (basic_Inv_loopOf s)|by apply (basic_Game_gameOf s)].
Qed.

Lemma basic_Both_endRound (e : Env) (b : bool) (s : State) :
  Both s -> Both (endRound e b s).
Proof.
  intros [I G]. split; [by apply basic_endRound_Inv|by apply basic_endRound_Game].
Qed.

Lemma basic_Both_emit (t : Target) (m : Msg) (s : State) : Both s -> Both (emit t m s).
Proof. by apply basic_Both_frame. Qed.
Lemma basic_Both_set_scores (u : JS.obj Z) (s : State) : Both s -> Both (set_scores u s).
Proof. by apply basic_Both_frame. Qed.
Lemma basic_Both_broadcastUserList (s : State) : Both s -> Both (broadcastUserList s).
Proof. by apply basic_Both_frame. Qed.
Lemma basic_Both_broadcastScores (s : State) : Both s -> Both (broadcastScores s).
Proof. by apply basic_Both_frame. Qed.
Lemma basic_Both_broadcastGameState (s : State) : Both s -> Both (broadcastGameState s).
Proof. by apply basic_Both_frame. Qed.
Lemma basic_Both_initScore (n : string) (s : State) : Both s -> Both (initScore n s).
Proof.
  apply basic_Both_frame; unfold initScore; repeat case_match; reflexivity.
Qed.

Lemma basic_Both_setTimer (cb : Callback) (at_ : Z) (s : State) :
  cb <> RoundTimeout -> Both s -> Both (setTimer cb at_ s).
Proof. intros Hcb [I G]. split; split; game_tac. Qed.

Ltac peel :=
  repeat match goal with
  | |- Both (endRound _ _ _) => apply basic_Both_endRound
  | |- Both (emit _ _ _) => apply basic_Both_emit
  | |- Both (set_scores _ _) => apply basic_Both_set_scores
  | |- Both (broadcastUserList _) => apply basic_Both_broadcastUserList
  | |- Both (broadcastScores _) => apply basic_Both_broadcastScores
  | |- Both (broadcastGameState _) => apply basic_Both_broadcastGameState
  | |- Both (initScore _ _) => apply basic_Both_initScore
  | |- Both (if _ then _ else _) => case_match
  | |- Both (match _ with _ => _ end) => case_match
  end; try assumption.

Lemma basic_on_guess_Both (e : Env) (id from text : string) (s : State) :
  Both s -> Both (on_guess e id from text s).
Proof. intros B. unfold on_guess. cbv zeta. peel. Qed.

Lemma basic_on_join_Both (e : Env) (id name : string) (s : State) :
  Both s -> Both (on_join e id name s).
Proof.
  intros B. unfold on_join. cbv zeta.
  generalize (if JS.truthy (JS.trim name) then JS.trim name else fallbackName id).
  intros n.
  match goal with |- context [set_users ?u s] =>
    assert (Both (set_users u s)) as B1
  end.
  { destruct B as [I G]. split; [|by apply basic_Game_join].
    destruct I as [I1 I2 I3 I4]. split; cbn; try done.
    intros h t Ht Hcb. destruct (I3 h t Ht Hcb) as (? & ? & ?).
    repeat split; try done. apply set_nonempty. }
  case_match; [|peel].
  apply basic_Both_setTimer; [done|]. peel.
Qed.

Lemma basic_endRound_Game' (e : Env) (b : bool) (s : State) :
  Game s -> Game (endRound e b s).
Proof.
  intros G. unfold endRound. cbn.
  destruct (gameActive s) eqn:Hg; cbn; split; game_tac.
Qed.

Lemma basic_Game_emit (t : Target) (m : Msg) (s : State) : Game s -> Game (emit t m s).
Proof. by apply basic_Game_gameOf. Qed.
Lemma basic_Game_set_scores (u : JS.obj Z) (s : State) : Game s -> Game (set_scores u s).
Proof. by apply basic_Game_gameOf. Qed.
Lemma basic_Game_broadcastUserList (s : State) : Game s -> Game (broadcastUserList s).
Proof. by apply basic_Game_gameOf. Qed.
Lemma basic_Game_broadcastScores (s : State) : Game s -> Game (broadcastScores s).
Proof. by apply basic_Game_gameOf. Qed.
Lemma basic_Game_broadcastGameState (s : State) : Game s -> Game (broadcastGameState s).
Proof. by apply basic_Game_gameOf. Qed.

Ltac peel_game :=
  repeat match goal with
  | |- Game (endRound _ _ _) => apply basic_endRound_Game'
  | |- Game (emit _ _ _) => apply basic_Game_emit
  | |- Game (set_scores _ _) => apply basic_Game_set_scores
  | |- Game (broadcastUserList _) => apply basic_Game_broadcastUserList
  | |- Game (broadcastScores _) => apply basic_Game_broadcastScores
  | |- Game (broadcastGameState _) => apply basic_Game_broadcastGameState
  | |- Game (if _ then _ else _) => case_match
  | |- Game (match _ with _ => _ end) => case_match
  end; try assumption.

Lemma basic_on_guess_Game (e : Env) (id from text : string) (s : State) :
  Game s -> Game (on_guess e id from text s).
Proof. intros G. unfold on_guess. cbv zeta. peel_game. Qed.

Lemma basic_on_disconnect_Game (e : Env) (id : string) (s : State) :
  Game s -> Game (on_disconnect e id s).
Proof.
  intros G. unfold on_disconnect.
  destruct (JS.get id (users s)) as [name|]; [|done].
  case_match; [done|].
  match goal with |- context [set_users _ ?x] => set (s1 := x) end.
  assert (Game s1 /\ (gameActive s1 = true -> currentDrawer s1 <> Some id))
    as [G1 Hd].
  { subst s1. case_bool_decide as Hid.
    - split; [peel_game|]. intros Hg.
      match type of Hg with gameActive (endRound e false ?x) = true =>
        destruct (basic_endRound_frame e false x) as (_ & _ & _ & Hf) end.
      congruence.
    - split; [peel_game|]. cbn. congruence. }
  cbv zeta. peel_game; by apply basic_Game_leave.
Qed.

Lemma basic_step_Both (e : Env) (ev : Event) (s : State) : Both s -> Both (step e ev s).
Proof.
  intros B. split; [apply basic_step_Inv, B|]. destruct ev; simpl.
  - unfold on_connection. cbv zeta. destruct B. peel_game.
  - by apply basic_on_join_Both.
  - unfold on_stroke. destruct B. peel_game.
  - unfold on_clear. destruct B. peel_game.
  - unfold on_chat. cbv zeta. destruct B. peel_game.
  - apply basic_on_guess_Game, B.
  - apply basic_on_disconnect_Game, B.
  - destruct B. by apply basic_fire_Game.
Qed.

Lemma basic_run_Both (tr : list (Env * Event)) (s : State) : Both s -> Both (run tr s).
Proof.
  revert s. induction tr as [|[e ev] tr IH]; intros s B; [done|].
  simpl. apply IH. by apply basic_step_Both.
Qed.

Lemma basic_reachable_Both (s : State) : reachable s -> Both s.
Proof.
  intros [tr ->]. apply basic_run_Both.
  split; [apply basic_Inv_init|apply basic_Game_init].
Qed.
End BasicGame.

Section BasicBooks.

Lemma basic_scores_initScore (n : string) (s : Basic.State) :
  Basic.scores (Basic.initScore n s) = Basic.scores s
  \/ scoreOf (Basic.scores s) n = 0
     /\ Basic.scores (Basic.initScore n s) = JS.set n 0 (Basic.scores s).
Proof.
  unfold Basic.initScore, scoreOf.
  destruct (JS.get n (Basic.scores s)) as [p|] eqn:Hn.
  - destruct (p =? 0) eqn:Hp; [|by left]. apply Z.eqb_eq in Hp. by right.
  - by right.
Qed.

Lemma basic_scores_on_join (e : Basic.Env) (id name : string) (s : Basic.State) :
  let n := if JS.truthy (JS.trim name) then JS.trim name else fallbackName id in
  Basic.scores (Basic.on_join e id name s) = Basic.scores s
  \/ scoreOf (Basic.scores s) n = 0
     /\ Basic.scores (Basic.on_join e id name s) = JS.set n 0 (Basic.scores s).
Proof.
  intros n. unfold Basic.on_join. cbv zeta. fold n.
  pose proof (basic_scores_initScore n
    (Basic.set_users (JS.set id n (Basic.users s)) s)) as Hi.
  case_match; exact Hi.
Qed.

Lemma basic_scores_on_guess (e : Basic.Env) (id from text : string)
    (s : Basic.State) :
  Basic.scores (Basic.on_guess e id from text s) = Basic.scores s
  \/ (exists w, Basic.correctGuess s id text w)
     /\ Basic.scores (Basic.on_guess e id from text s)
        = awardDrawer (Basic.drawerNameOf s)
            (award (playerName id from (Basic.users s)) 10 (Basic.scores s)).
Proof.
  unfold Basic.on_guess. cbv zeta.
  destruct (JS.truthy (JS.trim text)) eqn:Ht; cbn [negb]; [|by left].
  case_bool_decide as Hd; [by left|].
  cbn -[Basic.endRound JS.toLowerCase].
  destruct (Basic.currentWord s) as [w|] eqn:Hw; [|by left].
  destruct (Basic.gameActive s) eqn:Hg; cbn [negb orb]; [|by left].
  destruct (JS.truthy w) eqn:Htw; cbn [negb]; [|by left].
  case_bool_decide as Heq; [|by left]. right. split.
  - exists w. repeat split; try done; congruence.
  - match goal with |- context [Basic.endRound e true ?x] =>
      destruct (basic_endRound_frame e true x) as (_ & -> & _) end.
    reflexivity.
Qed.

(** The changes of the Score Board in one step. *)
Lemma basic_scores_step (e : Basic.Env) (ev : Basic.Event) (s : Basic.State) :
  let s' := Basic.step e ev s in
  Basic.scores s' = Basic.scores s
  \/ (exists id name,
        ev = Basic.Join id name
        /\ let n := if JS.truthy (JS.trim name) then JS.trim name
                    else fallbackName id in
           scoreOf (Basic.scores s) n = 0
           /\ Basic.scores s' = JS.set n 0 (Basic.scores s))
  \/ (exists id from text w,
        ev = Basic.Guess id from text /\ Basic.correctGuess s id text w
        /\ Basic.scores s'
           = awardDrawer (Basic.drawerNameOf s)
               (award (playerName id from (Basic.users s)) 10 (Basic.scores s))).
Proof.
  intros s'. subst s'. destruct ev; unfold Basic.step.
  - by left.
  - destruct (basic_scores_on_join e id name s) as [H|[H1 H2]]; [by left|].
    right. left. by exists id, name.
  - left. unfold Basic.on_stroke. by repeat case_match.
  - left. unfold Basic.on_clear. by repeat case_match.
  - by left.
  - destruct (basic_scores_on_guess e id from text s) as [H|[[w Hc] H2]]; [by left|].
    right. right. by exists id, from, text, w.
  - left. by destruct (basic_on_disconnect_books e id s) as [_ ->].
  - left. by destruct (basic_fire_books e h s) as [_ ->].
Qed.

Lemma basic_step_scores_le (e : Basic.Env) (ev : Basic.Event)
    (s : Basic.State) (n : string) :
  scoreOf (Basic.scores s) n <= scoreOf (Basic.scores (Basic.step e ev s)) n
  /\ (n ∈ JS.keys (Basic.scores s) -> n ∈ JS.keys (Basic.scores (Basic.step e ev s))).
Proof.
  destruct (basic_scores_step e ev s)
    as [-> | [(id & name & _ & H0 & ->) | (id & from & text & w & _ & _ & ->)]].
  - split; [lia|done].
  - cbv zeta in H0. rewrite scoreOf_set_zero by done. split; [lia|].
    intros Hin. apply elem_of_keys_set. by right.
  - split; [apply scoreOf_awards_le|].
    intros Hin. by apply keys_awardDrawer, keys_award.
Qed.

(** ** The names of the roster *)

Lemma basic_step_named (e : Basic.Env) (ev : Basic.Event) (s : Basic.State) :
  named (Basic.users s) -> named (Basic.users (Basic.step e ev s)).
Proof.
  intros Hn. destruct ev; unfold Basic.step.
  - done.
  - destruct (basic_on_join_books e id name s) as (-> & _).
    apply named_set; [apply join_name_truthy|done].
  - unfold Basic.on_stroke. by repeat case_match.
  - unfold Basic.on_clear. by repeat case_match.
  - done.
  - by destruct (basic_on_guess_books e id from text s) as (-> & _).
  - destruct (basic_users_disconnect e id s) as [-> | ->];
      auto using named_delete.
  - by destruct (basic_fire_books e h s) as [-> _].
Qed.

Lemma basic_reachable_named (s : Basic.State) :
  Basic.reachable s -> named (Basic.users s).
Proof.
  intros [tr ->]. assert (named (Basic.users Basic.init)) as H0.
  { intros n Hn. inversion Hn. }
  revert H0. generalize Basic.init.
  induction tr as [|[e ev] tr IH]; intros s H0; [done|].
  simpl. apply IH. by apply basic_step_named.
Qed.

Lemma basic_disconnect_removes (e : Basic.Env) (id n : string) (s : Basic.State) :
  JS.get id (Basic.users s) = Some n -> JS.truthy n = true ->
  Basic.users (Basic.on_disconnect e id s) = JS.delete id (Basic.users s).
Proof.
  intros Hg Hn. unfold Basic.on_disconnect. rewrite Hg, Hn. cbv zeta. cbn [negb].
  match goal with |- context [Basic.set_users _ ?x] => set (s1 := x) end.
  assert (Basic.users s1 = Basic.users s) as Hu.
  { subst s1. case_match; [|done].
    match goal with |- context [Basic.endRound e false ?x] =>
      by destruct (basic_endRound_frame e false x) as (-> & _) end. }
  generalize dependent s1. intros s1 Hu.
  case_match.
  - cbn -[Basic.endRound].
    match goal with |- context [Basic.endRound e false ?x] =>
      destruct (basic_endRound_frame e false x) as (-> & _) end.
    cbn. by rewrite Hu.
  - cbn. by rewrite Hu.
Qed.

Lemma basic_disconnect_absent (e : Basic.Env) (id : string) (s : Basic.State) :
  JS.get id (Basic.users s) = None -> Basic.on_disconnect e id s = s.
Proof. intros Hg. unfold Basic.on_disconnect. by rewrite Hg. Qed.
End BasicBooks.

(** ** The server with manual start and stop *)

Section ManualRounds.
Import Manual.

Lemma manual_selectRandomWord_in (e : Env) : selectRandomWord e ∈ wordList.
Proof.
  unfold selectRandomWord.
  destruct (wordList !! _) as [w|] eqn:Hw.
  - simpl. eapply list_elem_of_lookup_2. exact Hw.
  - apply lookup_ge_None in Hw.
    pose proof (Nat.mod_upper_bound (random e) (length wordList)) as Hlt.
    simpl in *. lia.
Qed.

Lemma manual_wordList_truthy (w : string) : w ∈ wordList -> JS.truthy w = true.
Proof.
  assert (Forall (fun w => JS.truthy w = true) wordList) as Hall.
  { repeat constructor. }
  rewrite Forall_forall in Hall. apply Hall.
Qed.

Lemma manual_Inv_init : Inv init.
Proof. split; cbn; intros; simplify_map_eq; done. Qed.

Lemma manual_Inv_gameOf (s s' : State) : gameOf s' = gameOf s -> Inv s -> Inv s'.
Proof.
  unfold gameOf. intros [= Hu Hd Hw Hg Hr Hs He Ht Hn] [I1 I2 I3 I4].
  split; rewrite ?Hu, ?Hd, ?Hw, ?Hg, ?Hr, ?Hs, ?He, ?Ht, ?Hn; assumption.
Qed.

Ltac sat :=
  repeat match goal with
  | I : Inv ?s, H : timers ?s !! ?h = Some ?t |- _ =>
      lazymatch goal with
      | _ : (h < nextHandle s)%nat |- _ => fail
      | _ => pose proof (inv_fresh s I h t H)
      end
  | I : Inv ?s, H : timers ?s !! ?h = Some ?t, C : callback ?t = RoundTimeout |- _ =>
      lazymatch goal with
      | _ : roundTimer s = Some h |- _ => fail
      | _ => pose proof (inv_round s I h t H C)
      end
  | I : Inv ?s, H : gameActive ?s = true |- _ =>
      lazymatch goal with
      | _ : currentWord s = Some _ |- _ => fail
      | _ => destruct (inv_active s I H)
               as (? & ? & ? & ? & ? & ? & ? & ? & ? & ? & ? & ?)
      end
  | I : Inv ?s, H : gameActive ?s = false |- _ =>
      lazymatch goal with
      | _ : currentWord s = None |- _ => fail
      | _ => destruct (inv_idle s I H) as (? & ? & ? & ?)
      end
  end.

Ltac finish := try first [ done | lia | congruence | by eauto ].

Ltac inv_tac :=
  cbn -[selectRandomWord]; intros;
  lookups; simplify_eq/=; sat; simplify_eq/=; finish;
  try (repeat split; finish);
  try (do 4 eexists; repeat split; try eassumption; try reflexivity;
       lookups; simplify_eq/=; sat; simplify_eq/=; finish).

Lemma manual_startNewRound_Inv (e : Env) (s : State) :
  Inv s -> Inv (startNewRound e s).
Proof.
  intros I. unfold startNewRound.
  pose proof (manual_selectRandomWord_in e).
  cbn -[selectRandomWord].
  destruct (getNextDrawer _ _) as [d|] eqn:Hd.
  - apply getNextDrawer_member in Hd. split; inv_tac.
  - apply getNextDrawer_None in Hd.
    destruct (gameActive s) eqn:Hg.
    + exfalso.
      destruct (inv_active s I Hg) as (? & d & ? & ? & _ & _ & _ & Hin & _).
      rewrite Hd in Hin. inversion Hin.
    + split; inv_tac.
Qed.

Lemma manual_endRound_Inv (e : Env) (b : bool) (s : State) :
  Inv s -> Inv (endRound e b s).
Proof.
  intros I. unfold endRound. cbn.
  destruct (gameActive s) eqn:Hg; cbn; split; inv_tac.
Qed.

Lemma manual_stopGame_Inv (e : Env) (s : State) : Inv s -> Inv (stopGame e s).
Proof. intros I. unfold stopGame. split; inv_tac. Qed.

Lemma manual_endRound_fired (e : Env) (b : bool) (h : nat) (s : State) :
  roundTimer s = Some h ->
  endRound e b (set_timers (base.delete h (timers s)) s) = endRound e b s.
Proof.
  intros Hrt.
  assert (set_roundTimer None
            (clearTimer (roundTimer (set_timers (base.delete h (timers s)) s))
               (set_timers (base.delete h (timers s)) s))
          = set_roundTimer None (clearTimer (roundTimer s) s)) as Heq.
  { cbn. rewrite Hrt. unfold set_roundTimer, clearTimer, cancel. cbn.
    by rewrite delete_delete_eq. }
  unfold endRound. cbv zeta. rewrite Heq. reflexivity.
Qed.

Lemma manual_nextRound_Inv (e : Env) (s : State) : Inv s -> Inv (nextRound e s).
Proof.
  intros I. unfold nextRound. case_match; [|done].
  by apply manual_startNewRound_Inv.
Qed.

Lemma manual_timerInterval_Inv (e : Env) (h : nat) (t : Timer) (s : State) :
  Inv s -> timers s !! h = Some t -> callback t = TimerInterval ->
  Inv (timerInterval e h s).
Proof.
  intros I Ht Hcb. unfold timerInterval. case_match.
  - split; inv_tac.
  - apply (manual_Inv_gameOf s); [reflexivity|done].
Qed.

Lemma manual_fire_Inv (e : Env) (h : nat) (s : State) : Inv s -> Inv (fire e h s).
Proof.
  intros I. unfold fire. destruct (timers s !! h) as [t|] eqn:Ht; [|done].
  case_match; [done|]. cbv zeta.
  destruct (callback t) eqn:Hcb.
  - apply manual_startNewRound_Inv; split; inv_tac.
  - rewrite manual_endRound_fired by (by apply (inv_round s I h t)).
    by apply manual_endRound_Inv.
  - apply (manual_timerInterval_Inv _ _ (mkTimer TimerInterval (now e + 1000)));
      [split; inv_tac| |done].
    cbn. by rewrite lookup_insert_eq.
  - apply manual_nextRound_Inv; split; inv_tac.
Qed.

Lemma manual_Inv_emit (t : Target) (m : Msg) (s : State) : Inv s -> Inv (emit t m s).
Proof. by apply manual_Inv_gameOf. Qed.
Lemma manual_Inv_set_scores (u : JS.obj Z) (s : State) : Inv s -> Inv (set_scores u s).
Proof. by apply manual_Inv_gameOf. Qed.
Lemma manual_Inv_broadcastUserList (s : State) : Inv s -> Inv (broadcastUserList s).
Proof. by apply manual_Inv_gameOf. Qed.
Lemma manual_Inv_broadcastScores (s : State) : Inv s -> Inv (broadcastScores s).
Proof. by apply manual_Inv_gameOf. Qed.
Lemma manual_Inv_broadcastGameState (e : Env) (s : State) :
  Inv s -> Inv (broadcastGameState e s).
Proof. by apply manual_Inv_gameOf. Qed.
Lemma manual_Inv_initScore (n : string) (s : State) : Inv s -> Inv (initScore n s).
Proof.
  apply manual_Inv_gameOf; unfold initScore; repeat case_match; reflexivity.
Qed.

Lemma manual_Inv_setTimer (cb : Callback) (at_ : Z) (s : State) :
  cb <> RoundTimeout -> Inv s -> Inv (setTimer cb at_ s).
Proof. intros Hcb I. split; inv_tac. Qed.

Lemma manual_Inv_join (id n : string) (s : State) :
  Inv s -> Inv (set_users (JS.set id n (users s)) s).
Proof.
  intros I. split; inv_tac.
  apply (elem_of_keys_set (users s) id _ n). by right.
Qed.

Lemma manual_Inv_leave (id : string) (s : State) :
  Inv s -> (gameActive s = true -> currentDrawer s <> Some id) ->
  Inv (set_users (JS.delete id (users s)) s).
Proof.
  intros I Hd. split; inv_tac.
  apply (elem_of_keys_delete_ne (users s)); [|done].
  intros ->. by eapply Hd.
Qed.

Lemma manual_endRound_inactive (e : Env) (b : bool) (s : State) :
  gameActive (endRound e b s) = false.
Proof. unfold endRound. cbn. destruct (gameActive s) eqn:Hg; cbn; by rewrite ?Hg. Qed.

Ltac peel :=
  repeat match goal with
  | |- Inv (endRound _ _ _) => apply manual_endRound_Inv
  | |- Inv (stopGame _ _) => apply manual_stopGame_Inv
  | |- Inv (emit _ _ _) => apply manual_Inv_emit
  | |- Inv (set_scores _ _) => apply manual_Inv_set_scores
  | |- Inv (broadcastUserList _) => apply manual_Inv_broadcastUserList
  | |- Inv (broadcastScores _) => apply manual_Inv_broadcastScores
  | |- Inv (broadcastGameState _ _) => apply manual_Inv_broadcastGameState
  | |- Inv (initScore _ _) => apply manual_Inv_initScore
  | |- Inv (set_users (JS.set _ _ _) _) => apply manual_Inv_join
  | |- Inv (setTimer StartRound _ _) => apply manual_Inv_setTimer; [done|]
  | |- Inv (if _ then _ else _) => case_match
  | |- Inv (match _ with _ => _ end) => case_match
  end; try assumption.

Lemma manual_on_disconnect_Inv (e : Env) (id : string) (s : State) :
  Inv s -> Inv (on_disconnect e id s).
Proof.
  intros I. unfold on_disconnect.
  destruct (JS.get id (users s)) as [name|]; [|done].
  case_match; [done|].
  match goal with |- context [set_users _ ?x] => set (s1 := x) end.
  assert (Inv s1 /\ (gameActive s1 = true -> currentDrawer s1 <> Some id))
    as [I1 Hd].
  { subst s1. case_bool_decide as Hid.
    - split; [peel|]. intros Hg. by rewrite manual_endRound_inactive in Hg.
    - split; [peel|]. cbn. congruence. }
  cbv zeta. peel; by apply manual_Inv_leave.
Qed.

Lemma manual_step_Inv (e : Env) (ev : Event) (s : State) : Inv s -> Inv (step e ev s).
Proof.
  intros I. destruct ev; simpl.
  - unfold on_connection. cbv zeta. peel.
  - unfold on_join. cbv zeta. peel.
  - unfold on_startGame. cbv zeta. peel.
  - unfold on_stopGame. peel.
  - unfold on_stroke. peel.
  - unfold on_clear. peel.
  - unfold on_chat. cbv zeta. peel.
  - unfold on_guess. cbv zeta. peel.
  - by apply manual_on_disconnect_Inv.
  - by apply manual_fire_Inv.
Qed.

Lemma manual_run_Inv (tr : list (Env * Event)) (s : State) : Inv s -> Inv (run tr s).
Proof.
  revert s. induction tr as [|[e ev] tr IH]; intros s I; [done|].
  simpl. apply IH. by apply manual_step_Inv.
Qed.

Lemma manual_reachable_Inv (s : State) : reachable s -> Inv s.
Proof. intros [tr ->]. apply manual_run_Inv, manual_Inv_init. Qed.
End ManualRounds.

Section ManualBooks.

Lemma manual_startNewRound_books (e : Manual.Env) (s : Manual.State) :
  Manual.users (Manual.startNewRound e s) = Manual.users s
  /\ Manual.scores (Manual.startNewRound e s) = Manual.scores s.
Proof.
  unfold Manual.startNewRound. cbn -[Manual.selectRandomWord].
  by destruct (getNextDrawer _ _).
Qed.

Lemma manual_endRound_books (e : Manual.Env) (b : bool) (s : Manual.State) :
  Manual.users (Manual.endRound e b s) = Manual.users s
  /\ Manual.scores (Manual.endRound e b s) = Manual.scores s.
Proof. unfold Manual.endRound. cbn. by destruct (Manual.gameActive s). Qed.

Lemma manual_stopGame_books (e : Manual.Env) (s : Manual.State) :
  Manual.users (Manual.stopGame e s) = Manual.users s
  /\ Manual.scores (Manual.stopGame e s) = Manual.scores s.
Proof. done. Qed.

Lemma manual_fire_books (e : Manual.Env) (h : nat) (s : Manual.State) :
  Manual.users (Manual.fire e h s) = Manual.users s
  /\ Manual.scores (Manual.fire e h s) = Manual.scores s.
Proof.
  unfold Manual.fire. destruct (Manual.timers s !! h) as [t|]; [|done].
  case_match; [done|]. cbv zeta. destruct (Manual.callback t).
  - match goal with |- context [Manual.startNewRound e ?x] =>
      by destruct (manual_startNewRound_books e x) as [-> ->] end.
  - match goal with |- context [Manual.endRound e false ?x] =>
      by destruct (manual_endRound_books e false x) as [-> ->] end.
  - unfold Manual.timerInterval. by case_match.
  - unfold Manual.nextRound. case_match; [|done].
    match goal with |- context [Manual.startNewRound e ?x] =>
      by destruct (manual_startNewRound_books e x) as [-> ->] end.
Qed.

Lemma manual_on_disconnect_books (e : Manual.Env) (id : string) (s : Manual.State) :
  (Manual.users (Manual.on_disconnect e id s) = Manual.users s
   \/ Manual.users (Manual.on_disconnect e id s) = JS.delete id (Manual.users s))
  /\ Manual.scores (Manual.on_disconnect e id s) = Manual.scores s.
Proof.
  unfold Manual.on_disconnect. cbv zeta.
  destruct (JS.get id (Manual.users s)) as [name|]; [|by split; [left|]].
  destruct (negb (JS.truthy name)); [by split; [left|]|].
  match goal with |- context [Manual.set_users _ ?x] => set (s1 := x) end.
  assert (Manual.users s1 = Manual.users s /\ Manual.scores s1 = Manual.scores s)
    as [Hu Hs].
  { subst s1. case_match; [|done].
    match goal with |- context [Manual.endRound e false ?x] =>
      by destruct (manual_endRound_books e false x) as [-> ->] end. }
  generalize dependent s1. intros s1 Hu Hs.
  case_match; cbn; rewrite Hu, Hs; by split; [right|].
Qed.

Lemma manual_disconnect_removes (e : Manual.Env) (id n : string) (s : Manual.State) :
  JS.get id (Manual.users s) = Some n -> JS.truthy n = true ->
  Manual.users (Manual.on_disconnect e id s) = JS.delete id (Manual.users s).
Proof.
  intros Hg Hn. unfold Manual.on_disconnect. rewrite Hg, Hn. cbv zeta. cbn [negb].
  match goal with |- context [Manual.set_users _ ?x] => set (s1 := x) end.
  assert (Manual.users s1 = Manual.users s) as Hu.
  { subst s1. case_match; [|done].
    match goal with |- context [Manual.endRound e false ?x] =>
      by destruct (manual_endRound_books e false x) as [-> _] end. }
  generalize dependent s1. intros s1 Hu.
  case_match; cbn; by rewrite Hu.
Qed.

Lemma manual_disconnect_absent (e : Manual.Env) (id : string) (s : Manual.State) :
  JS.get id (Manual.users s) = None -> Manual.on_disconnect e id s = s.
Proof. intros Hg. unfold Manual.on_disconnect. by rewrite Hg. Qed.

Lemma manual_scores_initScore (n : string) (s : Manual.State) :
  Manual.users (Manual.initScore n s) = Manual.users s
  /\ (Manual.scores (Manual.initScore n s) = Manual.scores s
      \/ scoreOf (Manual.scores s) n = 0
         /\ Manual.scores (Manual.initScore n s) = JS.set n 0 (Manual.scores s))
  /\ n ∈ JS.keys (Manual.scores (Manual.initScore n s)).
Proof.
  unfold Manual.initScore, scoreOf.
  destruct (JS.get n (Manual.scores s)) as [p|] eqn:Hn.
  - assert (n ∈ JS.keys (Manual.scores s)) as Hin by (apply get_is_Some; eauto).
    destruct (p =? 0) eqn:Hp.
    + apply Z.eqb_eq in Hp. cbn. repeat split; [by right|].
      apply elem_of_keys_set. by left.
    + repeat split; [by left|done].
  - cbn. repeat split; [by right|]. apply elem_of_keys_set. by left.
Qed.

Lemma manual_on_join_books (id name : string) (s : Manual.State) :
  let n := if JS.truthy (JS.trim name) then JS.trim name else fallbackName id in
  Manual.users (Manual.on_join id name s) = JS.set id n (Manual.users s)
  /\ (Manual.scores (Manual.on_join id name s) = Manual.scores s
      \/ scoreOf (Manual.scores s) n = 0
         /\ Manual.scores (Manual.on_join id name s) = JS.set n 0 (Manual.scores s))
  /\ n ∈ JS.keys (Manual.scores (Manual.on_join id name s)).
Proof.
  intros n. unfold Manual.on_join. cbv zeta. fold n.
  destruct (manual_scores_initScore n
              (Manual.set_users (JS.set id n (Manual.users s)) s)) as (Hu & Hs & Hk).
  cbn. rewrite Hu. done.
Qed.

(** A guess that the handler accepts. *)
Lemma manual_on_guess_books (e : Manual.Env) (id from text : string)
    (s : Manual.State) :
  Manual.users (Manual.on_guess e id from text s) = Manual.users s
  /\ (Manual.scores (Manual.on_guess e id from text s) = Manual.scores s
      \/ (exists w,
            Manual.currentDrawer s <> Some id /\ Manual.gameActive s = true
            /\ Manual.currentWord s = Some w
            /\ JS.toLowerCase (JS.trim text) = JS.toLowerCase w)
         /\ Manual.scores (Manual.on_guess e id from text s)
            = awardDrawer (Manual.drawerNameOf s)
                (award (playerName id from (Manual.users s)) 10 (Manual.scores s))).
Proof.
  unfold Manual.on_guess. cbv zeta.
  destruct (JS.truthy (JS.trim text)) eqn:Ht; cbn [negb]; [|by split; [|left]].
  case_bool_decide as Hd; [by split; [|left]|].
  cbn -[Manual.endRound JS.toLowerCase].
  destruct (Manual.currentWord s) as [w|] eqn:Hw; [|by split; [|left]].
  destruct (Manual.gameActive s) eqn:Hg; cbn [negb orb]; [|by split; [|left]].
  destruct (JS.truthy w) eqn:Htw; cbn [negb]; [|by split; [|left]].
  case_bool_decide as Heq; [|by split; [|left]].
  match goal with |- context [Manual.endRound e true ?x] =>
    destruct (manual_endRound_books e true x) as [-> ->] end.
  split; [done|]. right. split; [|reflexivity].
  exists w. repeat split; try done; congruence.
Qed.

(** The changes of the roster and of the Score Board in one step. *)
Lemma manual_scores_step (e : Manual.Env) (ev : Manual.Event) (s : Manual.State) :
  let s' := Manual.step e ev s in
  Manual.scores s' = Manual.scores s
  \/ (exists n, scoreOf (Manual.scores s) n = 0
                /\ Manual.scores s' = JS.set n 0 (Manual.scores s))
  \/ (exists p dn, Manual.scores s' = awardDrawer dn (award p 10 (Manual.scores s))).
Proof.
  intros s'. subst s'. destruct ev; unfold Manual.step.
  - by left.
  - destruct (manual_on_join_books id name s) as (_ & [H|[H1 H2]] & _); [by left|].
    right. left. eauto.
  - left. unfold Manual.on_startGame. cbv zeta. by repeat case_match.
  - left. unfold Manual.on_stopGame. by case_match.
  - left. unfold Manual.on_stroke. by repeat case_match.
  - left. unfold Manual.on_clear. by repeat case_match.
  - by left.
  - destruct (manual_on_guess_books e id from text s) as (_ & [H|[_ H]]); [by left|].
    right. right. eauto.
  - left. by destruct (manual_on_disconnect_books e id s) as [_ ->].
  - left. by destruct (manual_fire_books e h s) as [_ ->].
Qed.

Lemma manual_users_step (e : Manual.Env) (ev : Manual.Event) (s : Manual.State) :
  let s' := Manual.step e ev s in
  Manual.users s' = Manual.users s
  \/ (exists id name,
        ev = Manual.Join id name
        /\ let n := if JS.truthy (JS.trim name) then JS.trim name
                    else fallbackName id in
           Manual.users s' = JS.set id n (Manual.users s)
           /\ n ∈ JS.keys (Manual.scores s'))
  \/ (exists id, ev = Manual.Disconnect id
                 /\ Manual.users s' = JS.delete id (Manual.users s)).
Proof.
  intros s'. subst s'. destruct ev; unfold Manual.step.
  - by left.
  - right. left. exists id, name. split; [done|]. cbv zeta.
    by destruct (manual_on_join_books id name s) as (-> & _ & Hk).
  - left. unfold Manual.on_startGame. cbv zeta. by repeat case_match.
  - left. unfold Manual.on_stopGame. by case_match.
  - left. unfold Manual.on_stroke. by repeat case_match.
  - left. unfold Manual.on_clear. by repeat case_match.
  - by left.
  - left. by destruct (manual_on_guess_books e id from text s) as (-> & _).
  - destruct (manual_on_disconnect_books e id s) as [[Hu|Hu] _]; [by left|].
    right. right. by exists id.
  - left. by destruct (manual_fire_books e h s) as [-> _].
Qed.

Lemma manual_step_scores_le (e : Manual.Env) (ev : Manual.Event)
    (s : Manual.State) (n : string) :
  scoreOf (Manual.scores s) n <= scoreOf (Manual.scores (Manual.step e ev s)) n
  /\ (n ∈ JS.keys (Manual.scores s) ->
      n ∈ JS.keys (Manual.scores (Manual.step e ev s))).
Proof.
  destruct (manual_scores_step e ev s) as [-> | [(n0 & H0 & ->) | (p & dn & ->)]].
  - split; [lia|done].
  - rewrite scoreOf_set_zero by done. split; [lia|].
    intros Hin. apply elem_of_keys_set. by right.
  - split; [apply scoreOf_awards_le|].
    intros Hin. by apply keys_awardDrawer, keys_award.
Qed.

(** What the roster keeps from step to step: its names are not empty, its
    ids are distinct, and its names have an entry in the Score Board. *)
Lemma manual_step_roster (e : Manual.Env) (ev : Manual.Event) (s : Manual.State) :
  named (Manual.users s) /\ NoDup (JS.keys (Manual.users s)) /\ Manual.rosterScored s ->
  named (Manual.users (Manual.step e ev s))
  /\ NoDup (JS.keys (Manual.users (Manual.step e ev s)))
  /\ Manual.rosterScored (Manual.step e ev s).
Proof.
  intros (Hn & Hnd & Hrs).
  assert (forall n, n ∈ JS.keys (Manual.scores s) ->
                    n ∈ JS.keys (Manual.scores (Manual.step e ev s))) as Hk
    by (intros n; apply manual_step_scores_le).
  destruct (manual_users_step e ev s)
    as [Hu | [(id & name & _ & Hu & Hin) | (id & _ & Hu)]];
    cbv zeta in *; unfold Manual.rosterScored; rewrite Hu.
  - auto.
  - split; [apply named_set; [apply join_name_truthy|done]|].
    split; [by apply NoDup_keys_set|].
    intros n Hv. apply values_set in Hv as [->|Hv]; [done|]. apply Hk, Hrs, Hv.
  - split; [by apply named_delete|]. split; [by apply NoDup_keys_delete|].
    intros n Hv. apply values_delete in Hv. apply Hk, Hrs, Hv.
Qed.

Lemma manual_reachable_roster (s : Manual.State) :
  Manual.reachable s ->
  named (Manual.users s) /\ NoDup (JS.keys (Manual.users s)) /\ Manual.rosterScored s.
Proof.
  intros [tr ->].
  assert (named (Manual.users Manual.init)
          /\ NoDup (JS.keys (Manual.users Manual.init))
          /\ Manual.rosterScored Manual.init) as H0.
  { split; [intros n Hn; inversion Hn|]. split; [constructor|].
    intros n Hn. inversion Hn. }
  revert H0. generalize Manual.init.
  induction tr as [|[e ev] tr IH]; intros s H0; [done|].
  simpl. apply IH. by apply manual_step_roster.
Qed.

End ManualBooks.

Section ManualRequests.

Lemma manual_sameGame_emit (t : Target) (m : Manual.Msg) (s : Manual.State) :
  Manual.sameGame s (Manual.emit t m s).
Proof. unfold Manual.sameGame. by destruct s. Qed.

Lemma manual_sent_emit (t : Target) (m : Manual.Msg) (s : Manual.State) :
  Manual.sent s (Manual.emit t m s) = [(t, m)].
Proof. unfold Manual.sent. cbn. by rewrite drop_app_length. Qed.

Lemma manual_startNewRound_starts (e : Manual.Env) (s : Manual.State) :
  Manual.users s <> [] ->
  Manual.gameActive (Manual.startNewRound e s) = true
  /\ Manual.currentDrawer (Manual.startNewRound e s)
     = getNextDrawer (Manual.users s) (Manual.currentDrawer s).
Proof.
  intros Hne. unfold Manual.startNewRound. cbn -[Manual.selectRandomWord].
  destruct (getNextDrawer _ _) as [d|] eqn:Hd; [done|].
  by apply getNextDrawer_None in Hd.
Qed.

Lemma manual_fire_NextRound (e : Manual.Env) (h : nat) (t : Manual.Timer)
    (s : Manual.State) :
  Manual.timers s !! h = Some t -> Manual.due t <= Manual.now e ->
  Manual.callback t = Manual.NextRound \/ Manual.callback t = Manual.StartRound ->
  Manual.users s <> [] ->
  Manual.gameActive (Manual.fire e h s) = true
  /\ Manual.currentDrawer (Manual.fire e h s)
     = getNextDrawer (Manual.users s) (Manual.currentDrawer s).
Proof.
  intros Ht Hdue Hcb Hne. unfold Manual.fire. rewrite Ht.
  destruct (Manual.due t <=? Manual.now e) eqn:Hle;
    [|apply Z.leb_gt in Hle; lia].
  cbn [negb]. cbv zeta. destruct Hcb as [-> | ->].
  - unfold Manual.nextRound. cbn [Manual.users Manual.set_timers].
    rewrite bool_decide_eq_true_2.
    + by apply (manual_startNewRound_starts e
                  (Manual.set_timers (base.delete h (Manual.timers s)) s)).
    + destruct (Manual.users s); [done|]. simpl. lia.
  - by apply (manual_startNewRound_starts e
                (Manual.set_timers (base.delete h (Manual.timers s)) s)).
Qed.

End ManualRequests.

(** ** The Score Board of the server with manual start and stop *)

Section ManualBoard.

Lemma manual_stmts_tensAndFives (e : Manual.Env) (ev : Manual.Event)
    (s : Manual.State) :
  Board.tensAndFives (Manual.scoreStmts e ev s).
Proof.
  destruct ev; try (intros n d Hin; by apply list_elem_of_In in Hin).
  - intros n d Hin. apply list_elem_of_In in Hin. simpl in Hin.
    by destruct Hin as [?|[]].
  - apply guessStmts_tensAndFives.
Qed.

Lemma manual_stmts_no_reset (e : Manual.Env) (ev : Manual.Event)
    (s : Manual.State) :
  Board.Reset ∉ Manual.scoreStmts e ev s.
Proof.
  destruct ev; try (intros Hin; by apply list_elem_of_In in Hin).
  - intros Hin. apply list_elem_of_In in Hin. simpl in Hin.
    by destruct Hin as [?|[]].
  - apply guessStmts_no_reset.
Qed.

Lemma manual_step_users (e : Manual.Env) (ev : Manual.Event) (s : Manual.State)
    (n : string) :
  n ∈ JS.values (Manual.users (Manual.step e ev s)) ->
  n ∈ JS.values (Manual.users s) \/ Board.InitScore n ∈ Manual.scoreStmts e ev s.
Proof.
  destruct (manual_users_step e ev s)
    as [-> | [(id & name & -> & -> & _) | (id & -> & ->)]].
  - by left.
  - intros Hin. apply values_set in Hin as [->|Hin]; [right|by left].
    simpl. unfold joinName. by left.
  - intros Hin. left. by apply values_delete in Hin.
Qed.

Lemma manual_boardRun_rosterScored (tr : list (Manual.Env * Manual.Event))
    (s : Manual.State) (b : Board.t) :
  Board.rosterScored (Manual.users s) b ->
  Board.rosterScored (Manual.users (Manual.run tr s)) (Manual.boardRun tr s b).
Proof.
  revert s b. induction tr as [|[e ev] tr IH]; intros s b Hrs; [done|].
  simpl. apply IH. apply (rosterScored_execAll (Manual.users s)); [| |done].
  - apply manual_stmts_no_reset.
  - intros n. apply manual_step_users.
Qed.

Lemma manual_boardRun_sound (tr : list (Manual.Env * Manual.Event))
    (s : Manual.State) (b : Board.t) :
  Board.sound b -> Board.sound (Manual.boardRun tr s b).
Proof.
  revert s b. induction tr as [|[e ev] tr IH]; intros s b Hs; [done|].
  simpl. apply IH. apply sound_execAll; [|done].
  apply manual_stmts_tensAndFives.
Qed.

End ManualBoard.

(** ** The properties *)

(** X1.  Over a roster that does not change and whose ids are distinct,
    the rotation is fair.  Starting after the participant at position [i],
    the drawers of the next [n] rounds, [n] the size of the roster, are the
    participants that follow position [i] in insertion order, then those
    from the first one up to position [i]: everyone draws exactly once, the
    participant at position [i] last.  Starting with no drawer, they are
    the roster in insertion order. *)

Theorem rotation_is_fair (users : JS.obj Name) (i : nat) (d : SocketId) :
  NoDup (JS.keys users) -> JS.keys users !! i = Some d ->
  let n := length (JS.keys users) in
  nextDrawers users (Some d) n
  = drop (S i) (JS.keys users) ++ take (S i) (JS.keys users)
  /\ nextDrawers users (Some d) n ≡ₚ JS.keys users
  /\ last (nextDrawers users (Some d) n) = Some d
  /\ nextDrawers users None n = JS.keys users.
Proof.
  intros Hnd Hi n. subst n.
  pose proof (lookup_lt_Some _ _ _ Hi) as Hlt.
  rewrite (nextDrawers_cycle users i d Hnd Hi). repeat split.
  - rewrite Permutation_app_comm. by rewrite take_drop.
  - rewrite last_app. rewrite last_lookup, length_take.
    replace (S i `min` length (JS.keys users))%nat with (S i) by lia.
    cbn [pred]. rewrite lookup_take_lt by lia. by rewrite Hi.
  - by apply nextDrawers_first.
Qed.

Lemma rotation_is_fair_witness :
  nextDrawers (Session.users (Scenario.firstRound "Ann" "Bob")) (Some "s1"%string) 2
  = ["s2"; "s1"]%string.
Proof.
  destruct (rotation_is_fair (Session.users (Scenario.firstRound "Ann" "Bob"))
              0 "s1"%string) as (H & _).
  - apply (bool_decide_unpack _). vm_compute. exact I.
  - vm_compute. reflexivity.
  - exact H.
Defined.

(** X2.  The leaderboard that [endSession] computes from a Score Board of
    numbers keeps, among the entries with the same score, the order in
    which [Object.entries] lists them.  So the winner is the first entry of
    that list with the highest score: the entries before it have a
    strictly lower score.  That list has the names that are array indices
    first, in ascending order, and then the other names in the order in
    which their entries were created; it is the order of creation when no
    name is an array index. *)



(** X3.  In every reachable state of the session server, a round in
    progress (a current word) has a word of the word list, which is not
    empty, in an active session, and a drawer who is in the roster under a
    display name that is not empty: the drawer's award has a recipient. *)

Theorem round_has_word_and_drawer (s : Session.State) (w : string) :
  Session.reachable s -> Session.currentWord s = Some w ->
  w ∈ Session.wordList /\ JS.truthy w = true /\ Session.gameActive s = true
  /\ exists d name,
      Session.currentDrawer s = Some d /\ JS.get d (Session.users s) = Some name
      /\ JS.truthy name = true /\ Session.drawerAward s = Some name.
Proof.
  intros Hr Hw. pose proof (reachable_Game s Hr) as G.
  destruct (Session.game_word s G w Hw) as (Hin & Hg & d & Hd & Hmem).
  repeat split; [done|by apply wordList_truthy|done|].
  apply get_is_Some in Hmem as [name Hname].
  pose proof (named_get _ _ _ (session_reachable_named s Hr) Hname) as Ht.
  exists d, name. repeat split; try done.
  unfold Session.drawerAward, Session.drawerNameOf. by rewrite Hd, Hname, Ht.
Qed.

Lemma round_has_word_and_drawer_witness :
  "cat"%string ∈ Session.wordList
  /\ exists d name,
      Session.currentDrawer (Scenario.firstRound "Ann" "Bob") = Some d
      /\ JS.get d (Session.users (Scenario.firstRound "Ann" "Bob")) = Some name
      /\ JS.truthy name = true
      /\ Session.drawerAward (Scenario.firstRound "Ann" "Bob") = Some name.
Proof.
  destruct (round_has_word_and_drawer (Scenario.firstRound "Ann" "Bob") "cat")
    as (Hin & _ & _ & Hd).
  - by exists (Scenario.firstRoundTrace "Ann" "Bob").
  - vm_compute. reflexivity.
  - split; [exact Hin|exact Hd].
Defined.

(** X4.  In every reachable state of the session server, a round in
    progress has its timeout pending: [roundTimer] holds its handle, and it
    is due at [roundEndTime], which is [ROUND_DURATION] after
    [roundStartTime].  A round timeout that is pending is the one in
    [roundTimer], with a round in progress: there is never a second one,
    and none without a round.  Without a round in progress there is no
    round timer and no start or end time. *)

Theorem round_timer_runs_with_the_round (s : Session.State) :
  Session.reachable s ->
  (forall w, Session.currentWord s = Some w ->
     exists h t0,
       Session.roundTimer s = Some h /\ Session.roundStartTime s = Some t0
       /\ Session.roundEndTime s = Some (t0 + Session.ROUND_DURATION)
       /\ Session.timers s !! h
          = Some (Session.mkTimer Session.RoundTimeout (t0 + Session.ROUND_DURATION)))
  /\ (forall h t, Session.timers s !! h = Some t ->
                  Session.callback t = Session.RoundTimeout ->
                  Session.roundTimer s = Some h /\ is_Some (Session.currentWord s))
  /\ (Session.currentWord s = None ->
      Session.roundTimer s = None /\ Session.roundStartTime s = None
      /\ Session.roundEndTime s = None).
Proof.
  intros Hr. destruct (reachable_Both s Hr) as [I G]. split; [apply G|]. split.
  - intros h t Ht Hcb. destruct (Session.inv_round s I h t Ht Hcb) as [Hrt Htr].
    split; [done|]. destruct (Session.currentWord s); [eauto|done].
  - apply G.
Qed.

Lemma round_timer_runs_with_the_round_witness :
  exists h t0,
    Session.roundTimer (Scenario.firstRound "Ann" "Bob") = Some h
    /\ Session.roundStartTime (Scenario.firstRound "Ann" "Bob") = Some t0
    /\ Session.roundEndTime (Scenario.firstRound "Ann" "Bob")
       = Some (t0 + Session.ROUND_DURATION)
    /\ Session.timers (Scenario.firstRound "Ann" "Bob") !! h
       = Some (Session.mkTimer Session.RoundTimeout (t0 + Session.ROUND_DURATION)).
Proof.
  destruct (round_timer_runs_with_the_round (Scenario.firstRound "Ann" "Bob"))
    as [H _].
  - by exists (Scenario.firstRoundTrace "Ann" "Bob").
  - apply (H "cat"%string). vm_compute. reflexivity.
Defined.

(** X5.  In every reachable state of the session server, an active
    session has its timeout pending under the handle in [sessionTimer], due
    [SESSION_DURATION] after [sessionStartTime]; a pending session timeout
    is that one, of an active session; and without an active session there
    is no drawer, no word, no round or session timer and no start time. *)

Theorem session_timer_runs_with_the_session (s : Session.State) :
  Session.reachable s ->
  (Session.gameActive s = true ->
     exists h t0,
       Session.sessionTimer s = Some h /\ Session.sessionStartTime s = Some t0
       /\ Session.timers s !! h
          = Some (Session.mkTimer Session.SessionTimeout
                    (t0 + Session.SESSION_DURATION)))
  /\ (forall h t, Session.timers s !! h = Some t ->
                  Session.callback t = Session.SessionTimeout ->
                  Session.sessionTimer s = Some h /\ Session.gameActive s = true)
  /\ (Session.gameActive s = false ->
      Session.currentDrawer s = None /\ Session.currentWord s = None
      /\ Session.roundTimer s = None /\ Session.roundStartTime s = None
      /\ Session.roundEndTime s = None /\ Session.sessionStartTime s = None
      /\ Session.sessionTimer s = None).
Proof.
  intros Hr. pose proof (reachable_Game s Hr) as G. split; [apply G|]. split.
  - intros h t Ht Hcb. pose proof (Session.game_session_timer s G h t Ht Hcb) as Hst.
    split; [done|]. destruct (Session.gameActive s) eqn:Hg; [done|].
    destruct (Session.game_idle s G Hg) as (_ & _ & _ & _ & _ & _ & Hn). congruence.
  - apply G.
Qed.

Lemma session_timer_runs_with_the_session_witness :
  exists h t0,
    Session.sessionTimer (Scenario.firstRound "Ann" "Bob") = Some h
    /\ Session.sessionStartTime (Scenario.firstRound "Ann" "Bob") = Some t0
    /\ Session.timers (Scenario.firstRound "Ann" "Bob") !! h
       = Some (Session.mkTimer Session.SessionTimeout (t0 + Session.SESSION_DURATION)).
Proof.
  destruct (session_timer_runs_with_the_session (Scenario.firstRound "Ann" "Bob"))
    as [H _].
  - by exists (Scenario.firstRoundTrace "Ann" "Bob").
  - apply H. vm_compute. reflexivity.
Defined.

(** X6.  The game state broadcast from a reachable state, when the clock
    is not before the start of the round and of the session: it tells
    whether a session is active, the display name of the drawer and whether
    there is a word; the time that remains of the round is between 0 and
    120 seconds, and 0 without a round; the time that remains of the
    session is between 0 and 600 seconds, and 0, with no drawer, without a
    session. *)

Theorem gameState_is_consistent (e : Session.Env) (s : Session.State) :
  Session.reachable s ->
  (forall t0, Session.roundStartTime s = Some t0 -> t0 <= Session.now e) ->
  (forall t0, Session.sessionStartTime s = Some t0 -> t0 <= Session.now e) ->
  exists timeRemaining sessionTimeRemaining,
    Session.gameStateOf e s
    = Session.gameState (Session.gameActive s) (Session.drawerNameOf s)
        (bool_decide (is_Some (Session.currentWord s)))
        timeRemaining sessionTimeRemaining
    /\ 0 <= timeRemaining <= 120 /\ 0 <= sessionTimeRemaining <= 600
    /\ (Session.currentWord s = None -> timeRemaining = 0)
    /\ (Session.gameActive s = false ->
        sessionTimeRemaining = 0 /\ Session.drawerNameOf s = None).
Proof.
  intros Hr Hround Hsession. pose proof (reachable_Game s Hr) as G.
  unfold Session.gameStateOf. do 2 eexists. split; [f_equal|].
  - destruct (Session.currentWord s) as [w|] eqn:Hw; cbn [Session.truthyS].
    + rewrite bool_decide_eq_true_2 by eauto.
      apply wordList_truthy. by apply (Session.game_word s G w Hw).
    + rewrite bool_decide_eq_false_2; [done|]. by intros [? ?].
  - assert (forall x, 0 <= x -> 0 <= x / 1000) as Hdiv0
        by (intros; by apply Z.div_pos).
    assert (forall x b, x <= b * 1000 -> x / 1000 <= b) as Hdivb.
    { intros x b Hx. apply Z.div_le_upper_bound; lia. }
    repeat split.
    + destruct (Session.roundEndTime s); [case_match|]; apply Hdiv0; lia.
    + destruct (Session.currentWord s) as [w|] eqn:Hw.
      * destruct (Session.game_round s G w Hw) as (h & t0 & _ & Hs & -> & _).
        specialize (Hround t0 Hs). unfold Session.ROUND_DURATION.
        case_match; apply Hdivb; lia.
      * destruct (Session.game_no_round s G Hw) as (_ & _ & ->). done.
    + destruct (Session.sessionStartTime s); [case_match|]; apply Hdiv0; lia.
    + destruct (Session.sessionStartTime s) as [t0|] eqn:Hs; [|done].
      specialize (Hsession t0 eq_refl). unfold Session.SESSION_DURATION.
      case_match; apply Hdivb; lia.
    + intros Hw. by destruct (Session.game_no_round s G Hw) as (_ & _ & ->).
    + by destruct (Session.game_idle s G H) as (_ & _ & _ & _ & _ & -> & _).
    + unfold Session.drawerNameOf.
      by destruct (Session.game_idle s G H) as (-> & _).
Qed.

Lemma gameState_is_consistent_witness :
  Session.gameStateOf (Scenario.at_ 21000) (Scenario.firstRound "Ann" "Bob")
  = Session.gameState true (Some "Ann"%string) true 119 599.
Proof.
  destruct (gameState_is_consistent (Scenario.at_ 21000)
              (Scenario.firstRound "Ann" "Bob")) as (tr & sr & _).
  - by exists (Scenario.firstRoundTrace "Ann" "Bob").
  - intros t0. vm_compute. intros [= <-]. done.
  - intros t0. vm_compute. intros [= <-]. done.
  - vm_compute. reflexivity.
Defined.

(** X7.  A session that is active with no round in progress and no
    intermission pending stays so whatever happens: no run of events and
    timer firings starts a round before the session has ended. *)

Theorem stalled_session_starts_no_round (s : Session.State)
    (tr : list (Session.Env * Session.Event)) :
  Session.reachable s -> Session.stalled s ->
  Session.stalled (Session.run tr s)
  \/ exists tr1 tr2, tr = tr1 ++ tr2 /\ Session.gameActive (Session.run tr1 s) = false.
Proof.
  intros Hr St. apply reachable_Both in Hr. revert s Hr St.
  induction tr as [|[e ev] tr IH]; intros s B St; [by left|].
  change (Session.run ((e, ev) :: tr) s) with (Session.run tr (Session.step e ev s)).
  destruct (stalled_step e ev s B St) as [St'|Hin].
  - destruct (IH _ (step_Both e ev s B) St') as [Hs|(tr1 & tr2 & -> & Hin)];
      [by left|].
    right. by exists ((e, ev) :: tr1), tr2.
  - right. by exists [(e, ev)], tr.
Qed.

Lemma stalled_session_starts_no_round_witness :
  Session.stalled
    (Session.run Scenario.lateJoinTrace
       (Session.run Scenario.emptySessionTrace Session.init))
  \/ exists tr1 tr2,
      Scenario.lateJoinTrace = tr1 ++ tr2
      /\ Session.gameActive
           (Session.run tr1 (Session.run Scenario.emptySessionTrace Session.init))
         = false.
Proof.
  apply stalled_session_starts_no_round.
  - by exists Scenario.emptySessionTrace.
  - repeat split; [vm_compute; reflexivity..|].
    apply map_Forall_to_list. vm_compute. repeat constructor. discriminate.
Defined.

(** X8.  A countdown that is pending with the counter at [c] and fires [c]
    times, each time when it is due, announces the seconds [c - 1], ...,
    [0] and then starts the session: the game is active, the session
    started at the instant of the last firing, and no countdown is left. *)

Theorem countdown_runs_out (s : Session.State) (h : nat) (t : Session.Timer)
    (c : Z) (es : list Session.Env) :
  Session.reachable s ->
  Session.timers s !! h = Some t -> Session.callback t = Session.CountdownTick c ->
  0 < c -> length es = Z.to_nat c -> Session.punctual (Session.due t) es ->
  let s' := Session.run (Session.firings h es) s in
  Session.gameActive s' = true /\ Session.countdownTimer s' = None
  /\ Session.sessionStartTime s' = Session.now <$> last es
  /\ exists rest,
      Session.outbox s' = Session.outbox s ++ Session.announced c ++ rest.
Proof.
  intros Hr. apply reachable_Inv in Hr. revert h t c s Hr.
  induction es as [|e es IH]; intros h t c s I Ht Hcb Hc Hlen Hp s';
    [simpl in Hlen; lia|].
  subst s'. destruct Hp as [Hdue Hp].
  change (Session.run (Session.firings h (e :: es)) s)
    with (Session.run (Session.firings h es) (Session.fire e h s)).
  pose proof (fire_Inv e h s I) as I'.
  rewrite (countdown_fire e h t c s Ht Hcb Hdue) in *.
  rewrite announced_step by done.
  destruct (decide (c = 1)) as [->|Hc1].
  - destruct es; [|simpl in Hlen; lia].
    cbn [Session.firings map Session.run foldl].
    change (1 - 1) with 0. rewrite countdown_ends.
    match goal with |- context [Session.startSession e ?x] =>
      destruct (startSession_starts e x) as (Ha & Hs & Hcd & rest & Ho) end.
    rewrite Ha, Hs, Hcd, Ho. cbn. repeat split. exists rest.
    by rewrite <- app_assoc.
  - rewrite countdown_goes_on in * by lia.
    match type of I' with Session.Inv ?x =>
      specialize (IH h (Session.mkTimer (Session.CountdownTick (c - 1))
                          (Session.now e + 1000)) (c - 1) x I')
    end.
    destruct IH as (Ha & Hcd & Hs & rest & Ho).
    + cbn. by rewrite lookup_insert_eq.
    + done.
    + lia.
    + simpl in Hlen. lia.
    + exact Hp.
    + rewrite Ha, Hcd, Ho. repeat split.
      * rewrite Hs. destruct es; [simpl in Hlen; lia|done].
      * exists rest. cbn. by rewrite <- app_assoc.
Qed.

Lemma countdown_runs_out_witness :
  let s := Session.run Scenario.countdownTrace Session.init in
  let s' := Session.run (Session.firings 0 Scenario.countdownInstants) s in
  Session.gameActive s' = true /\ Session.countdownTimer s' = None
  /\ Session.sessionStartTime s' = Session.now <$> last Scenario.countdownInstants
  /\ exists rest,
      Session.outbox s' = Session.outbox s ++ Session.announced 20 ++ rest.
Proof.
  apply (countdown_runs_out _ 0 (Session.mkTimer (Session.CountdownTick 20) 1000)).
  - by exists Scenario.countdownTrace.
  - vm_compute. reflexivity.
  - reflexivity.
  - lia.
  - reflexivity.
  - vm_compute. intuition discriminate.
Defined.

(** X9.  A disconnect or a leaveGame during the countdown leaves the
    countdown pending, and every timer as it is: departures do not cancel
    the countdown, and the session is going to start. *)

Theorem countdown_survives_departures (e : Session.Env) (id : SocketId)
    (s : Session.State) (h : nat) (t : Session.Timer) (c : Z) :
  Session.reachable s ->
  Session.timers s !! h = Some t -> Session.callback t = Session.CountdownTick c ->
  forall ev, ev = Session.Disconnect id \/ ev = Session.LeaveGame id ->
    let s' := Session.step e ev s in
    Session.timers s' = Session.timers s
    /\ Session.countdownTimer s' = Some h /\ Session.gameActive s' = false.
Proof.
  intros Hr Ht Hcb ev Hev s'. subst s'.
  destruct (Session.inv_countdown s (reachable_Inv s Hr) h t c Ht Hcb) as [Hct Hg].
  assert (Session.loopOf (Session.step e ev s) = Session.loopOf s) as Hl.
  { destruct Hev as [-> | ->]; cbn [Session.step].
    - by apply on_disconnect_idle.
    - rewrite on_leaveGame_leaving.
      pose proof (leaving_idle e id s Hg) as Hl.
      rewrite on_disconnect_idle; [done|].
      unfold Session.loopOf in Hl. injection Hl as _ _ _ _ _ Hl. congruence. }
  unfold Session.loopOf in Hl. injection Hl as -> _ _ _ -> ->. done.
Qed.

Lemma countdown_survives_departures_witness :
  let s := Session.run Scenario.countdownTrace Session.init in
  let s' := Session.step (Scenario.at_ 500) (Session.Disconnect "s1") s in
  Session.timers s' = Session.timers s
  /\ Session.countdownTimer s' = Some 0%nat /\ Session.gameActive s' = false.
Proof.
  apply (countdown_survives_departures _ "s1" _ 0
           (Session.mkTimer (Session.CountdownTick 20) 1000) 20).
  - by exists Scenario.countdownTrace.
  - vm_compute. reflexivity.
  - reflexivity.
  - by left.
Defined.

(** X10.  In a reachable state no display name of the roster is empty.  So
    the disconnect or the leaveGame of a participant removes this
    participant from the roster, and nobody else; from a socket that is not
    in the roster, it changes nothing at all. *)

Theorem departure_removes_from_roster (e : Session.Env) (id : SocketId)
    (s : Session.State) :
  Session.reachable s ->
  named (Session.users s)
  /\ forall ev, ev = Session.Disconnect id \/ ev = Session.LeaveGame id ->
       let s' := Session.step e ev s in
       (id ∈ JS.keys (Session.users s) ->
          Session.users s' = JS.delete id (Session.users s)
          /\ (id ∉ JS.keys (Session.users s'))
          /\ forall id', id' <> id ->
               JS.get id' (Session.users s') = JS.get id' (Session.users s))
       /\ (id ∉ JS.keys (Session.users s) -> s' = s).
Proof.
  intros Hr. pose proof (session_reachable_named s Hr) as Hn.
  pose proof (session_reachable_NoDup s Hr) as Hnd.
  split; [done|]. intros ev Hev s'. subst s'. split.
  - intros Hin. apply get_is_Some in Hin as [n Hg].
    pose proof (named_get _ _ _ Hn Hg) as Ht.
    assert (Session.users (Session.step e ev s) = JS.delete id (Session.users s))
      as ->.
    { destruct Hev as [-> | ->]; cbn [Session.step].
      - by apply (session_disconnect_removes e id n).
      - by apply (session_leaveGame_removes e id n). }
    split; [done|]. split; [by apply not_elem_of_keys_delete|].
    intros id' Hne. by apply get_delete_ne.
  - intros Hout. apply get_None in Hout.
    destruct Hev as [-> | ->]; cbn [Session.step].
    + by apply session_disconnect_absent.
    + unfold Session.on_leaveGame. rewrite Hout.
      by apply session_disconnect_absent.
Qed.

Lemma departure_removes_from_roster_witness :
  Session.users
    (Session.step (Scenario.at_ 20100) (Session.Disconnect "s1")
       (Scenario.firstRound "Ann" "Bob"))
  = JS.delete "s1" (Session.users (Scenario.firstRound "Ann" "Bob")).
Proof.
  destruct (departure_removes_from_roster (Scenario.at_ 20100) "s1"
              (Scenario.firstRound "Ann" "Bob")) as [_ H].
  - by exists (Scenario.firstRoundTrace "Ann" "Bob").
  - destruct (H (Session.Disconnect "s1") (or_introl eq_refl)) as [H1 _].
    apply H1. apply (bool_decide_unpack _). vm_compute. exact I.
Defined.

(** X11.  As long as the Score Board holds numbers and the step writes
    under no name of a property of [Object.prototype], one step changes
    the Score Board in one of these ways only: not at all; a join creates
    the entry of the name it assigns, at 0, when the name has no points; a
    correct guess adds 10 to the credited name and 5 to the display name
    of the drawer; the score reset, when its timer is due, empties it.
    The board after the step then holds the numbers [scores] of the state
    after the step. *)

Theorem score_board_changes (e : Session.Env) (ev : Session.Event)
    (s : Session.State) :
  Board.ordinary (Session.scoreStmts e ev s) = true ->
  let s' := Session.step e ev s in
  Session.boardStep e ev s (Board.ofScores (Session.scores s))
  = Board.ofScores (Session.scores s')
  /\ (Session.scores s' = Session.scores s
      \/ (exists id name,
            ev = Session.Join id name
            /\ let n := joinName id name in
               scoreOf (Session.scores s) n = 0
               /\ Session.scores s' = JS.set n 0 (Session.scores s))
      \/ (exists id from text w,
            ev = Session.Guess id from text /\ Session.correctGuess s id text w
            /\ Session.scores s'
               = awardDrawer (Session.drawerNameOf s)
                   (award (playerName id from (Session.users s)) 10
                      (Session.scores s)))
      \/ (exists h t,
            ev = Session.Fire h /\ Session.timers s !! h = Some t
            /\ Session.callback t = Session.ResetScores
            /\ Session.due t <= Session.now e
            /\ Session.scores s' = [])).
Proof.
  intros Ho s'. subst s'. split.
  - unfold Session.boardStep. rewrite execAll_ofScores by done.
    by rewrite session_scores_stmts.
  - destruct ev; unfold Session.step.
    + by left.
    + destruct (session_scores_on_join e id name s) as [H|[H1 H2]]; [by left|].
      right. left. by exists id, name.
    + left. by destruct (on_leaveGame_books e id s) as [_ ->].
    + left. unfold Session.on_stroke. by repeat case_match.
    + left. unfold Session.on_clear. by repeat case_match.
    + by left.
    + destruct (session_scores_on_guess e id from text s) as [H|[[w Hc] H2]];
        [by left|].
      right. right. left. by exists id, from, text, w.
    + left. by destruct (on_disconnect_books e id s) as [_ ->].
    + destruct (session_scores_fire e h s) as [H|(t & Ht & Hcb & Hdue & H)];
        [by left|].
      right. right. right. by exists h, t.
Qed.

(** Cid joins the first round of Ann and Bob: the entry of Cid is created
    at 0. *)
Lemma score_board_changes_witness :
  Session.boardStep (Scenario.at_ 20300) (Session.Join "s3" "Cid")
    (Scenario.firstRound "Ann" "Bob")
    (Board.ofScores (Session.scores (Scenario.firstRound "Ann" "Bob")))
  = [("Ann", Board.Num 0); ("Bob", Board.Num 0); ("Cid", Board.Num 0)]%string.
Proof.
  destruct (score_board_changes (Scenario.at_ 20300) (Session.Join "s3" "Cid")
              (Scenario.firstRound "Ann" "Bob")) as [-> _];
    [vm_compute; reflexivity|].
  vm_compute. reflexivity.
Defined.

(** X12.  After every run of the session server, an entry of the Score
    Board is a number of points, a multiple of 5 that is not negative,
    unless its name is the name of a property of [Object.prototype]: then
    it is a string that is not empty.  Under the other names, the field
    [scores] of the state has the entries of the Score Board. *)

Theorem scores_are_fair (tr : list (Session.Env * Session.Event)) (name : Name) :
  (forall v, JS.get name (Session.board tr) = Some v ->
     match v with
     | Board.Num p => Board.inherited name = None /\ 0 <= p /\ (5 | p)
     | Board.Str s => is_Some (Board.inherited name) /\ JS.truthy s = true
     end)
  /\ (Board.inherited name = None ->
      JS.get name (Session.board tr)
      = Board.Num <$> JS.get name (Session.scores (Session.run tr Session.init))).
Proof.
  split.
  - apply (session_boardRun_sound tr Session.init Board.empty), sound_empty.
  - apply (session_boardRun_agree tr Session.init Board.empty), agree_empty.
Qed.

Lemma scores_are_fair_witness :
  JS.get "Bob" (Session.board (Scenario.guessedTrace "Ann" "Bob"))
  = Some (Board.Num 10)
  /\ Board.inherited "Bob" = None /\ 0 <= 10 /\ (5 | 10).
Proof.
  assert (JS.get "Bob" (Session.board (Scenario.guessedTrace "Ann" "Bob"))
          = Some (Board.Num 10)) as Hg by (vm_compute; reflexivity).
  split; [exact Hg|].
  destruct (scores_are_fair (Scenario.guessedTrace "Ann" "Bob") "Bob") as [H _].
  exact (H (Board.Num 10) Hg).
Defined.

(** X13.  No step but the firing of the score reset lowers a score or
    removes an entry of the Score Board. *)

Theorem scores_only_go_up (e : Session.Env) (ev : Session.Event)
    (s : Session.State) (n : Name) :
  (forall h t, ev = Session.Fire h -> Session.timers s !! h = Some t ->
               Session.callback t <> Session.ResetScores) ->
  scoreOf (Session.scores s) n <= scoreOf (Session.scores (Session.step e ev s)) n
  /\ (n ∈ JS.keys (Session.scores s) ->
      n ∈ JS.keys (Session.scores (Session.step e ev s))).
Proof.
  intros Hnr. split; [by apply session_step_scores_le|].
  destruct (session_scores_step e ev s)
    as [-> | [(n0 & _ & ->) | [(p & dn & ->) | (h & t & -> & Ht & Hcb & _)]]].
  - done.
  - intros Hin. apply elem_of_keys_set. by right.
  - intros Hin. by apply keys_awardDrawer, keys_award.
  - by destruct (Hnr h t eq_refl Ht).
Qed.

Lemma scores_only_go_up_witness :
  scoreOf (Session.scores (Scenario.firstRound "Ann" "Bob")) "Bob"
  <= scoreOf
       (Session.scores
          (Session.step (Scenario.at_ 20500) (Session.Guess "s2" "" "cat")
             (Scenario.firstRound "Ann" "Bob")))
       "Bob".
Proof.
  apply (scores_only_go_up (Scenario.at_ 20500) (Session.Guess "s2" "" "cat")
           (Scenario.firstRound "Ann" "Bob") "Bob").
  intros h t Hev. discriminate Hev.
Defined.

(** X14.  A participant who joins again keeps the place in the roster, under
    the name of the last join; a new participant is added at the end of the
    roster, and so of the rotation; a departure keeps the order of the
    others. *)
Theorem roster_keeps_its_order (e : Session.Env) (id : SocketId) (name : string)
    (s : Session.State) :
  Session.reachable s ->
  let n := if JS.truthy (JS.trim name) then JS.trim name else fallbackName id in
  let joined := Session.step e (Session.Join id name) s in
  let left := Session.step e (Session.Disconnect id) s in
  JS.get id (Session.users joined) = Some n
  /\ (id ∈ JS.keys (Session.users s) ->
      JS.keys (Session.users joined) = JS.keys (Session.users s))
  /\ (id ∉ JS.keys (Session.users s) ->
      JS.keys (Session.users joined) = JS.keys (Session.users s) ++ [id])
  /\ JS.keys (Session.users left)
     = filter (fun x => x <> id) (JS.keys (Session.users s)).
Proof.
  intros Hr n joined left. subst joined left. cbn [Session.step].
  pose proof (session_reachable_NoDup s Hr) as Hnd.
  destruct (on_join_books e id name s) as (-> & _). fold n.
  split; [apply get_set_eq|]. split; [apply keys_set_in|]. split; [apply keys_set_new|].
  destruct (decide (id ∈ JS.keys (Session.users s))) as [Hin|Hout].
  - apply get_is_Some in Hin as [n' Hg].
    rewrite (session_disconnect_removes e id n');
      [by apply keys_delete|done|].
    by apply (named_get _ _ _ (session_reachable_named s Hr) Hg).
  - rewrite session_disconnect_absent by (by apply get_None).
    symmetry. apply filter_all. rewrite Forall_forall. intros x Hx ->. done.
Qed.

Lemma roster_keeps_its_order_witness :
  JS.keys
    (Session.users
       (Session.step (Scenario.at_ 20500) (Session.Join "s1" "Anna")
          (Scenario.firstRound "Ann" "Bob")))
  = JS.keys (Session.users (Scenario.firstRound "Ann" "Bob")).
Proof.
  destruct (roster_keeps_its_order (Scenario.at_ 20500) "s1" "Anna"
              (Scenario.firstRound "Ann" "Bob")) as (_ & H & _).
  - by exists (Scenario.firstRoundTrace "Ann" "Bob").
  - apply H. apply (bool_decide_unpack _). vm_compute. exact I.
Defined.


(** X16.  In every reachable state of [server.js] the game is active
    exactly when there is a word; then the word is a word of the word list,
    the drawer is in the roster under a display name that is not empty, and
    the timeout of the round is pending under the handle in [roundTimer].
    A round timeout that is pending is the one in [roundTimer], with the
    game active: there is never a second one, and none when the game is
    not active.  When the game is not active there is no word and no round
    timer. *)
Theorem basic_round_is_well_formed (s : Basic.State) :
  Basic.reachable s ->
  (Basic.gameActive s = true <-> is_Some (Basic.currentWord s))
  /\ (Basic.gameActive s = true ->
      exists w d name h t,
        Basic.currentWord s = Some w /\ w ∈ Basic.wordList
        /\ Basic.currentDrawer s = Some d
        /\ JS.get d (Basic.users s) = Some name /\ JS.truthy name = true
        /\ Basic.roundTimer s = Some h /\ Basic.timers s !! h = Some t
        /\ Basic.callback t = Basic.RoundTimeout)
  /\ (forall h t, Basic.timers s !! h = Some t ->
                  Basic.callback t = Basic.RoundTimeout ->
                  Basic.roundTimer s = Some h /\ Basic.gameActive s = true)
  /\ (Basic.gameActive s = false ->
      Basic.currentWord s = None /\ Basic.roundTimer s = None).
Proof.
  intros Hr. destruct (basic_reachable_Both s Hr) as [I G].
  pose proof (basic_reachable_named s Hr) as Hn.
  split; [|split; [|split]].
  - split.
    + intros Hg. destruct (Basic.game_round s G Hg) as (w & ? & ? & ? & -> & _).
      by exists w.
    + intros [w Hw]. destruct (Basic.gameActive s) eqn:Hg; [done|].
      destruct (Basic.game_idle s G Hg) as [Hnone _]. congruence.
  - intros Hg.
    destruct (Basic.game_round s G Hg)
      as (w & d & h & t & Hw & Hin & Hd & Hmem & Hrt & Ht & Hcb).
    apply get_is_Some in Hmem as [name Hname].
    exists w, d, name, h, t. repeat split; try done.
    by apply (named_get _ _ _ Hn Hname).
  - intros h t Ht Hcb.
    by destruct (Basic.inv_round s I h t Ht Hcb) as (Hrt & Hact & _).
  - apply G.
Qed.

Lemma basic_round_is_well_formed_witness :
  Basic.gameActive (Scenario.basicFirstRound "Ann" "Bob") = true
  <-> is_Some (Basic.currentWord (Scenario.basicFirstRound "Ann" "Bob")).
Proof.
  apply (basic_round_is_well_formed (Scenario.basicFirstRound "Ann" "Bob")).
  by exists (Scenario.basicFirstRoundTrace "Ann" "Bob").
Defined.

(** X17.  [server.js] never lowers a score and never removes an entry of
    the Score Board, along any run from any state. *)
Theorem basic_scores_never_go_down (tr : list (Basic.Env * Basic.Event))
    (s : Basic.State) (n : Name) :
  scoreOf (Basic.scores s) n <= scoreOf (Basic.scores (Basic.run tr s)) n
  /\ (n ∈ JS.keys (Basic.scores s) -> n ∈ JS.keys (Basic.scores (Basic.run tr s))).
Proof.
  revert s. induction tr as [|[e ev] tr IH]; intros s; [split; [simpl; lia|done]|].
  change (Basic.run ((e, ev) :: tr) s) with (Basic.run tr (Basic.step e ev s)).
  destruct (basic_step_scores_le e ev s n) as [Hle Hk].
  destruct (IH (Basic.step e ev s)) as [Hle' Hk']. split; [lia|auto].
Qed.

(** X18.  After every run of [server.js], an entry of the Score Board is a
    number of points, a multiple of 5 that is not negative, unless its
    name is the name of a property of [Object.prototype]: then it is a
    string that is not empty.  Under the other names, the field [scores]
    of the state has the entries of the Score Board. *)
Theorem basic_scores_are_fair (tr : list (Basic.Env * Basic.Event)) (name : Name) :
  (forall v, JS.get name (Basic.board tr) = Some v ->
     match v with
     | Board.Num p => Board.inherited name = None /\ 0 <= p /\ (5 | p)
     | Board.Str s => is_Some (Board.inherited name) /\ JS.truthy s = true
     end)
  /\ (Board.inherited name = None ->
      JS.get name (Basic.board tr)
      = Board.Num <$> JS.get name (Basic.scores (Basic.run tr Basic.init))).
Proof.
  split.
  - apply (basic_boardRun_sound tr Basic.init Board.empty), sound_empty.
  - apply (basic_boardRun_agree tr Basic.init Board.empty), agree_empty.
Qed.

Lemma basic_scores_are_fair_witness :
  JS.get "Bob" (Basic.board Scenario.basicSoloRoundTrace) = Some (Board.Num 10)
  /\ Board.inherited "Bob" = None /\ 0 <= 10 /\ (5 | 10).
Proof.
  assert (JS.get "Bob" (Basic.board Scenario.basicSoloRoundTrace)
          = Some (Board.Num 10)) as Hg by (vm_compute; reflexivity).
  split; [exact Hg|].
  destruct (basic_scores_are_fair Scenario.basicSoloRoundTrace "Bob") as [H _].
  exact (H (Board.Num 10) Hg).
Defined.

(** X19.  In a reachable state of [server.js] no display name of the
    roster is empty.  So the disconnect of a participant removes this
    participant from the roster, and nobody else; from a socket that is not
    in the roster, it changes nothing at all. *)
Theorem basic_disconnect_removes_from_roster (e : Basic.Env) (id : SocketId)
    (s : Basic.State) :
  Basic.reachable s ->
  let s' := Basic.step e (Basic.Disconnect id) s in
  named (Basic.users s)
  /\ (id ∈ JS.keys (Basic.users s) ->
      Basic.users s' = JS.delete id (Basic.users s)
      /\ (id ∉ JS.keys (Basic.users s'))
      /\ forall id', id' <> id ->
           JS.get id' (Basic.users s') = JS.get id' (Basic.users s))
  /\ (id ∉ JS.keys (Basic.users s) -> s' = s).
Proof.
  intros Hr s'. subst s'. pose proof (basic_reachable_named s Hr) as Hn.
  pose proof (basic_reachable_NoDup s Hr) as Hnd.
  split; [done|]. cbn [Basic.step]. split.
  - intros Hin. apply get_is_Some in Hin as [n Hg].
    pose proof (named_get _ _ _ Hn Hg) as Ht.
    rewrite (basic_disconnect_removes e id n) by done.
    split; [done|]. split; [by apply not_elem_of_keys_delete|].
    intros id' Hne. by apply get_delete_ne.
  - intros Hout. apply get_None in Hout. by apply basic_disconnect_absent.
Qed.

Lemma basic_disconnect_removes_from_roster_witness :
  Basic.users
    (Basic.step (Scenario.basicAt 4000) (Basic.Disconnect "s2")
       (Scenario.basicFirstRound "Ann" "Bob"))
  = JS.delete "s2" (Basic.users (Scenario.basicFirstRound "Ann" "Bob")).
Proof.
  destruct (basic_disconnect_removes_from_roster (Scenario.basicAt 4000) "s2"
              (Scenario.basicFirstRound "Ann" "Bob")) as (_ & H & _).
  - by exists (Scenario.basicFirstRoundTrace "Ann" "Bob").
  - apply H. apply (bool_decide_unpack _). vm_compute. exact I.
Defined.

(** X20.  In every reachable state of the server with manual start and
    stop the game is active exactly when there is a word; then the word is
    a word of the word list, the drawer is in the roster under a display
    name that is not empty, and the timeout of the round is pending under
    the handle in [roundTimer], due at [roundEndTime], which is
    [ROUND_DURATION] after [roundStartTime].  A round timeout that is
    pending is the one in [roundTimer], with the game active: there is
    never a second one, and none when the game is not active.  When the
    game is not active there is no word, no round timer and no start or
    end time. *)

Theorem manual_round_is_well_formed (s : Manual.State) :
  Manual.reachable s ->
  (Manual.gameActive s = true <-> is_Some (Manual.currentWord s))
  /\ (Manual.gameActive s = true ->
      exists w d name h t0,
        Manual.currentWord s = Some w /\ w ∈ Manual.wordList
        /\ Manual.currentDrawer s = Some d
        /\ JS.get d (Manual.users s) = Some name /\ JS.truthy name = true
        /\ Manual.roundTimer s = Some h /\ Manual.roundStartTime s = Some t0
        /\ Manual.roundEndTime s = Some (t0 + Manual.ROUND_DURATION)
        /\ Manual.timers s !! h
           = Some (Manual.mkTimer Manual.RoundTimeout (t0 + Manual.ROUND_DURATION)))
  /\ (forall h t, Manual.timers s !! h = Some t ->
                  Manual.callback t = Manual.RoundTimeout ->
                  Manual.roundTimer s = Some h /\ Manual.gameActive s = true)
  /\ (Manual.gameActive s = false ->
      Manual.currentWord s = None /\ Manual.roundTimer s = None
      /\ Manual.roundStartTime s = None /\ Manual.roundEndTime s = None).
Proof.
  intros Hr. pose proof (manual_reachable_Inv s Hr) as I.
  destruct (manual_reachable_roster s Hr) as (Hn & _).
  split; [|split; [|split]].
  - split.
    + intros Hg. destruct (Manual.inv_active s I Hg) as (w & ? & ? & ? & -> & _).
      by exists w.
    + intros [w Hw]. destruct (Manual.gameActive s) eqn:Hg; [done|].
      destruct (Manual.inv_idle s I Hg) as [Hnone _]. congruence.
  - intros Hg.
    destruct (Manual.inv_active s I Hg)
      as (w & d & h & t0 & Hw & Hin & Hd & Hmem & Hrt & Hs & He & Ht).
    apply get_is_Some in Hmem as [name Hname].
    exists w, d, name, h, t0. repeat split; try done.
    by apply (named_get _ _ _ Hn Hname).
  - intros h t Ht Hcb. pose proof (Manual.inv_round s I h t Ht Hcb) as Hrt.
    split; [done|]. destruct (Manual.gameActive s) eqn:Hg; [done|].
    destruct (Manual.inv_idle s I Hg) as (_ & Hnone & _). congruence.
  - apply I.
Qed.

Lemma manual_round_is_well_formed_witness :
  Manual.gameActive Scenario.manualFirstRound = true
  <-> is_Some (Manual.currentWord Scenario.manualFirstRound).
Proof.
  apply (manual_round_is_well_formed Scenario.manualFirstRound).
  by exists Scenario.manualFirstRoundTrace.
Defined.

(** X21.  The server with manual start and stop never lowers a score and
    never removes an entry of the Score Board, along any run from any
    state: not even a stop of the game resets the scores. *)

Theorem manual_scores_never_go_down (tr : list (Manual.Env * Manual.Event))
    (s : Manual.State) (n : Name) :
  scoreOf (Manual.scores s) n <= scoreOf (Manual.scores (Manual.run tr s)) n
  /\ (n ∈ JS.keys (Manual.scores s) ->
      n ∈ JS.keys (Manual.scores (Manual.run tr s))).
Proof.
  revert s. induction tr as [|[e ev] tr IH]; intros s; [split; [simpl; lia|done]|].
  change (Manual.run ((e, ev) :: tr) s) with (Manual.run tr (Manual.step e ev s)).
  destruct (manual_step_scores_le e ev s n) as [Hle Hk].
  destruct (IH (Manual.step e ev s)) as [Hle' Hk']. split; [lia|auto].
Qed.

(** X22.  After every run of the server with manual start and stop, every
    display name of the roster that is not the name of a property of
    [Object.prototype] has an entry in the Score Board, no display name is
    empty, the ids of the roster are distinct, and an entry of the Score
    Board is a number of points, a multiple of 5 that is not negative,
    unless its name is the name of a property of [Object.prototype]: then
    it is a string that is not empty. *)

Theorem manual_roster_is_scored (tr : list (Manual.Env * Manual.Event)) :
  let s := Manual.run tr Manual.init in
  let b := Manual.board tr in
  (forall n, n ∈ JS.values (Manual.users s) -> Board.inherited n = None ->
             n ∈ JS.keys b)
  /\ named (Manual.users s)
  /\ NoDup (JS.keys (Manual.users s))
  /\ (forall name v, JS.get name b = Some v ->
        match v with
        | Board.Num p => Board.inherited name = None /\ 0 <= p /\ (5 | p)
        | Board.Str s => is_Some (Board.inherited name) /\ JS.truthy s = true
        end).
Proof.
  intros s b.
  destruct (manual_reachable_roster s) as (Hn & Hnd & _); [by exists tr|].
  split; [|split; [done|split; [done|]]].
  - apply (manual_boardRun_rosterScored tr Manual.init Board.empty).
    intros n Hin. inversion Hin.
  - apply (manual_boardRun_sound tr Manual.init Board.empty), sound_empty.
Qed.

Lemma manual_roster_is_scored_witness :
  JS.values (Manual.users (Manual.run Scenario.manualGuessedTrace Manual.init))
  = ["Ann"; "Bob"]%string
  /\ Manual.board Scenario.manualGuessedTrace
     = [("Ann", Board.Num 5); ("Bob", Board.Num 10)]%string
  /\ "Bob"%string ∈ JS.keys (Manual.board Scenario.manualGuessedTrace).
Proof.
  split; [vm_compute; reflexivity|]. split; [vm_compute; reflexivity|].
  destruct (manual_roster_is_scored Scenario.manualGuessedTrace) as [H _].
  apply H; [|vm_compute; reflexivity].
  apply list_elem_of_In. vm_compute. tauto.
Defined.

(** X23.  A stop request between two rounds is refused: the requester is
    told that no game is running and nothing else changes.  The
    intermission that is pending is not cancelled: when it fires, with a
    participant in the roster, the next round starts all the same. *)

Theorem manual_stop_between_rounds (e0 : Manual.Env) (id : SocketId)
    (s : Manual.State) :
  Manual.gameActive s = false ->
  let s1 := Manual.step e0 (Manual.StopGame id) s in
  Manual.sameGame s s1
  /\ Manual.sent s s1 = [(ToSocket id, Manual.chatMessage "System" Manual.NoGameRunning)]
  /\ forall e h t,
       Manual.timers s !! h = Some t -> Manual.callback t = Manual.NextRound ->
       Manual.due t <= Manual.now e -> Manual.users s <> [] ->
       Manual.gameActive (Manual.step e (Manual.Fire h) s1) = true.
Proof.
  intros Hg s1. subst s1. cbn [Manual.step]. unfold Manual.on_stopGame.
  rewrite Hg. cbn [negb]. split; [|split].
  - apply manual_sameGame_emit.
  - apply manual_sent_emit.
  - intros e h t Ht Hcb Hdue Hne.
    by apply (manual_fire_NextRound e h t); [| |left|].
Qed.

Lemma manual_stop_between_rounds_witness :
  Manual.gameActive
    (Manual.step (Scenario.manualAt 8500) (Manual.Fire 3%nat)
       (Manual.step (Scenario.manualAt 3600) (Manual.StopGame "s1")
          Scenario.manualGuessed))
  = true.
Proof.
  destruct (manual_stop_between_rounds (Scenario.manualAt 3600) "s1"
              Scenario.manualGuessed) as (_ & _ & H).
  - vm_compute. reflexivity.
  - apply (H (Scenario.manualAt 8500) 3%nat
             (Manual.mkTimer Manual.NextRound 8500)).
    + vm_compute. reflexivity.
    + reflexivity.
    + vm_compute. discriminate.
    + vm_compute. discriminate.
Defined.

(** X24.  A stop request during a round, in a reachable state, ends the
    game: there is no drawer, no word, no round timer and no start or end
    time any more, and no round timeout is pending; the roster and the
    Score Board are as they were; the stop, a cleared board and the game
    state of a server at rest are announced to all. *)

Theorem manual_stop_ends_the_round (e : Manual.Env) (id : SocketId)
    (s : Manual.State) :
  Manual.reachable s -> Manual.gameActive s = true ->
  let s' := Manual.step e (Manual.StopGame id) s in
  Manual.gameActive s' = false /\ Manual.currentDrawer s' = None
  /\ Manual.currentWord s' = None /\ Manual.roundTimer s' = None
  /\ Manual.roundStartTime s' = None /\ Manual.roundEndTime s' = None
  /\ Manual.users s' = Manual.users s /\ Manual.scores s' = Manual.scores s
  /\ (forall h t, Manual.timers s' !! h = Some t ->
                  Manual.callback t <> Manual.RoundTimeout)
  /\ Manual.sent s s'
     = [(ToAll, Manual.chatMessage "System" Manual.GameStopped);
        (ToAll, Manual.clearBoard);
        (ToAll, Manual.gameState false None false 0)].
Proof.
  intros Hr Hg s'. subst s'. pose proof (manual_reachable_Inv s Hr) as I.
  cbn [Manual.step]. unfold Manual.on_stopGame. rewrite Hg. cbn [negb].
  do 8 (split; [reflexivity|]). split.
  - intros h t Ht Hcb.
    pose proof (manual_stopGame_Inv e s I) as I'.
    pose proof (Manual.inv_round _ I' h t Ht Hcb) as Hrt. discriminate Hrt.
  - unfold Manual.sent, Manual.stopGame. cbn.
    rewrite <- !app_assoc. by rewrite drop_app_length.
Qed.

Lemma manual_stop_ends_the_round_witness :
  Manual.gameActive
    (Manual.step (Scenario.manualAt 3500) (Manual.StopGame "s2")
       Scenario.manualFirstRound) = false.
Proof.
  apply (manual_stop_ends_the_round (Scenario.manualAt 3500) "s2"
           Scenario.manualFirstRound).
  - by exists Scenario.manualFirstRoundTrace.
  - vm_compute. reflexivity.
Defined.

(** X25.  A start request is refused, with a notice to the requester only,
    while a round is in progress and when the roster is empty.  Otherwise
    it is announced to all under the display name of the requester, and the
    start of the first round is scheduled two seconds later: when that
    timer fires, a round starts with the next drawer of the rotation. *)

Theorem manual_start_request (e : Manual.Env) (id : SocketId) (s : Manual.State) :
  let s' := Manual.step e (Manual.StartGame id) s in
  (Manual.gameActive s = true ->
   Manual.sameGame s s'
   /\ Manual.sent s s'
      = [(ToSocket id, Manual.chatMessage "System" Manual.AlreadyRunning)])
  /\ (Manual.gameActive s = false -> Manual.users s = [] ->
      Manual.sameGame s s'
      /\ Manual.sent s s'
         = [(ToSocket id, Manual.chatMessage "System" Manual.NeedOnePlayer)])
  /\ (Manual.gameActive s = false -> Manual.users s <> [] ->
      Manual.sent s s'
      = [(ToAll, Manual.chatMessage "System"
                   (Manual.GameStarted (Manual.requester id s)))]
      /\ Manual.timers s'
         = <[Manual.nextHandle s
             := Manual.mkTimer Manual.StartRound (Manual.now e + 2000)]>
             (Manual.timers s)
      /\ forall e', Manual.now e + 2000 <= Manual.now e' ->
           let s2 := Manual.step e' (Manual.Fire (Manual.nextHandle s)) s' in
           Manual.gameActive s2 = true
           /\ Manual.currentDrawer s2
              = getNextDrawer (Manual.users s) (Manual.currentDrawer s)).
Proof.
  intros s'. subst s'. cbn [Manual.step]. unfold Manual.on_startGame. cbv zeta.
  split; [|split].
  - intros ->. split; [apply manual_sameGame_emit|apply manual_sent_emit].
  - intros -> Hu. rewrite Hu. rewrite bool_decide_eq_true_2 by (simpl; lia).
    split; [apply manual_sameGame_emit|apply manual_sent_emit].
  - intros -> Hne.
    rewrite bool_decide_eq_false_2 by (destruct (Manual.users s); [done|simpl; lia]).
    split; [|split].
    + unfold Manual.sent. cbn. by rewrite drop_app_length.
    + reflexivity.
    + intros e' Hdue. cbv zeta. cbn [Manual.step].
      match goal with |- context [Manual.fire e' _ ?x] =>
        pose proof (manual_fire_NextRound e' (Manual.nextHandle s)
                      (Manual.mkTimer Manual.StartRound (Manual.now e + 2000)) x)
          as Hfire
      end.
      apply Hfire; [|done|by right|done].
      cbn. by rewrite lookup_insert_eq.
Qed.
